(* ===== verification/_CoqProject ===== *)
-Q . S2P
Prelude.v
Errors.v
Zlib.v
Frame.v
Codec.v
Task.v
Batch.v
Connection.v
Client.v
Connect.v
Tls.v
Server.v
Shutdown.v
System.v
Abandon.v
Network.v
Timing.v
Progress.v
Service.v
Liveness.v
UnitTests.v
IntegrationTests.v
Interop.v
Examples.v
Baseline.v
