(* ===== verification/Prelude.v ===== *)
(** * Lumberjack v2: a verification of the crate [lumberjack]

    The crate (src/src/) implements the Lumberjack v2 protocol, which ships batches of events from
    a client to a server over one TCP or TLS connection.  A client sends a window frame with the
    number of events, then the events, as data frames or together in one compressed frame; the
    server delivers the batch to its consumer and, once the consumer has disposed of it, answers
    with an acknowledgement that carries the last sequence number.  While the consumer is busy the
    server may send acknowledgements of 0 as keepalives.

    ** The program and its model

    - Prelude.v: the vocabulary.  [outcome] is the result of Rust code (a value, an error, a
      panic); [M S E] is code that mutates a state [S]; [loop_pow] and [loopM] are loops with fuel,
      [loops] the same loop without; bytes, big-endian integers and machine widths.
    - Errors.v: src/src/error.rs, the error type and its [Display].
    - Zlib.v: the interface of flate2, with what is documented of it, and a toy instance.
    - Frame.v: src/src/frame.rs: [encode], [decode_with_limit], [zlib_decompress]; the wire format
      as a relation [decodes], of which the decoder is proved to be an implementation.
    - Codec.v: src/src/codec.rs, and the [Framed] stream of tokio-util as an interface ([polls] is
      the documented loop of decoding and reading).
    - Task.v: async functions as state machines: [run] and [exec] over a [resume] function.
    - Batch.v: [Batch] of src/src/server.rs; its acknowledgement on [ack], drop and [into_events].
    - Connection.v: [run_connection] of src/src/server.rs; one state per await point
      ([conn_state]), [resume] from one await to the next, [accept_json], [drain] and [on_frame]
      for the synchronous code in between.
    - Client.v: [Client::send] of src/src/client.rs in the same style ([send_start],
      [send_resume]), with both timeouts.
    - Connect.v: [ClientBuilder], [connect] and [connect_with_port_range] of src/src/client.rs,
      over an interface [Net] of sockets, name resolution, TLS and the random generator.
    - Tls.v: src/src/tls.rs over an interface of rustls.
    - Server.v: the rest of src/src/server.rs.  The accept loop, the handler tasks, the consumer
      and the dropping of the handle act on a shared [world]; an [event] is one atomic action and
      [server_step] its effect, so an execution is an interleaving.
    - Shutdown.v: what follows the dropping of the handle.
    - System.v: client and server together, linked by the frames they exchange.
    - Abandon.v: a [send] that is given up at any of its await points, and what the client can still
      expect of the connection; what the server makes of any number of such cuts.
    - Network.v: many clients and the whole server, each client linked to its handler by two byte
      streams: [net_step] composes [send_resume], [server_step] and the codec, and the frames of
      the two ends are what the bytes decode to.
    - Progress.v: executions of the network that carry a [send] to its end.
    - Service.v: the specification of the whole, an abstract machine of one connection that
      knows only batches ([account], [account_step]), and the abstraction function from the
      network to it.
    - Liveness.v: the work that is left for a [send], which every step made for it uses up.
    - Timing.v: a client and a handler with a clock ([timed_step]): the keepalive timer of
      Connection.v against the timeout of Client.v.
    - UnitTests.v: the tests modules of src/src/, as scenarios evaluated on the model;
      IntegrationTests.v: those of src/tests/, on the network, and the timed code of src/benches/.
    - Interop.v: what any sender of the protocol may write ([conversation]), and the tests of
      src/tests/interop.rs against the Go program of src/bench_harness/interop, over an interface of
      the library go-lumber.
    - Examples.v and Baseline.v: src/examples/, the programs that use the crate; the second is the
      throughput harness.

    Calls go as in the source: Client and Connection use the codec of Codec, which is Frame's;
    Connection makes the batches of Batch; Server drives Connection's state machine.

    ** What the theorems show

    - The whole system.  A client is [orderly] (Network.v) if it sends batches that the server
      accepts and calls [send] only when its last one returned [Ok].  The code does not force it to,
      and the model of the network lets it call [send] whenever it likes.  Network.v: in every
      execution over byte streams, with failures, timeouts, other clients and any interleaving, what
      a connection delivers are batches of its client, whole, in order and once, whatever this
      client does.  What follows is for a connection whose client is orderly; the other clients need
      not be.  Network.v: none of its batches is missing when [send] has returned [Ok], and all but
      the last were disposed of; nothing one end writes makes the other fail.  Service.v: every
      execution of the network, seen on the connection, is an execution of the specification, in
      which batches are submitted one at a time, delivered once and in order, settled by the consumer
      and then confirmed.  Progress.v: from every reachable state a quiet client can complete another [send].  Liveness.v: a [send] that waits is completed
      by every run of the steps of its connection, one of which is always enabled, and their number
      is bounded.  System.v: the same between one client and its connection, linked by frames, the
      complete conversation, and how a client that goes on after a timeout is misled.  Abandon.v:
      what a [send] that failed, timed out or was dropped means for a client that goes on all the
      same, according to whether it was cut within its batch or after it.  Interop.v: the
      server serves every sender that follows the protocol.
    - Time (Timing.v): with a timeout that exceeds the keepalive interval by the delays of the
      handler and of the transport, a client does not time out while the consumer works, and an
      answer reaches it in bounded time; while the queue is full there are no keepalives, and it
      may time out.
    - Frames and codec (Frame.v, Codec.v): the decoder implements the relational format on every
      buffer, decoding inverts encoding, cutting the bytes into reads changes nothing, sizes are
      enforced early, a buffer that waits for more is bounded, decompression never holds more than
      the limit, nothing panics.
    - Connection (Connection.v): a window delivers exactly its events, in data frames and in
      compressed ones alike; the sequence numbers are checked; windows, batches and answers
      correspond one to one; the invariant of the locals; every way to end.
    - Client (Client.v, Connect.v): what is written, when [Ok] is returned, where every outcome
      comes from, completion, the wrap-around of the number of events; the port search visits each
      port of the range once.
    - TLS (Tls.v): an acceptor is built exactly when every step succeeds, and the error is that of
      the first step that fails.
    - Server (Server.v): the gauge is exact, the queue is bounded and in order, no batch is lost
      or duplicated, every waiting handler has its batch in flight or its answer at hand,
      connections do not influence one another, the end of [recv].  Shutdown.v: from every state the
      server can come to its end with every batch disposed of; without a receiver nothing is handed over any
      more; a handler that reads is not ended by the shutdown.
    - The programs (Examples.v, Baseline.v): what they print and when they fail; the batches of the
      harness are among those the theorems on the network are about.

    ** Bounds and fuel

    Integers are [Z] with the wrap-around of their width where the source computes ([wrap16],
    [wrap32], [wrap64]); [usize] is 64 bits wide and overflow wraps, as in release builds.  The
    loop of [zlib_decompress] has the fuel [2 ^ 64], which the theorem on it shows to be out of
    reach: the output grows by a byte at least at each turn and is bounded by a [usize].  The loop
    over a compressed payload has the fuel [2 ^ (length of the payload)], and each turn consumes a
    byte at least.  The waits of the tests in UnitTests.v let the task under test take at most 100
    steps, those of IntegrationTests.v let the system take 2000; a test that needs more would fail,
    and none does; [write_all] of Interop.v takes at most 9 turns for the five of its test.  All
    other recursion is structural.  The loops of the async functions are the state machines
    themselves and are not bounded.  In the work of Liveness.v a frame costs one step to be fed and
    two for each byte (to arrive and to be read), so a keepalive, which has six, costs 13.

    ** What is not modelled

    Foreign code is a parameter: flate2, tokio (sockets, timers, channels: their documented effect
    is in the steps of Server.v), tokio-util's [Framed], serde_json, rustls, rand.  Memory is
    unbounded: [reserve] has no effect, and the one allocation that a peer controls is the subject
    of [Connection.window_memory].  Outside Timing.v time is a choice: a timer may fire whenever it
    is awaited.  The fairness of the scheduler is not assumed: Liveness.v
    counts the steps that a scheduler has to make.  Logging is left out.  The events of
    serde are given by the bytes of their encoding.  src/src/lib.rs only re-exports.  What the
    operating system tells the harness (clock, [getrusage], /proc) is an argument.  Of the Go
    programs of src/bench_harness/ the two modes of interop/main.go are modelled as far as interop.rs
    needs them, go-lumber being an interface; go-baseline, a benchmark, is left out.  *)

From stdpp Require Export base list sets numbers strings option pretty.
From Stdlib Require Export ZArith Lia.
From Stdlib Require Export Init.Byte.
From Stdlib Require Import Strings.Byte.

#[global] Open Scope Z_scope.

(** ** Automation shared by every file *)

(** Break the conjunctions and existentials of the context. *)
Ltac split_hyps :=
  repeat match goal with
  | H : _ ∧ _ |- _ => destruct H
  | H : ∃ _, _ |- _ => destruct H
  end.

(** Case analysis on the scrutinee of a [match] of the goal or of a hypothesis. *)
Ltac case_goal := match goal with |- context [match ?x with _ => _ end] => destruct x eqn:? end.
Ltac case_hyp H := match type of H with context [match ?x with _ => _ end] => destruct x eqn:? end.

(** Turn the boolean comparisons of the context into arithmetic facts. *)
Ltac zbool :=
  repeat match goal with
  | H : (_ <? _) = true |- _ => apply Z.ltb_lt in H
  | H : (_ <? _) = false |- _ => apply Z.ltb_ge in H
  | H : (_ <=? _) = true |- _ => apply Z.leb_le in H
  | H : (_ <=? _) = false |- _ => apply Z.leb_gt in H
  | H : (_ =? _) = true |- _ => apply Z.eqb_eq in H
  | H : (_ =? _) = false |- _ => apply Z.eqb_neq in H
  | H : negb _ = true |- _ => apply negb_true_iff in H
  | H : negb _ = false |- _ => apply negb_false_iff in H
  end.

(** ** Outcomes of Rust code

    A Rust call returns a value, returns an error of its [Result], or panics. *)
Inductive outcome (E A : Type) : Type :=
| Ok (a : A)
| Err (e : E)
| Panic (msg : string).
Arguments Ok {E A} a.
Arguments Err {E A} e.
Arguments Panic {E A} msg.

#[export] Instance outcome_eq_dec {E A} `{EqDecision E, EqDecision A} : EqDecision (outcome E A).
Proof. solve_decision. Defined.

#[export] Instance outcome_ret {E} : MRet (outcome E) := λ A a, Ok a.
#[export] Instance outcome_bind {E} : MBind (outcome E) := λ A B f r,
  match r with
  | Ok a => f a
  | Err e => Err e
  | Panic p => Panic p
  end.

(** Code that mutates a state of type [S] (a buffer behind [&mut], a struct behind
    [&mut self]): the final state is there whatever the outcome, as in Rust. *)
Definition M (S E A : Type) : Type := S → outcome E A * S.

#[export] Instance M_ret {S E} : MRet (M S E) := λ A a s, (Ok a, s).
#[export] Instance M_bind {S E} : MBind (M S E) := λ A B f m s,
  match m s with
  | (Ok a, s') => f a s'
  | (Err e, s') => (Err e, s')
  | (Panic p, s') => (Panic p, s')
  end.

Section monad.
Context {S E : Type}.

Definition get : M S E S := λ s, (Ok s, s).
Definition put (s' : S) : M S E unit := λ _, (Ok tt, s').
Definition throw {A} (e : E) : M S E A := λ s, (Err e, s).
Definition panic {A} (msg : string) : M S E A := λ s, (Panic msg, s).
(** A computation that has no access to the state. *)
Definition lift {A} (r : outcome E A) : M S E A := λ s, (r, s).

(** The [Result] of a call as a value, for code that matches on it; a panic is not caught. *)
Definition result_of {E' A} (m : M S E' A) : M S E (E' + A) := λ s,
  match m s with
  | (Ok a, s') => (Ok (inr a), s')
  | (Err e, s') => (Ok (inl e), s')
  | (Panic p, s') => (Panic p, s')
  end.

(** [?] on a call whose error type is another one. *)
Definition map_err {E' A} (f : E' → E) (m : M S E' A) : M S E A := λ s,
  match m s with
  | (Ok a, s') => (Ok a, s')
  | (Err e, s') => (Err (f e), s')
  | (Panic p, s') => (Panic p, s')
  end.

Lemma bind_ok {A B} (m : M S E A) (f : A → M S E B) s a s' :
  m s = (Ok a, s') → mbind f m s = f a s'.
Proof. intros H. unfold mbind, M_bind. by rewrite H. Qed.

Lemma bind_err {A B} (m : M S E A) (f : A → M S E B) s e s' :
  m s = (Err e, s') → mbind f m s = (Err e, s').
Proof. intros H. unfold mbind, M_bind. by rewrite H. Qed.

Lemma bind_panic {A B} (m : M S E A) (f : A → M S E B) s p s' :
  m s = (Panic p, s') → mbind f m s = (Panic p, s').
Proof. intros H. unfold mbind, M_bind. by rewrite H. Qed.

(** What a successful sequence did. *)
Lemma bind_ok_inv {A B} (m : M S E A) (f : A → M S E B) s b s'' :
  mbind f m s = (Ok b, s'') → ∃ a s', m s = (Ok a, s') ∧ f a s' = (Ok b, s'').
Proof. unfold mbind, M_bind. destruct (m s) as [[a|e|p] s'] eqn:Hm; naive_solver. Qed.

Lemma bind_assoc {A B C} (m : M S E A) (f : A → M S E B) (g : B → M S E C) s :
  mbind g (mbind f m) s = mbind (λ a, mbind g (f a)) m s.
Proof. unfold mbind, M_bind. by destruct (m s) as [[a|e|p] s']. Qed.
End monad.

(** ** Loops

    [loop_pow k body s] runs [body] until it returns [inr], at most [2 ^ k] times: the fuel of
    a Rust [loop]/[while], large enough to be unreachable and small to write down. *)
Section loops.
Context {S R : Type}.

Fixpoint loop_pow (k : nat) (body : S → S + R) (s : S) : S + R :=
  match k with
  | O => body s
  | Datatypes.S k' =>
      match loop_pow k' body s with
      | inl s' => loop_pow k' body s'
      | inr r => inr r
      end
  end.

(** The loop as an unbounded iteration: [body] leads from [s] to the result [r]. *)
Inductive loops (body : S → S + R) : S → R → Prop :=
| loops_done s r : body s = inr r → loops body s r
| loops_next s s' r : body s = inl s' → loops body s' r → loops body s r.

Lemma loops_det body s r r' : loops body s r → loops body s r' → r = r'.
Proof.
  induction 1 as [s r Hr|s s1 r Hs _ IH]; inversion 1; subst; try congruence.
  apply IH. congruence.
Qed.

(** A state the loop passes through. *)
Inductive reaches (body : S → S + R) : S → S → Prop :=
| reaches_refl s : reaches body s s
| reaches_next s s' s'' : body s = inl s' → reaches body s' s'' → reaches body s s''.

Lemma reaches_trans body s s' s'' :
  reaches body s s' → reaches body s' s'' → reaches body s s''.
Proof. induction 1; [done|]. intros. eapply reaches_next; eauto. Qed.

Lemma reaches_loops body s s' r : reaches body s s' → loops body s' r → loops body s r.
Proof. induction 1; [done|]. intros. eapply loops_next; eauto. Qed.

Lemma loop_pow_inl k body s s' : loop_pow k body s = inl s' → reaches body s s'.
Proof.
  revert s s'. induction k as [|k IH]; simpl; intros s s' H.
  - eapply reaches_next; [exact H|constructor].
  - destruct (loop_pow k body s) as [t|] eqn:Ht; [|done].
    eapply reaches_trans; eauto.
Qed.

Lemma loop_pow_inr k body s r : loop_pow k body s = inr r → loops body s r.
Proof.
  revert s r. induction k as [|k IH]; simpl; intros s r H; [by constructor|].
  destruct (loop_pow k body s) as [t|] eqn:Ht; [|naive_solver].
  eapply reaches_loops; [by eapply loop_pow_inl|eauto].
Qed.

(** Enough fuel: a measure that decreases at every turn and starts below [2 ^ k]. *)
Lemma loop_pow_measure (I : S → Prop) (μ : S → Z) body k s :
  (∀ s s', I s → body s = inl s' → I s' ∧ 0 <= μ s' < μ s) →
  I s → 0 <= μ s →
  match loop_pow k body s with
  | inl s' => I s' ∧ 0 <= μ s' <= μ s - 2 ^ Z.of_nat k
  | inr _ => True
  end.
Proof.
  intros Hdec. revert s. induction k as [|k IH]; intros s HI Hμ.
  - simpl. destruct (body s) as [s'|] eqn:Hb; [|done].
    destruct (Hdec s s' HI Hb). change (2 ^ Z.of_nat 0) with 1. split; [done|lia].
  - simpl. rewrite Nat2Z.inj_succ, Z.pow_succ_r by lia.
    pose proof (IH s HI Hμ) as H1. destruct (loop_pow k body s) as [s1|]; [|done].
    destruct H1 as [HI1 ?].
    pose proof (IH s1 HI1 ltac:(lia)) as H2. destruct (loop_pow k body s1); [|done].
    split; [tauto|lia].
Qed.

Lemma loop_pow_terminates (I : S → Prop) (μ : S → Z) body k s :
  (∀ s s', I s → body s = inl s' → I s' ∧ 0 <= μ s' < μ s) →
  I s → 0 <= μ s < 2 ^ Z.of_nat k →
  ∃ r, loop_pow k body s = inr r.
Proof.
  intros Hdec HI Hμ. pose proof (loop_pow_measure I μ body k s Hdec HI ltac:(lia)) as H.
  destruct (loop_pow k body s) as [s'|r]; [lia|by exists r].
Qed.

(** The number of turns is known: reach a state in [n] turns and stop there. *)
Inductive reaches_in (body : S → S + R) : nat → S → S → Prop :=
| reaches_in_0 s : reaches_in body 0 s s
| reaches_in_S n s s' s'' :
    body s = inl s' → reaches_in body n s' s'' → reaches_in body (Datatypes.S n) s s''.

Lemma loop_pow_reaches_in k body n s s' r :
  reaches_in body n s s' → body s' = inr r → Z.of_nat n < 2 ^ Z.of_nat k →
  loop_pow k body s = inr r.
Proof.
  intros Hn Hr Hk.
  assert (Hgen : ∀ k n s, reaches_in body n s s' →
    (Z.of_nat n < 2 ^ Z.of_nat k → loop_pow k body s = inr r) ∧
    (2 ^ Z.of_nat k <= Z.of_nat n →
       ∃ s1 n1, loop_pow k body s = inl s1 ∧ reaches_in body n1 s1 s' ∧
                Z.of_nat n1 = Z.of_nat n - 2 ^ Z.of_nat k)).
  { clear k n s Hn Hk. induction k as [|k IH]; intros n s Hn.
    - change (2 ^ Z.of_nat 0) with 1. simpl.
      inversion Hn as [|n' ? s1 ? Hb Hn']; subst; split; intros; [done|lia|lia|].
      exists s1, n'. split; [done|]. split; [done|lia].
    - simpl. rewrite Nat2Z.inj_succ, Z.pow_succ_r by lia.
      destruct (IH n s Hn) as [H1 H2].
      destruct (decide (Z.of_nat n < 2 ^ Z.of_nat k)) as [Hlt|Hge].
      + rewrite (H1 Hlt). split; [done|lia].
      + destruct (H2 ltac:(lia)) as (s1 & n1 & -> & Hn1 & ?).
        destruct (IH n1 s1 Hn1) as [H3 H4]. split; intros.
        * apply H3. lia.
        * destruct (H4 ltac:(lia)) as (s2 & n2 & -> & ? & ?).
          exists s2, n2. split; [done|]. split; [done|lia]. }
  by apply (Hgen k n s Hn).
Qed.
End loops.

(** A loop whose body is effectful; the loop-carried local is an [A]. *)
Section loopM.
Context {S E A R : Type}.

Definition loop_turn (body : A → M S E (A + R)) (x : A * S) : A * S + outcome E R * S :=
  match body x.1 x.2 with
  | (Ok (inl a), s) => inl (a, s)
  | (Ok (inr r), s) => inr (Ok r, s)
  | (Err e, s) => inr (Err e, s)
  | (Panic p, s) => inr (Panic p, s)
  end.

Definition loopM (k : nat) (body : A → M S E (A + R)) (a : A) : M S E R := λ s,
  match loop_pow k (loop_turn body) (a, s) with
  | inr r => r
  | inl (_, s') => (Panic "loop bound reached", s')
  end.
End loopM.

(** ** Machine integers and bytes *)

Abbreviation bytes := (list byte).

Definition len {A} (l : list A) : Z := Z.of_nat (length l).
#[global] Arguments len {A} l : simpl never.

(** The value range of [u16], [u32] and of a 64-bit [usize]. *)
Definition u16 (z : Z) : Prop := 0 <= z < 2 ^ 16.
Definition u32 (z : Z) : Prop := 0 <= z < 2 ^ 32.
Definition usize (z : Z) : Prop := 0 <= z < 2 ^ 64.

(** [as u16] and [as u32], and the wrap-around of [u16], [u32] and [usize] arithmetic. *)
Definition wrap16 (z : Z) : Z := z mod 2 ^ 16.
Definition wrap32 (z : Z) : Z := z mod 2 ^ 32.
Definition wrap64 (z : Z) : Z := z mod 2 ^ 64.

Lemma wrap32_range z : u32 (wrap32 z).
Proof. apply Z.mod_pos_bound. lia. Qed.
Lemma wrap32_small z : u32 z → wrap32 z = z.
Proof. apply Z.mod_small. Qed.

Lemma wrap16_small z : u16 z → wrap16 z = z.
Proof. apply Z.mod_small. Qed.

Lemma len_nonneg {A} (l : list A) : 0 <= len l.
Proof. unfold len. lia. Qed.
Lemma len_nil {A} : len (@nil A) = 0.
Proof. done. Qed.
Lemma len_cons {A} (x : A) l : len (x :: l) = 1 + len l.
Proof. unfold len. simpl. lia. Qed.
Lemma len_one {A} (x : A) : len [x] = 1.
Proof. done. Qed.
Lemma len_app {A} (l l' : list A) : len (l ++ l') = len l + len l'.
Proof. unfold len. rewrite length_app. lia. Qed.
#[export] Instance len_Permutation {A} : Proper (Permutation ==> eq) (@len A).
Proof. intros l l' Hl. unfold len. by rewrite Hl. Qed.
Lemma len_0 {A} (l : list A) : len l = 0 → l = [].
Proof. unfold len. destruct l; simpl; [done|lia]. Qed.
Lemma len_pos {A} (l : list A) : l ≠ [] → 0 < len l.
Proof. unfold len. destruct l; simpl; [done|lia]. Qed.

Definition u8 (b : byte) : Z := Z.of_N (Byte.to_N b).
Definition byte_of_Z (z : Z) : byte :=
  match Byte.of_N (Z.to_N (z mod 256)) with Some b => b | None => x00 end.

#[export] Instance byte_eq_dec : EqDecision byte := Byte.byte_eq_dec.

Lemma u8_range b : 0 <= u8 b < 256.
Proof. unfold u8. pose proof (Byte.to_N_bounded b). lia. Qed.

Lemma byte_of_u8 b : byte_of_Z (u8 b) = b.
Proof.
  unfold byte_of_Z. rewrite Z.mod_small by apply u8_range.
  unfold u8. by rewrite N2Z.id, Byte.of_to_N.
Qed.

Lemma byte_of_Z_mod z z' : z mod 256 = z' mod 256 → byte_of_Z z = byte_of_Z z'.
Proof. intros H. unfold byte_of_Z. by rewrite H. Qed.

Lemma u8_byte_of z : u8 (byte_of_Z z) = z mod 256.
Proof.
  unfold byte_of_Z. pose proof (Z.mod_pos_bound z 256 ltac:(lia)).
  destruct (Byte.of_N _) as [b|] eqn:Hb.
  - apply Byte.to_of_N in Hb. unfold u8. rewrite Hb. lia.
  - apply Byte.of_N_None_iff in Hb. lia.
Qed.

(** Big-endian encoding on [k] bytes: [put_u32] and [u32::from_be_bytes] are the case [k = 4]. *)
Fixpoint be_bytes (k : nat) (z : Z) : bytes :=
  match k with
  | O => []
  | Datatypes.S k' => byte_of_Z (Z.shiftr z (8 * Z.of_nat k')) :: be_bytes k' z
  end.

Definition from_be_acc (acc : Z) (l : bytes) : Z := foldl (λ a b, Z.shiftl a 8 + u8 b) acc l.
Definition from_be (l : bytes) : Z := from_be_acc 0 l.

Lemma length_be_bytes k z : length (be_bytes k z) = k.
Proof. induction k; simpl; congruence. Qed.

Lemma from_be_acc_be_bytes k acc z :
  from_be_acc acc (be_bytes k z) =
  acc * 2 ^ (8 * Z.of_nat k) + z mod 2 ^ (8 * Z.of_nat k).
Proof.
  revert acc. induction k as [|k IH]; intros acc; simpl be_bytes.
  - change (2 ^ (8 * Z.of_nat 0)) with 1. rewrite Z.mod_1_r. unfold from_be_acc. simpl. lia.
  - unfold from_be_acc in *. simpl foldl. rewrite IH, u8_byte_of.
    rewrite Z.shiftl_mul_pow2, Z.shiftr_div_pow2 by lia.
    replace (8 * Z.of_nat (Datatypes.S k)) with (8 * Z.of_nat k + 8) by lia.
    rewrite Z.pow_add_r by lia. change (2 ^ 8) with 256.
    rewrite (Z.rem_mul_r z (2 ^ (8 * Z.of_nat k)) 256) by lia. lia.
Qed.

Lemma from_be_be_bytes k z : from_be (be_bytes k z) = z mod 2 ^ (8 * Z.of_nat k).
Proof. unfold from_be. rewrite from_be_acc_be_bytes. lia. Qed.

Lemma from_be_acc_split acc l :
  from_be_acc acc l = acc * 2 ^ (8 * len l) + from_be l.
Proof.
  unfold from_be, from_be_acc. revert acc.
  induction l as [|b l IH]; intros acc; simpl foldl; [rewrite (@len_nil byte); lia|].
  rewrite IH, (IH (Z.shiftl 0 8 + u8 b)), len_cons, !Z.shiftl_mul_pow2 by lia.
  replace (8 * (1 + len l)) with (8 + 8 * len l) by lia.
  rewrite Z.pow_add_r by (pose proof (len_nonneg l); lia). lia.
Qed.

Lemma from_be_cons b l : from_be (b :: l) = u8 b * 2 ^ (8 * len l) + from_be l.
Proof. unfold from_be at 1, from_be_acc. simpl. apply (from_be_acc_split (u8 b)). Qed.

Lemma from_be_range l : 0 <= from_be l < 2 ^ (8 * len l).
Proof.
  induction l as [|b l IH]; [done|].
  rewrite from_be_cons, len_cons. pose proof (u8_range b). pose proof (len_nonneg l).
  replace (8 * (1 + len l)) with (8 + 8 * len l) by lia.
  rewrite Z.pow_add_r by lia. change (2 ^ 8) with 256. nia.
Qed.

Lemma be_bytes_add_high k hi z :
  be_bytes k (hi * 2 ^ (8 * Z.of_nat k) + z) = be_bytes k z.
Proof.
  assert (H : ∀ j, (j <= k)%nat →
    be_bytes j (hi * 2 ^ (8 * Z.of_nat k) + z) = be_bytes j z).
  2: { by apply H. }
  induction j as [|j IH]; intros Hj; [done|]. simpl. rewrite IH by lia. f_equal.
  apply byte_of_Z_mod. rewrite !Z.shiftr_div_pow2 by lia.
  replace (8 * Z.of_nat k) with (8 * Z.of_nat j + (8 + 8 * (Z.of_nat k - Z.of_nat j - 1)))
    by lia.
  rewrite !Z.pow_add_r by lia. change (2 ^ 8) with 256.
  replace (hi * (2 ^ (8 * Z.of_nat j) * (256 * 2 ^ (8 * (Z.of_nat k - Z.of_nat j - 1)))) + z)
    with (z + hi * 2 ^ (8 * (Z.of_nat k - Z.of_nat j - 1)) * 256 * 2 ^ (8 * Z.of_nat j)) by lia.
  rewrite Z.div_add by lia. apply Z.mod_add. lia.
Qed.

Lemma be_bytes_from_be l : be_bytes (length l) (from_be l) = l.
Proof.
  induction l as [|b l IH]; [done|]. simpl.
  rewrite from_be_cons. unfold len. rewrite be_bytes_add_high, IH. f_equal.
  rewrite Z.shiftr_div_pow2 by lia. pose proof (from_be_range l). unfold len in *.
  rewrite Z.div_add_l, Z.div_small, Z.add_0_r by lia. apply byte_of_u8.
Qed.

(** The four bytes of a [u32] and back. *)
Definition be32 (z : Z) : bytes := be_bytes 4 z.
#[global] Arguments be32 z : simpl never.

Lemma length_be32 z : length (be32 z) = 4%nat.
Proof. done. Qed.
Lemma len_be32 z : len (be32 z) = 4.
Proof. done. Qed.

Lemma from_be_be32 z : u32 z → from_be (be32 z) = z.
Proof. intros H. unfold be32. rewrite from_be_be_bytes. by apply Z.mod_small. Qed.

Lemma from_be_u32 l : length l = 4%nat → u32 (from_be l).
Proof. intros H. pose proof (from_be_range l) as HR. unfold len in HR. by rewrite H in HR. Qed.

Lemma be32_from_be l : length l = 4%nat → be32 (from_be l) = l.
Proof. intros H. unfold be32. rewrite <- H. apply be_bytes_from_be. Qed.

Lemma be32_wrap z : be32 (wrap32 z) = be32 z.
Proof.
  unfold wrap32. rewrite (Z.div_mod z (2 ^ 32)) at 2 by lia.
  rewrite Z.mul_comm. symmetry. apply (be_bytes_add_high 4).
Qed.

(** ** Lists *)

Lemma bind_snoc {A B} (f : A → list B) (l : list A) x : (l ++ [x]) ≫= f = (l ≫= f) ++ f x.
Proof. rewrite bind_app. simpl. by rewrite app_nil_r. Qed.

(** Lists of at most one element. *)
Lemma short_Permutation {A} (l l' : list A) : (length l <= 1)%nat → l ≡ₚ l' → l = l'.
Proof.
  destruct l as [|x [|y l]]; simpl; intros Hl Hp; [by apply Permutation_nil_l in Hp| |lia].
  by apply Permutation_singleton_l in Hp.
Qed.

Lemma split_len {A} (l : list A) n : 0 <= n <= len l → ∃ a b, l = a ++ b ∧ len a = n.
Proof.
  intros Hn. exists (take (Z.to_nat n) l), (drop (Z.to_nat n) l). rewrite take_drop.
  split; [done|]. unfold len in *. rewrite length_take. lia.
Qed.

Lemma split_u32 (l : bytes) : 4 <= len l → ∃ n r, l = be32 n ++ r ∧ u32 n.
Proof.
  intros Hl. destruct (split_len l 4) as (a & r & -> & Ha); [lia|].
  assert (length a = 4%nat) by (unfold len in Ha; lia).
  exists (from_be a), r. rewrite be32_from_be by done. auto using from_be_u32.
Qed.

Lemma take_len_app {A} (l r : list A) n : n = len l → take (Z.to_nat n) (l ++ r) = l.
Proof. intros ->. apply take_app_length'. unfold len. lia. Qed.
Lemma drop_len_app {A} (l r : list A) n : n = len l → drop (Z.to_nat n) (l ++ r) = r.
Proof. intros ->. apply drop_app_length'. unfold len. lia. Qed.

Create HintDb lj.
Create Rewrite HintDb lj_len.
Create Rewrite HintDb lj_int.
#[export] Hint Resolve len_nonneg wrap32_range u8_range from_be_u32 : lj.
#[export] Hint Rewrite @len_nil @len_cons @len_app len_be32 : lj_len.
#[export] Hint Rewrite from_be_be32 be32_from_be wrap32_small using (auto with lj) : lj_int.

(** Linear arithmetic on lengths. *)
Ltac note_len l :=
  lazymatch goal with
  | _ : 0 <= len l |- _ => fail
  | _ => pose proof (len_nonneg l)
  end.

Ltac len_lia :=
  autorewrite with lj_len in *;
  repeat match goal with
  | |- context [len ?l] => note_len l
  | _ : context [len ?l] |- _ => note_len l
  end; lia.
