(* ===== verification/Errors.v ===== *)
(** * Errors: the error type of the crate (src/src/error.rs)

    [Error] has the constructors of the enum.  Two variants wrap values of foreign types: an
    [std::io::Error], of which the crate inspects the kind and prints the text, and a
    [rustls::Error], which the crate only prints; they are kept as that kind and those texts.
    [to_string] is the [Display] implementation that the [#[error("...")]] attributes derive. *)

From S2P Require Import Prelude.

(** [std::io::ErrorKind]: the two kinds the crate tests for, and all the others by name. *)
Inductive ErrorKind : Type :=
| AddrInUse
| AddrNotAvailable
| OtherKind (name : string).

Record io_error : Type := IoError { kind : ErrorKind; io_text : string }.
Record rustls_error : Type := RustlsError { tls_text : string }.

Inductive Error : Type :=
| Io (e : io_error)
| InvalidFrame (what : string)
| FrameTooLarge (size max : Z)
| Compression (text : string)
| Serialization (text : string)
| UnexpectedFrame (what : string)
| SeqOutOfOrder (got prev : Z)
| WriteTimeout
| AckTimeout
| ConnectionClosed
| InvalidConfig (what : string)
| NoLocalPortAvailable
| Tls (e : rustls_error).

#[export] Instance ErrorKind_eq_dec : EqDecision ErrorKind.
Proof. solve_decision. Defined.
#[export] Instance io_error_eq_dec : EqDecision io_error.
Proof. solve_decision. Defined.
#[export] Instance rustls_error_eq_dec : EqDecision rustls_error.
Proof. solve_decision. Defined.
#[export] Instance Error_eq_dec : EqDecision Error.
Proof. solve_decision. Defined.

(** The [#[error("...")]] attributes: [Display] for [Error]. *)
Definition to_string (e : Error) : string :=
  match e with
  | Io e => "io error: " +:+ io_text e
  | InvalidFrame w => "invalid frame: " +:+ w
  | FrameTooLarge size max => "frame too large: " +:+ pretty size +:+ " > " +:+ pretty max
  | Compression t => "compression error: " +:+ t
  | Serialization t => "serialization error: " +:+ t
  | UnexpectedFrame w => "unexpected frame: " +:+ w
  | SeqOutOfOrder got prev =>
      "seq out of order: got " +:+ pretty got +:+ ", expected > " +:+ pretty prev
  | WriteTimeout => "write timeout"
  | AckTimeout => "ack timeout"
  | ConnectionClosed => "connection closed by peer"
  | InvalidConfig w => "invalid config: " +:+ w
  | NoLocalPortAvailable => "no local port available in configured range"
  | Tls e => "tls error: " +:+ tls_text e
  end.

(** [From<std::io::Error>] and [From<rustls::Error>]: what [?] does to a foreign error. *)
Definition from_io (e : io_error) : Error := Io e.
Definition from_rustls (e : rustls_error) : Error := Tls e.

(** [Error::source]: the variants declared with [#[from]] expose the error they wrap. *)
Definition source (e : Error) : option (io_error + rustls_error) :=
  match e with
  | Io e => Some (inl e)
  | Tls e => Some (inr e)
  | _ => None
  end.

(** What is out of band: a [?] on a [Result<_, io::Error>]. *)
Definition of_io {A} (r : outcome io_error A) : outcome Error A :=
  match r with
  | Ok a => Ok a
  | Err e => Err (from_io e)
  | Panic p => Panic p
  end.
