(* ===== verification/Zlib.v ===== *)
(** * Zlib: what the crate relies on of flate2

    flate2 is not part of the repository.  [Zlib] is its interface as frame.rs uses it: a writer
    that compresses a whole buffer at a level, and a reader ([std::io::Read]) that inflates one.
    [ZlibOk] states what is documented of it: a read fills at most the buffer it is given, and
    reading an encoded buffer to its end gives the buffer back.  [StoredZlib] is a concrete
    instance, a container that stores its content, with which the theorems are instantiated. *)

From S2P Require Import Prelude.

(** The build: whether the cargo feature [compression] is on, and flate2. *)
Class Zlib : Type := {
  feature_compression : bool;
  (** [ZlibEncoder::new(Vec::new(), Compression::new(level))], [write_all], [finish] *)
  zencode : Z → bytes → bytes;
  (** [ZlibDecoder<&[u8]>]: its states, [ZlibDecoder::new] and [Read::read] into a buffer of the
      given length; an error is given by its text *)
  ZlibDecoder : Type;
  zdecoder_new : bytes → ZlibDecoder;
  zdecoder_read : Z → ZlibDecoder → (string + bytes) * ZlibDecoder;
}.

(** Reading [d] to its end with a buffer of [cap] bytes gives the bytes [x]. *)
Inductive inflates_to `{Zlib} (cap : Z) : ZlibDecoder → bytes → Prop :=
| inflates_eof d d' :
    zdecoder_read cap d = (inr [], d') → inflates_to cap d []
| inflates_chunk d c d' x :
    zdecoder_read cap d = (inr c, d') → c ≠ [] →
    inflates_to cap d' x → inflates_to cap d (c ++ x).

Class ZlibOk (zlib : Zlib) : Prop := {
  zdecoder_read_bound cap d c d' :
    0 <= cap → zdecoder_read cap d = (inr c, d') → len c <= cap;
  zencode_inflates level cap x :
    0 <= level <= 9 → 0 < cap → inflates_to cap (zdecoder_new (zencode level x)) x;
}.

(** A container with a one-byte header ["x"] followed by the content, as it is. *)
Definition stored_read (cap : Z) (d : option bytes) : (string + bytes) * option bytes :=
  match d with
  | None => (inl "corrupt deflate stream"%string, None)
  | Some l => (inr (take (Z.to_nat cap) l), Some (drop (Z.to_nat cap) l))
  end.

#[export] Instance StoredZlib : Zlib := {|
  feature_compression := true;
  zencode _ x := "x"%byte :: x;
  ZlibDecoder := option bytes;
  zdecoder_new l :=
    match l with
    | h :: l' => if bool_decide (h = "x"%byte) then Some l' else None
    | [] => None
    end;
  zdecoder_read := stored_read;
|}.

Lemma stored_inflates cap l : 0 < cap → @inflates_to StoredZlib cap (Some l) l.
Proof.
  intros Hcap. remember (length l) as n eqn:Hn. revert l Hn.
  induction n as [n IH] using lt_wf_ind. intros l ->.
  destruct l as [|b l].
  - eapply inflates_eof. simpl. by rewrite take_nil.
  - rewrite <- (take_drop (Z.to_nat cap) (b :: l)) at 2.
    eapply inflates_chunk; [reflexivity| |].
    + destruct (Z.to_nat cap) eqn:?; [lia|done].
    + eapply IH; [|reflexivity]. rewrite length_drop. simpl length. lia.
Qed.

#[export] Instance StoredZlib_ok : ZlibOk StoredZlib.
Proof.
  split.
  - intros cap [l|] c d' Hcap H; [|done]. injection H as <- <-.
    unfold len. rewrite length_take. lia.
  - intros level cap x _ Hcap. apply stored_inflates. lia.
Qed.
