(* ===== verification/Frame.v ===== *)
(** * Frame: the frames of the protocol and their wire format (src/src/frame.rs)

    [Frame], [encode], [decode_with_limit], [zlib_compress] and [zlib_decompress] are the items of
    frame.rs.  A [BytesMut] or [Bytes] is the list of its bytes; the operations of the module
    [Buf] are those that frame.rs calls on one, with their panics (an index out of range, a cursor
    moved past the end), so that the absence of panics is a theorem and not an assumption.

    [wire] and [decodes] specify the format independently of the code: the bytes of a frame, and
    what a receiver does with a buffer.  The lemmas up to [decode_iff] connect the two; the
    properties are then read off the specification. *)

From S2P Require Import Prelude Errors Zlib.

(** ** The operations of [BytesMut] *)
Module Buf.
Section buf.
Context {E : Type}.

(** [reserve] changes the capacity, which is not observable. *)
Definition reserve (n : Z) : M bytes E unit := mret tt.
Definition extend_from_slice (l : bytes) : M bytes E unit := λ s, (Ok tt, s ++ l).
Definition put_u8 (b : byte) : M bytes E unit := extend_from_slice [b].
Definition put_u32 (n : Z) : M bytes E unit := extend_from_slice (be32 n).

Definition index (i : Z) : M bytes E byte := λ s,
  match s !! Z.to_nat i with
  | Some b => (Ok b, s)
  | None => (Panic "index out of bounds", s)
  end.

(** [&s[i..j]] *)
Definition slice (i j : Z) : M bytes E bytes := λ s,
  if j <=? len s then (Ok (take (Z.to_nat (j - i)) (drop (Z.to_nat i) s)), s)
  else (Panic "range end index out of range", s).

Definition advance (n : Z) : M bytes E unit := λ s,
  if n <=? len s then (Ok tt, drop (Z.to_nat n) s)
  else (Panic "cannot advance past `remaining`", s).

Definition get_u32 : M bytes E Z := λ s,
  if 4 <=? len s then (Ok (from_be (take 4 s)), drop 4 s)
  else (Panic "not enough bytes remaining", s).

Definition split_to (n : Z) : M bytes E bytes := λ s,
  if n <=? len s then (Ok (take (Z.to_nat n) s), drop (Z.to_nat n) s)
  else (Panic "split_to out of bounds", s).

Lemma slice_app (i j : Z) (a b c : bytes) :
  i = len a → j = len a + len b → slice i j (a ++ b ++ c) = (Ok b, a ++ b ++ c).
Proof.
  intros -> ->. unfold slice. rewrite (proj2 (Z.leb_le _ _)) by len_lia.
  rewrite drop_len_app by done. rewrite take_len_app by lia. done.
Qed.

Lemma slice_app2 (i j : Z) (a a' b c : bytes) :
  i = len a + len a' → j = i + len b → slice i j (a ++ a' ++ b ++ c) = (Ok b, a ++ a' ++ b ++ c).
Proof. intros -> ->. rewrite (app_assoc a). apply slice_app; len_lia. Qed.

Lemma advance_app (n : Z) (a b : bytes) : n = len a → advance n (a ++ b) = (Ok tt, b).
Proof.
  intros ->. unfold advance. rewrite (proj2 (Z.leb_le _ _)) by len_lia.
  by rewrite drop_len_app.
Qed.

Lemma get_u32_app (n : Z) (b : bytes) : u32 n → get_u32 (be32 n ++ b) = (Ok n, b).
Proof.
  intros Hn. unfold get_u32. rewrite (proj2 (Z.leb_le _ _)) by len_lia.
  rewrite take_app_length' by done. rewrite drop_app_length' by done.
  by rewrite from_be_be32.
Qed.

Lemma split_to_app (n : Z) (a b : bytes) : n = len a → split_to n (a ++ b) = (Ok a, b).
Proof.
  intros ->. unfold split_to. rewrite (proj2 (Z.leb_le _ _)) by len_lia.
  by rewrite take_len_app, drop_len_app.
Qed.
End buf.
End Buf.

(** ** Constants and the frame type *)

Definition PROTOCOL_VERSION : byte := "2".
Definition TYPE_WINDOW : byte := "W".
Definition TYPE_JSON : byte := "J".
Definition TYPE_COMPRESSED : byte := "C".
Definition TYPE_ACK : byte := "A".
Definition DEFAULT_MAX_FRAME_SIZE : Z := 16 * 1024 * 1024.

(** [Compressed] holds the decompressed inner bytes. *)
Inductive Frame : Type :=
| Window (n : Z)
| Json (seq : Z) (data : bytes)
| Compressed (inner : bytes)
| Ack (seq : Z).

#[export] Instance Frame_eq_dec : EqDecision Frame.
Proof. solve_decision. Defined.

Section frame.
Context `{Zlib}.

(** ** Compression *)

Definition zlib_compress (input : bytes) : bytes := zencode 3 input.

(** [dec.read(&mut chunk).map_err(|e| Error::Compression(e.to_string()))] *)
Definition read_chunk (cap : Z) : M ZlibDecoder Error bytes := λ d,
  match zdecoder_read cap d with
  | (inl text, d') => (Err (Compression text), d')
  | (inr chunk, d') => (Ok chunk, d')
  end.

(** One turn of the read loop: [inl out] goes on, [inr out] breaks. *)
Definition decompress_turn (max : Z) (out : bytes) : M ZlibDecoder Error (bytes + bytes) :=
  chunk ← read_chunk 8192;
  let n := len chunk in
  if n =? 0 then mret (inr out)
  else if max <? len out + n then throw (FrameTooLarge (len out + n) max)
  else mret (inl (out ++ chunk)).

Definition zlib_decompress (input : bytes) (max : Z) : outcome Error bytes :=
  (loopM 64 (decompress_turn max) [] (zdecoder_new input)).1.

(** ** Encoding *)

Definition encode (f : Frame) : M bytes Error unit :=
  match f with
  | Window n =>
      Buf.reserve (2 + 4);;
      Buf.put_u8 PROTOCOL_VERSION;;
      Buf.put_u8 TYPE_WINDOW;;
      Buf.put_u32 n
  | Json seq data =>
      Buf.reserve (2 + 4 + 4 + len data);;
      Buf.put_u8 PROTOCOL_VERSION;;
      Buf.put_u8 TYPE_JSON;;
      Buf.put_u32 seq;;
      Buf.put_u32 (wrap32 (len data));;
      Buf.extend_from_slice data
  | Ack seq =>
      Buf.reserve (2 + 4);;
      Buf.put_u8 PROTOCOL_VERSION;;
      Buf.put_u8 TYPE_ACK;;
      Buf.put_u32 seq
  | Compressed inner =>
      if feature_compression then
        let compressed := zlib_compress inner in
        Buf.reserve (2 + 4 + len compressed);;
        Buf.put_u8 PROTOCOL_VERSION;;
        Buf.put_u8 TYPE_COMPRESSED;;
        Buf.put_u32 (wrap32 (len compressed));;
        Buf.extend_from_slice compressed
      else panic "compression feature disabled"
  end.

(** ** Decoding *)

Definition decode_with_limit (max_frame_size : Z) : M bytes Error (option Frame) :=
  src ← get;
  if len src <? 2 then mret None else
  version ← Buf.index 0;
  if bool_decide (version ≠ PROTOCOL_VERSION)
  then throw (InvalidFrame "unsupported protocol version") else
  ty ← Buf.index 1;
  if bool_decide (ty = TYPE_WINDOW) then
    if len src <? 2 + 4 then mret None else
    Buf.advance 2;;
    n ← Buf.get_u32;
    mret (Some (Window n))
  else if bool_decide (ty = TYPE_JSON) then
    if len src <? 2 + 4 + 4 then mret None else
    l ← Buf.slice 6 10;
    let length := from_be l in
    if max_frame_size <? length then throw (FrameTooLarge length max_frame_size) else
    if len src <? 2 + 4 + 4 + length then mret None else
    Buf.advance 2;;
    seq ← Buf.get_u32;
    _len ← Buf.get_u32;
    data ← Buf.split_to length;
    mret (Some (Json seq data))
  else if bool_decide (ty = TYPE_ACK) then
    if len src <? 2 + 4 then mret None else
    Buf.advance 2;;
    seq ← Buf.get_u32;
    mret (Some (Ack seq))
  else if bool_decide (ty = TYPE_COMPRESSED) then
    if negb feature_compression
    then throw (InvalidFrame "compression feature disabled") else
    if len src <? 2 + 4 then mret None else
    l ← Buf.slice 2 6;
    let length := from_be l in
    if max_frame_size <? length then throw (FrameTooLarge length max_frame_size) else
    if len src <? 2 + 4 + length then mret None else
    Buf.advance (2 + 4);;
    payload ← Buf.split_to length;
    inflated ← lift (zlib_decompress payload max_frame_size);
    mret (Some (Compressed inflated))
  else throw (InvalidFrame "unknown frame type").

Definition decode : M bytes Error (option Frame) := decode_with_limit DEFAULT_MAX_FRAME_SIZE.

(** ** Specification of the format *)

(** The bytes of a frame. *)
Definition header (ty : byte) : bytes := [PROTOCOL_VERSION; ty].

Definition wire (f : Frame) : bytes :=
  match f with
  | Window n => header TYPE_WINDOW ++ be32 n
  | Json seq data => header TYPE_JSON ++ be32 seq ++ be32 (len data) ++ data
  | Ack seq => header TYPE_ACK ++ be32 seq
  | Compressed inner =>
      header TYPE_COMPRESSED ++ be32 (len (zlib_compress inner)) ++ zlib_compress inner
  end.

(** The frames this build can encode. *)
Definition encodable (f : Frame) : Prop :=
  match f with Compressed _ => feature_compression = true | _ => True end.

(** The frames a receiver with the limit [max] accepts: integers in range, payloads within the
    limit, before and after decompression. *)
Definition frame_ok (max : Z) (f : Frame) : Prop :=
  match f with
  | Window n => u32 n
  | Ack seq => u32 seq
  | Json seq data => u32 seq ∧ u32 (len data) ∧ len data <= max
  | Compressed inner =>
      feature_compression = true ∧ len inner <= max ∧
      u32 (len (zlib_compress inner)) ∧ len (zlib_compress inner) <= max
  end.

(** What a receiver with the limit [max] makes of the buffer [src]: a result, and the buffer it
    leaves. *)
Inductive decodes (max : Z) : bytes → outcome Error (option Frame) → bytes → Prop :=
| decodes_short src :
    len src < 2 → decodes max src (Ok None) src
| decodes_bad_version v t body :
    v ≠ PROTOCOL_VERSION →
    decodes max (v :: t :: body) (Err (InvalidFrame "unsupported protocol version"))
      (v :: t :: body)
| decodes_bad_type t body :
    t ∉ [TYPE_WINDOW; TYPE_JSON; TYPE_ACK; TYPE_COMPRESSED] →
    decodes max (header t ++ body) (Err (InvalidFrame "unknown frame type")) (header t ++ body)
| decodes_u32_short t body :
    t = TYPE_WINDOW ∨ t = TYPE_ACK → len body < 4 →
    decodes max (header t ++ body) (Ok None) (header t ++ body)
| decodes_window n rest :
    u32 n → decodes max (header TYPE_WINDOW ++ be32 n ++ rest) (Ok (Some (Window n))) rest
| decodes_ack n rest :
    u32 n → decodes max (header TYPE_ACK ++ be32 n ++ rest) (Ok (Some (Ack n))) rest
| decodes_json_short body :
    len body < 8 →
    decodes max (header TYPE_JSON ++ body) (Ok None) (header TYPE_JSON ++ body)
| decodes_json_large seq l body :
    u32 seq → u32 l → max < l →
    decodes max (header TYPE_JSON ++ be32 seq ++ be32 l ++ body) (Err (FrameTooLarge l max))
      (header TYPE_JSON ++ be32 seq ++ be32 l ++ body)
| decodes_json_wait seq l body :
    u32 seq → u32 l → l <= max → len body < l →
    decodes max (header TYPE_JSON ++ be32 seq ++ be32 l ++ body) (Ok None)
      (header TYPE_JSON ++ be32 seq ++ be32 l ++ body)
| decodes_json seq data rest :
    u32 seq → u32 (len data) → len data <= max →
    decodes max (header TYPE_JSON ++ be32 seq ++ be32 (len data) ++ data ++ rest)
      (Ok (Some (Json seq data))) rest
| decodes_compressed_off body :
    feature_compression = false →
    decodes max (header TYPE_COMPRESSED ++ body)
      (Err (InvalidFrame "compression feature disabled")) (header TYPE_COMPRESSED ++ body)
| decodes_compressed_short body :
    feature_compression = true → len body < 4 →
    decodes max (header TYPE_COMPRESSED ++ body) (Ok None) (header TYPE_COMPRESSED ++ body)
| decodes_compressed_large l body :
    feature_compression = true → u32 l → max < l →
    decodes max (header TYPE_COMPRESSED ++ be32 l ++ body) (Err (FrameTooLarge l max))
      (header TYPE_COMPRESSED ++ be32 l ++ body)
| decodes_compressed_wait l body :
    feature_compression = true → u32 l → l <= max → len body < l →
    decodes max (header TYPE_COMPRESSED ++ be32 l ++ body) (Ok None)
      (header TYPE_COMPRESSED ++ be32 l ++ body)
| decodes_compressed payload inner rest :
    feature_compression = true → u32 (len payload) → len payload <= max →
    zlib_decompress payload max = Ok inner →
    decodes max (header TYPE_COMPRESSED ++ be32 (len payload) ++ payload ++ rest)
      (Ok (Some (Compressed inner))) rest
| decodes_compressed_bad payload e rest :
    feature_compression = true → u32 (len payload) → len payload <= max →
    zlib_decompress payload max = Err e →
    decodes max (header TYPE_COMPRESSED ++ be32 (len payload) ++ payload ++ rest) (Err e) rest.
End frame.

#[export] Hint Constructors decodes : lj.

(** ** The code implements the format *)

Section frame_correct.
Context `{Zlib}.

Lemma encode_wire f dst : encodable f → encode f dst = (Ok tt, dst ++ wire f).
Proof.
  destruct f as [n|seq data|inner|seq]; intros Henc; simpl in Henc; unfold encode, wire;
    [| |rewrite Henc|];
    cbv [mbind M_bind mret M_ret Buf.reserve Buf.put_u8 Buf.put_u32 Buf.extend_from_slice];
    rewrite ?be32_wrap; by rewrite <- ?app_assoc.
Qed.

(** *** The read loop of [zlib_decompress] *)

Lemma decompress_turn_eq max out d :
  loop_turn (decompress_turn max) (out, d) =
  match zdecoder_read 8192 d with
  | (inl t, d') => inr (Err (Compression t), d')
  | (inr c, d') =>
      if len c =? 0 then inr (Ok out, d')
      else if max <? len out + len c then inr (Err (FrameTooLarge (len out + len c) max), d')
      else inl (out ++ c, d')
  end.
Proof.
  unfold loop_turn, decompress_turn, mbind, M_bind, read_chunk. simpl.
  destruct (zdecoder_read 8192 d) as [[t|c] d1]; [done|].
  by destruct (len c =? 0), (max <? len out + len c).
Qed.

Lemma decompress_turn_step max out d out' d' :
  loop_turn (decompress_turn max) (out, d) = inl (out', d') →
  len out < len out' <= max.
Proof.
  rewrite decompress_turn_eq. repeat case_goal; try done.
  injection 1 as <- <-. zbool. len_lia.
Qed.

Lemma decompress_reaches_in max n x y :
  len x.1 <= max → reaches_in (loop_turn (decompress_turn max)) n x y →
  Z.of_nat n + len x.1 <= len y.1 <= max.
Proof.
  intros Hlen Hr. induction Hr as [x|n [out d] [out' d'] y Hb _ IH]; [lia|].
  apply decompress_turn_step in Hb. simpl in *. lia.
Qed.

(** The loop stops within its fuel. *)
Lemma zlib_decompress_loops input max :
  usize max →
  ∃ r, loops (loop_turn (decompress_turn max)) ([], zdecoder_new input) r ∧
       zlib_decompress input max = r.1.
Proof.
  intros Hmax. unfold zlib_decompress, loopM.
  edestruct (loop_pow_terminates (λ x : bytes * ZlibDecoder, len x.1 <= max)
    (λ x, max - len x.1) (loop_turn (decompress_turn max)) 64 ([], zdecoder_new input))
    as [r Hr].
  - intros [out d] [out' d'] ? Hb. apply decompress_turn_step in Hb. simpl in *. lia.
  - apply Hmax.
  - destruct Hmax. cbn [fst]. len_lia.
  - exists r. rewrite Hr. split; [by eapply loop_pow_inr|done].
Qed.

(** The shapes of the result. *)
Inductive decompressed (max : Z) : outcome Error bytes → Prop :=
| decompressed_ok x : len x <= max → decompressed max (Ok x)
| decompressed_corrupt t : decompressed max (Err (Compression t))
| decompressed_large s : max < s → decompressed max (Err (FrameTooLarge s max)).

Lemma zlib_decompress_result input max :
  usize max → decompressed max (zlib_decompress input max).
Proof.
  intros Hmax. destruct (zlib_decompress_loops input max Hmax) as (r & Hr & ->).
  remember ([] : bytes, zdecoder_new input) as x eqn:Hx.
  assert (Hlen : len x.1 <= max) by (subst; apply Hmax).
  clear Hx. induction Hr as [[out d] r Hb|[out d] [out' d'] r Hb _ IH].
  - revert Hb. rewrite decompress_turn_eq. repeat case_goal; try done; injection 1 as <-;
      zbool; by constructor.
  - apply decompress_turn_step in Hb. apply IH. simpl. lia.
Qed.

(** Reading an inflatable stream to its end: within the limit, and beyond it. *)
Lemma decompress_loops_fits max d x out :
  inflates_to 8192 d x → len out + len x <= max →
  ∃ d', loops (loop_turn (decompress_turn max)) (out, d) (Ok (out ++ x), d').
Proof.
  intros Hx. revert out. induction Hx as [d d' Hd|d c d' x Hd Hc Hx IH]; intros out Hout.
  - exists d'. apply loops_done. rewrite decompress_turn_eq, Hd. by rewrite app_nil_r.
  - apply len_pos in Hc. destruct (IH (out ++ c)) as [d'' Hl]; [len_lia|].
    exists d''. rewrite app_assoc. eapply loops_next; [|exact Hl].
    rewrite decompress_turn_eq, Hd. rewrite (proj2 (Z.eqb_neq _ _)) by lia.
    rewrite (proj2 (Z.ltb_ge _ _)) by len_lia. done.
Qed.

Lemma decompress_loops_large max d x out :
  inflates_to 8192 d x → len out <= max < len out + len x →
  ∃ s d', max < s ∧
    loops (loop_turn (decompress_turn max)) (out, d) (Err (FrameTooLarge s max), d').
Proof.
  intros Hx. revert out. induction Hx as [d d' Hd|d c d' x Hd Hc Hx IH]; intros out Hout.
  - len_lia.
  - apply len_pos in Hc. destruct (decide (len out + len c <= max)) as [Hle|Hgt].
    + destruct (IH (out ++ c)) as (s & d'' & ? & Hl); [len_lia|].
      exists s, d''. split; [done|]. eapply loops_next; [|exact Hl].
      rewrite decompress_turn_eq, Hd. rewrite (proj2 (Z.eqb_neq _ _)) by lia.
      by rewrite (proj2 (Z.ltb_ge _ _)) by lia.
    + exists (len out + len c), d'. split; [lia|]. apply loops_done.
      rewrite decompress_turn_eq, Hd. rewrite (proj2 (Z.eqb_neq _ _)) by lia.
      by rewrite (proj2 (Z.ltb_lt _ _)) by lia.
Qed.

Lemma zlib_decompress_fits input max x :
  usize max → inflates_to 8192 (zdecoder_new input) x → len x <= max →
  zlib_decompress input max = Ok x.
Proof.
  intros Hmax Hx Hlen. destruct (zlib_decompress_loops input max Hmax) as (r & Hr & ->).
  destruct (decompress_loops_fits max _ x [] Hx) as [d' Hd]; [len_lia|].
  by rewrite (loops_det _ _ _ _ Hr Hd).
Qed.

Lemma zlib_decompress_large input max x :
  usize max → inflates_to 8192 (zdecoder_new input) x → max < len x →
  ∃ s, max < s ∧ zlib_decompress input max = Err (FrameTooLarge s max).
Proof.
  intros Hmax Hx Hlen. destruct (zlib_decompress_loops input max Hmax) as (r & Hr & ->).
  destruct (decompress_loops_large max _ x [] Hx) as (s & d' & ? & Hd);
    [destruct Hmax; len_lia|].
  exists s. by rewrite (loops_det _ _ _ _ Hr Hd).
Qed.

Lemma zlib_round_trip `{!ZlibOk _} max x :
  usize max → len x <= max → zlib_decompress (zlib_compress x) max = Ok x.
Proof. intros. apply zlib_decompress_fits; [done| |done]. by apply zencode_inflates. Qed.

(** *** [decode_with_limit] computes [decodes] *)

(** Decide a test on the type byte. *)
Ltac decide_type := first [done | discriminate | tauto | intros ->; set_solver].

(** One step of a run of [decode_with_limit]: a test whose outcome is known, or an operation of
    the buffer. *)
Ltac decode_step :=
  lazymatch goal with
  | |- (if ?a <? ?b then _ else _) _ = _ =>
      first [rewrite (proj2 (Z.ltb_lt a b)) by (unfold header; len_lia)
            |rewrite (proj2 (Z.ltb_ge a b)) by (unfold header; len_lia)]
  | |- (if bool_decide ?P then _ else _) _ = _ =>
      first [rewrite (bool_decide_eq_true_2 P) by decide_type
            |rewrite (bool_decide_eq_false_2 P) by decide_type]
  | |- (if negb feature_compression then _ else _) _ = _ =>
      match goal with Hf : feature_compression = _ |- _ => rewrite Hf; cbn [negb] end
  | |- mbind _ (lift (zlib_decompress ?p ?m)) _ = _ =>
      match goal with Hz : zlib_decompress p m = _ |- _ =>
        unfold mbind, M_bind, lift; rewrite Hz end
  | |- mbind _ _ _ = _ =>
      first [erewrite bind_ok by reflexivity
            |erewrite bind_ok by (apply Buf.advance_app; done)
            |erewrite bind_ok by (apply Buf.get_u32_app; done)
            |erewrite bind_ok by (apply Buf.split_to_app; done)
            |erewrite bind_ok by (apply Buf.slice_app; done)
            |erewrite bind_ok by (apply Buf.slice_app2; done)]
  end.

Lemma decode_complete max src r rest :
  decodes max src r rest → decode_with_limit max src = (r, rest).
Proof.
  intros Hd. unfold decode_with_limit.
  destruct Hd; try destruct_or!; subst; repeat decode_step; cbv zeta;
    rewrite ?from_be_be32 by done; repeat decode_step; try done.
  all: rewrite app_assoc; erewrite bind_ok by (by apply Buf.advance_app); repeat decode_step; done.
Qed.

Lemma decodes_total_u32 max t body :
  t = TYPE_WINDOW ∨ t = TYPE_ACK → ∃ r rest, decodes max (header t ++ body) r rest.
Proof.
  intros Ht. destruct (decide (len body < 4)) as [Hs|Hl]; [by eauto with lj|].
  destruct (split_u32 body) as (n & r & -> & Hn); [lia|].
  destruct Ht as [-> | ->]; eauto with lj.
Qed.

Lemma decodes_total_json max body :
  ∃ r rest, decodes max (header TYPE_JSON ++ body) r rest.
Proof.
  destruct (decide (len body < 8)) as [Hs|Hl]; [by eauto with lj|].
  destruct (split_u32 body) as (seq & b & -> & Hseq); [lia|].
  destruct (split_u32 b) as (l & r & -> & Hlen); [len_lia|].
  destruct (decide (max < l)); [by eauto with lj|].
  destruct (decide (len r < l)); [by eauto using decodes_json_wait with lia|].
  destruct (split_len r l) as (data & rest & -> & <-); [destruct Hlen; lia|].
  eauto using decodes_json with lia.
Qed.

Lemma decodes_total_compressed max body :
  usize max → ∃ r rest, decodes max (header TYPE_COMPRESSED ++ body) r rest.
Proof.
  intros Hmax. destruct feature_compression eqn:Hf; [|by eauto with lj].
  destruct (decide (len body < 4)) as [Hs|Hl]; [by eauto with lj|].
  destruct (split_u32 body) as (l & r & -> & Hlen); [lia|].
  destruct (decide (max < l)); [by eauto with lj|].
  destruct (decide (len r < l)); [by eauto using decodes_compressed_wait with lia|].
  destruct (split_len r l) as (payload & rest & -> & <-); [destruct Hlen; lia|].
  assert (len payload <= max) by lia.
  pose proof (zlib_decompress_result payload max Hmax) as Hz.
  destruct (zlib_decompress payload max) as [x|e|p] eqn:Heq;
    [eauto using decodes_compressed|eauto using decodes_compressed_bad|inversion Hz].
Qed.

Lemma decodes_total max src :
  usize max → ∃ r rest, decodes max src r rest.
Proof.
  intros Hmax. destruct src as [|v [|t body]].
  - eexists _, _. apply decodes_short. len_lia.
  - eexists _, _. apply decodes_short. len_lia.
  - destruct (decide (v = PROTOCOL_VERSION)) as [->|]; [|by eauto with lj].
    change (PROTOCOL_VERSION :: t :: body) with (header t ++ body).
    destruct (decide (t = TYPE_WINDOW)); [by eauto using decodes_total_u32|].
    destruct (decide (t = TYPE_ACK)); [by eauto using decodes_total_u32|].
    destruct (decide (t = TYPE_JSON)) as [->|]; [apply decodes_total_json|].
    destruct (decide (t = TYPE_COMPRESSED)) as [->|]; [by apply decodes_total_compressed|].
    eexists _, _. apply decodes_bad_type. set_unfold. tauto.
Qed.

(** The specification and the code agree. *)
Lemma decode_iff max src r rest :
  usize max → decode_with_limit max src = (r, rest) ↔ decodes max src r rest.
Proof.
  intros Hmax. split; [|apply decode_complete]. intros Hd.
  destruct (decodes_total max src Hmax) as (r' & rest' & Hs).
  rewrite (decode_complete _ _ _ _ Hs) in Hd. by simplify_eq.
Qed.

Lemma decodes_det max src r rest r' rest' :
  decodes max src r rest → decodes max src r' rest' → r = r' ∧ rest = rest'.
Proof. intros Hd%decode_complete Hd'%decode_complete. rewrite Hd in Hd'. by simplify_eq. Qed.

(** *** Consequences of the specification *)

Lemma wire_len f : 6 <= len (wire f).
Proof. destruct f; simpl wire; unfold header; len_lia. Qed.

Lemma decodes_wire_plain max f rest :
  (∀ x, f ≠ Compressed x) → frame_ok max f → decodes max (wire f ++ rest) (Ok (Some f)) rest.
Proof.
  destruct f as [n|seq data|inner|seq]; intros Hf; simpl wire; rewrite <- ?app_assoc.
  - by constructor.
  - intros (? & ? & ?). by constructor.
  - by destruct (Hf inner).
  - by constructor.
Qed.

Lemma decodes_wire `{!ZlibOk _} max f rest :
  usize max → frame_ok max f → decodes max (wire f ++ rest) (Ok (Some f)) rest.
Proof.
  intros Hmax. destruct f as [n|seq data|inner|seq]; try by apply decodes_wire_plain.
  intros (? & ? & ? & ?). simpl wire. rewrite <- ?app_assoc.
  constructor; [done..|]. by apply zlib_round_trip.
Qed.

Lemma decodes_extend max src r rest x :
  decodes max src r rest → r ≠ Ok None → decodes max (src ++ x) r (rest ++ x).
Proof.
  intros Hd Hr. destruct Hd; try done; rewrite <- ?app_assoc; by constructor.
Qed.

Lemma decodes_none max src rest : decodes max src (Ok None) rest → rest = src.
Proof. inversion 1; congruence. Qed.

Lemma decodes_some max src f rest :
  0 <= max → decodes max src (Ok (Some f)) rest →
  ∃ c, src = c ++ rest ∧ 6 <= len c <= 10 + max.
Proof.
  intros Hmax. inversion 1; subst;
    (rewrite ?app_assoc; eexists; split; [reflexivity|unfold header; len_lia]).
Qed.

Lemma decodes_err max src e rest :
  decodes max src (Err e) rest →
  rest = src ∨
  ∃ payload, src = header TYPE_COMPRESSED ++ be32 (len payload) ++ payload ++ rest ∧
             zlib_decompress payload max = Err e.
Proof.
  inversion 1; subst; try (by left). right.
  match goal with Hz : zlib_decompress ?p _ = Err _ |- _ => by exists p end.
Qed.

Lemma decodes_no_panic max src p rest : ¬ decodes max src (Panic p) rest.
Proof. inversion 1. Qed.

(** A proper prefix of an accepted encoding is an incomplete frame. *)
Lemma decodes_prefix `{!ZlibOk _} max f p q :
  usize max → frame_ok max f → wire f = p ++ q → q ≠ [] → decodes max p (Ok None) p.
Proof.
  intros Hmax Hf Hpq Hq. destruct (decodes_total max p Hmax) as (r & rest & Hp).
  destruct (decide (r = Ok None)) as [->|Hr]; [by rewrite (decodes_none _ _ _ Hp) in Hp|].
  pose proof (decodes_extend _ _ _ _ q Hp Hr) as Hpq'. rewrite <- Hpq in Hpq'.
  pose proof (decodes_wire max f [] Hmax Hf) as Hw. rewrite app_nil_r in Hw.
  destruct (decodes_det _ _ _ _ _ _ Hw Hpq') as [_ He].
  symmetry in He. by apply app_eq_nil in He as [_ ?].
Qed.

(** What a decoded frame satisfies. *)
Definition frame_wf (max : Z) (f : Frame) : Prop :=
  match f with
  | Window n | Ack n => u32 n
  | Json seq data => u32 seq ∧ u32 (len data) ∧ len data <= max
  | Compressed inner => feature_compression = true ∧ len inner <= max
  end.

Lemma decodes_wf max src f rest :
  usize max → decodes max src (Ok (Some f)) rest → frame_wf max f.
Proof.
  intros Hmax. inversion 1; subst; simpl; try done. split; [done|].
  match goal with Hz : zlib_decompress ?p _ = Ok _ |- _ =>
    pose proof (zlib_decompress_result p max Hmax) as Hr; rewrite Hz in Hr end.
  by inversion Hr.
Qed.

Lemma decodes_wire_inv max src f rest :
  decodes max src (Ok (Some f)) rest → (∀ x, f ≠ Compressed x) → src = wire f ++ rest.
Proof. inversion 1; subst; intros Hf; simpl wire; rewrite <- ?app_assoc; naive_solver. Qed.
End frame_correct.

#[export] Hint Resolve decodes_wire decodes_wf : lj.

(** ** Properties of the codec functions *)

Section frame_properties.
Context `{Zlib}.

(** C10. [decode_with_limit] implements the wire format: on every buffer its result and the
    buffer it leaves are those of the specification [decodes], and no others. *)
Theorem decode_implements_format max src r rest :
  usize max → decode_with_limit max src = (r, rest) ↔ decodes max src r rest.
Proof. apply decode_iff. Qed.

(** C11. Round trip: an accepted frame is encoded (after whatever the buffer held), and decoding
    its bytes, followed by any others, gives the frame back and leaves the others. *)
Theorem decode_encode `{!ZlibOk _} max f :
  usize max → frame_ok max f →
  ∃ bs, (∀ dst, encode f dst = (Ok tt, dst ++ bs)) ∧
        (∀ rest, decode_with_limit max (bs ++ rest) = (Ok (Some f), rest)).
Proof.
  intros Hmax Hf. exists (wire f). split.
  - intros dst. apply encode_wire. destruct f; simpl in *; tauto.
  - intros rest. apply decode_iff; auto with lj.
Qed.

(** C31. Decoding does not depend on how the stream is cut into reads: once a buffer gives a
    frame or an error, the same buffer with more bytes after it gives the same frame or error
    and leaves the same bytes followed by the new ones. *)
Theorem decode_chunking max src r rest more :
  usize max → decode_with_limit max src = (r, rest) → r ≠ Ok None →
  decode_with_limit max (src ++ more) = (r, rest ++ more).
Proof. intros Hmax Hd%decode_iff Hr; [|done]. by apply decode_iff, decodes_extend. Qed.

(** A proper prefix of an accepted frame's encoding is reported as incomplete and stays in
    the buffer. *)
Theorem decode_incomplete_frame `{!ZlibOk _} max f bs p q :
  usize max → frame_ok max f → encode f [] = (Ok tt, bs) → bs = p ++ q → q ≠ [] →
  decode_with_limit max p = (Ok None, p).
Proof.
  intros Hmax Hf He -> Hq. apply decode_iff; [done|].
  rewrite encode_wire in He by (destruct f; simpl in *; tauto).
  injection He as He. by eapply decodes_prefix.
Qed.

(** Decoding is safe and makes progress: it never panics; an incomplete frame leaves the
    buffer as it was; a frame consumes at least its header and at most the limit; an error leaves
    the buffer as it was, except that a frame whose payload does not inflate is consumed. *)
Theorem decode_consumption max src :
  usize max →
  match decode_with_limit max src with
  | (Ok None, rest) => rest = src
  | (Ok (Some _), rest) => ∃ c, src = c ++ rest ∧ 6 <= len c <= 10 + max
  | (Err e, rest) =>
      rest = src ∨
      ∃ payload, src = header TYPE_COMPRESSED ++ be32 (len payload) ++ payload ++ rest ∧
                 zlib_decompress payload max = Err e
  | (Panic _, _) => False
  end.
Proof.
  intros Hmax. destruct (decode_with_limit max src) as [r rest] eqn:Hd.
  apply decode_iff in Hd; [|done].
  destruct r as [[f|]|e|p].
  - apply decodes_some in Hd; [done|apply Hmax].
  - by apply decodes_none in Hd.
  - by apply decodes_err in Hd.
  - by apply decodes_no_panic in Hd.
Qed.

(** C32. A decoded frame is well formed: its integers fit in a [u32] and its payload (inflated,
    for a compressed frame) is within the limit. *)
Theorem decode_well_formed max src f rest :
  usize max → decode_with_limit max src = (Ok (Some f), rest) → frame_wf max f.
Proof. intros Hmax Hd%decode_iff; eauto with lj. Qed.

(** The encoding of window, data and ack frames is unique: what decodes to such a frame is
    exactly what [encode] writes for it. *)
Theorem decode_canonical max src f rest :
  usize max → decode_with_limit max src = (Ok (Some f), rest) → (∀ x, f ≠ Compressed x) →
  ∃ bs, encode f [] = (Ok tt, bs) ∧ src = bs ++ rest.
Proof.
  intros Hmax Hd%decode_iff Hf; [|done]. exists (wire f). split.
  - apply (encode_wire f []). destruct f; naive_solver.
  - by eapply decodes_wire_inv.
Qed.

(** An oversized frame is refused as soon as its length field is there: the error does not
    wait for the payload, reports the announced length, and consumes nothing. *)
Theorem decode_oversize_early max seq l payload :
  usize max → u32 seq → u32 l → max < l → feature_compression = true →
  let json := header TYPE_JSON ++ be32 seq ++ be32 l ++ payload in
  let comp := header TYPE_COMPRESSED ++ be32 l ++ payload in
  decode_with_limit max json = (Err (FrameTooLarge l max), json) ∧
  decode_with_limit max comp = (Err (FrameTooLarge l max), comp).
Proof. intros ?????. split; apply decode_iff; auto with lj. Qed.

(** C30. What a stream can hold: a buffer that the decoder leaves to grow is shorter than the limit and
    ten bytes, so a peer cannot make the receiver keep more than that, and the next read, before it
    gets a frame or an error; and the bound is exact, a data frame can need that much. *)
Theorem decode_buffer_bounded max :
  usize max →
  (∀ src rest, decode_with_limit max src = (Ok None, rest) → len src < max + 10) ∧
  (0 < max < 2 ^ 32 → ∃ src, decode_with_limit max src = (Ok None, src) ∧ len src = max + 9).
Proof.
  intros Hmax. split.
  - intros src rest Hd%decode_iff; [|done]. unfold usize in Hmax.
    inversion Hd; subst; unfold header in *; len_lia.
  - intros Hlt. set (body := replicate (Z.to_nat (max - 1)) x00).
    assert (Hb : len body = max - 1) by (unfold len, body; rewrite length_replicate; lia).
    exists (header TYPE_JSON ++ be32 0 ++ be32 max ++ body). split.
    + apply decode_iff; [done|]. apply decodes_json_wait; unfold u32; lia.
    + unfold header. len_lia.
Qed.

(** C29. Decompression is bounded: the loop stops before its fuel (the result is never the loop
    bound's panic); every turn adds to the output and the output never exceeds the limit, so
    there are at most [max] productive reads; the result is the inflated data when that is within
    the limit, and [FrameTooLarge] when it is not. *)
Theorem zlib_decompress_bounded input max :
  usize max →
  decompressed max (zlib_decompress input max) ∧
  (∀ n out d, reaches_in (loop_turn (decompress_turn max)) n ([], zdecoder_new input) (out, d) →
              Z.of_nat n <= len out <= max) ∧
  (∀ x, inflates_to 8192 (zdecoder_new input) x →
     if len x <=? max then zlib_decompress input max = Ok x
     else ∃ s, max < s ∧ zlib_decompress input max = Err (FrameTooLarge s max)).
Proof.
  intros Hmax. split; [by apply zlib_decompress_result|]. split.
  - intros n out d Hr. apply decompress_reaches_in in Hr; [|apply Hmax].
    cbn [fst] in Hr. rewrite len_nil in Hr. lia.
  - intros x Hx. destruct (len x <=? max) eqn:Hle; zbool.
    + by apply zlib_decompress_fits.
    + by eapply zlib_decompress_large.
Qed.
End frame_properties.

(** ** Witnesses *)

Definition sample_max : Z := 1024.
Definition sample_json : Frame := Json 7 [x7b; x7d].

Lemma sample_max_ok : usize sample_max.
Proof. split; vm_compute; congruence. Qed.
Lemma sample_json_ok : frame_ok sample_max sample_json.
Proof. repeat split; vm_compute; congruence. Qed.

Lemma decode_implements_format_witness :
  decode_with_limit sample_max (wire sample_json) = (Ok (Some sample_json), []) ∧
  decodes sample_max (wire sample_json) (Ok (Some sample_json)) [].
Proof.
  split; [vm_compute; reflexivity|].
  apply (decode_implements_format sample_max); [apply sample_max_ok|vm_compute; reflexivity].
Defined.

Lemma decode_encode_witness :
  ∃ bs, (∀ dst, encode (Compressed (wire sample_json)) dst = (Ok tt, dst ++ bs)) ∧
        (∀ rest, decode_with_limit sample_max (bs ++ rest) =
                 (Ok (Some (Compressed (wire sample_json))), rest)).
Proof.
  apply (decode_encode sample_max); [apply sample_max_ok|].
  repeat split; vm_compute; congruence.
Defined.

Lemma decode_chunking_witness :
  decode_with_limit sample_max (wire (Window 3) ++ [x32; x4a]) = (Ok (Some (Window 3)), [x32; x4a]).
Proof.
  apply (decode_chunking sample_max (wire (Window 3)) (Ok (Some (Window 3))) [] [x32; x4a]);
    [apply sample_max_ok|vm_compute; reflexivity|congruence].
Defined.

Lemma decode_incomplete_frame_witness :
  decode_with_limit sample_max (take 9 (wire sample_json)) = (Ok None, take 9 (wire sample_json)).
Proof.
  apply (decode_incomplete_frame sample_max sample_json (wire sample_json) _
    (drop 9 (wire sample_json)));
    [apply sample_max_ok|apply sample_json_ok|vm_compute; reflexivity| |vm_compute; congruence].
  vm_compute. reflexivity.
Defined.

Lemma decode_buffer_bounded_witness :
  (∀ src rest, decode_with_limit sample_max src = (Ok None, rest) → len src < sample_max + 10) ∧
  (0 < sample_max < 2 ^ 32 →
   ∃ src, decode_with_limit sample_max src = (Ok None, src) ∧ len src = sample_max + 9).
Proof. apply (decode_buffer_bounded sample_max). apply sample_max_ok. Defined.

Lemma decode_consumption_witness :
  usize sample_max ∧ ∃ c, wire sample_json = c ++ [] ∧ 6 <= len c <= 10 + sample_max.
Proof.
  split; [apply sample_max_ok|].
  pose proof (decode_consumption sample_max (wire sample_json) sample_max_ok) as Hc.
  vm_compute in Hc. vm_compute. exact Hc.
Defined.

Lemma decode_well_formed_witness : frame_wf sample_max sample_json.
Proof.
  apply (decode_well_formed sample_max (wire sample_json) sample_json []);
    [apply sample_max_ok|vm_compute; reflexivity].
Defined.

Lemma decode_canonical_witness :
  ∃ bs, encode sample_json [] = (Ok tt, bs) ∧ wire sample_json ++ [x32] = bs ++ [x32].
Proof.
  apply (decode_canonical sample_max (wire sample_json ++ [x32]) sample_json [x32]);
    [apply sample_max_ok|vm_compute; reflexivity|done].
Defined.

Lemma decode_oversize_early_witness :
  (let json := header TYPE_JSON ++ be32 0 ++ be32 2000 ++ [] in
   decode_with_limit sample_max json = (Err (FrameTooLarge 2000 sample_max), json)) ∧
  (let comp := header TYPE_COMPRESSED ++ be32 2000 ++ [] in
   decode_with_limit sample_max comp = (Err (FrameTooLarge 2000 sample_max), comp)).
Proof.
  apply (decode_oversize_early sample_max 0 2000 []); [apply sample_max_ok| | | |reflexivity];
    repeat split; vm_compute; congruence.
Defined.

Lemma zlib_decompress_bounded_witness :
  zlib_decompress (zlib_compress [x61; x62]) sample_max = Ok [x61; x62] ∧
  decompressed sample_max (zlib_decompress (zlib_compress [x61; x62]) sample_max).
Proof.
  split; [vm_compute; reflexivity|].
  apply (zlib_decompress_bounded (zlib_compress [x61; x62]) sample_max). apply sample_max_ok.
Defined.
