(* ===== verification/Codec.v ===== *)
(** * Codec: the tokio codec and the framed stream (src/src/codec.rs)

    [LumberjackCodec] with its constructors, [Decoder::decode] and [Encoder::encode].  Server and
    client use it through [tokio_util::codec::Framed], which is not part of the repository:
    [Framed] is its interface and [FramedOk] what it documents.  A framed stream decodes what it
    has received, reads more when the codec asks for more, and at the end of the stream reports
    bytes that are left over as an I/O error ([polls]), as long as the transport itself does not
    fail ([intact]); [feed] appends the encoding of a frame to what is written.  The properties
    show that through any such stream the frames a peer wrote come out as they were, however the
    bytes are cut into reads, and the first ones of them if the end is missing. *)

From S2P Require Import Prelude Errors Zlib Frame.

Record LumberjackCodec : Type := Codec { max_frame_size : Z }.

Definition codec_default : LumberjackCodec := Codec DEFAULT_MAX_FRAME_SIZE.
Definition codec_new : LumberjackCodec := codec_default.
Definition with_max_frame_size (n : Z) : LumberjackCodec := Codec n.

Section codec.
Context `{Zlib}.

Definition codec_decode (c : LumberjackCodec) : M bytes Error (option Frame) :=
  decode_with_limit (max_frame_size c).

Definition codec_encode (c : LumberjackCodec) (item : Frame) : M bytes Error unit :=
  encode item;; mret tt.

(** ** The framed stream *)

Definition bytes_remaining : Error := Io (IoError (OtherKind "Other") "bytes remaining on stream").

(** A poll of the read half, from the bytes received and not yet decoded and the reads to come,
    each a non-empty chunk, the last one being followed by the end of the stream. *)
Inductive polls (c : LumberjackCodec) :
  bytes * list bytes → option (outcome Error Frame) → bytes * list bytes → Prop :=
| polls_frame buf cs f rest :
    codec_decode c buf = (Ok (Some f), rest) → polls c (buf, cs) (Some (Ok f)) (rest, cs)
| polls_error buf cs e rest :
    codec_decode c buf = (Err e, rest) → polls c (buf, cs) (Some (Err e)) (rest, cs)
| polls_read buf buf' chunk cs r st :
    codec_decode c buf = (Ok None, buf') → polls c (buf' ++ chunk, cs) r st →
    polls c (buf, chunk :: cs) r st
| polls_eof buf :
    codec_decode c buf = (Ok None, []) → polls c (buf, []) None ([], [])
| polls_eof_partial buf buf' :
    codec_decode c buf = (Ok None, buf') → buf' ≠ [] →
    polls c (buf, []) (Some (Err bytes_remaining)) (buf', []).

Class Framed (F : Type) : Type := {
  framed_next : F → option (outcome Error Frame) * F;
  framed_feed : Frame → M F Error unit;
  framed_flush : M F Error unit;
  framed_close : M F Error unit;
}.

Class FramedOk (c : LumberjackCodec) (F : Type) `{Framed F} : Type := {
  received : F → bytes;
  incoming : F → list bytes;
  written : F → bytes;
  intact : F → Prop;
  framed_next_polls s r s' :
    intact s → framed_next s = (r, s') →
    polls c (received s, incoming s) r (received s', incoming s') ∧ written s' = written s ∧
    ∀ f, r = Some (Ok f) → intact s';
  framed_feed_written f s s' :
    framed_feed f s = (Ok tt, s') →
    ∃ bs, codec_encode c f [] = (Ok tt, bs) ∧ written s' = written s ++ bs;
}.

(** Successive calls of [next] that yield the frames [fs]. *)
Inductive nexts `{Framed F} : F → list Frame → F → Prop :=
| nexts_nil s : nexts s [] s
| nexts_cons s f s' fs s'' :
    framed_next s = (Some (Ok f), s') → nexts s' fs s'' → nexts s (f :: fs) s''.

(** Successive successful calls of [feed]. *)
Inductive feeds `{Framed F} : F → list Frame → F → Prop :=
| feeds_nil s : feeds s [] s
| feeds_cons s f s' fs s'' :
    framed_feed f s = (Ok tt, s') → feeds s' fs s'' → feeds s (f :: fs) s''.

(** The bytes of a list of frames. *)
Definition wires (fs : list Frame) : bytes := mjoin (wire <$> fs).

(** ** Facts about the codec and the stream *)

Lemma wires_cons f fs : wires (f :: fs) = wire f ++ wires fs.
Proof. done. Qed.

Lemma wires_app fs fs' : wires (fs ++ fs') = wires fs ++ wires fs'.
Proof. unfold wires. by rewrite fmap_app, join_app. Qed.

Lemma codec_encode_wire c f dst :
  encodable f → codec_encode c f dst = (Ok tt, dst ++ wire f).
Proof.
  intros Hf. unfold codec_encode. erewrite bind_ok by (by apply encode_wire). done.
Qed.

Lemma frame_ok_encodable max f : frame_ok max f → encodable f.
Proof. destruct f; simpl; tauto. Qed.

(** All the bytes a stream has and will have. *)
Definition pending (st : bytes * list bytes) : bytes := st.1 ++ mjoin st.2.

Lemma polls_decode c st r st' :
  usize (max_frame_size c) → polls c st r st' →
  match r with
  | Some (Ok f) => codec_decode c (pending st) = (Ok (Some f), pending st')
  | Some (Err e) =>
      codec_decode c (pending st) = (Err e, pending st') ∨
      e = bytes_remaining ∧ codec_decode c (pending st) = (Ok None, pending st) ∧ pending st ≠ []
  | Some (Panic _) => False
  | None => pending st = []
  end.
Proof.
  intros Hmax. unfold codec_decode.
  induction 1 as [buf cs f rest Hd|buf cs e rest Hd|buf buf' chunk cs r st Hd _ IH
                 |buf Hd|buf buf' Hd Hne]; unfold pending in *; cbn [fst snd] in *;
    apply decode_iff in Hd; try done.
  - by apply decode_iff, decodes_extend.
  - left. by apply decode_iff, decodes_extend.
  - apply decodes_none in Hd as ->. rewrite <- app_assoc in IH. exact IH.
  - apply decodes_none in Hd as <-. done.
  - pose proof (decodes_none _ _ _ Hd) as ->. right. simpl. rewrite app_nil_r.
    split; [done|]. split; [by apply decode_iff|done].
Qed.

(** A stream that will hold a frame followed by other bytes yields that frame next. *)
Lemma framed_next_frame `{!ZlibOk _} c `{FramedOk c F} s r s' f rest :
  usize (max_frame_size c) → frame_ok (max_frame_size c) f →
  pending (received s, incoming s) = wire f ++ rest →
  intact s → framed_next s = (r, s') →
  r = Some (Ok f) ∧ pending (received s', incoming s') = rest ∧ written s' = written s ∧
  intact s'.
Proof.
  intros Hmax Hf Hp Hs Hn. apply framed_next_polls in Hn as (Hn & Hw & Hi); [|done].
  apply polls_decode in Hn; [|done].
  assert (Hd : codec_decode c (wire f ++ rest) = (Ok (Some f), rest))
    by (apply decode_iff; auto with lj).
  rewrite Hp in Hn.
  destruct r as [[g|e|p]|]; [|destruct Hn as [Hn|(_ & Hn & _)]|done|].
  1-3: rewrite Hd in Hn; simplify_eq; by eauto.
  exfalso. destruct f; discriminate Hn.
Qed.

(** At the end of the bytes the stream ends. *)
Lemma framed_next_end c `{FramedOk c F} s r s' :
  usize (max_frame_size c) → pending (received s, incoming s) = [] →
  intact s → framed_next s = (r, s') → r = None.
Proof.
  intros Hmax Hp Hs Hn. apply framed_next_polls in Hn as [Hn _]; [|done].
  apply polls_decode in Hn; [|done]. rewrite Hp in Hn.
  destruct r as [[g|e|p]|]; [|destruct Hn as [Hn|(_ & _ & Hn)]|..]; done.
Qed.

Lemma nexts_wires `{!ZlibOk _} c `{FramedOk c F} s fs rest :
  usize (max_frame_size c) → Forall (frame_ok (max_frame_size c)) fs →
  pending (received s, incoming s) = wires fs ++ rest → intact s →
  ∃ s', nexts s fs s' ∧ pending (received s', incoming s') = rest ∧ written s' = written s ∧
    intact s'.
Proof.
  intros Hmax Hfs. revert s. induction Hfs as [|f fs Hf Hfs IH]; intros s Hp Hs.
  - exists s. split; [constructor|done].
  - destruct (framed_next s) as [r s1] eqn:Hn. unfold wires in Hp. simpl in Hp.
    rewrite <- app_assoc in Hp.
    destruct (framed_next_frame c s r s1 f _ Hmax Hf Hp Hs Hn) as (-> & Hp1 & Hw1 & Hs1).
    destruct (IH s1 Hp1 Hs1) as (s' & Hns & Hp' & Hw' & Hs'). exists s'.
    split; [by econstructor|]. split; [done|]. split; [congruence|done].
Qed.

(** A decoder that holds the first bytes of some frames yields the first of them, or nothing. *)
Lemma decode_next_wire `{!ZlibOk _} c buf more fs f rest :
  usize (max_frame_size c) → Forall (frame_ok (max_frame_size c)) fs →
  buf ++ more = wires fs → codec_decode c buf = (Ok (Some f), rest) →
  ∃ fs', fs = f :: fs' ∧ rest ++ more = wires fs'.
Proof.
  intros Hmax Hfs Hbuf Hd. apply decode_iff in Hd; [|done].
  apply (decodes_extend _ _ _ _ more) in Hd; [|done]. rewrite Hbuf in Hd.
  destruct Hfs as [|g fs Hg Hfs].
  - apply decode_iff in Hd; [|done]. discriminate Hd.
  - rewrite wires_cons in Hd.
    pose proof (decodes_wire (max_frame_size c) g (wires fs) Hmax Hg) as Hw.
    destruct (decodes_det _ _ _ _ _ _ Hd Hw) as [[= ->] ->]. by exists fs.
Qed.

(** Nor does it report an error. *)
Lemma decode_wire_ok `{!ZlibOk _} c buf more fs r rest :
  usize (max_frame_size c) → Forall (frame_ok (max_frame_size c)) fs →
  buf ++ more = wires fs → codec_decode c buf = (r, rest) → ∃ o, r = Ok o.
Proof.
  intros Hmax Hfs Hbuf Hd. apply decode_iff in Hd; [|done].
  destruct r as [o|e|p]; [by eexists|exfalso|by apply decodes_no_panic in Hd].
  apply (decodes_extend _ _ _ _ more) in Hd; [|done]. rewrite Hbuf in Hd.
  destruct Hfs as [|g fs Hg Hfs].
  - apply decode_iff in Hd; [|done]. discriminate Hd.
  - rewrite wires_cons in Hd.
    pose proof (decodes_wire (max_frame_size c) g (wires fs) Hmax Hg) as Hw.
    by destruct (decodes_det _ _ _ _ _ _ Hd Hw) as [? _].
Qed.

(** What a stream yields is a part of what was written, even if the end of it is missing. *)
Lemma nexts_prefix `{!ZlibOk _} c `{FramedOk c F} s fs s' gs lost :
  usize (max_frame_size c) → Forall (frame_ok (max_frame_size c)) fs → intact s →
  pending (received s, incoming s) ++ lost = wires fs → nexts s gs s' → gs `prefix_of` fs.
Proof.
  intros Hmax Hfs Hs Hp Hn. revert fs Hfs Hs Hp.
  induction Hn as [s|s g s1 gs s' Hg _ IH]; intros fs Hfs Hs Hp; [apply prefix_nil|].
  apply framed_next_polls in Hg as (Hg & _ & Hi); [|done]. apply polls_decode in Hg; [|done].
  destruct (decode_next_wire c _ _ _ _ _ Hmax Hfs Hp Hg) as (fs' & -> & Hp').
  apply Forall_cons in Hfs as [_ Hfs]. apply prefix_cons. eapply IH; [done|by eapply Hi|done].
Qed.

Lemma feeds_written c `{FramedOk c F} s fs s' :
  feeds s fs s' → Forall encodable fs ∧ written s' = written s ++ wires fs.
Proof.
  induction 1 as [s|s f s1 fs s' Hf _ [IH1 IH2]]; [by rewrite app_nil_r|].
  apply framed_feed_written in Hf as (bs & He & Hw).
  assert (Henc : encodable f).
  { destruct f; simpl; try done. unfold codec_encode, encode in He. simpl in He.
    by destruct feature_compression. }
  rewrite codec_encode_wire in He by done. injection He as <-.
  split; [by constructor|]. rewrite IH2, Hw. unfold wires. simpl. by rewrite app_assoc.
Qed.
End codec.

#[export] Hint Resolve frame_ok_encodable : lj.

(** ** A stream given by a script of reads

    The instance with which the theorems about framed streams are instantiated. *)
Record Script : Type := { s_buffer : bytes; s_reads : list bytes; s_written : bytes }.

Section script.
Context `{Zlib}.

Fixpoint script_poll (c : LumberjackCodec) (buf : bytes) (cs : list bytes) :
  option (outcome Error Frame) * (bytes * list bytes) :=
  match codec_decode c buf with
  | (Ok (Some f), rest) => (Some (Ok f), (rest, cs))
  | (Err e, rest) => (Some (Err e), (rest, cs))
  | (Panic p, rest) => (Some (Panic p), (rest, cs))
  | (Ok None, buf') =>
      match cs with
      | chunk :: cs' => script_poll c (buf' ++ chunk) cs'
      | [] => if bool_decide (buf' = []) then (None, ([], [])) else
              (Some (Err bytes_remaining), (buf', []))
      end
  end.

Definition script_next (c : LumberjackCodec) (s : Script) :
  option (outcome Error Frame) * Script :=
  let '(r, (buf, cs)) := script_poll c (s_buffer s) (s_reads s) in
  (r, {| s_buffer := buf; s_reads := cs; s_written := s_written s |}).

Definition script_feed (c : LumberjackCodec) (f : Frame) : M Script Error unit := λ s,
  let '(r, out) := codec_encode c f (s_written s) in
  (r, {| s_buffer := s_buffer s; s_reads := s_reads s; s_written := out |}).

Definition script_framed (c : LumberjackCodec) : Framed Script := {|
  framed_next := script_next c;
  framed_feed := script_feed c;
  framed_flush := mret tt;
  framed_close := mret tt;
|}.

Lemma script_poll_polls c buf cs r st :
  usize (max_frame_size c) → script_poll c buf cs = (r, st) → polls c (buf, cs) r st.
Proof.
  intros Hmax. revert buf. induction cs as [|chunk cs IH]; intros buf; simpl;
    destruct (codec_decode c buf) as [[[f|]|e|p] rest] eqn:Hd.
  all: try (by injection 1 as <- <-; constructor).
  all: try (by apply decode_iff, decodes_no_panic in Hd).
  - case_bool_decide; injection 1 as <- <-; [subst; by apply polls_eof|].
    by eapply polls_eof_partial.
  - intros Hp. eapply polls_read; eauto.
Qed.

Lemma script_feed_written c f s s' :
  script_feed c f s = (Ok tt, s') →
  ∃ bs, codec_encode c f [] = (Ok tt, bs) ∧ s_written s' = s_written s ++ bs.
Proof.
  unfold script_feed. intros Hf. exists (wire f).
  assert (Henc : encodable f).
  { destruct f; simpl; try done. unfold codec_encode, encode in Hf. simpl in Hf.
    by destruct feature_compression. }
  rewrite codec_encode_wire in Hf |- * by done. by injection Hf as <-.
Qed.

Lemma script_next_polls c s r s' :
  usize (max_frame_size c) → script_next c s = (r, s') →
  polls c (s_buffer s, s_reads s) r (s_buffer s', s_reads s') ∧ s_written s' = s_written s ∧
  ∀ f, r = Some (Ok f) → True.
Proof.
  intros Hmax. unfold script_next.
  destruct (script_poll c (s_buffer s) (s_reads s)) as [r1 [buf cs]] eqn:Hp.
  injection 1 as <- <-. split; [by apply script_poll_polls|done].
Qed.

Definition script_ok (c : LumberjackCodec) (Hmax : usize (max_frame_size c)) :
  @FramedOk _ c Script (script_framed c) :=
  @Build_FramedOk _ c Script (script_framed c) s_buffer s_reads s_written (λ _, True)
    (λ s r s' _, script_next_polls c s r s' Hmax) (script_feed_written c).
End script.

(** ** Properties *)

(** C12. What one end feeds, the other end reads.  If the bytes that arrive, however they are cut
    into reads, are the first bytes of those written for the frames [fs], and the receiver accepts
    these frames, then successive calls of [next] yield the first frames of [fs], in order and
    unchanged, and never anything else; if no byte is missing they can yield all of them, and then
    the end of the stream. *)
Theorem framed_transfer {zlib : Zlib} `{!ZlibOk zlib} c1 `{!Framed F1} `{!FramedOk c1 F1}
    c2 `{!Framed F2} `{!FramedOk c2 F2} (s s' : F1) (t : F2) fs lost :
  usize (max_frame_size c2) → Forall (frame_ok (max_frame_size c2)) fs →
  feeds s fs s' → written s = [] →
  intact t → pending (received t, incoming t) ++ lost = written s' →
  (∀ gs t', nexts t gs t' → gs `prefix_of` fs) ∧
  (lost = [] → ∃ t', nexts t fs t' ∧ (framed_next t').1 = None).
Proof.
  intros Hmax Hfs Hfeed Hw Ht Hp. apply (feeds_written c1) in Hfeed as [_ Hw'].
  rewrite Hw', Hw in Hp. split; [intros gs t'; by apply (nexts_prefix c2 t fs t' gs lost)|].
  intros ->. rewrite app_nil_r in Hp. simpl in Hp. rewrite <- (app_nil_r (wires fs)) in Hp.
  destruct (nexts_wires c2 t fs [] Hmax Hfs Hp Ht) as (t' & Hns & Hp' & _ & Ht'). exists t'.
  split; [done|]. destruct (framed_next t') as [r t''] eqn:Hn. simpl.
  by eapply (framed_next_end c2).
Qed.

(** Encoding through the codec never reports an error and appends the frame's bytes; it
    panics for one frame only, a compressed one in a build without the [compression] feature, and
    then it writes nothing. *)
Theorem codec_encode_total `{Zlib} c f dst :
  codec_encode c f dst =
  match f with
  | Compressed _ =>
      if feature_compression then (Ok tt, dst ++ wire f)
      else (Panic "compression feature disabled", dst)
  | _ => (Ok tt, dst ++ wire f)
  end.
Proof.
  destruct f as [n|s d|x|n]; try (by apply codec_encode_wire).
  destruct feature_compression eqn:Hf; [by apply codec_encode_wire|].
  unfold codec_encode, encode. by rewrite Hf.
Qed.

(** ** Witness *)

Definition sample_codec : LumberjackCodec := with_max_frame_size sample_max.
Definition sample_frames : list Frame := [Window 2; sample_json; Compressed (wire sample_json)].

(** The bytes of the sample, one per read, and the same without the last one. *)
Definition sample_reader (n : nat) : Script :=
  {| s_buffer := []; s_reads := (λ b, [b]) <$> take n (wires sample_frames); s_written := [] |}.

Definition sample_cut : nat := length (wires sample_frames) - 1.

Lemma framed_transfer_witness :
  (∀ gs t', @nexts Script (script_framed sample_codec) (sample_reader sample_cut) gs t' →
     gs `prefix_of` sample_frames) ∧
  (drop sample_cut (wires sample_frames) = [] →
   ∃ t', @nexts Script (script_framed sample_codec) (sample_reader sample_cut) sample_frames t' ∧
     (@framed_next Script (script_framed sample_codec) t').1 = None).
Proof.
  apply (@framed_transfer StoredZlib _ sample_codec Script (script_framed sample_codec)
    (script_ok sample_codec sample_max_ok) sample_codec Script (script_framed sample_codec)
    (script_ok sample_codec sample_max_ok)
    {| s_buffer := []; s_reads := []; s_written := [] |}
    {| s_buffer := []; s_reads := []; s_written := wires sample_frames |}).
  - apply sample_max_ok.
  - repeat (apply Forall_cons; split); try (by apply Forall_nil);
      repeat split; vm_compute; congruence.
  - repeat (eapply feeds_cons; [vm_compute; reflexivity|]). apply feeds_nil.
  - reflexivity.
  - exact I.
  - vm_compute. reflexivity.
Defined.
