(* ===== verification/Task.v ===== *)
(** * Task: async functions as state machines

    An async function runs from one [await] to the next.  Its translation has a type of states
    [C], one constructor per await point with the locals that are live there, and a function
    [resume] that runs the code from the await point, once the awaited call is ready with an input
    [I], up to the next await; [None] says that the awaited call cannot return that input.  [run]
    executes a task on a list of inputs; [exec] is the same as a relation that keeps the trace. *)

From S2P Require Import Prelude.

Section task.
Context {C I : Type} (resume : C → I → option C).

Fixpoint run (c : C) (l : list I) : option C :=
  match l with
  | [] => Some c
  | i :: l' => c' ← resume c i; run c' l'
  end.

Inductive exec : C → list (C * I) → C → Prop :=
| exec_nil c : exec c [] c
| exec_cons c i c' t c'' :
    resume c i = Some c' → exec c' t c'' → exec c ((c, i) :: t) c''.

Lemma run_app c l l' : run c (l ++ l') = (c' ← run c l; run c' l').
Proof.
  revert c. induction l as [|i l IH]; intros c; [done|]. simpl.
  destruct (resume c i) as [c1|]; simpl; [apply IH|done].
Qed.

Lemma run_exec c l c' : run c l = Some c' → ∃ t, exec c t c' ∧ t.*2 = l.
Proof.
  revert c. induction l as [|i l IH]; intros c; simpl; intros Hr.
  - injection Hr as ->. exists []. split; [constructor|done].
  - destruct (resume c i) as [c1|] eqn:Hs; [|done].
    destruct (IH c1 Hr) as (t & Ht & <-). exists ((c, i) :: t).
    split; [by econstructor|done].
Qed.

Lemma exec_run c t c' : exec c t c' → run c t.*2 = Some c'.
Proof. induction 1 as [|c i c1 t c' Hs _ IH]; simpl; [done|]. by rewrite Hs. Qed.

Lemma exec_snoc c t c1 i c' :
  exec c t c1 → resume c1 i = Some c' → exec c (t ++ [(c1, i)]) c'.
Proof. induction 1; simpl; intros; econstructor; eauto; constructor. Qed.

Lemma exec_trans c t c1 t' c' : exec c t c1 → exec c1 t' c' → exec c (t ++ t') c'.
Proof. induction 1; simpl; [done|]. intros. econstructor; eauto. Qed.

(** The execution on a list of inputs, up to the first one that is not accepted. *)
Fixpoint trace (c : C) (l : list I) : list (C * I) :=
  match l with
  | [] => []
  | i :: l' =>
      match resume c i with
      | Some c' => (c, i) :: trace c' l'
      | None => []
      end
  end.

Lemma run_trace c l c' : run c l = Some c' → exec c (trace c l) c'.
Proof.
  revert c. induction l as [|i l IH]; intros c; simpl.
  - intros [= ->]. constructor.
  - destruct (resume c i) as [c1|] eqn:Hs; [|done]. simpl. intros Hr. econstructor; eauto.
Qed.

(** An execution does nothing or has a last step. *)
Lemma exec_last c t c' :
  exec c t c' →
  (t = [] ∧ c = c') ∨
  ∃ t' c1 i, t = t' ++ [(c1, i)] ∧ exec c t' c1 ∧ resume c1 i = Some c'.
Proof.
  induction 1 as [c|c i c1 t c' Hr Hx IH]; [by left|right].
  destruct IH as [[-> <-]|(t' & c2 & j & -> & Hx' & Hr')].
  - exists [], c, i. split; [done|]. split; [constructor|done].
  - exists ((c, i) :: t'), c2, j. split; [done|]. split; [by econstructor|done].
Qed.

(** Induction on an execution from its end. *)
Lemma exec_ind_last (c0 : C) (P : list (C * I) → C → Prop) :
  P [] c0 →
  (∀ t c i c', exec c0 t c → P t c → resume c i = Some c' → P (t ++ [(c, i)]) c') →
  ∀ t c, exec c0 t c → P t c.
Proof.
  intros H0 Hstep t. induction t as [|x t IH] using rev_ind; intros c Hx.
  - inversion Hx. by subst.
  - destruct (exec_last _ _ _ Hx) as [[Ht _]|(t' & c1 & i & Ht & Hx' & Hr)].
    + apply (f_equal length) in Ht. rewrite length_app in Ht. simpl in Ht. lia.
    + apply app_inj_tail in Ht as [-> ->]. eauto.
Qed.

(** What every step preserves, given what is known of the inputs, every execution preserves. *)
Lemma exec_preserves (P : C → Prop) (Q : I → Prop) c t c' :
  (∀ c i c', P c → Q i → resume c i = Some c' → P c') →
  P c → Forall Q t.*2 → exec c t c' → P c'.
Proof.
  intros Hstep HP HQ Hx. induction Hx as [|c i c1 t c' Hs _ IH]; [done|].
  apply Forall_cons in HQ as [Hi HQ]. eauto.
Qed.
End task.
