(* ===== verification/Batch.v ===== *)
(** * Batch: a received batch and its acknowledgement (src/src/server.rs, [Batch])

    A [Batch] owns the sending half of a oneshot channel.  A channel is named by a number and the
    values sent are logged, in order, in the state of [M]: [oneshot_send] is
    [let _ = tx.send(v)], which consumes the sender and ignores a receiver that is gone.  Rust
    drops an owned value at the end of its scope, so [ack] and [into_events] end with [Drop]. *)

From S2P Require Import Prelude Errors.

Abbreviation chan := nat.

Record Batch : Type := MkBatch {
  events : list bytes;
  last_seq : Z;
  ack_tx : option chan;
}.

#[export] Instance Batch_eq_dec : EqDecision Batch.
Proof. solve_decision. Defined.

Definition oneshot_send (tx : chan) (v : Z) : M (list (chan * Z)) Error unit :=
  λ sent, (Ok tt, sent ++ [(tx, v)]).

Definition batch_new (events : list bytes) (last_seq : Z) (ack : chan) : Batch :=
  MkBatch events last_seq (Some ack).

Definition batch_events (b : Batch) : list bytes := events b.
Definition batch_len (b : Batch) : Z := len (events b).
Definition batch_is_empty (b : Batch) : bool := batch_len b =? 0.

(** [impl Drop for Batch] *)
Definition batch_drop (b : Batch) : M (list (chan * Z)) Error unit :=
  match ack_tx b with
  | Some tx => oneshot_send tx (last_seq b)
  | None => mret tt
  end.

(** [Batch::ack]: take the sender, send, drop what is left. *)
Definition batch_ack (b : Batch) : M (list (chan * Z)) Error unit :=
  match ack_tx b with
  | Some tx => oneshot_send tx (last_seq b)
  | None => mret tt
  end;;
  batch_drop (MkBatch (events b) (last_seq b) None).

(** [Batch::into_events]: take the events, drop what is left. *)
Definition batch_into_events (b : Batch) : M (list (chan * Z)) Error (list bytes) :=
  let taken := events b in
  batch_drop (MkBatch [] (last_seq b) (ack_tx b));;
  mret taken.

(** The ways a consumer can dispose of a batch it owns. *)
Inductive disposal : Type := ByAck | ByDrop | ByIntoEvents.

Definition dispose (d : disposal) (b : Batch) : M (list (chan * Z)) Error (list bytes) :=
  match d with
  | ByAck => batch_ack b;; mret []
  | ByDrop => batch_drop b;; mret []
  | ByIntoEvents => batch_into_events b
  end.

(** However the consumer disposes of a batch (explicit ack, drop, or taking the events out),
    exactly one acknowledgement is sent, it goes to the batch's own channel and carries the
    sequence number of the last event; only [into_events] hands the events out, all of them. *)
Theorem batch_acked_once d evs seq tx sent :
  dispose d (batch_new evs seq tx) sent =
    (Ok (match d with ByIntoEvents => evs | _ => [] end), sent ++ [(tx, seq)]).
Proof. by destruct d. Qed.
