(* ===== verification/Connection.v ===== *)
(** * Connection: the per-connection state machine (src/src/server.rs, [run_connection])

    [run_connection] is an async function: it runs from one [await] to the next.  [conn_state] has
    one constructor per await point, carrying the locals that are live there; [request] is what
    the task awaits in a state; [resume] is the code that runs when the awaited future is ready
    with an [input], up to the next await or the return.  The synchronous code between the awaits
    is translated directly: [accept_json] is the treatment of a data frame (twice in the source:
    outside and inside a compressed frame), [drain] the loop over a compressed payload, [on_frame]
    the body of the loop that fills a window.

    Nothing is assumed of the network, of the channel to the consumer or of the timer: an input
    is any result the awaited call may give. *)

From S2P Require Import Prelude Errors Zlib Frame Codec Batch Task.

Record ConnectionConfig : Type := ConnConfig {
  cfg_max_frame_size : Z;
  cfg_keepalive : option Z;
}.

(** The locals of the window loop: [events], [received], [last_seq], [prev_seq]. *)
Record WindowState : Type := WS {
  w_events : list bytes;
  w_received : Z;
  w_last_seq : Z;
  w_prev_seq : Z;
}.

Definition window_start : WindowState := WS [] 0 0 0.

(** The await points of [run_connection]; [rx] is the receiver of the batch's oneshot. *)
Inductive conn_state : Type :=
| AwaitWindow
| AwaitFrame (window : Z) (w : WindowState)
| AwaitDispatch (b : Batch) (rx : chan)
| AwaitAck (last_seq : Z) (rx : chan)
| AwaitKeepalive (last_seq : Z) (rx : chan)
| AwaitAckSent (acked : Z)
| Finished (r : outcome Error unit).

(** The task: where it is, and how many oneshot channels it has created. *)
Record conn : Type := Conn { c_state : conn_state; c_chans : nat }.

Definition conn_start : conn := Conn AwaitWindow 0.

(** What an awaited call returned. *)
Inductive input : Type :=
| InNext (item : option (outcome Error Frame))  (* framed.next() *)
| InDispatched (received : bool)                (* out.send(batch): is there a receiver? *)
| InAck (r : option Z)                          (* the oneshot: a value, or sender dropped *)
| InElapsed                                     (* tokio::time::sleep(interval) *)
| InSent (r : outcome Error unit).              (* framed.send(frame) *)

(** What the task is awaiting. *)
Inductive request : Type :=
| ReqNext
| ReqDispatch (b : Batch)
| ReqAck (rx : chan) (keepalive : option Z)
| ReqSend (f : Frame)
| ReqReturn (r : outcome Error unit).

#[export] Instance WindowState_eq_dec : EqDecision WindowState.
Proof. solve_decision. Defined.
#[export] Instance conn_state_eq_dec : EqDecision conn_state.
Proof. solve_decision. Defined.
#[export] Instance conn_eq_dec : EqDecision conn.
Proof. solve_decision. Defined.
#[export] Instance request_eq_dec : EqDecision request.
Proof. solve_decision. Defined.

Section connection.
Context `{Zlib}.
Context (cfg : ConnectionConfig).

(** ** The code between the awaits *)

(** A data frame: check the order, then record it. *)
Definition accept_json (seq : Z) (data : bytes) : M WindowState Error unit :=
  w ← get;
  if seq <=? w_prev_seq w then throw (SeqOutOfOrder seq (w_prev_seq w))
  else put (WS (w_events w ++ [data]) (wrap32 (w_received w + 1)) seq seq).

(** One turn of [while !buf.is_empty() && received < window]. *)
Definition drain_turn (window : Z) (buf : bytes) : M WindowState Error (bytes + unit) :=
  w ← get;
  if negb (len buf =? 0) && (w_received w <? window) then
    let '(r, buf') := decode_with_limit (cfg_max_frame_size cfg) buf in
    inner_frame ← lift r;
    match inner_frame with
    | Some (Json seq data) => accept_json seq data;; mret (inl buf')
    | Some _ => throw (UnexpectedFrame "compressed payload must contain only J frames")
    | None => throw (InvalidFrame "compressed payload truncated")
    end
  else mret (inr tt).

Definition drain (window : Z) (inner : bytes) : M WindowState Error unit :=
  loopM (length inner) (drain_turn window) inner.

(** [match frame] in the window loop. *)
Definition on_frame (window : Z) (f : Frame) : M WindowState Error unit :=
  match f with
  | Json seq data => accept_json seq data
  | Compressed inner => drain window inner
  | Window _ | Ack _ => throw (UnexpectedFrame "expected J or C inside window")
  end.

(** The test of [while received < window], and the code after the loop up to [out.send]. *)
Definition window_loop (window : Z) (w : WindowState) (chans : nat) : conn :=
  if w_received w <? window then Conn (AwaitFrame window w) chans
  else Conn (AwaitDispatch (batch_new (w_events w) (w_last_seq w) chans) chans) (S chans).

(** ** The state machine *)

Definition request_of (c : conn) : request :=
  match c_state c with
  | AwaitWindow | AwaitFrame _ _ => ReqNext
  | AwaitDispatch b _ => ReqDispatch b
  | AwaitAck _ rx => ReqAck rx (cfg_keepalive cfg)
  | AwaitKeepalive _ _ => ReqSend (Ack 0)
  | AwaitAckSent acked => ReqSend (Ack acked)
  | Finished r => ReqReturn r
  end.

(** [None]: the awaited call cannot return that. *)
Definition resume (c : conn) (i : input) : option conn :=
  let goto st := Some (Conn st (c_chans c)) in
  match c_state c, i with
  | AwaitWindow, InNext item =>
      match item with
      | Some (Ok (Window n)) => Some (window_loop n window_start (c_chans c))
      | Some (Ok _) => goto (Finished (Err (UnexpectedFrame "expected Window at batch start")))
      | Some (Err e) => goto (Finished (Err e))
      | Some (Panic p) => goto (Finished (Panic p))
      | None => goto (Finished (Ok tt))
      end
  | AwaitFrame window w, InNext item =>
      match item with
      | Some (Ok f) =>
          match on_frame window f w with
          | (Ok _, w') => Some (window_loop window w' (c_chans c))
          | (Err e, _) => goto (Finished (Err e))
          | (Panic p, _) => goto (Finished (Panic p))
          end
      | Some (Err e) => goto (Finished (Err e))
      | Some (Panic p) => goto (Finished (Panic p))
      | None => goto (Finished (Err ConnectionClosed))
      end
  | AwaitDispatch b rx, InDispatched received =>
      if received then goto (AwaitAck (last_seq b) rx) else goto (Finished (Ok tt))
  | AwaitAck last_seq rx, InAck r =>
      match r with
      | Some seq => goto (AwaitAckSent seq)
      | None => goto (AwaitAckSent last_seq)
      end
  | AwaitAck last_seq rx, InElapsed =>
      match cfg_keepalive cfg with
      | Some _ => goto (AwaitKeepalive last_seq rx)
      | None => None
      end
  | AwaitKeepalive last_seq rx, InSent r =>
      match r with
      | Ok _ => goto (AwaitAck last_seq rx)
      | _ => goto (Finished r)
      end
  | AwaitAckSent _, InSent r =>
      match r with
      | Ok _ => goto AwaitWindow
      | _ => goto (Finished r)
      end
  | _, _ => None
  end.

(** The slots of the vector of the events: [Vec::with_capacity(window)] when the window opens. *)
Definition event_slots (c : conn) : Z :=
  match c_state c with
  | AwaitFrame window _ => window
  | _ => 0
  end.

(** What a run did: the batches it handed over, and the frames it sent. *)
Definition dispatched_by (x : conn * input) : list Batch :=
  match request_of x.1, x.2 with
  | ReqDispatch b, InDispatched true => [b]
  | _, _ => []
  end.

Definition sent_by (x : conn * input) : list Frame :=
  match request_of x.1, x.2 with
  | ReqSend f, InSent (Ok _) => [f]
  | _, _ => []
  end.

(** Every frame it handed to [framed.send], which then ended in whatever way: of a [send] that
    failed the bytes may have been written, all or in part. *)
Definition written_by (x : conn * input) : list Frame :=
  match request_of x.1, x.2 with
  | ReqSend f, InSent _ => [f]
  | _, _ => []
  end.

Definition dispatched (t : list (conn * input)) : list Batch := t ≫= dispatched_by.
Definition sent (t : list (conn * input)) : list Frame := t ≫= sent_by.
Definition written (t : list (conn * input)) : list Frame := t ≫= written_by.

(** An acknowledgement that comes through the oneshot carries the batch's [last_seq], as every
    disposal of a [Batch] sends it. *)
Definition honest (x : conn * input) : Prop :=
  match c_state x.1, x.2 with
  | AwaitAck last_seq _, InAck (Some v) => v = last_seq
  | _, _ => True
  end.
End connection.

(** Runs of a connection, and the relation of their steps. *)
Abbreviation run cfg := (Task.run (resume cfg)).
Abbreviation exec cfg := (Task.exec (resume cfg)).

(** ** What a window holds

    Specification: a data frame carries one item, a compressed frame the items of the data frames
    it was made of; the items of a window must have increasing sequence numbers, starting above
    0. *)

Abbreviation item := (Z * bytes)%type.

Definition json_of (it : item) : Frame := Json it.1 it.2.

Definition item_ok `{Zlib} (max : Z) (it : item) : Prop := frame_ok max (json_of it).

Inductive carries `{Zlib} (max : Z) : Frame → list item → Prop :=
| carries_json seq data : carries max (Json seq data) [(seq, data)]
| carries_compressed l :
    Forall (item_ok max) l → carries max (Compressed (wires (json_of <$> l))) l.

Fixpoint increasing (prev : Z) (l : list item) : Prop :=
  match l with
  | [] => True
  | (seq, _) :: l' => prev < seq ∧ increasing seq l'
  end.

(** The sequence number of the last item, [prev] if there is none. *)
Definition seq_after (prev : Z) (l : list item) : Z := foldl (λ _ it, it.1) prev l.

(** The window after the items [l]. *)
Definition after (l : list item) (w : WindowState) : WindowState :=
  WS (w_events w ++ (snd <$> l)) (w_received w + len l)
    (seq_after (w_last_seq w) l) (seq_after (w_prev_seq w) l).

Fixpoint accept_items (l : list item) : M WindowState Error unit :=
  match l with
  | [] => mret tt
  | (seq, data) :: l' => accept_json seq data;; accept_items l'
  end.

Section items.
Context `{Zlib}.

Lemma after_nil w : after [] w = w.
Proof. destruct w. unfold after. simpl. by rewrite app_nil_r, len_nil, Z.add_0_r. Qed.

Lemma after_app l l' w : after l' (after l w) = after (l ++ l') w.
Proof.
  unfold after, seq_after. simpl. rewrite fmap_app, !foldl_app, len_app, app_assoc.
  f_equal; lia.
Qed.

Lemma seq_after_app p l l' : seq_after p (l ++ l') = seq_after (seq_after p l) l'.
Proof. unfold seq_after. by rewrite foldl_app. Qed.

Lemma increasing_app p l l' :
  increasing p (l ++ l') ↔ increasing p l ∧ increasing (seq_after p l) l'.
Proof.
  revert p. induction l as [|[s d] l IH]; intros p; simpl; [tauto|]. rewrite IH. simpl. tauto.
Qed.

(** Items are increasing, or there is a first one that is not. *)
Lemma increasing_split p l :
  increasing p l ∨
  ∃ l1 s d l2, l = l1 ++ (s, d) :: l2 ∧ increasing p l1 ∧ s <= seq_after p l1.
Proof.
  revert p. induction l as [|[s d] l IH]; intros p; [by left|].
  destruct (decide (p < s)) as [Hs|Hs].
  - destruct (IH s) as [Hi|(l1 & s' & d' & l2 & -> & Hi & Hle)]; [by left|].
    right. by exists ((s, d) :: l1), s', d', l2.
  - right. exists [], s, d, l. simpl. split; [done|]. split; [done|lia].
Qed.

Lemma accept_json_ok s d w :
  0 <= w_received w < 2 ^ 32 - 1 → w_prev_seq w < s →
  accept_json s d w = (Ok tt, after [(s, d)] w).
Proof.
  intros Hr Hs. unfold accept_json. erewrite bind_ok by reflexivity.
  rewrite (proj2 (Z.leb_gt _ _)) by lia. unfold put, after, seq_after. simpl.
  rewrite wrap32_small by (unfold u32; lia). by rewrite len_cons, len_nil.
Qed.

Lemma accept_json_err s d w :
  s <= w_prev_seq w → accept_json s d w = (Err (SeqOutOfOrder s (w_prev_seq w)), w).
Proof.
  intros Hs. unfold accept_json. erewrite bind_ok by reflexivity.
  by rewrite (proj2 (Z.leb_le _ _)) by lia.
Qed.

Lemma accept_items_ok l w :
  0 <= w_received w → w_received w + len l < 2 ^ 32 → increasing (w_prev_seq w) l →
  accept_items l w = (Ok tt, after l w).
Proof.
  revert w. induction l as [|[s d] l IH]; intros w Hr Hl Hi; simpl; [by rewrite after_nil|].
  rewrite len_cons in Hl. pose proof (len_nonneg l). destruct Hi as [Hs Hi].
  erewrite bind_ok by (apply accept_json_ok; lia).
  rewrite IH; [by rewrite after_app|..]; simpl; len_lia || done.
Qed.

Lemma accept_items_err l1 s d l2 w :
  0 <= w_received w → w_received w + len l1 < 2 ^ 32 → increasing (w_prev_seq w) l1 →
  s <= seq_after (w_prev_seq w) l1 →
  accept_items (l1 ++ (s, d) :: l2) w =
    (Err (SeqOutOfOrder s (seq_after (w_prev_seq w) l1)), after l1 w).
Proof.
  revert w. induction l1 as [|[s1 d1] l1 IH]; intros w Hr Hl Hi Hs; simpl.
  - rewrite after_nil. erewrite bind_err by (by apply accept_json_err). done.
  - rewrite len_cons in Hl. pose proof (len_nonneg l1). destruct Hi as [Hs1 Hi].
    erewrite bind_ok by (apply accept_json_ok; lia).
    rewrite IH; [by rewrite after_app|..]; simpl; len_lia || done.
Qed.

(** *** The loop over a compressed payload *)

Context (cfg : ConnectionConfig) (Hmax : usize (cfg_max_frame_size cfg)).

Lemma drain_turn_shrinks window buf w buf' w' :
  loop_turn (drain_turn cfg window) (buf, w) = inl (buf', w') → len buf' < len buf.
Proof.
  unfold loop_turn, drain_turn. simpl. erewrite bind_ok by reflexivity.
  destruct (negb _ && _); [|done].
  destruct (decode_with_limit _ buf) as [r b1] eqn:Hd. unfold mbind, M_bind, lift.
  destruct r as [[[n|s d|x|n]|]|e|p]; try done.
  destruct (accept_json s d w) as [[[]|e|p] w1]; try done.
  injection 1 as <- <-. apply decode_iff, decodes_some in Hd as (c & -> & ?); [|apply Hmax|done].
  len_lia.
Qed.

(** It ends within its fuel. *)
Lemma drain_loops window inner w :
  loops (loop_turn (drain_turn cfg window)) (inner, w) (drain cfg window inner w).
Proof.
  unfold drain, loopM.
  edestruct (loop_pow_terminates (λ _ : bytes * WindowState, True) (λ x, len x.1)
    (loop_turn (drain_turn cfg window)) (length inner) (inner, w)) as [r Hr].
  - intros [b v] [b' v'] _ Hb. apply drain_turn_shrinks in Hb. split; [done|].
    simpl. len_lia.
  - done.
  - simpl. pose proof (Z.pow_gt_lin_r 2 (len inner)) as Hp. unfold len in *. lia.
  - rewrite Hr. by eapply loop_pow_inr.
Qed.

Lemma drain_turn_item window it rest w :
  item_ok (cfg_max_frame_size cfg) it → w_received w < window →
  loop_turn (drain_turn cfg window) (wire (json_of it) ++ rest, w) =
  match accept_json it.1 it.2 w with
  | (Ok _, w') => inl (rest, w')
  | (Err e, w') => inr (Err e, w')
  | (Panic p, w') => inr (Panic p, w')
  end.
Proof.
  intros Hit Hw. unfold loop_turn, drain_turn. cbn [fst snd].
  erewrite bind_ok by reflexivity.
  pose proof (wire_len (json_of it)). rewrite (proj2 (Z.eqb_neq _ _)) by len_lia.
  rewrite (proj2 (Z.ltb_lt _ _)) by done.
  rewrite (decode_complete _ _ (Ok (Some (json_of it))) rest).
  2: { by apply decodes_wire_plain. }
  unfold mbind, M_bind, lift, json_of. cbn [fst snd negb andb].
  by destruct (accept_json it.1 it.2 w) as [[[]|e|p] w'].
Qed.

Lemma drain_turn_stop window buf w :
  buf = [] ∨ window <= w_received w →
  loop_turn (drain_turn cfg window) (buf, w) = inr (Ok tt, w).
Proof.
  intros Hstop. unfold loop_turn, drain_turn. simpl. erewrite bind_ok by reflexivity.
  destruct Hstop as [->|Hw]; [done|].
  by rewrite (proj2 (Z.ltb_ge _ _)), andb_false_r by done.
Qed.

(** A compressed payload made of data frames is accepted item by item, up to the room left in
    the window; what comes after the last item that fits is not looked at. *)
Lemma drain_items window l junk w :
  u32 window → 0 <= w_received w → Forall (item_ok (cfg_max_frame_size cfg)) l →
  junk = [] ∨ window - w_received w <= len l →
  drain cfg window (wires (json_of <$> l) ++ junk) w =
  accept_items (take (Z.to_nat (window - w_received w)) l) w.
Proof.
  intros Hwin Hr Hl Hjunk. eapply loops_det; [apply drain_loops|].
  revert w Hr Hjunk. induction Hl as [|[s d] l Hit Hl IH]; intros w Hr Hjunk.
  - rewrite take_nil. apply loops_done, drain_turn_stop. rewrite len_nil in Hjunk.
    destruct Hjunk as [->|]; [by left|right; lia].
  - destruct (decide (window <= w_received w)) as [Hfull|Hroom].
    { replace (Z.to_nat (window - w_received w)) with 0%nat by lia.
      apply loops_done, drain_turn_stop. by right. }
    replace (Z.to_nat (window - w_received w))
      with (S (Z.to_nat (window - (w_received w + 1)))) by lia.
    simpl take. simpl accept_items. unfold wires. simpl. rewrite <- app_assoc.
    pose proof (drain_turn_item window (s, d) (mjoin (wire <$> (json_of <$> l)) ++ junk) w Hit
      ltac:(lia)) as Ht. cbn [fst snd] in Ht.
    destruct (decide (w_prev_seq w < s)) as [Hs|Hs]; destruct Hwin.
    + rewrite (accept_json_ok s d w) in Ht by lia.
      eapply loops_next; [exact Ht|].
      erewrite bind_ok by (apply accept_json_ok; lia).
      rewrite len_cons in Hjunk.
      specialize (IH (after [(s, d)] w)). simpl in IH. rewrite len_one in IH.
      apply IH; [lia|]. destruct Hjunk; [by left|right; lia].
    + rewrite (accept_json_err s d w) in Ht by lia.
      eapply loops_done. erewrite bind_err by (apply accept_json_err; lia). exact Ht.
Qed.

Lemma on_frame_carries window f l w :
  u32 window → 0 <= w_received w < window → carries (cfg_max_frame_size cfg) f l →
  on_frame cfg window f w = accept_items (take (Z.to_nat (window - w_received w)) l) w.
Proof.
  intros Hwin Hr [s d|l' Hl].
  - destruct (Z.to_nat (window - w_received w)) eqn:?; [lia|]. simpl. rewrite take_nil. simpl.
    unfold mbind, M_bind. by destruct (accept_json s d w) as [[[]|e|p] w'].
  - simpl. rewrite <- (app_nil_r (wires _)). apply drain_items; [done|lia|done|by left].
Qed.
End items.

(** ** Runs of the connection *)

Section runs.
Context `{Zlib}.
Context (cfg : ConnectionConfig) (Hmax : usize (cfg_max_frame_size cfg)).

Abbreviation max := (cfg_max_frame_size cfg).

(** [framed.next()] gives these frames. *)
Definition arrive (fs : list Frame) : list input := (λ f, InNext (Some (Ok f))) <$> fs.

(** Frames that leave the window open. *)
Lemma run_collect n fs ls w chans :
  u32 n → 0 <= w_received w → Forall2 (carries max) fs ls →
  increasing (w_prev_seq w) (mjoin ls) → w_received w + len (mjoin ls) < n →
  run cfg (Conn (AwaitFrame n w) chans) (arrive fs) =
    Some (Conn (AwaitFrame n (after (mjoin ls) w)) chans).
Proof.
  intros Hn Hr Hfs. revert w Hr. induction Hfs as [|f l fs ls Hf Hfs IH]; intros w Hr Hi Hlen.
  - simpl. by rewrite after_nil.
  - cbn [arrive fmap list_fmap]. simpl mjoin in *. apply increasing_app in Hi as [Hi1 Hi2].
    rewrite len_app in Hlen. pose proof (len_nonneg l). pose proof (len_nonneg (mjoin ls)).
    cbn [Task.run]. unfold resume at 2. cbn [c_state].
    rewrite (on_frame_carries cfg Hmax n f l w Hn) by (lia || done).
    rewrite take_ge by (unfold len in *; lia).
    destruct Hn. rewrite accept_items_ok by (lia || done).
    unfold window_loop. rewrite (proj2 (Z.ltb_lt _ _)) by (simpl; lia).
    cbn [c_chans mbind option_bind]. rewrite IH; [by rewrite after_app|simpl..]; [lia|done|lia].
Qed.

(** The batch that a window of [n] items delivers. *)
Definition batch_of (n : Z) (items : list item) (ch : chan) : Batch :=
  let taken := take (Z.to_nat n) items in
  batch_new (snd <$> taken) (seq_after 0 taken) ch.

(** The frame that completes the window. *)
Lemma run_complete n f l w chans :
  u32 n → 0 <= w_received w < n → carries max f l → n <= w_received w + len l →
  let taken := take (Z.to_nat (n - w_received w)) l in
  increasing (w_prev_seq w) taken →
  resume cfg (Conn (AwaitFrame n w) chans) (InNext (Some (Ok f))) =
    Some (Conn (AwaitDispatch
      (batch_new (w_events (after taken w)) (w_last_seq (after taken w)) chans) chans) (S chans)).
Proof.
  intros Hn Hr Hf Hlen taken Hi. unfold resume. cbn [c_state].
  rewrite (on_frame_carries cfg Hmax n f l w Hn) by done. fold taken.
  assert (Htaken : len taken = n - w_received w)
    by (unfold taken, len in *; rewrite length_take; lia).
  destruct Hn. rewrite accept_items_ok by (lia || done).
  unfold window_loop. by rewrite (proj2 (Z.ltb_ge _ _)) by (simpl; lia).
Qed.

Lemma open_window n chans :
  0 < n → resume cfg (Conn AwaitWindow chans) (InNext (Some (Ok (Window n)))) =
    Some (Conn (AwaitFrame n window_start) chans).
Proof.
  intros Hn. unfold resume. cbn [c_state]. unfold window_loop.
  by rewrite (proj2 (Z.ltb_lt _ _)) by done.
Qed.

Lemma run_window n fs f ls l chans :
  u32 n → Forall2 (carries max) fs ls → carries max f l →
  len (mjoin ls) < n <= len (mjoin ls ++ l) →
  increasing 0 (take (Z.to_nat n) (mjoin ls ++ l)) →
  run cfg (Conn AwaitWindow chans) (arrive (Window n :: fs ++ [f])) =
    Some (Conn (AwaitDispatch (batch_of n (mjoin ls ++ l) chans) chans) (S chans)).
Proof.
  intros Hn Hfs Hf Hlen Hi. unfold arrive. rewrite fmap_cons, fmap_app.
  cbn [Task.run]. pose proof (len_nonneg (mjoin ls)).
  rewrite open_window by lia. cbn [mbind option_bind].
  assert (Htake : take (Z.to_nat n) (mjoin ls ++ l) =
                  mjoin ls ++ take (Z.to_nat (n - len (mjoin ls))) l).
  { rewrite take_app_ge by (unfold len in *; lia). do 2 f_equal. unfold len in *. lia. }
  rewrite Htake in Hi. apply increasing_app in Hi as [Hi1 Hi2].
  rewrite run_app. fold (arrive fs).
  rewrite (run_collect n fs ls) by (simpl; (lia || done)).
  cbn [mbind option_bind fmap list_fmap Task.run].
  erewrite run_complete; [|done|..]; [|simpl; lia|done|rewrite len_app in Hlen; simpl; lia|].
  - cbn [mbind option_bind]. unfold batch_of. rewrite Htake. cbn [w_received after window_start].
    rewrite Z.add_0_l, fmap_app, seq_after_app. done.
  - cbn [w_received after window_start w_prev_seq]. by rewrite Z.add_0_l.
Qed.

(** The first item out of order, wherever it is, stops the connection. *)
Lemma run_out_of_order n fs f ls l l1 s d l2 chans :
  u32 n → Forall2 (carries max) fs ls → carries max f l →
  mjoin ls ++ l = l1 ++ (s, d) :: l2 → len (mjoin ls) <= len l1 < n →
  increasing 0 l1 → s <= seq_after 0 l1 →
  run cfg (Conn AwaitWindow chans) (arrive (Window n :: fs ++ [f])) =
    Some (Conn (Finished (Err (SeqOutOfOrder s (seq_after 0 l1)))) chans).
Proof.
  intros Hn Hfs Hf Heq Hlen Hi Hs. unfold arrive. rewrite fmap_cons, fmap_app.
  pose proof (len_nonneg (mjoin ls)).
  cbn [Task.run]. rewrite open_window by lia. cbn [mbind option_bind].
  assert (∃ r, l1 = mjoin ls ++ r ∧ l = r ++ (s, d) :: l2) as (r & -> & ->).
  { destruct (app_eq_inv _ _ _ _ Heq) as [(k & Hk & ->)|]; [|done].
    rewrite Hk, len_app in Hlen. pose proof (len_nonneg k).
    assert (k = []) as -> by (apply len_0; lia). exists []. rewrite app_nil_r in *. done. }
  rewrite len_app in Hlen. apply increasing_app in Hi as [Hi1 Hi2].
  rewrite run_app. fold (arrive fs).
  rewrite (run_collect n fs ls) by (simpl; (lia || done)).
  cbn [mbind option_bind fmap list_fmap Task.run]. unfold resume. cbn [c_state].
  rewrite (on_frame_carries cfg Hmax n f _ _ Hn) by (simpl; (lia || done)).
  cbn [w_received after window_start]. rewrite Z.add_0_l.
  rewrite take_app_ge by (unfold len in *; lia).
  destruct (Z.to_nat (n - len (mjoin ls)) - length r)%nat eqn:Hroom; [unfold len in *; lia|].
  simpl take. destruct Hn. rewrite seq_after_app in Hs |- *.
  rewrite accept_items_err; [done|simpl..]; [lia|lia|done|done].
Qed.
End runs.

(** ** Invariants *)

Section invariants.
Context `{Zlib}.
Context (cfg : ConnectionConfig) (Hmax : usize (cfg_max_frame_size cfg)).

(** What the codec may deliver ([Frame.decode_well_formed]), and no panic from the calls. *)
Definition input_wf (i : input) : Prop :=
  match i with
  | InNext (Some (Ok f)) => frame_wf (cfg_max_frame_size cfg) f
  | InNext (Some (Panic _)) | InSent (Panic _) => False
  | _ => True
  end.

(** The locals of the window loop: the counter counts the events, the two sequence numbers are
    equal and at least the counter, and the payloads are within the limit. *)
Record window_ok (n : Z) (w : WindowState) : Prop := {
  wo_received : w_received w = len (w_events w);
  wo_room : w_received w <= n;
  wo_seqs : w_last_seq w = w_prev_seq w;
  wo_prev : w_received w <= w_prev_seq w < 2 ^ 32;
  wo_events : Forall (λ d, len d <= cfg_max_frame_size cfg) (w_events w);
}.

Lemma window_start_ok n : u32 n → window_ok n window_start.
Proof. intros []. split; simpl; rewrite ?len_nil; [done|lia|done|lia|constructor]. Qed.

Lemma accept_json_window n s d w w' :
  u32 n → frame_wf (cfg_max_frame_size cfg) (Json s d) → window_ok n w → w_received w < n →
  accept_json s d w = (Ok tt, w') → window_ok n w'.
Proof.
  intros [] ([] & _ & Hd) [Hr _ Hl Hp He] Hroom. pose proof (len_nonneg (w_events w)).
  destruct (decide (w_prev_seq w < s)).
  - rewrite accept_json_ok by lia. injection 1 as <-.
    split; simpl; rewrite ?len_app, ?len_one; [lia|lia|done|lia|].
    apply Forall_app. by repeat constructor.
  - by rewrite accept_json_err by lia.
Qed.

Lemma accept_json_no_panic s d w p w' : accept_json s d w ≠ (Panic p, w').
Proof.
  unfold accept_json. erewrite bind_ok by reflexivity.
  by destruct (s <=? w_prev_seq w).
Qed.

(** What one turn of the loop over a compressed payload does. *)
Lemma drain_turn_cases n buf w :
  match loop_turn (drain_turn cfg n) (buf, w) with
  | inl (_, w') =>
      w_received w < n ∧
      ∃ s d, frame_wf (cfg_max_frame_size cfg) (Json s d) ∧ accept_json s d w = (Ok tt, w')
  | inr (Ok _, w') => w' = w
  | inr (Err _, _) => True
  | inr (Panic _, _) => False
  end.
Proof.
  unfold loop_turn, drain_turn. cbn [fst snd]. erewrite bind_ok by reflexivity.
  destruct (negb _ && _) eqn:Hc; [|done]. apply andb_true_iff in Hc as [_ Hc]. zbool.
  destruct (decode_with_limit _ buf) as [r b1] eqn:Hd. apply decode_iff in Hd; [|done].
  unfold mbind, M_bind, lift.
  destruct r as [[[k|s d|x|k]|]|e|p]; try done; [|by apply decodes_no_panic in Hd].
  destruct (accept_json s d w) as [[[]|e|p] w1] eqn:Ha; [|done|by apply accept_json_no_panic in Ha].
  split; [done|]. exists s, d. split; [by eapply decodes_wf|done].
Qed.

Lemma drain_window n buf w r :
  u32 n → window_ok n w → loops (loop_turn (drain_turn cfg n)) (buf, w) r →
  match r with
  | (Ok _, w') => window_ok n w'
  | (Err _, _) => True
  | (Panic _, _) => False
  end.
Proof.
  intros Hn Hw Hl. remember (buf, w) as x eqn:Hx. revert buf w Hx Hw.
  induction Hl as [x r Hb|x [buf' w'] r Hb _ IH]; intros buf w -> Hw;
    pose proof (drain_turn_cases n buf w) as Hc; rewrite Hb in Hc.
  - destruct r as [[?|?|?] ?]; [by subst|done..].
  - destruct Hc as (? & s & d & ? & ?). eapply IH; [done|by eapply accept_json_window].
Qed.

Lemma on_frame_window n f w :
  u32 n → frame_wf (cfg_max_frame_size cfg) f → window_ok n w → w_received w < n →
  match on_frame cfg n f w with
  | (Ok _, w') => window_ok n w'
  | (Err _, _) => True
  | (Panic _, _) => False
  end.
Proof.
  intros Hn Hf Hw Hroom. destruct f as [k|s d|inner|k]; simpl; try done.
  - destruct (accept_json s d w) as [[[]|e|p] w'] eqn:Ha; [|done|].
    + by eapply accept_json_window.
    + by apply accept_json_no_panic in Ha.
  - eapply drain_window; [done|done|]. by apply drain_loops.
Qed.

(** A batch is complete: at least as many sequence numbers were used as it has events. *)
Record batch_ok (b : Batch) : Prop := {
  bo_seq : len (events b) <= last_seq b < 2 ^ 32;
  bo_events : Forall (λ d, len d <= cfg_max_frame_size cfg) (events b);
  bo_ack : is_Some (ack_tx b);
}.

Definition conn_ok (c : conn) : Prop :=
  match c_state c with
  | AwaitFrame n w => u32 n ∧ window_ok n w ∧ w_received w < n
  | AwaitDispatch b rx => batch_ok b ∧ ack_tx b = Some rx ∧ (rx < c_chans c)%nat
  | AwaitAck _ rx => (rx < c_chans c)%nat
  | AwaitKeepalive _ rx => (rx < c_chans c)%nat ∧ cfg_keepalive cfg ≠ None
  | Finished (Panic _) => False
  | _ => True
  end.

Lemma conn_start_ok : conn_ok conn_start.
Proof. exact I. Qed.

Lemma window_loop_ok n w chans :
  u32 n → window_ok n w → conn_ok (window_loop n w chans) ∧
  (c_state (window_loop n w chans) = AwaitFrame n w ∨
   ∃ b, c_state (window_loop n w chans) = AwaitDispatch b chans ∧ batch_len b = n).
Proof.
  intros Hn Hw. unfold window_loop. destruct (w_received w <? n) eqn:Hr; zbool.
  - split; [done|by left].
  - destruct Hw as [Hrec Hroom Hl Hp He]. split.
    + split; [|by split; [|simpl; lia]]. split; simpl; [lia|done|done].
    + right. eexists. split; [done|]. unfold batch_len. simpl. lia.
Qed.

Lemma resume_ok c i c' :
  conn_ok c → input_wf i → resume cfg c i = Some c' → conn_ok c'.
Proof.
  intros Hc Hi. unfold conn_ok in Hc. destruct c as [st chans]. unfold resume. cbn [c_state] in *.
  destruct st as [|n w|b rx|a rx|a rx|a|r], i as [[[f|e|p]|]|[]|[v|]| |[u|e|p]]; try done.
  all: try (injection 1 as <-; unfold conn_ok; cbn [c_state c_chans]; tauto).
  - destruct f as [n|s d|x|k]; intros [= <-]; try done.
    apply window_loop_ok; [done|by apply window_start_ok].
  - destruct Hc as (Hn & Hw & Hroom). pose proof (on_frame_window n f w Hn Hi Hw Hroom) as Hf.
    destruct (on_frame cfg n f w) as [[[]|e|p] w']; intros [= <-]; try done.
    by apply window_loop_ok.
  - destruct (cfg_keepalive cfg) eqn:?; [|done]. intros [= <-]. split; [done|congruence].
Qed.

Lemma exec_ok c t c' :
  conn_ok c → Forall input_wf t.*2 → exec cfg c t c' → conn_ok c'.
Proof. apply exec_preserves. apply resume_ok. Qed.

Lemma exec_dispatched c t c' :
  conn_ok c → Forall input_wf t.*2 → exec cfg c t c' → Forall batch_ok (dispatched cfg t).
Proof.
  intros Hc Ht Hx. induction Hx as [|c i c1 t c' Hr _ IH]; [constructor|].
  inversion Ht; subst. unfold dispatched. cbn [mbind list_bind]. apply Forall_app. split.
  - unfold dispatched_by, request_of. simpl. unfold conn_ok in Hc.
    destruct (c_state c); try constructor. destruct i as [|[]| | |]; try constructor; [|done].
    by destruct Hc.
  - apply IH; [by eapply resume_ok|done].
Qed.

(** *** Windows opened and batches delivered *)

Definition opened_by (x : conn * input) : list Z :=
  match c_state x.1, x.2 with
  | AwaitWindow, InNext (Some (Ok (Window n))) => [n]
  | _, _ => []
  end.
Definition opened (t : list (conn * input)) : list Z := t ≫= opened_by.

(** The size of the window that is being filled or handed over. *)
Definition in_progress (c : conn) : list Z :=
  match c_state c with
  | AwaitFrame n _ => [n]
  | AwaitDispatch b _ => [batch_len b]
  | _ => []
  end.

Definition live (c : conn) : Prop := ∀ r, c_state c ≠ Finished r.

Lemma resume_live c i c' : resume cfg c i = Some c' → live c.
Proof. unfold resume. intros Hr r Hc. by rewrite Hc in Hr. Qed.

Lemma window_loop_progress n w chans :
  u32 n → window_ok n w → in_progress (window_loop n w chans) = [n].
Proof.
  intros Hn Hw. unfold in_progress.
  destruct (window_loop_ok n w chans Hn Hw) as [_ [-> | (b & -> & <-)]]; done.
Qed.

Lemma resume_opened c i c' :
  conn_ok c → input_wf i → resume cfg c i = Some c' → live c' →
  in_progress c ++ opened_by (c, i) =
  (batch_len <$> dispatched_by cfg (c, i)) ++ in_progress c'.
Proof.
  intros Hc Hi Hr Hlive. destruct c as [st chans]. unfold resume in Hr. unfold conn_ok in Hc.
  unfold in_progress at 1, opened_by, dispatched_by, request_of. cbn [c_state fst snd] in *.
  destruct st as [|n w|b rx|a rx|a rx|a|r], i as [[[f|e|p]|]|[]|[v|]| |[u|e|p]]; try done.
  all: try (injection Hr as <-; by destruct (Hlive _ eq_refl)).
  all: try (injection Hr as <-; unfold in_progress; cbn [c_state] in *; done).
  - destruct f as [n|s d|x|k]; injection Hr as <-; try by destruct (Hlive _ eq_refl).
    cbn [c_chans]. rewrite window_loop_progress; [done|done|by apply window_start_ok].
  - destruct Hc as (Hn & Hw & Hroom). pose proof (on_frame_window n f w Hn Hi Hw Hroom) as Hf.
    destruct (on_frame cfg n f w) as [[[]|e|p] w']; injection Hr as <-;
      try by destruct (Hlive _ eq_refl).
    cbn [c_chans]. by rewrite window_loop_progress.
  - destruct (cfg_keepalive cfg); [|done]. by injection Hr as <-.
Qed.

Lemma exec_opened c t c' :
  conn_ok c → Forall input_wf t.*2 → exec cfg c t c' → live c' →
  in_progress c ++ opened t = (batch_len <$> dispatched cfg t) ++ in_progress c'.
Proof.
  intros Hc Ht Hx Hlive. induction Hx as [|c i c1 t c' Hr Hx IH].
  - simpl. by rewrite app_nil_r.
  - inversion Ht; subst. unfold opened, dispatched. cbn [mbind list_bind].
    assert (live c1) by (inversion Hx; subst; [done|by eapply resume_live]).
    rewrite app_assoc, (resume_opened c i c1) by done.
    rewrite fmap_app, <- !app_assoc. f_equal. apply IH; [by eapply resume_ok|done..].
Qed.

(** *** Acknowledgements *)

(** The value of the acknowledgement the task still owes its peer. *)
Definition owed (c : conn) : option Z :=
  match c_state c with
  | AwaitAck a _ | AwaitKeepalive a _ | AwaitAckSent a => Some a
  | _ => None
  end.

(** What the peer reads for one batch: keepalives, then the acknowledgement. *)
Definition answer (k : nat) (a : Z) : list Frame := replicate k (Ack 0) ++ [Ack a].

Definition answers (ks : list nat) (bs : list Batch) : list Frame :=
  mjoin (zip_with (λ k b, answer k (last_seq b)) ks bs).

Definition keepalive_free (ks : list nat) : Prop :=
  cfg_keepalive cfg = None → Forall (λ k, k = 0%nat) ks.

Lemma exec_finished c t c' r : c_state c = Finished r → exec cfg c t c' → c' = c.
Proof.
  intros Hc. inversion 1 as [|? i c1 t1 ? Hr]; subst; [done|]. by destruct (resume_live c i c1 Hr r).
Qed.

(** [AwaitWindow] at the end: every batch handed over has been answered. *)
Definition answered (c : conn) (t : list (conn * input)) : Prop :=
  match owed c with
  | Some a =>
      ∃ k ks, length ks = length (dispatched cfg t) ∧
        sent cfg t = answer k a ++ answers ks (dispatched cfg t) ∧ keepalive_free (k :: ks)
  | None =>
      ∃ ks, length ks = length (dispatched cfg t) ∧
        sent cfg t = answers ks (dispatched cfg t) ∧ keepalive_free ks
  end.

Lemma answered_quiet c i c1 t :
  owed c = owed c1 → dispatched_by cfg (c, i) = [] → sent_by cfg (c, i) = [] →
  answered c1 t → answered c ((c, i) :: t).
Proof.
  unfold answered, dispatched, sent. cbn [mbind list_bind]. by intros -> -> ->.
Qed.

Lemma window_loop_owed n w chans : owed (window_loop n w chans) = None.
Proof. unfold window_loop, owed. by destruct (w_received w <? n). Qed.

Lemma resume_answered c i c1 t c' :
  conn_ok c → honest (c, i) → resume cfg c i = Some c1 → exec cfg c1 t c' →
  c_state c' = AwaitWindow → answered c1 t → answered c ((c, i) :: t).
Proof.
  intros Hc Hh Hr Hx Hend Ha.
  assert (Hfin : ∀ r, c_state c1 ≠ Finished r).
  { intros r Hf. pose proof (exec_finished c1 t c' r Hf Hx) as ->. congruence. }
  destruct c as [st chans]. unfold resume in Hr. unfold conn_ok in Hc. unfold honest in Hh.
  cbn [c_state fst snd] in *.
  destruct st as [|n w|b rx|a rx|a rx|a|r], i as [[[f|e|p]|]|[]|[v|]| |[u|e|p]]; try done.
  all: try (injection Hr as <-; by destruct (Hfin _ eq_refl)).
  all: try (injection Hr as <-; eapply answered_quiet; [|done..|exact Ha]; unfold owed;
            cbn [c_state]; by subst).
  - destruct f as [n|s d|x|k]; injection Hr as <-; try by destruct (Hfin _ eq_refl).
    eapply answered_quiet; [|done..|exact Ha]. by rewrite window_loop_owed.
  - destruct (on_frame cfg n f w) as [[[]|e|p] w']; injection Hr as <-;
      try by destruct (Hfin _ eq_refl).
    eapply answered_quiet; [|done..|exact Ha]. by rewrite window_loop_owed.
  - injection Hr as <-. destruct Ha as (k & ks & Hl & Hs & Hk).
    exists (k :: ks). unfold dispatched, sent. cbn. rewrite Hl. split; [done|].
    split; [|done]. unfold sent in Hs. by rewrite Hs.
  - destruct (cfg_keepalive cfg); [|done]. injection Hr as <-.
    eapply answered_quiet; [|done..|exact Ha]. done.
  - injection Hr as <-. destruct Ha as (k & ks & Hl & Hs & Hk).
    exists (S k), ks. unfold dispatched, sent. cbn. split; [done|].
    split; [unfold sent in Hs; by rewrite Hs|]. intros Hn. by destruct Hc.
  - injection Hr as <-. destruct Ha as (ks & Hl & Hs & Hk).
    exists 0%nat, ks. unfold dispatched, sent. cbn. split; [done|].
    split; [unfold sent in Hs; by rewrite Hs|]. intros Hn. constructor; [done|by apply Hk].
Qed.

Lemma exec_answers c t c' :
  conn_ok c → Forall honest t → Forall input_wf t.*2 → exec cfg c t c' →
  c_state c' = AwaitWindow → answered c t.
Proof.
  intros Hc Hh Hi Hx Hend. induction Hx as [c|c i c1 t c' Hr Hx IH].
  - unfold answered, owed. rewrite Hend. exists []. split; [done|]. split; [done|]. by intros _.
  - inversion Hh; inversion Hi; subst. eapply resume_answered; [done..|].
    apply IH; [by eapply resume_ok|done..].
Qed.
End invariants.

(** ** Properties of the connection *)

Section connection_properties.
Context `{Zlib}.
Context (cfg : ConnectionConfig).

(** The frames of a window given to [on_frame] one after the other. *)
Fixpoint on_frames (n : Z) (fs : list Frame) : M WindowState Error unit :=
  match fs with
  | [] => mret tt
  | f :: fs' => on_frame cfg n f;; on_frames n fs'
  end.

Lemma on_frames_items n l w : on_frames n (json_of <$> l) w = accept_items l w.
Proof.
  revert w. induction l as [|[s d] l IH]; intros w; [done|]. simpl.
  unfold mbind, M_bind. destruct (accept_json s d w) as [[[]|e|p] w']; [apply IH|done..].
Qed.

Lemma drain_reaches (Hmax : usize (cfg_max_frame_size cfg)) n l junk w :
  u32 n → 0 <= w_received w → w_received w + len l <= n →
  Forall (item_ok (cfg_max_frame_size cfg)) l → increasing (w_prev_seq w) l →
  reaches (loop_turn (drain_turn cfg n)) (wires (json_of <$> l) ++ junk, w) (junk, after l w).
Proof.
  intros [Hn0 Hn] Hr Hlen Hl. revert w Hr Hlen.
  induction Hl as [|[s d] l Hit Hl IH]; intros w Hr Hlen Hi.
  - rewrite after_nil. constructor.
  - rewrite len_cons in Hlen. pose proof (len_nonneg l). destruct Hi as [Hs Hi].
    rewrite fmap_cons, wires_cons, <- app_assoc. eapply reaches_next.
    + rewrite (drain_turn_item cfg n (s, d)) by (lia || done). cbn [fst snd].
      rewrite accept_json_ok by lia. reflexivity.
    + change ((s, d) :: l) with ([(s, d)] ++ l). rewrite <- after_app.
      apply IH; simpl; rewrite ?len_one; (lia || done).
Qed.

(** C13. A window of [n] events delivers exactly one batch: the first [n] events of the frames
    that follow, in the order they came and as they came, whether they come in data frames or in
    compressed frames, provided their sequence numbers increase from above 0; the batch records
    the last sequence number, and what a compressed frame holds beyond the window is dropped. *)
Theorem window_delivers_batch n fs f ls l chans :
  usize (cfg_max_frame_size cfg) → u32 n →
  Forall2 (carries (cfg_max_frame_size cfg)) fs ls → carries (cfg_max_frame_size cfg) f l →
  len (mjoin ls) < n <= len (mjoin ls ++ l) →
  let taken := take (Z.to_nat n) (mjoin ls ++ l) in
  increasing 0 taken →
  run cfg (Conn AwaitWindow chans) (arrive (Window n :: fs ++ [f])) =
    Some (Conn (AwaitDispatch
      (MkBatch (snd <$> taken) (seq_after 0 taken) (Some chans)) chans) (S chans)).
Proof. intros Hmax Hn Hfs Hf Hlen taken Hi. by apply run_window. Qed.

(** C27. The first event whose sequence number does not exceed the previous one stops the
    connection with [SeqOutOfOrder], carrying both numbers, and no batch is delivered: this holds
    wherever the event is, in a data frame or inside a compressed one. *)
Theorem window_rejects_out_of_order n fs f ls l l1 s d l2 chans :
  usize (cfg_max_frame_size cfg) → u32 n →
  Forall2 (carries (cfg_max_frame_size cfg)) fs ls → carries (cfg_max_frame_size cfg) f l →
  mjoin ls ++ l = l1 ++ (s, d) :: l2 → len (mjoin ls) <= len l1 < n →
  increasing 0 l1 → s <= seq_after 0 l1 →
  run cfg (Conn AwaitWindow chans) (arrive (Window n :: fs ++ [f])) =
    Some (Conn (Finished (Err (SeqOutOfOrder s (seq_after 0 l1)))) chans).
Proof. intros Hmax. by apply run_out_of_order. Qed.

(** C26. Compression is transparent: a compressed frame made of data frames has the effect of
    those data frames received one by one (same locals, same error), as long as they fit in the
    window. *)
Theorem compressed_equals_inline n l w :
  usize (cfg_max_frame_size cfg) → u32 n → 0 <= w_received w →
  Forall (item_ok (cfg_max_frame_size cfg)) l → len l <= n - w_received w →
  on_frame cfg n (Compressed (wires (json_of <$> l))) w = on_frames n (json_of <$> l) w.
Proof.
  intros Hmax Hn Hr Hl Hroom. rewrite on_frames_items. simpl.
  rewrite <- (app_nil_r (wires _)), drain_items by (done || by left).
  by rewrite take_ge by (unfold len in *; lia).
Qed.

(** C28. A compressed payload that continues with something else than a data frame, while the
    window has room, is refused: an incomplete frame as truncated, another frame as unexpected,
    and a decoding error as itself. *)
Theorem compressed_payload_errors n l junk w :
  usize (cfg_max_frame_size cfg) → u32 n → 0 <= w_received w → w_received w + len l < n →
  Forall (item_ok (cfg_max_frame_size cfg)) l → increasing (w_prev_seq w) l → junk ≠ [] →
  let r := (on_frame cfg n (Compressed (wires (json_of <$> l) ++ junk)) w).1 in
  match (decode_with_limit (cfg_max_frame_size cfg) junk).1 with
  | Ok None => r = Err (InvalidFrame "compressed payload truncated")
  | Ok (Some (Json _ _)) => True
  | Ok (Some _) => r = Err (UnexpectedFrame "compressed payload must contain only J frames")
  | Err e => r = Err e
  | Panic _ => False
  end.
Proof.
  intros Hmax Hn Hr Hlen Hl Hi Hj. cbv zeta. simpl.
  pose proof (drain_reaches Hmax n l junk w Hn Hr ltac:(lia) Hl Hi) as Hreach.
  pose proof (drain_loops cfg Hmax n (wires (json_of <$> l) ++ junk) w) as Hloop.
  assert (Hstop : ∀ e, loop_turn (drain_turn cfg n) (junk, after l w) = inr (Err e, after l w) →
    (drain cfg n (wires (json_of <$> l) ++ junk) w).1 = Err e).
  { intros e He. by rewrite (loops_det _ _ _ _ Hloop
      (reaches_loops _ _ _ _ Hreach (loops_done _ _ _ He))). }
  apply len_pos in Hj.
  assert (Hturn : loop_turn (drain_turn cfg n) (junk, after l w) =
    match decode_with_limit (cfg_max_frame_size cfg) junk with
    | (Ok None, _) => inr (Err (InvalidFrame "compressed payload truncated"), after l w)
    | (Ok (Some (Json s d)), rest) =>
        match accept_json s d (after l w) with
        | (Ok _, w') => inl (rest, w')
        | (Err e, w') => inr (Err e, w')
        | (Panic p, w') => inr (Panic p, w')
        end
    | (Ok (Some _), _) => inr (Err (UnexpectedFrame
        "compressed payload must contain only J frames"), after l w)
    | (Err e, _) => inr (Err e, after l w)
    | (Panic p, _) => inr (Panic p, after l w)
    end).
  { unfold loop_turn, drain_turn. cbn [fst snd]. erewrite bind_ok by reflexivity.
    rewrite (proj2 (Z.eqb_neq _ _)) by lia. rewrite (proj2 (Z.ltb_lt _ _)) by (simpl; lia).
    cbn [negb andb].
    destruct (decode_with_limit _ junk) as [[[[k|s d|x|k]|]|e|p] rest]; try done.
    unfold mbind, M_bind, lift. by destruct (accept_json s d (after l w)) as [[[]|e|p] w']. }
  destruct (decode_with_limit _ junk) as [[[[k|s d|x|k]|]|e|p] rest] eqn:Hd; cbn [fst]; auto.
  by apply decode_iff, decodes_no_panic in Hd.
Qed.

(** The loop over a compressed payload stops within the fuel of the model, whatever the
    payload: its result is that of the unbounded loop. *)
Theorem drain_terminates n inner w :
  usize (cfg_max_frame_size cfg) →
  loops (loop_turn (drain_turn cfg n)) (inner, w) (drain cfg n inner w).
Proof. intros Hmax. by apply drain_loops. Qed.

(** C18. In every run of a connection, with whatever frames and failures: it never panics, its
    locals are consistent ([conn_ok]: the counter equals the number of events, stays below the
    window, does not wrap, and never exceeds the last sequence number), and every batch handed to
    the consumer has payloads within the limit, a live acknowledgement channel, and a last
    sequence number that is a [u32] at least as large as its number of events. *)
Theorem connection_invariant t c :
  usize (cfg_max_frame_size cfg) → Forall (input_wf cfg) t.*2 → exec cfg conn_start t c →
  conn_ok cfg c ∧ Forall (batch_ok cfg) (dispatched cfg t).
Proof.
  pose proof (conn_start_ok cfg). intros Hmax Ht Hx.
  split; [by eapply exec_ok|by eapply exec_dispatched].
Qed.

(** The memory of a window.  The [Vec] of the events is allocated for the number of events that the
    window frame announces, before any of them came: six bytes from a peer reserve up to
    [2 ^ 32 - 1] slots, whatever [max_frame_size] is.  The events never outgrow it, and their
    payloads are bounded by the slots in use. *)
Theorem window_memory t c :
  usize (cfg_max_frame_size cfg) → Forall (input_wf cfg) t.*2 → exec cfg conn_start t c →
  (∀ n w, c_state c = AwaitFrame n w → event_slots c = n ∧ len (w_events w) < event_slots c ∧
     len (mjoin (w_events w)) <= len (w_events w) * cfg_max_frame_size cfg) ∧
  (∀ n, u32 n → 0 < n → c_state c = AwaitWindow → len (wire (Window n)) = 6 ∧
     ∃ c', resume cfg c (InNext (Some (Ok (Window n)))) = Some c' ∧ event_slots c' = n).
Proof.
  intros Hmax Ht Hx. split.
  - intros n w Hst. pose proof (exec_ok cfg Hmax _ _ _ (conn_start_ok cfg) Ht Hx) as Hok.
    unfold conn_ok, event_slots in *. rewrite Hst in *. destruct Hok as (_ & [Hr _ _ _ He] & Hlt).
    split; [done|]. split; [lia|]. clear -He.
    induction He as [|d l Hd _ IH]; [done|].
    change (mjoin (d :: l)) with (d ++ mjoin l). rewrite len_app, len_cons. lia.
  - intros n Hn Hpos Hst. split; [done|]. unfold resume. rewrite Hst.
    eexists. split; [done|]. unfold window_loop, event_slots.
    by rewrite (proj2 (Z.ltb_lt _ _)).
Qed.

(** C16. Batches and windows correspond one to one, in order: while the connection lives, the
    sizes of the windows opened so far are the sizes of the batches delivered, followed by the
    window in progress if there is one.  No event is lost, duplicated or moved to another batch. *)
Theorem batches_match_windows t c :
  usize (cfg_max_frame_size cfg) → Forall (input_wf cfg) t.*2 → exec cfg conn_start t c →
  live c →
  opened t = (batch_len <$> dispatched cfg t) ++ in_progress c.
Proof.
  intros Hmax Ht Hx Hlive.
  by apply (exec_opened cfg Hmax conn_start t c (conn_start_ok cfg)).
Qed.

(** C17. What the peer reads: when the connection is back at a window boundary, it has sent for
    each batch delivered, in order, some keepalives [Ack 0] and then one [Ack] with the last
    sequence number of that batch, and nothing else; without a keepalive interval there are no
    keepalives. *)
Theorem server_answers_each_batch t c :
  usize (cfg_max_frame_size cfg) → Forall (input_wf cfg) t.*2 → Forall honest t →
  exec cfg conn_start t c → c_state c = AwaitWindow →
  ∃ ks, length ks = length (dispatched cfg t) ∧
    sent cfg t = answers ks (dispatched cfg t) ∧
    (cfg_keepalive cfg = None → Forall (λ k, k = 0%nat) ks).
Proof.
  intros Hmax Ht Hh Hx Hend.
  by apply (exec_answers cfg Hmax conn_start t c (conn_start_ok cfg)).
Qed.

(** A connection ends without an error only in two situations: the peer closed the stream
    between two batches, or the consumer is gone.  A stream that ends inside a window is
    [ConnectionClosed], a frame of another type is [UnexpectedFrame], at a batch boundary and
    inside a window. *)
Theorem connection_endings c i :
  (resume cfg c i = Some (Conn (Finished (Ok tt)) (c_chans c)) ↔
     (c_state c = AwaitWindow ∧ i = InNext None) ∨
     (∃ b rx, c_state c = AwaitDispatch b rx ∧ i = InDispatched false)) ∧
  (∀ n w, c_state c = AwaitFrame n w →
     resume cfg c (InNext None) = Some (Conn (Finished (Err ConnectionClosed)) (c_chans c)) ∧
     ∀ k, resume cfg c (InNext (Some (Ok (Window k)))) = resume cfg c (InNext (Some (Ok (Ack k)))) ∧
          resume cfg c (InNext (Some (Ok (Ack k)))) = Some (Conn (Finished
            (Err (UnexpectedFrame "expected J or C inside window"))) (c_chans c))) ∧
  (c_state c = AwaitWindow → ∀ f, (∀ n, f ≠ Window n) →
     resume cfg c (InNext (Some (Ok f))) = Some (Conn (Finished
       (Err (UnexpectedFrame "expected Window at batch start"))) (c_chans c))).
Proof.
  destruct c as [st chans]. cbn [c_state c_chans]. split; [|split].
  - split; [|intros [[-> ->]|(b & rx & -> & ->)]; done].
    destruct st as [|n w|b rx|a rx|a rx|a|r], i as [[[f|e|p]|]|[]|[v|]| |[u|e|p]];
      unfold resume; cbn [c_state c_chans]; try done; try naive_solver.
    + destruct f as [n|s d|x|k]; try done. unfold window_loop. by destruct (_ <? n).
    + destruct (on_frame cfg n f w) as [[[]|e|p] w']; try done.
      unfold window_loop. by destruct (_ <? n).
    + by destruct (cfg_keepalive cfg).
  - by intros n w ->.
  - intros -> f Hf. destruct f as [n|s d|x|k]; [by destruct (Hf n)|done..].
Qed.
End connection_properties.

(** ** Witnesses *)

Definition sample_cfg : ConnectionConfig := ConnConfig sample_max (Some 15).

Lemma item_ok_check max s d :
  bool_decide (0 <= s < 2 ^ 32) && bool_decide (0 <= len d < 2 ^ 32) &&
    bool_decide (len d <= max) = true →
  item_ok max (s, d).
Proof.
  rewrite !andb_true_iff, !bool_decide_eq_true. intros [[Hc1 Hc2] Hc3].
  exact (conj Hc1 (conj Hc2 Hc3)).
Qed.

(** Two events in a compressed frame, of which the window takes one. *)
Definition sample_items : list item := [(2, [x61]); (9, [x62])].

Lemma sample_items_ok : Forall (item_ok sample_max) sample_items.
Proof.
  unfold sample_items. rewrite !Forall_cons, Forall_nil.
  split; [|split; [|done]]; apply item_ok_check; vm_compute; reflexivity.
Qed.

Lemma window_delivers_batch_witness :
  run sample_cfg conn_start
    (arrive [Window 2; Json 1 [x63]; Compressed (wires (json_of <$> sample_items))]) =
  Some (Conn (AwaitDispatch (MkBatch [[x63]; [x61]] 2 (Some 0%nat)) 0) 1).
Proof.
  apply (window_delivers_batch sample_cfg 2 [Json 1 [x63]]
    (Compressed (wires (json_of <$> sample_items))) [[(1, [x63])]] sample_items 0).
  - apply sample_max_ok.
  - split; vm_compute; congruence.
  - repeat constructor.
  - constructor. apply sample_items_ok.
  - split; vm_compute; congruence.
  - vm_compute. auto.
Defined.

Lemma window_rejects_out_of_order_witness :
  run sample_cfg conn_start
    (arrive [Window 3; Json 5 [x63]; Compressed (wires (json_of <$> sample_items))]) =
  Some (Conn (Finished (Err (SeqOutOfOrder 2 5))) 0).
Proof.
  apply (window_rejects_out_of_order sample_cfg 3 [Json 5 [x63]]
    (Compressed (wires (json_of <$> sample_items))) [[(5, [x63])]] sample_items
    [(5, [x63])] 2 [x61] [(9, [x62])] 0).
  - apply sample_max_ok.
  - split; vm_compute; congruence.
  - repeat constructor.
  - constructor. apply sample_items_ok.
  - reflexivity.
  - split; vm_compute; congruence.
  - vm_compute. auto.
  - vm_compute. congruence.
Defined.

Lemma compressed_equals_inline_witness :
  on_frame sample_cfg 2 (Compressed (wires (json_of <$> sample_items))) window_start =
  on_frames sample_cfg 2 (json_of <$> sample_items) window_start.
Proof.
  apply (compressed_equals_inline sample_cfg 2 sample_items window_start).
  - apply sample_max_ok.
  - split; vm_compute; congruence.
  - vm_compute. congruence.
  - apply sample_items_ok.
  - vm_compute. congruence.
Defined.

Lemma compressed_payload_errors_witness :
  (on_frame sample_cfg 3 (Compressed (wires (json_of <$> sample_items) ++ [x32])) window_start).1
  = Err (InvalidFrame "compressed payload truncated").
Proof.
  apply (compressed_payload_errors sample_cfg 3 sample_items [x32] window_start).
  - apply sample_max_ok.
  - split; vm_compute; congruence.
  - vm_compute. congruence.
  - vm_compute. reflexivity.
  - apply sample_items_ok.
  - vm_compute. auto.
  - congruence.
Defined.

Lemma drain_terminates_witness :
  loops (loop_turn (drain_turn sample_cfg 2)) (wires (json_of <$> sample_items), window_start)
    (Ok tt, WS [[x61]; [x62]] 2 9 9).
Proof.
  pose proof (drain_terminates sample_cfg 2 (wires (json_of <$> sample_items)) window_start
    sample_max_ok) as Hl.
  assert (He : drain sample_cfg 2 (wires (json_of <$> sample_items)) window_start =
               (Ok tt, WS [[x61]; [x62]] 2 9 9)) by (vm_compute; reflexivity).
  rewrite He in Hl. exact Hl.
Defined.

(** A run of the connection over one batch, with one keepalive. *)
Definition sample_inputs : list input :=
  arrive [Window 2; Compressed (wires (json_of <$> sample_items))] ++
  [InDispatched true; InElapsed; InSent (Ok tt); InAck (Some 9); InSent (Ok tt)].

Definition sample_trace : list (conn * input) :=
  trace (resume sample_cfg) conn_start sample_inputs.

Lemma sample_exec : exec sample_cfg conn_start sample_trace (Conn AwaitWindow 1).
Proof.
  repeat (eapply exec_cons; [vm_compute; reflexivity|]). apply exec_nil.
Qed.

Lemma sample_inputs_wf : Forall (input_wf sample_cfg) sample_trace.*2.
Proof. repeat constructor; vm_compute; congruence. Qed.

Lemma connection_invariant_witness :
  conn_ok sample_cfg (Conn AwaitWindow 1) ∧
  Forall (batch_ok sample_cfg) (dispatched sample_cfg sample_trace).
Proof.
  apply (connection_invariant sample_cfg sample_trace).
  - apply sample_max_ok.
  - apply sample_inputs_wf.
  - apply sample_exec.
Defined.

Lemma batches_match_windows_witness :
  opened sample_trace =
  (batch_len <$> dispatched sample_cfg sample_trace) ++ in_progress (Conn AwaitWindow 1).
Proof.
  apply (batches_match_windows sample_cfg sample_trace (Conn AwaitWindow 1)).
  - apply sample_max_ok.
  - apply sample_inputs_wf.
  - apply sample_exec.
  - intros r. discriminate.
Defined.

Lemma server_answers_each_batch_witness :
  sent sample_cfg sample_trace = [Ack 0; Ack 9] ∧
  ∃ ks, length ks = length (dispatched sample_cfg sample_trace) ∧
    sent sample_cfg sample_trace = answers ks (dispatched sample_cfg sample_trace) ∧
    (cfg_keepalive sample_cfg = None → Forall (λ k, k = 0%nat) ks).
Proof.
  split; [vm_compute; reflexivity|].
  apply (server_answers_each_batch sample_cfg sample_trace (Conn AwaitWindow 1)).
  - apply sample_max_ok.
  - apply sample_inputs_wf.
  - repeat constructor.
  - apply sample_exec.
  - reflexivity.
Defined.
