(* ===== verification/Client.v ===== *)
(** * Client: sending a batch (src/src/client.rs, [Client])

    [Client::send] is an async function.  [send_state] has one constructor per await point (the
    calls of [feed], [flush] and [next] through the functions that apply the optional timeouts),
    [send_start] is the code before the first of them, [send_request] the awaited call with its
    timeout and [send_resume] the code up to the next await.  [serde_json::to_vec] is not part of
    the repository: it is a parameter, as are the bytes it gives for an event.

    Nothing is assumed of the peer: an input is any result the awaited call may give, an error, a
    frame of any type, the end of the stream or, when a timeout is configured, its expiry. *)

From S2P Require Import Prelude Errors Zlib Frame Codec Task Connection.

(** The settings a [Client] keeps; its [framed] is the peer of the task. *)
Record Client : Type := MkClient {
  compression_level : Z;
  write_timeout : option Z;
  ack_timeout : option Z;
}.

Inductive send_state : Type :=
| FeedWindow (n : Z) (payload : bytes)
| FeedCompressed (n : Z) (payload : bytes)
| FeedFrame (n : Z) (frame : Frame) (buf : bytes)
| AwaitFlush (n : Z)
| AwaitAcks (n : Z)
| Returned (r : outcome Error Z).

(** What an awaited call returned. *)
Inductive client_input : Type :=
| Fed (r : outcome Error unit)                 (* framed.feed(frame) *)
| Flushed (r : outcome Error unit)             (* framed.flush() *)
| Got (item : option (outcome Error Frame))    (* framed.next() *)
| TimedOut.                                    (* tokio::time::timeout *)

(** What the task awaits, with the timeout that applies. *)
Inductive client_request : Type :=
| WantFeed (f : Frame) (timeout : option Z)
| WantFlush (timeout : option Z)
| WantNext (timeout : option Z)
| WantReturn (r : outcome Error Z).

#[export] Instance send_state_eq_dec : EqDecision send_state.
Proof. solve_decision. Defined.
#[export] Instance client_request_eq_dec : EqDecision client_request.
Proof. solve_decision. Defined.

Section client.
Context `{Zlib}.
(** [serde_json::to_vec] on the type of the events: the text of an error, or the bytes. *)
Context {T : Type} (to_vec : T → string + bytes).
Context (client : Client).

(** The loop that encodes the events into the buffer, from index [i]. *)
Fixpoint encode_events (i : Z) (evs : list T) : M bytes Error unit :=
  match evs with
  | [] => mret tt
  | ev :: evs' =>
      match to_vec ev with
      | inl e => throw (Serialization e)
      | inr data => encode (Json (wrap32 (wrap32 i + 1)) data);; encode_events (i + 1) evs'
      end
  end.

(** [send] up to its first await. *)
Definition send_start (evs : list T) : send_state :=
  if len evs =? 0 then Returned (Ok 0) else
  let n := wrap32 (len evs) in
  match encode_events 0 evs [] with
  | (Ok _, payload) => FeedWindow n payload
  | (Err e, _) => Returned (Err e)
  | (Panic p, _) => Returned (Panic p)
  end.

(** [while let Some(frame) = Frame::decode(&mut buf)?] *)
Definition next_frame (n : Z) (buf : bytes) : send_state :=
  match decode buf with
  | (Ok (Some frame), buf') => FeedFrame n frame buf'
  | (Ok None, _) => AwaitFlush n
  | (Err e, _) => Returned (Err e)
  | (Panic p, _) => Returned (Panic p)
  end.

Definition send_request (st : send_state) : client_request :=
  match st with
  | FeedWindow n _ => WantFeed (Window n) (write_timeout client)
  | FeedCompressed _ payload => WantFeed (Compressed payload) (write_timeout client)
  | FeedFrame _ frame _ => WantFeed frame (write_timeout client)
  | AwaitFlush _ => WantFlush (write_timeout client)
  | AwaitAcks _ => WantNext (ack_timeout client)
  | Returned r => WantReturn r
  end.

(** [?] on the result of a write. *)
Definition or_return (r : outcome Error unit) (k : send_state) : send_state :=
  match r with
  | Ok _ => k
  | Err e => Returned (Err e)
  | Panic p => Returned (Panic p)
  end.

(** A frame received while waiting for the acknowledgement. *)
Definition on_ack_frame (n : Z) (f : Frame) : send_state :=
  match f with
  | Ack seq => if n <=? seq then Returned (Ok n) else AwaitAcks n
  | _ => Returned (Err (UnexpectedFrame "expected Ack"))
  end.

Definition on_timeout (timeout : option Z) (e : Error) : option send_state :=
  match timeout with
  | Some _ => Some (Returned (Err e))
  | None => None
  end.

Definition send_resume (st : send_state) (i : client_input) : option send_state :=
  match st, i with
  | FeedWindow n payload, Fed r =>
      Some (or_return r
        (if 0 <? compression_level client then FeedCompressed n payload
         else next_frame n payload))
  | FeedCompressed n _, Fed r => Some (or_return r (AwaitFlush n))
  | FeedFrame n _ buf, Fed r => Some (or_return r (next_frame n buf))
  | AwaitFlush n, Flushed r => Some (or_return r (AwaitAcks n))
  | AwaitAcks n, Got item =>
      Some match item with
      | Some (Ok f) => on_ack_frame n f
      | Some (Err e) => Returned (Err e)
      | Some (Panic p) => Returned (Panic p)
      | None => Returned (Err ConnectionClosed)
      end
  | (FeedWindow _ _ | FeedCompressed _ _ | FeedFrame _ _ _ | AwaitFlush _), TimedOut =>
      on_timeout (write_timeout client) WriteTimeout
  | AwaitAcks _, TimedOut => on_timeout (ack_timeout client) AckTimeout
  | _, _ => None
  end.

(** What a run wrote, and what it received. *)
Definition fed_by (x : send_state * client_input) : list Frame :=
  match send_request x.1, x.2 with
  | WantFeed f _, Fed (Ok _) => [f]
  | _, _ => []
  end.

Definition got_by (x : send_state * client_input) : list Frame :=
  match x.2 with
  | Got (Some (Ok f)) => [f]
  | _ => []
  end.

Definition fed (t : list (send_state * client_input)) : list Frame := t ≫= fed_by.
Definition got (t : list (send_state * client_input)) : list Frame := t ≫= got_by.
End client.

(** [Client::close] *)
Definition client_close `{Framed F} : M F Error unit := framed_close.

(** ** What a batch looks like on the wire

    Specification: the events are numbered from 1; the window frame announces their number, and
    they follow as one compressed frame or as data frames. *)

Fixpoint number (seq : Z) (datas : list bytes) : list item :=
  match datas with
  | [] => []
  | d :: datas' => (seq, d) :: number (seq + 1) datas'
  end.

Definition serialized {T} (to_vec : T → string + bytes) : list T → list bytes → Prop :=
  Forall2 (λ ev d, to_vec ev = inr d).

Definition body `{Zlib} (level : Z) (l : list item) : list Frame :=
  if 0 <? level then [Compressed (wires (json_of <$> l))] else json_of <$> l.

Definition plan `{Zlib} (level : Z) (datas : list bytes) : list Frame :=
  Window (len datas) :: body level (number 1 datas).

(** The events fit: the batch is not empty, its size is a [u32], and no event exceeds the limit
    of the decoder through which an uncompressed batch is fed. *)
Record sendable {T} (to_vec : T → string + bytes) (level : Z) (evs : list T)
    (datas : list bytes) : Prop := {
  sd_serialized : serialized to_vec evs datas;
  sd_len : 0 < len datas < 2 ^ 32;
  sd_size : level <= 0 → Forall (λ d, len d <= DEFAULT_MAX_FRAME_SIZE) datas;
}.

Section facts.
Context `{Zlib}.
Context {T : Type} (to_vec : T → string + bytes).

Lemma len_number s datas : len (number s datas) = len datas.
Proof.
  revert s. induction datas as [|d ds IH]; intros s; simpl; [done|]. by rewrite !len_cons, IH.
Qed.

Lemma number_app s l l' : number s (l ++ l') = number s l ++ number (s + len l) l'.
Proof.
  revert s. induction l as [|d l IH]; intros s; simpl; [by rewrite len_nil, Z.add_0_r|].
  rewrite IH, len_cons. by replace (s + 1 + len l) with (s + (1 + len l)) by lia.
Qed.

Lemma number_datas s datas : (number s datas).*2 = datas.
Proof. revert s. induction datas as [|d ds IH]; intros s; simpl; [done|]. by rewrite IH. Qed.

Lemma number_increasing p s datas : p < s → increasing p (number s datas).
Proof. revert p s. induction datas; intros p s Hs; simpl; [done|]. auto with lia. Qed.

Lemma number_last p s datas :
  seq_after p (number s datas) = if len datas =? 0 then p else s + len datas - 1.
Proof.
  revert p s. induction datas as [|d ds IH]; intros p s; [done|].
  cbn [number]. unfold seq_after. cbn [foldl fst]. fold (seq_after s (number (s + 1) ds)).
  rewrite IH, len_cons. pose proof (len_nonneg ds).
  rewrite (proj2 (Z.eqb_neq (1 + len ds) 0)) by lia.
  destruct (Z.eqb_spec (len ds) 0); lia.
Qed.

Lemma number_ok max s datas :
  0 <= s → s + len datas <= 2 ^ 32 → max < 2 ^ 32 → Forall (λ d, len d <= max) datas →
  Forall (item_ok max) (number s datas).
Proof.
  intros Hs Hlen Hmax Hd. revert s Hs Hlen. induction Hd as [|d ds Hd _ IH]; intros s Hs Hlen;
    [constructor|]. rewrite len_cons in Hlen. pose proof (len_nonneg ds). pose proof (len_nonneg d).
  constructor; [|apply IH; lia]. unfold item_ok, json_of. simpl. unfold u32. lia.
Qed.

Lemma serialized_len evs datas : serialized to_vec evs datas → len evs = len datas.
Proof. intros Hs%Forall2_length. unfold len. by rewrite Hs. Qed.

Lemma encode_events_ok i evs datas dst :
  serialized to_vec evs datas → 0 <= i → i + len datas < 2 ^ 32 →
  encode_events to_vec i evs dst = (Ok tt, dst ++ wires (json_of <$> number (i + 1) datas)).
Proof.
  intros Hs. revert i dst. induction Hs as [|ev d evs datas Hev Hs IH]; intros i dst Hi Hlen.
  - simpl. by rewrite app_nil_r.
  - rewrite len_cons in Hlen. pose proof (len_nonneg datas).
    cbn [encode_events number]. rewrite Hev.
    rewrite (wrap32_small i), (wrap32_small (i + 1)) by (unfold u32; lia).
    erewrite bind_ok by (by apply encode_wire).
    rewrite IH, <- app_assoc by lia. done.
Qed.

Lemma encode_events_err i evs1 ev evs2 datas1 e dst :
  serialized to_vec evs1 datas1 → to_vec ev = inl e →
  (encode_events to_vec i (evs1 ++ ev :: evs2) dst).1 = Err (Serialization e).
Proof.
  intros Hs He. revert i dst. induction Hs as [|ev1 d evs1 datas1 Hev Hs IH]; intros i dst;
    cbn [encode_events app].
  - by rewrite He.
  - rewrite Hev. erewrite bind_ok by (by apply encode_wire). apply IH.
Qed.
Lemma encode_events_total i evs datas dst :
  serialized to_vec evs datas → ∃ payload, encode_events to_vec i evs dst = (Ok tt, payload).
Proof.
  intros Hs. revert i dst. induction Hs as [|ev d evs datas Hev Hs IH]; intros i dst;
    [by eexists|]. cbn [encode_events]. rewrite Hev. erewrite bind_ok by (by apply encode_wire).
  apply IH.
Qed.
End facts.

(** ** Runs of [send] *)

Section runs.
Context `{Zlib}.
Context {T : Type} (to_vec : T → string + bytes).
Context (client : Client).

Abbreviation level := (compression_level client).
Abbreviation run := (Task.run (send_resume client)).
Abbreviation exec := (Task.exec (send_resume client)).

(** The data frames of a buffer come out one by one. *)
Lemma next_frame_nil n : next_frame n [] = AwaitFlush n.
Proof. done. Qed.

Lemma next_frame_wire n it rest :
  item_ok DEFAULT_MAX_FRAME_SIZE it →
  next_frame n (wire (json_of it) ++ rest) = FeedFrame n (json_of it) rest.
Proof.
  intros Hit. unfold next_frame, decode.
  replace (decode_with_limit _ _) with (@Ok Error _ (Some (json_of it)), rest); [done|].
  symmetry. apply decode_iff; [|by apply decodes_wire_plain].
  unfold usize, DEFAULT_MAX_FRAME_SIZE. lia.
Qed.

Lemma next_frame_item n it l :
  item_ok DEFAULT_MAX_FRAME_SIZE it →
  next_frame n (wires (json_of <$> it :: l)) =
    FeedFrame n (json_of it) (wires (json_of <$> l)).
Proof. apply next_frame_wire. Qed.

(** The frames that are still to be fed; an error may abandon them. *)
Definition to_feed (datas : list bytes) (st : send_state) (fs : list Frame) : Prop :=
  match st with
  | FeedWindow n payload =>
      n = len datas ∧ payload = wires (json_of <$> number 1 datas) ∧ fs = plan level datas
  | FeedCompressed n payload => n = len datas ∧ fs = [Compressed payload]
  | FeedFrame n f buf => n = len datas ∧ level <= 0 ∧
      ∃ l, Forall (item_ok DEFAULT_MAX_FRAME_SIZE) l ∧ buf = wires (json_of <$> l) ∧
        fs = f :: (json_of <$> l)
  | AwaitFlush n | AwaitAcks n => n = len datas ∧ fs = []
  | Returned (Ok k) => k = len datas ∧ fs = []
  | Returned _ => True
  end.

Lemma to_feed_start datas :
  to_feed datas (FeedWindow (len datas) (wires (json_of <$> number 1 datas)))
    (plan level datas).
Proof. by split. Qed.

Lemma to_feed_next datas l :
  level <= 0 → Forall (item_ok DEFAULT_MAX_FRAME_SIZE) l →
  to_feed datas (next_frame (len datas) (wires (json_of <$> l))) (json_of <$> l).
Proof.
  intros Hlv Hl. destruct Hl as [|it l Hit Hl]; [done|].
  rewrite next_frame_item by done. simpl. split; [done|]. split; [done|]. by exists l.
Qed.

Lemma to_feed_or_return datas r k f fs :
  to_feed datas k fs →
  ∃ fs', f :: fs = match r with Ok _ => [f] | _ => [] end ++ fs' ∧
         to_feed datas (or_return r k) fs'.
Proof. intros Hk. destruct r as [[]|e|p]; [by exists fs|by exists (f :: fs)..]. Qed.

Lemma send_start_encoded evs datas :
  serialized to_vec evs datas → 0 < len datas < 2 ^ 32 →
  send_start to_vec evs = FeedWindow (len datas) (wires (json_of <$> number 1 datas)).
Proof.
  intros Hs Hlen. unfold send_start. rewrite (serialized_len to_vec evs datas) by done.
  rewrite (proj2 (Z.eqb_neq _ _)) by lia. rewrite wrap32_small by (unfold u32; lia).
  by rewrite (encode_events_ok to_vec 0 evs datas []) by (done || lia).
Qed.

Lemma send_start_ok evs datas :
  sendable to_vec level evs datas →
  send_start to_vec evs = FeedWindow (len datas) (wires (json_of <$> number 1 datas)).
Proof. intros []. by apply send_start_encoded. Qed.

Lemma sendable_items evs datas :
  sendable to_vec level evs datas → level <= 0 →
  Forall (item_ok DEFAULT_MAX_FRAME_SIZE) (number 1 datas).
Proof.
  intros [_ Hlen Hd] Hlv. apply number_ok; [lia|lia|done|auto].
Qed.

Lemma to_feed_timeout datas t e st' fs :
  on_timeout t e = Some st' → to_feed datas st' fs.
Proof. destruct t; [|done]. by intros [= <-]. Qed.

(** Every step feeds the next frame or nothing. *)
Lemma send_resume_feeds evs datas st i st' fs :
  sendable to_vec level evs datas → to_feed datas st fs → send_resume client st i = Some st' →
  ∃ fs', fs = fed_by client (st, i) ++ fs' ∧ to_feed datas st' fs'.
Proof.
  intros Hsend Hst Hr. pose proof (sendable_items _ _ Hsend) as Hitems.
  destruct st as [n payload|n payload|n f buf|n|n|r], i as [r'|r'|item|];
    simpl in Hr; try done; unfold fed_by; cbn [fst snd send_request];
    try (exists fs; split; [done|by eapply to_feed_timeout]); injection Hr as <-.
  - destruct Hst as (-> & -> & ->). apply to_feed_or_return. unfold body.
    destruct (Z.ltb_spec 0 level); [done|]. auto using to_feed_next.
  - destruct Hst as [-> ->]. by apply to_feed_or_return.
  - destruct Hst as (-> & Hlv & l & Hl & -> & ->). apply to_feed_or_return.
    by apply to_feed_next.
  - exists []. destruct Hst as [-> ->]. split; [done|]. by destruct r' as [[]|e|p].
  - exists []. destruct Hst as [-> ->]. split; [done|].
    destruct item as [[f|e|p]|]; try done. destruct f; try done. simpl. by destruct (_ <=? _).
Qed.

Lemma exec_feeds evs datas st t st' fs :
  sendable to_vec level evs datas → to_feed datas st fs → exec st t st' →
  ∃ fs', fs = fed client t ++ fs' ∧ to_feed datas st' fs'.
Proof.
  intros Hsend Hst Hx. revert fs Hst. induction Hx as [st|st i st1 t st' Hr _ IH]; intros fs Hst.
  - by exists fs.
  - destruct (send_resume_feeds _ _ _ _ _ _ Hsend Hst Hr) as (fs1 & -> & Hst1).
    destruct (IH _ Hst1) as (fs' & -> & Hst'). exists fs'. split; [|done].
    unfold fed. simpl. by rewrite app_assoc.
Qed.

(** *** The acknowledgement *)

(** The number of events announced, while [send] runs. *)
Definition size_of (st : send_state) : option Z :=
  match st with
  | FeedWindow n _ | FeedCompressed n _ | FeedFrame n _ _ | AwaitFlush n | AwaitAcks n => Some n
  | Returned _ => None
  end.

Lemma next_frame_size n buf :
  size_of (next_frame n buf) = Some n ∨
  (∃ e, next_frame n buf = Returned (Err e)) ∨ (∃ p, next_frame n buf = Returned (Panic p)).
Proof. unfold next_frame. destruct (decode buf) as [[[f|]|e|p] buf']; eauto. Qed.

(** A step keeps the number announced and receives nothing or a partial acknowledgement, or it
    returns; it returns [Ok] with the number announced only, on an acknowledgement that covers
    it. *)
Lemma send_resume_got st i st' n :
  size_of st = Some n → send_resume client st i = Some st' →
  (size_of st' = Some n ∧ (got_by (st, i) = [] ∨ ∃ k, k < n ∧ got_by (st, i) = [Ack k])) ∨
  (st' = Returned (Ok n) ∧ ∃ s, n <= s ∧ got_by (st, i) = [Ack s]) ∨
  (∃ e, st' = Returned (Err e)) ∨ (∃ p, st' = Returned (Panic p)).
Proof.
  intros Hn Hr.
  assert (Htime : ∀ t e, on_timeout t e = Some st' → st' = Returned (Err e))
    by (intros [] ?; naive_solver).
  destruct st as [m payload|m payload|m f buf|m|m|r], i as [r'|r'|item|];
    try discriminate Hr; injection Hn as ->; try (right; right; left; by eauto);
    injection Hr as <-; try (destruct r' as [[]|e|p]; simpl; eauto 6).
  - destruct (0 <? level); [by left; eauto|].
    destruct (next_frame_size n payload) as [?|[?|?]]; auto.
  - destruct (next_frame_size n buf) as [?|[?|?]]; auto.
  - destruct item as [[[k|s d|x|s]|e|p]|]; simpl; eauto 6.
    destruct (Z.leb_spec n s); simpl; [right; left|left]; naive_solver.
Qed.

Lemma exec_returned r t st : exec (Returned r) t st → st = Returned r ∧ t = [].
Proof. by inversion 1. Qed.

Lemma exec_acked st t n r :
  size_of st = Some n → exec st t (Returned (Ok r)) →
  r = n ∧ ∃ ks s, got t = (Ack <$> ks) ++ [Ack s] ∧ Forall (λ k, k < n) ks ∧ n <= s.
Proof.
  intros Hn Hx. remember (Returned (Ok r)) as st' eqn:Hst'.
  induction Hx as [st|st i st1 t st' Hr Hx IH]; subst; [done|].
  unfold got. cbn [mbind list_bind]. fold (got t).
  destruct (send_resume_got _ _ _ _ Hn Hr) as [[Hn1 Hg]|[[-> (s & Hs & Hg)]|[[e ->]|[p ->]]]].
  - destruct (IH Hn1 eq_refl) as (-> & ks & s & Hgot & Hks & Hs). split; [done|].
    destruct Hg as [->|(k & Hk & ->)]; [by exists ks, s|]. exists (k :: ks), s.
    rewrite Hgot. by auto.
  - apply exec_returned in Hx as [[= ->] ->]. split; [done|]. exists [], s. by rewrite Hg.
  - by apply exec_returned in Hx as [? _].
  - by apply exec_returned in Hx as [? _].
Qed.

(** *** Where a result comes from *)

(** The failure of an awaited write, as the result of [send]. *)
Definition failed (r' : outcome Error unit) (r : outcome Error Z) : Prop :=
  match r' with
  | Ok _ => False
  | Err e => r = Err e
  | Panic p => r = Panic p
  end.

Definition origin (st : send_state) (i : client_input) (r : outcome Error Z) : Prop :=
  match i with
  | Fed r' | Flushed r' => failed r' r
  | Got None => r = Err ConnectionClosed
  | Got (Some (Ok (Ack s))) => ∃ n, st = AwaitAcks n ∧ n <= s ∧ r = Ok n
  | Got (Some (Ok _)) => r = Err (UnexpectedFrame "expected Ack")
  | Got (Some (Err e)) => r = Err e
  | Got (Some (Panic p)) => r = Panic p
  | TimedOut =>
      match st with
      | AwaitAcks _ => ack_timeout client ≠ None ∧ r = Err AckTimeout
      | _ => write_timeout client ≠ None ∧ r = Err WriteTimeout
      end
  end.

Lemma or_return_returned r' k r :
  or_return r' k = Returned r → k ≠ Returned r → failed r' r.
Proof. destruct r' as [[]|e|p]; simpl; [done|by intros [= <-]..]. Qed.

Lemma next_frame_goes_on n l r :
  Forall (item_ok DEFAULT_MAX_FRAME_SIZE) l →
  next_frame n (wires (json_of <$> l)) ≠ Returned r.
Proof. intros [|it l' Hit _]; [done|]. by rewrite next_frame_item. Qed.

Lemma send_resume_origin evs datas st i r fs :
  sendable to_vec level evs datas → to_feed datas st fs →
  send_resume client st i = Some (Returned r) → origin st i r.
Proof.
  intros Hsend Hst Hr. pose proof (sendable_items _ _ Hsend) as Hitems.
  assert (Htime : ∀ t e, on_timeout t e = Some (Returned r) → t ≠ None ∧ r = Err e)
    by (intros [] ?; naive_solver).
  destruct st as [n payload|n payload|n f buf|n|n|r1], i as [r'|r'|item|];
    simpl in Hr; try done; simpl; try (by apply Htime); injection Hr as Hr.
  - apply or_return_returned in Hr; [done|]. destruct Hst as (-> & -> & _).
    destruct (Z.ltb_spec 0 level); [done|auto using next_frame_goes_on].
  - by apply or_return_returned in Hr.
  - apply or_return_returned in Hr; [done|]. destruct Hst as (_ & _ & l & Hl & -> & _).
    auto using next_frame_goes_on.
  - by apply or_return_returned in Hr.
  - destruct item as [[[k|s d|x|s]|e|p]|]; simpl in Hr; try congruence.
    destruct (Z.leb_spec n s); [|done]. injection Hr as <-. by exists n.
Qed.

(** *** Runs in which every call succeeds *)

(** [framed.next()] gives these frames. *)
Definition gets (fs : list Frame) : list client_input := (λ f, Got (Some (Ok f))) <$> fs.

Lemma run_frames n l :
  Forall (item_ok DEFAULT_MAX_FRAME_SIZE) l →
  run (next_frame n (wires (json_of <$> l))) (replicate (length l) (Fed (Ok tt))) =
    Some (AwaitFlush n).
Proof. induction 1 as [|it l Hit Hl IH]; [done|]. by rewrite next_frame_item. Qed.

Lemma exec_frames n l rest :
  Forall (item_ok DEFAULT_MAX_FRAME_SIZE) l →
  ∃ t, exec (next_frame n (wires (json_of <$> l) ++ rest)) t (next_frame n rest) ∧
       fed client t = json_of <$> l.
Proof.
  induction 1 as [|it l Hit _ (t & Ht & Hfed)]; [exists []; split; [apply exec_nil|done]|].
  rewrite fmap_cons, wires_cons, <- app_assoc, next_frame_wire by done.
  eexists. split; [by apply exec_cons with (i := Fed (Ok tt)) (2 := Ht)|].
  exact (f_equal (cons (json_of it)) Hfed).
Qed.

Lemma next_frame_oversize n seq d rest :
  u32 seq → u32 (len d) → DEFAULT_MAX_FRAME_SIZE < len d →
  next_frame n (wire (Json seq d) ++ rest) =
    Returned (Err (FrameTooLarge (len d) DEFAULT_MAX_FRAME_SIZE)).
Proof.
  intros Hseq Hd Hmax. unfold next_frame, decode.
  replace (decode_with_limit _ _) with (@Err Error (option Frame) (FrameTooLarge (len d)
    DEFAULT_MAX_FRAME_SIZE), wire (Json seq d) ++ rest); [done|].
  symmetry. apply decode_iff; [unfold usize, DEFAULT_MAX_FRAME_SIZE; lia|].
  change (wire (Json seq d)) with (header TYPE_JSON ++ be32 seq ++ be32 (len d) ++ d).
  rewrite <- !app_assoc. by apply decodes_json_large.
Qed.

Lemma run_acks n ks s :
  Forall (λ k, k < n) ks → n <= s →
  run (AwaitAcks n) (gets ((Ack <$> ks) ++ [Ack s])) = Some (Returned (Ok n)).
Proof.
  intros Hks Hs. induction Hks as [|k ks Hk _ IH]; simpl.
  - by rewrite (proj2 (Z.leb_le _ _)).
  - by rewrite (proj2 (Z.leb_gt _ _)).
Qed.

Lemma run_plan evs datas :
  sendable to_vec level evs datas →
  run (send_start to_vec evs)
    (replicate (length (plan level datas)) (Fed (Ok tt)) ++ [Flushed (Ok tt)]) =
  Some (AwaitAcks (len datas)).
Proof.
  intros Hsend. rewrite (send_start_ok evs datas) by done. unfold plan, body. simpl.
  pose proof (sendable_items _ _ Hsend) as Hitems. destruct (Z.ltb_spec 0 level); [done|].
  rewrite length_fmap, run_app, run_frames by auto. done.
Qed.
End runs.

(** ** Properties *)

Section client_properties.
Context `{Zlib}.
Context {T : Type} (to_vec : T → string + bytes).
Context (client : Client).

Abbreviation level := (compression_level client).
Abbreviation run := (Task.run (send_resume client)).
Abbreviation exec := (Task.exec (send_resume client)).

(** C23. What [send] writes: in every run, whatever fails, the frames fed are a prefix of the
    plan of the batch (the window with the number of events, then the events numbered from 1,
    compressed in one frame or not), and the whole plan once [send] waits for the flush, waits for
    the acknowledgement or has returned [Ok]. *)
Theorem send_feeds_plan evs datas t st :
  sendable to_vec level evs datas → exec (send_start to_vec evs) t st →
  ∃ rest, plan level datas = fed client t ++ rest ∧
    ((∃ n, st = AwaitFlush n ∨ st = AwaitAcks n ∨ st = Returned (Ok n)) → rest = []).
Proof.
  intros Hsend Hx. rewrite (send_start_ok _ _ _ _ Hsend) in Hx.
  destruct (exec_feeds to_vec client evs datas _ t st (plan level datas) Hsend
    (to_feed_start _ _) Hx) as (rest & Hp & Hst).
  exists rest. split; [done|]. intros (n & [-> | [-> | ->]]); apply Hst.
Qed.

(** C24. [send] returns [Ok] only with the number of events, and only after an acknowledgement
    that covers them: the frames received are acknowledgements below that number (keepalives and
    partial ones, as many as come), and then one that reaches it. *)
Theorem send_acknowledged evs datas t r :
  sendable to_vec level evs datas → exec (send_start to_vec evs) t (Returned (Ok r)) →
  r = len datas ∧
  ∃ ks s, got t = (Ack <$> ks) ++ [Ack s] ∧ Forall (λ k, k < len datas) ks ∧ len datas <= s.
Proof.
  intros Hsend Hx. rewrite (send_start_ok _ _ _ _ Hsend) in Hx.
  eapply exec_acked in Hx; [exact Hx|done].
Qed.

(** C25. [send] completes: when the writes succeed, after as many calls of [feed] as the plan has
    frames it flushes and waits; any number of partial acknowledgements keep it waiting, and the
    one that covers the batch makes it return the number of events. *)
Theorem send_completes evs datas ks s :
  sendable to_vec level evs datas → Forall (λ k, k < len datas) ks → len datas <= s →
  run (send_start to_vec evs)
    (replicate (length (plan level datas)) (Fed (Ok tt)) ++ [Flushed (Ok tt)] ++
     gets ((Ack <$> ks) ++ [Ack s])) =
  Some (Returned (Ok (len datas))).
Proof.
  intros Hsend Hks Hs. rewrite app_assoc, run_app, (run_plan to_vec) with (datas := datas) by done.
  by apply run_acks.
Qed.

(** Where an outcome comes from: a [send] that returns does so at its last step, with the
    failure of the write or of the read it awaited, with [ConnectionClosed] at the end of the
    stream, with [UnexpectedFrame] on a frame that is no acknowledgement, with a timeout error
    only for a timeout that is configured, or with [Ok] on an acknowledgement.  Encoding and
    splitting the batch never fail, and nothing panics of its own. *)
Theorem send_outcome_origin evs datas t r :
  sendable to_vec level evs datas → exec (send_start to_vec evs) t (Returned r) →
  ∃ t' st i, t = t' ++ [(st, i)] ∧ exec (send_start to_vec evs) t' st ∧ origin client st i r.
Proof.
  intros Hsend Hx.
  destruct (exec_last _ _ _ _ Hx) as [[-> Hst]|(t' & st & i & -> & Hx' & Hr)].
  - by rewrite (send_start_ok _ _ _ _ Hsend) in Hst.
  - exists t', st, i. split; [done|]. split; [done|].
    rewrite (send_start_ok _ _ _ _ Hsend) in Hx'.
    destruct (exec_feeds to_vec client evs datas _ t' st (plan level datas) Hsend
      (to_feed_start _ _) Hx') as (rest & _ & Hst).
    by eapply send_resume_origin.
Qed.

(** What is refused before anything is written: the first event that does not serialize makes
    [send] return its error, whatever the other events; an empty batch returns 0. *)
Theorem send_fails_before_writing evs1 datas1 ev evs2 e :
  serialized to_vec evs1 datas1 → to_vec ev = inl e →
  send_start to_vec (evs1 ++ ev :: evs2) = Returned (Err (Serialization e)) ∧
  send_start to_vec [] = Returned (Ok 0).
Proof.
  intros Hs He. split; [|done]. unfold send_start.
  rewrite len_app, len_cons. pose proof (len_nonneg evs1). pose proof (len_nonneg evs2).
  rewrite (proj2 (Z.eqb_neq _ _)) by lia.
  pose proof (encode_events_err to_vec 0 evs1 ev evs2 datas1 e [] Hs He) as Herr.
  destruct (encode_events _ _ _ _) as [r buf]. simpl in Herr. by subst.
Qed.

(** C36. Without compression, an event larger than the default limit is found out only when its
    turn comes: [send] fails with [FrameTooLarge] after it has written the window frame and the
    events before that one, so the peer is left inside a window. *)
Theorem send_oversize_breaks_window evs datas1 big datas2 :
  level <= 0 → serialized to_vec evs (datas1 ++ big :: datas2) →
  len (datas1 ++ big :: datas2) < 2 ^ 32 →
  Forall (λ d, len d <= DEFAULT_MAX_FRAME_SIZE) datas1 →
  DEFAULT_MAX_FRAME_SIZE < len big < 2 ^ 32 →
  ∃ t, exec (send_start to_vec evs) t
         (Returned (Err (FrameTooLarge (len big) DEFAULT_MAX_FRAME_SIZE))) ∧
       fed client t = Window (len (datas1 ++ big :: datas2)) :: (json_of <$> number 1 datas1).
Proof.
  intros Hlv Hs Hlen Hd Hbig. set (n := len (datas1 ++ big :: datas2)) in *.
  assert (Hn : n = len datas1 + (1 + len datas2)) by (unfold n; by rewrite len_app, len_cons).
  pose proof (len_nonneg datas1). pose proof (len_nonneg datas2). pose proof (len_nonneg big).
  rewrite (send_start_encoded to_vec) with (datas := datas1 ++ big :: datas2)
    by (done || (fold n; lia)).
  fold n. clearbody n.
  rewrite number_app, fmap_app, wires_app. cbn [number fmap list_fmap]. rewrite wires_cons.
  destruct (exec_frames client n (number 1 datas1) (wire (Json (1 + len datas1) big) ++
    wires (json_of <$> number (1 + len datas1 + 1) datas2))) as (t & Ht & Hfed).
  { by apply number_ok; (lia || done). }
  rewrite next_frame_oversize in Ht by (unfold u32; lia).
  eexists. split.
  - eapply exec_cons with (i := Fed (Ok tt)); [|exact Ht]. simpl.
    by rewrite (proj2 (Z.ltb_ge _ _)) by lia.
  - exact (f_equal (cons (Window n)) Hfed).
Qed.
(** C37. The width of the window field: a batch is announced, and its acknowledgement awaited, with the
    number of its events modulo 2^32, however many there are.  So a batch of 2^32 events, which
    has the window 0, is reported as sent, with the result 0, at the first keepalive. *)
Theorem send_count_wraps evs datas s :
  0 < level → serialized to_vec evs datas → datas ≠ [] →
  let n := len datas mod 2 ^ 32 in
  (∃ payload, send_request client (send_start to_vec evs) = WantFeed (Window n) payload) ∧
  run (send_start to_vec evs)
    [Fed (Ok tt); Fed (Ok tt); Flushed (Ok tt); Got (Some (Ok (Ack s)))] =
  Some (if n <=? s then Returned (Ok n) else AwaitAcks n).
Proof.
  intros Hlv Hs Hne n. apply len_pos in Hne. unfold send_start.
  rewrite (serialized_len to_vec evs datas Hs), (proj2 (Z.eqb_neq _ _)) by lia.
  destruct (encode_events_total to_vec 0 evs datas [] Hs) as [payload ->].
  change (wrap32 (len datas)) with n. split; [by eexists|].
  cbn [Task.run send_resume]. by rewrite (proj2 (Z.ltb_lt 0 level) Hlv).
Qed.
End client_properties.

(** ** Witnesses *)

(** Events that are their own encoding, and one that has none. *)
Definition sample_to_vec (ev : option bytes) : string + bytes :=
  match ev with
  | Some d => inr d
  | None => inl "key must be a string"%string
  end.

Definition sample_client (level : Z) : Client := MkClient level None (Some 30).
Definition sample_events : list (option bytes) := [Some [x61]; Some [x62]].

Lemma sample_sendable level : sendable sample_to_vec level sample_events [[x61]; [x62]].
Proof.
  split; [repeat constructor|by split|]. intros _. repeat constructor; vm_compute; congruence.
Qed.

(** A batch sent uncompressed, acknowledged after a keepalive and a partial acknowledgement. *)
Definition sample_calls : list client_input :=
  replicate 3 (Fed (Ok tt)) ++ [Flushed (Ok tt)] ++ gets ((Ack <$> [0; 1]) ++ [Ack 2]).

Definition sample_send : list (send_state * client_input) :=
  trace (send_resume (sample_client 0)) (send_start sample_to_vec sample_events) sample_calls.

Lemma sample_send_exec :
  Task.exec (send_resume (sample_client 0)) (send_start sample_to_vec sample_events) sample_send
    (Returned (Ok 2)).
Proof. repeat (eapply exec_cons; [vm_compute; reflexivity|]). apply exec_nil. Qed.

Lemma send_feeds_plan_witness :
  ∃ rest, plan 0 [[x61]; [x62]] = fed (sample_client 0) sample_send ++ rest ∧
    ((∃ n, Returned (Ok 2) = AwaitFlush n ∨ Returned (Ok 2) = AwaitAcks n ∨
           Returned (Ok 2) = Returned (Ok n)) → rest = []).
Proof.
  apply (send_feeds_plan sample_to_vec (sample_client 0) sample_events [[x61]; [x62]]
    sample_send (Returned (Ok 2))).
  - apply sample_sendable.
  - apply sample_send_exec.
Defined.

Lemma send_acknowledged_witness :
  2 = len [[x61]; [x62]] ∧
  ∃ ks s, got sample_send = (Ack <$> ks) ++ [Ack s] ∧
    Forall (λ k, k < len [[x61]; [x62]]) ks ∧ len [[x61]; [x62]] <= s.
Proof.
  apply (send_acknowledged sample_to_vec (sample_client 0) sample_events [[x61]; [x62]]
    sample_send 2).
  - apply sample_sendable.
  - apply sample_send_exec.
Defined.

Lemma send_completes_witness :
  Task.run (send_resume (sample_client 3)) (send_start sample_to_vec sample_events)
    [Fed (Ok tt); Fed (Ok tt); Flushed (Ok tt); Got (Some (Ok (Ack 0))); Got (Some (Ok (Ack 7)))]
  = Some (Returned (Ok 2)).
Proof.
  apply (send_completes sample_to_vec (sample_client 3) sample_events [[x61]; [x62]] [0] 7).
  - apply sample_sendable.
  - repeat constructor.
  - vm_compute. congruence.
Defined.

Lemma send_outcome_origin_witness :
  ∃ t' st i, sample_send = t' ++ [(st, i)] ∧
    Task.exec (send_resume (sample_client 0)) (send_start sample_to_vec sample_events) t' st ∧
    origin (sample_client 0) st i (Ok 2).
Proof.
  apply (send_outcome_origin sample_to_vec (sample_client 0) sample_events [[x61]; [x62]]).
  - apply sample_sendable.
  - apply sample_send_exec.
Defined.

Lemma send_fails_before_writing_witness :
  send_start sample_to_vec [Some [x61]; None; Some [x62]] =
    Returned (Err (Serialization "key must be a string")) ∧
  send_start sample_to_vec [] = Returned (Ok 0).
Proof.
  apply (send_fails_before_writing sample_to_vec [Some [x61]] [[x61]] None [Some [x62]]).
  - repeat constructor.
  - reflexivity.
Defined.

(** An event one byte over the limit. *)
Definition sample_big : bytes := replicate (Z.to_nat (DEFAULT_MAX_FRAME_SIZE + 1)) x61.

Lemma sample_big_len : len sample_big = DEFAULT_MAX_FRAME_SIZE + 1.
Proof.
  unfold len, sample_big. rewrite length_replicate. apply Z2Nat.id.
  unfold DEFAULT_MAX_FRAME_SIZE. lia.
Qed.

Lemma send_oversize_breaks_window_witness :
  ∃ t, Task.exec (send_resume (sample_client 0))
         (send_start sample_to_vec [Some [x61]; Some sample_big]) t
         (Returned (Err (FrameTooLarge (len sample_big) DEFAULT_MAX_FRAME_SIZE))) ∧
       fed (sample_client 0) t = [Window 2; Json 1 [x61]].
Proof.
  apply (send_oversize_breaks_window sample_to_vec (sample_client 0)
    [Some [x61]; Some sample_big] [[x61]] sample_big []).
  - reflexivity.
  - repeat constructor.
  - reflexivity.
  - repeat constructor. vm_compute. congruence.
  - rewrite sample_big_len. unfold DEFAULT_MAX_FRAME_SIZE. lia.
Defined.

(** 2^32 events of no bytes, and a keepalive. *)
Definition sample_many : list bytes := replicate (Z.to_nat (2 ^ 32)) [].

Lemma sample_many_len : len sample_many = 2 ^ 32.
Proof. unfold len, sample_many. rewrite length_replicate. apply Z2Nat.id. lia. Qed.

Lemma send_count_wraps_witness :
  let n := len sample_many mod 2 ^ 32 in
  (∃ payload, send_request (sample_client 3) (send_start sample_to_vec (Some <$> sample_many)) =
     WantFeed (Window n) payload) ∧
  Task.run (send_resume (sample_client 3)) (send_start sample_to_vec (Some <$> sample_many))
    [Fed (Ok tt); Fed (Ok tt); Flushed (Ok tt); Got (Some (Ok (Ack 0)))] =
  Some (if n <=? 0 then Returned (Ok n) else AwaitAcks n).
Proof.
  apply (send_count_wraps sample_to_vec (sample_client 3) (Some <$> sample_many) sample_many 0).
  - reflexivity.
  - generalize sample_many. intros l. unfold serialized. induction l; by constructor.
  - intros Hn. pose proof sample_many_len as Hl. rewrite Hn in Hl. discriminate Hl.
Defined.
