(* ===== verification/Connect.v ===== *)
(** * Connect: opening a client connection (src/src/client.rs)

    [ClientBuilder] with its defaults and setters, [connect], and [connect_with_port_range], which
    looks for a free local port in a range from a random start.  Sockets, name resolution, TLS and
    the random generator are not part of the repository: [Net] is their interface, over a state
    [W] of the world, in which every call may succeed or fail as it likes.  Builds without the
    [tls] feature have no [tls] setter: there the field is [None]. *)

From S2P Require Import Prelude Errors Codec Client.

(** [std::net::SocketAddr]: the address and the port. *)
Inductive SocketAddr : Type :=
| V4 (ip port : Z)
| V6 (ip port : Z).

#[export] Instance SocketAddr_eq_dec : EqDecision SocketAddr.
Proof. solve_decision. Defined.

Class Net (W : Type) : Type := {
  Addr : Type;
  TcpStream : Type;
  TcpSocket : Type;
  TlsConnector : Type;
  ServerName : Type;
  TlsStream : Type;
  lookup_host : Addr → M W io_error (list SocketAddr);
  tcp_connect : SocketAddr → M W io_error TcpStream;
  new_v4 : M W io_error TcpSocket;
  new_v6 : M W io_error TcpSocket;
  socket_bind : TcpSocket → SocketAddr → M W io_error unit;
  socket_connect : TcpSocket → SocketAddr → M W io_error TcpStream;
  set_nodelay : TcpStream → bool → M W io_error unit;
  server_name : string → option ServerName;
  tls_connect : TlsConnector → ServerName → TcpStream → M W io_error TlsStream;
  gen_range : Z → M W Error Z;
}.

(** [gen_range(0..n)] gives a number of the range. *)
Class RandOk (W : Type) `{Net W} : Prop :=
  gen_range_ok n w : 0 < n → ∃ k w', gen_range n w = (Ok k, w') ∧ 0 <= k < n.

Definition from_secs (n : Z) : Z := n * 1000000000.

Section connect.
Context {W : Type} `{Net W}.

Record ClientBuilder : Type := MkClientBuilder {
  b_compression_level : Z;
  b_write_timeout : option Z;
  b_ack_timeout : option Z;
  b_local_port_range : option (Z * Z);
  b_tls : option (TlsConnector * string);
}.

(** [Default for ClientBuilder]; durations are in nanoseconds. *)
Definition builder_default : ClientBuilder :=
  MkClientBuilder 3 None (Some (from_secs 30)) None None.

Definition set_compression_level (level : Z) (b : ClientBuilder) : ClientBuilder :=
  MkClientBuilder level (b_write_timeout b) (b_ack_timeout b) (b_local_port_range b) (b_tls b).
Definition set_write_timeout (d : Z) (b : ClientBuilder) : ClientBuilder :=
  MkClientBuilder (b_compression_level b) (Some d) (b_ack_timeout b) (b_local_port_range b)
    (b_tls b).
Definition set_ack_timeout (d : Z) (b : ClientBuilder) : ClientBuilder :=
  MkClientBuilder (b_compression_level b) (b_write_timeout b) (Some d) (b_local_port_range b)
    (b_tls b).
Definition set_local_port_range (start end_ : Z) (b : ClientBuilder) : ClientBuilder :=
  MkClientBuilder (b_compression_level b) (b_write_timeout b) (b_ack_timeout b)
    (Some (start, end_)) (b_tls b).
Definition set_tls (connector : TlsConnector) (domain : string) (b : ClientBuilder) :
  ClientBuilder :=
  MkClientBuilder (b_compression_level b) (b_write_timeout b) (b_ack_timeout b)
    (b_local_port_range b) (Some (connector, domain)).

(** [BoxedStream] *)
Inductive BoxedStream : Type :=
| Plain (s : TcpStream)
| Secured (s : TlsStream).

(** ** The search for a local port *)

Definition retriable (e : io_error) : bool :=
  match kind e with
  | AddrInUse | AddrNotAvailable => true
  | OtherKind _ => false
  end.

(** One turn of the loop, for the local port [port]; [None] is [continue]. *)
Definition try_port (target : SocketAddr) (port : Z) : M W Error (option TcpStream) :=
  socket ← map_err from_io (match target with V4 _ _ => new_v4 | V6 _ _ => new_v6 end);
  let bind_addr := match target with V4 _ _ => V4 0 port | V6 _ _ => V6 0 port end in
  bound ← result_of (socket_bind socket bind_addr);
  match bound with
  | inl _ => mret None
  | inr _ =>
      connected ← result_of (socket_connect socket target);
      match connected with
      | inr stream => mret (Some stream)
      | inl e => if retriable e then mret None else throw (Io e)
      end
  end.

(** [for i in 0..count] over the remaining values of [i]. *)
Fixpoint port_loop (target : SocketAddr) (start count offset : Z) (idx : list Z) :
  M W Error TcpStream :=
  match idx with
  | [] => throw NoLocalPortAvailable
  | i :: idx' =>
      let port := wrap16 (start + wrap16 (wrap32 (offset + i) mod count)) in
      r ← try_port target port;
      match r with
      | Some stream => mret stream
      | None => port_loop target start count offset idx'
      end
  end.

Definition connect_with_port_range (target : SocketAddr) (start end_ : Z) :
  M W Error TcpStream :=
  let count := wrap32 (wrap16 (end_ - start) + 1) in
  offset ← gen_range count;
  port_loop target start count offset (seqZ 0 count).

(** ** [connect] *)

(** The client, the stream it talks over and the codec it uses. *)
Definition connect (b : ClientBuilder) (addr : Addr) :
  M W Error (BoxedStream * LumberjackCodec * Client) :=
  match b_local_port_range b with
  | Some (start, end_) =>
      if end_ <? start then throw (InvalidConfig "local_port_range start > end") else mret tt
  | None => mret tt
  end;;
  addrs ← map_err from_io (lookup_host addr);
  target ← match addrs with
           | a :: _ => mret a
           | [] => throw (InvalidConfig "no addresses resolved")
           end;
  stream ← match b_local_port_range b with
           | None => map_err from_io (tcp_connect target)
           | Some (start, end_) => connect_with_port_range target start end_
           end;
  _ ← result_of (set_nodelay stream true);
  boxed ← match b_tls b with
          | Some (connector, domain) =>
              name ← match server_name domain with
                     | Some name => mret name
                     | None => throw (InvalidConfig "invalid TLS server name")
                     end;
              tls_stream ← map_err Io (tls_connect connector name stream);
              mret (Secured tls_stream)
          | None => mret (Plain stream)
          end;
  mret (boxed, codec_new,
    MkClient (b_compression_level b) (b_write_timeout b) (b_ack_timeout b)).

(** [Client::builder] and [Client::connect] *)
Definition client_builder : ClientBuilder := builder_default.
Definition client_connect (addr : Addr) : M W Error (BoxedStream * LumberjackCodec * Client) :=
  connect builder_default addr.
End connect.

(** ** Specification of the search

    The ports of the range, each once, from a random one on and around; the first of them that
    can be bound and connected is the result. *)

Section port_search.
Context {W : Type} `{Net W}.

Definition scan_order (start end_ offset : Z) : list Z :=
  let ports := seqZ start (end_ - start + 1) in
  drop (Z.to_nat offset) ports ++ take (Z.to_nat offset) ports.

Fixpoint first_port (target : SocketAddr) (ports : list Z) : M W Error TcpStream :=
  match ports with
  | [] => throw NoLocalPortAvailable
  | p :: ports' =>
      r ← try_port target p;
      match r with
      | Some stream => mret stream
      | None => first_port target ports'
      end
  end.

(** Each of these ports was tried in turn and was in use. *)
Inductive all_busy (target : SocketAddr) : W → list Z → W → Prop :=
| all_busy_nil w : all_busy target w [] w
| all_busy_cons w p w1 ports w2 :
    try_port target p w = (Ok None, w1) → all_busy target w1 ports w2 →
    all_busy target w (p :: ports) w2.

Lemma scan_order_perm start end_ offset :
  scan_order start end_ offset ≡ₚ seqZ start (end_ - start + 1).
Proof. unfold scan_order. by rewrite Permutation_app_comm, take_drop. Qed.

(** The arithmetic of the loop: its ports are those of [scan_order]. *)
Lemma scan_order_ports start end_ offset :
  0 <= start → start <= end_ < 2 ^ 16 → 0 <= offset <= end_ - start →
  (λ i, wrap16 (start + wrap16 (wrap32 (offset + i) mod (end_ - start + 1)))) <$>
    seqZ 0 (end_ - start + 1) = scan_order start end_ offset.
Proof.
  intros Hstart Hend Hoff. set (count := end_ - start + 1) in *. unfold scan_order. fold count.
  replace (seqZ 0 count) with (seqZ 0 (count - offset) ++ seqZ (count - offset) offset).
  2: { rewrite <- (Z.add_0_l (count - offset)) at 2. rewrite <- seqZ_app by lia. f_equal. lia. }
  replace (seqZ start count) with (seqZ start offset ++ seqZ (start + offset) (count - offset)).
  2: { rewrite <- seqZ_app by lia. f_equal. lia. }
  rewrite drop_app_length', take_app_length' by (rewrite length_seqZ; lia).
  rewrite fmap_app. f_equal.
  - apply list_eq. intros k. rewrite list_lookup_fmap.
    destruct (decide (Z.of_nat k < count - offset)) as [Hk|Hk].
    + rewrite !lookup_seqZ_lt by lia. simpl. f_equal.
      rewrite wrap32_small by (unfold u32; lia). rewrite Z.mod_small by lia.
      rewrite !wrap16_small by (rewrite ?wrap16_small; unfold u16; lia). lia.
    + by rewrite !lookup_seqZ_ge by lia.
  - apply list_eq. intros k. rewrite list_lookup_fmap.
    destruct (decide (Z.of_nat k < offset)) as [Hk|Hk].
    + rewrite !lookup_seqZ_lt by lia. simpl. f_equal.
      rewrite wrap32_small by (unfold u32; lia).
      replace (offset + (count - offset + Z.of_nat k)) with (Z.of_nat k + 1 * count) by lia.
      rewrite Z.mod_add, Z.mod_small by lia.
      rewrite !wrap16_small by (rewrite ?wrap16_small; unfold u16; lia). lia.
    + by rewrite !lookup_seqZ_ge by lia.
Qed.

Lemma port_loop_first target start count offset idx :
  port_loop target start count offset idx =
  first_port target
    ((λ i, wrap16 (start + wrap16 (wrap32 (offset + i) mod count))) <$> idx).
Proof.
  induction idx as [|i idx IH]; [done|]. cbn [port_loop fmap list_fmap first_port].
  by rewrite IH.
Qed.

(** The errors of a turn are I/O errors. *)
Lemma try_port_error target p w e w' : try_port target p w = (Err e, w') → ∃ io, e = Io io.
Proof.
  unfold try_port, mbind, M_bind, map_err, result_of, from_io.
  destruct (match target with V4 _ _ => new_v4 | V6 _ _ => new_v6 end w) as [[s|io|m] w1];
    [|naive_solver..].
  destruct (socket_bind s _ w1) as [[u|io|m] w2]; [|done..].
  destruct (socket_connect s target w2) as [[t|io|m] w3]; [done| |done].
  destruct (retriable io); [done|]. intros [= <- _]. by exists io.
Qed.

Lemma first_port_result target ports w r w' :
  first_port target ports w = (r, w') →
  (r = Err NoLocalPortAvailable ∧ all_busy target w ports w') ∨
  ∃ ps p ps' w1, ports = ps ++ p :: ps' ∧ all_busy target w ps w1 ∧
    match r with
    | Ok stream => try_port target p w1 = (Ok (Some stream), w')
    | Err e => try_port target p w1 = (Err e, w')
    | Panic m => try_port target p w1 = (Panic m, w')
    end.
Proof.
  revert w. induction ports as [|p ports IH]; intros w Hr.
  - injection Hr as <- <-. left. split; [done|constructor].
  - cbn [first_port] in Hr. unfold mbind, M_bind in Hr.
    destruct (try_port target p w) as [[[stream|]|e|m] w1] eqn:Hp.
    + injection Hr as <- <-. right. exists [], p, ports, w. split; [done|].
      split; [constructor|done].
    + destruct (IH w1 Hr) as [[-> Hb]|(ps & p1 & ps' & w2 & -> & Hb & Hr')].
      * left. split; [done|by econstructor].
      * right. exists (p :: ps), p1, ps', w2. split; [done|]. split; [by econstructor|done].
    + injection Hr as <- <-. right. exists [], p, ports, w. split; [done|].
      split; [constructor|done].
    + injection Hr as <- <-. right. exists [], p, ports, w. split; [done|].
      split; [constructor|done].
Qed.

Lemma connect_range_first `{!RandOk W} target start end_ w :
  0 <= start → start <= end_ < 2 ^ 16 →
  ∃ offset w1, gen_range (end_ - start + 1) w = (Ok offset, w1) ∧ 0 <= offset <= end_ - start ∧
    connect_with_port_range target start end_ w =
      first_port target (scan_order start end_ offset) w1.
Proof.
  intros Hstart Hend. destruct (gen_range_ok (end_ - start + 1) w) as (offset & w1 & Hg & Hoff);
    [lia|]. exists offset, w1. split; [done|]. split; [lia|].
  unfold connect_with_port_range.
  rewrite (wrap16_small (end_ - start)) by (unfold u16; lia).
  rewrite wrap32_small by (unfold u32; lia).
  erewrite bind_ok by exact Hg. rewrite port_loop_first, scan_order_ports; [done|lia..].
Qed.
End port_search.

(** ** Properties *)

Section connect_properties.
Context {W : Type} `{Net W}.

(** C33. The search tries every port of the range exactly once: it is the search of the first
    usable port in an order that starts at the port the random offset selects, goes up to the end
    of the range and wraps around to its start; no computation on the ports overflows. *)
Theorem port_search_order `{!RandOk W} target start end_ w :
  u16 start → u16 end_ → start <= end_ →
  ∃ offset w1 order,
    gen_range (end_ - start + 1) w = (Ok offset, w1) ∧
    order = seqZ (start + offset) (end_ - start + 1 - offset) ++ seqZ start offset ∧
    order ≡ₚ seqZ start (end_ - start + 1) ∧
    connect_with_port_range target start end_ w = first_port target order w1.
Proof.
  unfold u16. intros Hstart Hend Hle.
  destruct (connect_range_first target start end_ w) as (offset & w1 & Hg & Hoff & ->);
    [lia..|].
  exists offset, w1, (scan_order start end_ offset). split; [done|].
  split; [|by split; [apply scan_order_perm|]]. unfold scan_order.
  replace (seqZ start (end_ - start + 1)) with
    (seqZ start offset ++ seqZ (start + offset) (end_ - start + 1 - offset)).
  - by rewrite drop_app_length', take_app_length' by (rewrite length_seqZ; lia).
  - rewrite <- seqZ_app by lia. f_equal. lia.
Qed.

(** What the search returns: [NoLocalPortAvailable] exactly when all the ports of the range
    were tried and were in use; otherwise the stream, or the error, of the first port tried that
    was not in use, which is a port of the range. *)
Theorem port_search_result `{!RandOk W} target start end_ w r w' :
  u16 start → u16 end_ → start <= end_ →
  connect_with_port_range target start end_ w = (r, w') →
  ∃ w1 order, order ≡ₚ seqZ start (end_ - start + 1) ∧
    ((r = Err NoLocalPortAvailable ∧ all_busy target w1 order w') ∨
     ∃ ps p ps' w2, order = ps ++ p :: ps' ∧ all_busy target w1 ps w2 ∧ start <= p <= end_ ∧
       ((∃ stream, r = Ok stream ∧ try_port target p w2 = (Ok (Some stream), w')) ∨
        (∃ e, r = Err e ∧ e ≠ NoLocalPortAvailable ∧ try_port target p w2 = (Err e, w')) ∨
        (∃ m, r = Panic m ∧ try_port target p w2 = (Panic m, w')))).
Proof.
  unfold u16. intros Hstart Hend Hle Hr.
  destruct (connect_range_first target start end_ w) as (offset & w1 & _ & _ & Heq);
    [lia..|]. rewrite Heq in Hr. exists w1, (scan_order start end_ offset).
  pose proof (scan_order_perm start end_ offset) as Hperm. split; [done|].
  destruct (first_port_result _ _ _ _ _ Hr) as [[-> Hb]|(ps & p & ps' & w2 & Ho & Hb & Hp)].
  - by left.
  - right. exists ps, p, ps', w2. split; [done|]. split; [done|].
    assert (Hin : p ∈ seqZ start (end_ - start + 1)).
    { rewrite <- Hperm, Ho. apply elem_of_app. right. by left. }
    apply elem_of_seqZ in Hin. split; [lia|]. destruct r as [stream|e|m]; [by eauto| |by eauto].
    right. left. exists e. split; [done|]. split; [|done].
    destruct (try_port_error _ _ _ _ _ Hp) as [io ->]. done.
Qed.

(** A connection that opens has the configuration of its builder: the range of local ports is
    not empty, the name resolved, the client keeps the settings of the builder, the stream is
    secured exactly when a connector was given, and the decoder has the default limit. *)
Theorem connect_configuration b addr w stream codec client w' :
  connect b addr w = (Ok (stream, codec, client), w') →
  (∀ start end_, b_local_port_range b = Some (start, end_) → start <= end_) ∧
  (∃ target addrs w1, lookup_host addr w = (Ok (target :: addrs), w1)) ∧
  client = MkClient (b_compression_level b) (b_write_timeout b) (b_ack_timeout b) ∧
  ((∃ s, stream = Secured s) ↔ b_tls b ≠ None) ∧
  max_frame_size codec = 16 * 1024 * 1024.
Proof.
  unfold connect. intros (? & w0 & H0 & H1)%bind_ok_inv.
  apply bind_ok_inv in H1 as (addrs & w1 & Hl & H1).
  apply bind_ok_inv in H1 as (target & w2 & Ht & H1).
  apply bind_ok_inv in H1 as (s & w3 & Hs & H1).
  apply bind_ok_inv in H1 as (? & w4 & _ & H1).
  apply bind_ok_inv in H1 as (boxed & w5 & Hb & H1).
  injection H1 as <- <- <- <-.
  assert (Hr : w0 = w ∧ ∀ start end_, b_local_port_range b = Some (start, end_) → start <= end_).
  { destruct (b_local_port_range b) as [[st en]|]; [|by injection H0 as _ <-].
    destruct (Z.ltb_spec en st); [done|]. injection H0 as _ <-. split; [done|].
    by intros ? ? [= <- <-]. }
  destruct Hr as [-> Hr]. split; [done|]. split; [|split; [done|split; [|done]]].
  - unfold map_err in Hl. destruct (lookup_host addr w) as [[l|e|p] w1'] eqn:He; try done.
    injection Hl as -> ->. destruct addrs as [|a addrs]; [done|]. by exists a, addrs, w1.
  - destruct (b_tls b) as [[connector domain]|].
    + apply bind_ok_inv in Hb as (name & w6 & _ & Hb).
      apply bind_ok_inv in Hb as (tls & w7 & _ & Hb). injection Hb as <- _. split; [done|by eexists].
    + injection Hb as <- _. split; [by intros [? ?]|done].
Qed.

(** A range of local ports whose start exceeds its end is refused before anything else is
    done (no name resolution, no socket), whatever the other settings and the address. *)
Theorem connect_refuses_range b addr w start end_ :
  b_local_port_range b = Some (start, end_) → end_ < start →
  connect b addr w = (Err (InvalidConfig "local_port_range start > end"), w).
Proof.
  intros Hr Hlt. unfold connect. rewrite Hr. apply bind_err.
  by rewrite (proj2 (Z.ltb_lt _ _)).
Qed.
End connect_properties.

(** ** Witnesses

    A network whose state is the list of the local ports in use and the port bound last; a stream
    is the local port it uses, and the random offset is the middle of the range. *)

Record SampleNet : Type := MkNet { in_use : list Z; bound_port : Z }.

Definition port_of (a : SocketAddr) : Z := match a with V4 _ p | V6 _ p => p end.

Definition addr_in_use : io_error := IoError AddrInUse "address in use".

#[export] Instance SampleNet_net : Net SampleNet := {|
  Addr := SocketAddr;
  TcpStream := Z;
  TcpSocket := unit;
  TlsConnector := unit;
  ServerName := string;
  TlsStream := string * Z;
  lookup_host a := mret [a];
  tcp_connect _ := mret 0;
  new_v4 := mret tt;
  new_v6 := mret tt;
  socket_bind _ a := λ n,
    if bool_decide (port_of a ∈ in_use n) then (Err addr_in_use, n)
    else (Ok tt, MkNet (in_use n) (port_of a));
  socket_connect _ _ := λ n, (Ok (bound_port n), n);
  set_nodelay _ _ := mret tt;
  server_name d := if bool_decide (d = ""%string) then None else Some d;
  tls_connect _ name s := mret (name, s);
  gen_range n := mret (n / 2);
|}.

#[export] Instance SampleNet_rand : RandOk SampleNet.
Proof.
  intros n w Hn. exists (n / 2), w. split; [done|].
  split; [apply Z.div_pos; lia|apply Z.div_lt; lia].
Qed.

(** Ports 40002 and 40003 are in use; the search starts at 40002. *)
Definition sample_net : SampleNet := MkNet [40002; 40003] 0.
Definition sample_target : SocketAddr := V4 2130706433 5044.

Lemma sample_ports : u16 40000 ∧ u16 40003.
Proof. unfold u16. lia. Qed.

Lemma port_search_order_witness :
  ∃ offset w1 order,
    gen_range 4 sample_net = (Ok offset, w1) ∧
    order = seqZ (40000 + offset) (4 - offset) ++ seqZ 40000 offset ∧
    order ≡ₚ seqZ 40000 4 ∧
    connect_with_port_range sample_target 40000 40003 sample_net =
      first_port sample_target order w1.
Proof.
  apply (port_search_order sample_target 40000 40003 sample_net); [apply sample_ports..|lia].
Defined.

Lemma port_search_result_witness :
  ∃ w1 order, order ≡ₚ seqZ 40000 4 ∧
    ((@Ok Error Z 40000 = Err NoLocalPortAvailable ∧
      all_busy sample_target w1 order (MkNet [40002; 40003] 40000)) ∨
     ∃ ps p ps' w2, order = ps ++ p :: ps' ∧ all_busy sample_target w1 ps w2 ∧
       40000 <= p <= 40003 ∧
       ((∃ stream, @Ok Error Z 40000 = Ok stream ∧
           try_port sample_target p w2 = (Ok (Some stream), MkNet [40002; 40003] 40000)) ∨
        (∃ e, @Ok Error Z 40000 = Err e ∧ e ≠ NoLocalPortAvailable ∧
           try_port sample_target p w2 = (Err e, MkNet [40002; 40003] 40000)) ∨
        (∃ m, @Ok Error Z 40000 = Panic m ∧
           try_port sample_target p w2 = (Panic m, MkNet [40002; 40003] 40000)))).
Proof.
  apply (@port_search_result SampleNet SampleNet_net _ sample_target 40000 40003 sample_net
    (Ok 40000) (MkNet [40002; 40003] 40000)); [apply sample_ports..|lia|].
  vm_compute. reflexivity.
Defined.

Definition sample_builder : ClientBuilder :=
  set_tls () "example.org" (set_local_port_range 40000 40003 (set_compression_level 0
    builder_default)).

Lemma connect_configuration_witness :
  (∀ start end_, b_local_port_range sample_builder = Some (start, end_) → start <= end_) ∧
  (∃ target addrs w1, lookup_host sample_target sample_net = (Ok (target :: addrs), w1)) ∧
  MkClient 0 None (Some (from_secs 30)) = MkClient (b_compression_level sample_builder)
    (b_write_timeout sample_builder) (b_ack_timeout sample_builder) ∧
  ((∃ s, @Secured SampleNet SampleNet_net ("example.org"%string, 40000) = Secured s) ↔
    b_tls sample_builder ≠ None) ∧
  max_frame_size codec_new = 16 * 1024 * 1024.
Proof.
  apply (@connect_configuration SampleNet SampleNet_net sample_builder sample_target sample_net
    (@Secured SampleNet SampleNet_net ("example.org"%string, 40000)) codec_new
    (MkClient 0 None (Some (from_secs 30)))
    (MkNet [40002; 40003] 40000)).
  vm_compute. reflexivity.
Defined.

Lemma connect_refuses_range_witness :
  connect (set_local_port_range 50000 49000 builder_default) sample_target sample_net =
    (Err (InvalidConfig "local_port_range start > end"), sample_net).
Proof.
  apply (@connect_refuses_range SampleNet SampleNet_net _ sample_target sample_net 50000 49000);
    [done|lia].
Defined.
