(* ===== verification/Tls.v ===== *)
(** * Tls: the constructors of TLS configurations (src/src/tls.rs)

    The two functions only combine calls of rustls and of its companions, which are not part of
    the repository: [Rustls] is their interface.  What is theirs is the order of the steps and the
    error each one becomes: reading and parsing failures are I/O errors, a file without a private
    key is an invalid configuration, and what rustls refuses is a TLS error. *)

From S2P Require Import Prelude Errors.

Class Rustls (W : Type) : Type := {
  Path : Type;
  CertificateDer : Type;
  PrivateKeyDer : Type;
  ServerConfig : Type;
  RootCertStore : Type;
  ClientConfig : Type;
  fs_read : Path → M W io_error bytes;
  (** the items of the iterator of [rustls_pemfile::certs], and [private_key] *)
  pem_certs : bytes → list (io_error + CertificateDer);
  pem_private_key : bytes → io_error + option PrivateKeyDer;
  with_single_cert : list CertificateDer → PrivateKeyDer → rustls_error + ServerConfig;
  load_native_certs : M W Error (list CertificateDer);
  roots_empty : RootCertStore;
  roots_add : CertificateDer → RootCertStore → rustls_error + RootCertStore;
  with_root_certificates : RootCertStore → ClientConfig;
}.

Section tls.
Context {W : Type} `{Rustls W}.

(** [collect] into a [Result]: the first error, or all the items. *)
Fixpoint collect {A} (l : list (io_error + A)) : outcome io_error (list A) :=
  match l with
  | [] => Ok []
  | inl e :: _ => Err e
  | inr a :: l' => as_ ← collect l'; Ok (a :: as_)
  end.

Definition outcome_of {E A} (r : E + A) : outcome E A :=
  match r with
  | inl e => Err e
  | inr a => Ok a
  end.

Definition server_acceptor_from_pem (cert key : Path) : M W Error ServerConfig :=
  cert_pem ← map_err from_io (fs_read cert);
  key_pem ← map_err from_io (fs_read key);
  certs ← lift (of_io (collect (pem_certs cert_pem)));
  found ← lift (of_io (outcome_of (pem_private_key key_pem)));
  key ← match found with
        | Some key => mret key
        | None => throw (InvalidConfig "no private key in PEM file")
        end;
  map_err Tls (lift (outcome_of (with_single_cert certs key))).

(** [let _ = roots.add(cert)] for each certificate: one that is refused leaves the store. *)
Fixpoint add_roots (certs : list CertificateDer) (roots : RootCertStore) : RootCertStore :=
  match certs with
  | [] => roots
  | cert :: certs' =>
      add_roots certs' match roots_add cert roots with
                       | inl _ => roots
                       | inr roots' => roots'
                       end
  end.

Definition client_connector_with_native_roots : M W Error ClientConfig :=
  certs ← load_native_certs;
  mret (with_root_certificates (add_roots certs roots_empty)).

(** *** Facts *)

Lemma server_acceptor_read cert key w cert_pem w1 key_pem w2 :
  fs_read cert w = (Ok cert_pem, w1) → fs_read key w1 = (Ok key_pem, w2) →
  server_acceptor_from_pem cert key w =
    (match collect (pem_certs cert_pem), pem_private_key key_pem with
     | Ok certs, inr (Some key) =>
         match with_single_cert certs key with
         | inl e => Err (Tls e)
         | inr c => Ok c
         end
     | Ok _, inr None => Err (InvalidConfig "no private key in PEM file")
     | Ok _, inl e | Err e, _ => Err (Io e)
     | Panic p, _ => Panic p
     end, w2).
Proof.
  intros H1 H2. unfold server_acceptor_from_pem.
  erewrite bind_ok by (unfold map_err; by rewrite H1).
  erewrite bind_ok by (unfold map_err; by rewrite H2).
  unfold mbind, M_bind, lift, map_err. simpl.
  destruct (collect (pem_certs cert_pem)) as [certs|e|p]; [|done..]. simpl.
  destruct (pem_private_key key_pem) as [e|[k|]]; [done| |done]. simpl.
  by destruct (with_single_cert certs k).
Qed.

(** Specification: what the contents of the files lead to. *)
Inductive accepts_pem : list (io_error + CertificateDer) → io_error + option PrivateKeyDer →
    outcome Error ServerConfig → Prop :=
| accepts_bad_cert certs e rest key :
    accepts_pem ((inr <$> certs) ++ inl e :: rest) key (Err (Io e))
| accepts_bad_key certs e : accepts_pem (inr <$> certs) (inl e) (Err (Io e))
| accepts_keyless certs :
    accepts_pem (inr <$> certs) (inr None) (Err (InvalidConfig "no private key in PEM file"))
| accepts_refused certs key e :
    with_single_cert certs key = inl e → accepts_pem (inr <$> certs) (inr (Some key)) (Err (Tls e))
| accepts_all certs key config :
    with_single_cert certs key = inr config →
    accepts_pem (inr <$> certs) (inr (Some key)) (Ok config).

(** Specification: the steps in order, and the error of the first one that fails. *)
Inductive accepts (cert key : Path) (w : W) : outcome Error ServerConfig → W → Prop :=
| accepts_no_cert e w1 :
    fs_read cert w = (Err e, w1) → accepts cert key w (Err (Io e)) w1
| accepts_no_key cert_pem w1 e w2 :
    fs_read cert w = (Ok cert_pem, w1) → fs_read key w1 = (Err e, w2) →
    accepts cert key w (Err (Io e)) w2
| accepts_read cert_pem w1 key_pem w2 r :
    fs_read cert w = (Ok cert_pem, w1) → fs_read key w1 = (Ok key_pem, w2) →
    accepts_pem (pem_certs cert_pem) (pem_private_key key_pem) r → accepts cert key w r w2.

Lemma collect_items {A} (l : list A) : collect (inr <$> l) = Ok l.
Proof. induction l as [|a l IH]; [done|]. rewrite fmap_cons. cbn [collect]. by rewrite IH. Qed.

Lemma collect_error {A} (l : list A) e rest : collect ((inr <$> l) ++ inl e :: rest) = Err e.
Proof.
  induction l as [|a l IH]; [done|]. rewrite fmap_cons. cbn [app collect]. by rewrite IH.
Qed.

(** The items are all there, or there is a first error. *)
Lemma items_split {A} (l : list (io_error + A)) :
  (∃ as_, l = inr <$> as_) ∨ ∃ as_ e rest, l = (inr <$> as_) ++ inl e :: rest.
Proof.
  induction l as [|[e|a] l IH]; [by left; exists []|by right; exists [], e, l|].
  destruct IH as [[as_ ->]|(as_ & e & rest & ->)]; [by left; exists (a :: as_)|].
  right. by exists (a :: as_), e, rest.
Qed.

(** Building an acceptor from PEM files: the result is the configuration exactly when both files
    can be read, every certificate parses, there is a private key, and rustls takes them; otherwise
    it is the error of the first step that fails, in this order, both files being read before
    either is parsed. *)
Theorem server_acceptor_outcome cert key w :
  (∀ p w0 pn w1, fs_read p w0 ≠ (Panic pn, w1)) →
  ∀ r w', server_acceptor_from_pem cert key w = (r, w') ↔ accepts cert key w r w'.
Proof.
  intros Hread r w'. split.
  - destruct (fs_read cert w) as [[cert_pem|e|p] w1] eqn:Hc; [| |by apply Hread in Hc].
    2: { unfold server_acceptor_from_pem. erewrite bind_err by (unfold map_err; by rewrite Hc).
         intros [= <- <-]. by apply accepts_no_cert. }
    destruct (fs_read key w1) as [[key_pem|e|p] w2] eqn:Hk; [| |by apply Hread in Hk].
    2: { unfold server_acceptor_from_pem. erewrite bind_ok by (unfold map_err; by rewrite Hc).
         erewrite bind_err by (unfold map_err; by rewrite Hk).
         intros [= <- <-]. by eapply accepts_no_key. }
    rewrite (server_acceptor_read _ _ _ _ _ _ _ Hc Hk). intros [= <- <-].
    eapply accepts_read; [done..|].
    destruct (items_split (pem_certs cert_pem)) as [[certs ->]|(certs & e & rest & ->)].
    + rewrite collect_items. destruct (pem_private_key key_pem) as [e|[k|]]; [constructor| |constructor].
      destruct (with_single_cert certs k) eqn:Hw; by constructor.
    + rewrite collect_error. constructor.
  - destruct 1 as [e w1 Hc|pem w1 e w2 Hc Hk|cert_pem w1 key_pem w2 r Hc Hk Hp].
    + unfold server_acceptor_from_pem. by erewrite bind_err by (unfold map_err; by rewrite Hc).
    + unfold server_acceptor_from_pem. erewrite bind_ok by (unfold map_err; by rewrite Hc).
      by erewrite bind_err by (unfold map_err; by rewrite Hk).
    + rewrite (server_acceptor_read _ _ _ _ _ _ _ Hc Hk). f_equal.
      destruct Hp as [? ? ? ?|?|?|? ? ? Hw|? ? ? Hw]; rewrite ?collect_error, ?collect_items;
        by rewrite ?Hw.
Qed.
End tls.

(** ** Witness *)

(** Files by their names; a certificate and a key are what they contain, line by line. *)
#[export] Instance SampleRustls : Rustls (list (string * bytes)) := {|
  Path := string;
  CertificateDer := byte;
  PrivateKeyDer := byte;
  ServerConfig := list byte * byte;
  RootCertStore := list byte;
  ClientConfig := list byte;
  fs_read p := λ fs,
    match list_find (λ x, x.1 = p) fs with
    | Some (_, (_, content)) => (Ok content, fs)
    | None => (Err (IoError (OtherKind "NotFound") "no such file"), fs)
    end;
  pem_certs pem := (λ c, if bool_decide (c = x00) then inl (IoError (OtherKind "InvalidData") "bad PEM") else inr c) <$> pem;
  pem_private_key pem := inr (head pem);
  with_single_cert certs key := inr (certs, key);
  load_native_certs := mret [];
  roots_empty := [];
  roots_add c roots := inr (c :: roots);
  with_root_certificates roots := roots;
|}.

Definition sample_files : list (string * bytes) := [("cert.pem", [x01; x02]); ("key.pem", [])]%string.

Lemma server_acceptor_outcome_witness :
  @server_acceptor_from_pem _ SampleRustls "cert.pem"%string "key.pem"%string sample_files =
    (Err (InvalidConfig "no private key in PEM file"), sample_files) ↔
  @accepts _ SampleRustls "cert.pem"%string "key.pem"%string sample_files
    (Err (InvalidConfig "no private key in PEM file")) sample_files.
Proof.
  apply (@server_acceptor_outcome _ SampleRustls "cert.pem"%string "key.pem"%string sample_files).
  intros p w0 pn w1. simpl. by destruct (list_find _ w0) as [[? [? ?]]|].
Defined.
