(* ===== verification/Server.v ===== *)
(** * Server: the accept loop, its handlers and the consumer (src/src/server.rs)

    [ServerBuilder] with its defaults and setters, [bind], the accept loop, the handler tasks with
    their [ActiveGuard], and the [Server] handle ([recv], [active_connections], [Drop]).  The tasks
    run concurrently: [world] is their shared state, an [event] is one atomic action of one task
    and [server_step] what it does; an execution is a sequence of events in any order.  A handler
    is the state machine of Connection.v; [Handle id i] resumes it with the input [i], which for
    the channels is constrained by their state: [out.send] needs room, and the oneshot of a batch yields a value
    once the batch was disposed of.

    The sockets are not part of the repository: [Listen] is their interface for [bind], and in an
    execution connections arrive, fail and deliver frames as they like. *)

From stdpp Require Import gmap.
From S2P Require Import Prelude Errors Zlib Frame Codec Task Batch Connection Connect.

(** ** The builder *)

Record ServerBuilder (TlsAcceptor : Type) : Type := MkServerBuilder {
  s_keepalive : option Z;
  s_channel_capacity : Z;
  s_max_frame_size : Z;
  s_tls : option TlsAcceptor;
}.
Arguments MkServerBuilder {_} _ _ _ _.
Arguments s_keepalive {_} _.
Arguments s_channel_capacity {_} _.
Arguments s_max_frame_size {_} _.
Arguments s_tls {_} _.

Section builder.
Context {TlsAcceptor : Type}.

Abbreviation Builder := (ServerBuilder TlsAcceptor).

(** [Default for ServerBuilder] *)
Definition server_default : Builder :=
  MkServerBuilder (Some (from_secs 15)) 128 DEFAULT_MAX_FRAME_SIZE None.

Definition set_keepalive (interval : Z) (b : Builder) : Builder :=
  MkServerBuilder (Some interval) (s_channel_capacity b) (s_max_frame_size b) (s_tls b).
Definition no_keepalive (b : Builder) : Builder :=
  MkServerBuilder None (s_channel_capacity b) (s_max_frame_size b) (s_tls b).
Definition set_channel_capacity (n : Z) (b : Builder) : Builder :=
  MkServerBuilder (s_keepalive b) n (s_max_frame_size b) (s_tls b).
Definition set_max_frame_size (n : Z) (b : Builder) : Builder :=
  MkServerBuilder (s_keepalive b) (s_channel_capacity b) n (s_tls b).
Definition set_acceptor (acceptor : TlsAcceptor) (b : Builder) : Builder :=
  MkServerBuilder (s_keepalive b) (s_channel_capacity b) (s_max_frame_size b) (Some acceptor).

(** The configuration every handler gets. *)
Definition config (b : Builder) : ConnectionConfig :=
  ConnConfig (s_max_frame_size b) (s_keepalive b).
End builder.

(** ** The shared state *)

(** A handler task: in the TLS handshake, or in [run_connection]. *)
Inductive handler : Type :=
| Handshaking
| Serving (c : conn).

(** The key of an acknowledgement channel: the handler that created it, and its number there. *)
Abbreviation key := (nat * chan)%type.

(** A batch in flight, with the handler it comes from. *)
Abbreviation parcel := (nat * Batch)%type.

Record world : Type := World {
  accepting : bool;                 (* the accept loop runs *)
  handlers : gmap nat handler;      (* the handler tasks that have not ended *)
  next_id : nat;                    (* the connections accepted so far *)
  active : Z;                       (* the gauge *)
  queue : list parcel;              (* the mpsc channel *)
  held : list parcel;               (* the batches the consumer owns *)
  acks : gmap key Z;                (* what was sent through the oneshot channels *)
  shutdown_sent : bool;             (* [Drop for Server] ran *)
  rx_alive : bool;                  (* the receiver of the mpsc channel exists *)
}.

(** The actions of the accept loop, of the handlers, of the consumer, and of dropping [Server]
    (the signal, then its fields). *)
Inductive event : Type :=
| Accept
| AcceptFails
| SeeShutdown
| Handshake (id : nat) (failure : option io_error)
| Handle (id : nat) (i : input)
| Recv
| Dispose (k : nat) (d : disposal)
| DropServer
| DropReceiver.

(** *** The gauge *)

(** [ActiveGuard::new] and [Drop for ActiveGuard]: [fetch_add] and [fetch_sub] wrap around. *)
Definition guard_new (active : Z) : Z := wrap64 (active + 1).
Definition guard_drop (active : Z) : Z := wrap64 (active - 1).

(** *** Updates of the state *)

Definition set_handler (id : nat) (h : handler) (w : world) : world :=
  World (accepting w) (<[id := h]> (handlers w)) (next_id w) (active w) (queue w) (held w)
    (acks w) (shutdown_sent w) (rx_alive w).

(** The end of a handler task: its guard is dropped. *)
Definition end_handler (id : nat) (w : world) : world :=
  World (accepting w) (delete id (handlers w)) (next_id w) (guard_drop (active w)) (queue w)
    (held w) (acks w) (shutdown_sent w) (rx_alive w).

Definition set_accepting (a : bool) (w : world) : world :=
  World a (handlers w) (next_id w) (active w) (queue w) (held w) (acks w) (shutdown_sent w)
    (rx_alive w).

(** A new connection: the guard is created and the handler spawned. *)
Definition spawn (h : handler) (w : world) : world :=
  World (accepting w) (<[next_id w := h]> (handlers w)) (S (next_id w)) (guard_new (active w))
    (queue w) (held w) (acks w) (shutdown_sent w) (rx_alive w).

Definition set_batches (q h : list parcel) (w : world) : world :=
  World (accepting w) (handlers w) (next_id w) (active w) q h (acks w) (shutdown_sent w)
    (rx_alive w).

Definition set_acks (a : gmap key Z) (w : world) : world :=
  World (accepting w) (handlers w) (next_id w) (active w) (queue w) (held w) a
    (shutdown_sent w) (rx_alive w).

(** Dispose of a batch: what it sends goes through the channels of its handler. *)
Definition settle (d : disposal) (p : parcel) (a : gmap key Z) : gmap key Z :=
  foldl (λ a s, <[(p.1, s.1) := s.2]> a) a (dispose d p.2 []).2.

(** Drop the batches [ps], one after the other. *)
Definition settle_all (ps : list parcel) (a : gmap key Z) : gmap key Z :=
  foldl (λ a p, settle ByDrop p a) a ps.

Section server.
Context `{Zlib} {TlsAcceptor : Type}.
Context (b : ServerBuilder TlsAcceptor).

(** ** The tasks *)

(** The handler task runs from an await point to the next, or to its end. *)
Definition resume_handler (id : nat) (c : conn) (i : input) (w : world) : option world :=
  c' ← resume (config b) c i;
  Some match c_state c' with
       | Finished _ => end_handler id w
       | _ => set_handler id (Serving c') w
       end.

(** The inputs of the channels depend on their state.  [out.send] waits for room, and fails, and
    drops the batch, when the receiver is gone; the oneshot gives what was sent (a [Batch] never
    drops its sender without sending); the select is biased, so that the keepalive timer is
    noticed only if no acknowledgement is there. *)
Definition handle (id : nat) (i : input) (w : world) : option world :=
  match handlers w !! id with
  | Some (Serving c) =>
      w' ← resume_handler id c i w;
      match c_state c, i with
      | AwaitDispatch batch _, InDispatched true =>
          if rx_alive w && (len (queue w) <? s_channel_capacity b)
          then Some (set_batches (queue w' ++ [(id, batch)]) (held w') w') else None
      | AwaitDispatch batch _, InDispatched false =>
          if rx_alive w then None
          else Some (set_acks (settle ByDrop (id, batch) (acks w')) w')
      | AwaitAck _ rx, InAck r =>
          if bool_decide (acks w !! (id, rx) = r ∧ r ≠ None) then Some w' else None
      | AwaitAck _ rx, InElapsed =>
          if bool_decide (acks w !! (id, rx) = None) then Some w' else None
      | _, _ => Some w'
      end
  | _ => None
  end.

(** What a handler does first: the TLS handshake, if there is an acceptor. *)
Definition handler_start : handler :=
  match s_tls b with
  | Some _ => Handshaking
  | None => Serving conn_start
  end.

(** [Server::recv]: a batch, or the end when no sender is left (the accept loop has one and each
    handler has one), or else it waits. *)
Definition server_recv (w : world) : option (option parcel * world) :=
  match queue w with
  | p :: q => Some (Some p, set_batches q (held w ++ [p]) w)
  | [] => if negb (accepting w) && bool_decide (handlers w = ∅) then Some (None, w) else None
  end.

(** [Drop for Server]: the signal is sent; then the fields are dropped, the receiver with the
    batches that are still queued. *)
Definition signal_shutdown (w : world) : world :=
  World (accepting w) (handlers w) (next_id w) (active w) (queue w) (held w) (acks w) true
    (rx_alive w).

Definition drop_receiver (w : world) : world :=
  World (accepting w) (handlers w) (next_id w) (active w) [] (held w)
    (settle_all (queue w) (acks w)) (shutdown_sent w) false.

Definition server_step (w : world) (e : event) : option world :=
  match e with
  | Accept =>
      if accepting w && negb (shutdown_sent w) then Some (spawn handler_start w) else None
  | AcceptFails =>
      if accepting w && negb (shutdown_sent w) then Some (set_accepting false w) else None
  | SeeShutdown =>
      if accepting w && shutdown_sent w then Some (set_accepting false w) else None
  | Handshake id failure =>
      match handlers w !! id with
      | Some Handshaking =>
          Some match failure with
               | None => set_handler id (Serving conn_start) w
               | Some _ => end_handler id w
               end
      | _ => None
      end
  | Handle id i => handle id i w
  | Recv => if shutdown_sent w then None else snd <$> server_recv w
  | Dispose k d =>
      p ← held w !! k;
      Some (set_acks (settle d p (acks w)) (set_batches (queue w) (delete k (held w)) w))
  | DropServer =>
      if shutdown_sent w then None else Some (signal_shutdown w)
  | DropReceiver =>
      if shutdown_sent w && rx_alive w then Some (drop_receiver w) else None
  end.

(** The state after [bind]. *)
Definition world_start : world := World true ∅ 0 0 [] [] ∅ false true.

(** ** What an execution did *)

(** The batches put in the queue, taken by the consumer, and disposed of (the ones left in the
    queue when the receiver is dropped, too). *)
Definition enqueued_by (x : world * event) : list parcel :=
  match x.2 with
  | Handle id (InDispatched true) =>
      match handlers x.1 !! id with
      | Some (Serving (Conn (AwaitDispatch batch _) _)) => [(id, batch)]
      | _ => []
      end
  | _ => []
  end.

Definition received_by (x : world * event) : list parcel :=
  match x.2 with
  | Recv => take 1 (queue x.1)
  | _ => []
  end.

Definition disposed_by (x : world * event) : list parcel :=
  match x.2 with
  | Dispose k _ => option_list (held x.1 !! k)
  | DropReceiver => queue x.1
  | _ => []
  end.

(** The batches lost with the receiver: acknowledged, but never seen by the consumer. *)
Definition lost_by (x : world * event) : list parcel :=
  match x.2 with
  | DropReceiver => queue x.1
  | _ => []
  end.

Definition lost (t : list (world * event)) : list parcel := t ≫= lost_by.
Definition enqueued (t : list (world * event)) : list parcel := t ≫= enqueued_by.
Definition received (t : list (world * event)) : list parcel := t ≫= received_by.
Definition disposed (t : list (world * event)) : list parcel := t ≫= disposed_by.

(** The part of an execution that is the run of one connection. *)
Definition conn_step (id : nat) (x : world * event) : list (conn * input) :=
  match x.2 with
  | Handle id' i =>
      match handlers x.1 !! id with
      | Some (Serving c) => if bool_decide (id = id') then [(c, i)] else []
      | _ => []
      end
  | _ => []
  end.

Definition conn_trace (id : nat) (t : list (world * event)) : list (conn * input) :=
  t ≫= conn_step id.
End server.

(** ** [bind] *)

(** The listening socket and the channel; [mpsc_channel] panics as tokio's [mpsc::channel]
    documents. *)
Class Listen (W : Type) : Type := {
  ListenAddr : Type;
  TcpListener : Type;
  tcp_bind : ListenAddr → M W io_error TcpListener;
  listener_addr : TcpListener → M W io_error SocketAddr;
  mpsc_channel : Z → M W Error unit;
}.

Class ListenOk (W : Type) `{Listen W} : Prop := {
  mpsc_channel_ok n w : 0 < n → ∃ w', mpsc_channel n w = (Ok tt, w');
  mpsc_channel_zero w : ∃ p w', mpsc_channel 0 w = (Panic p, w');
}.

(** The server that [bind] returns: its address, and its handle on the shared state, which the
    accept loop spawned by [bind] shares. *)
Record Server : Type := MkServer { server_addr : SocketAddr; server_world : world }.

Section bind.
Context {W : Type} `{Listen W} {TlsAcceptor : Type}.

Definition bind (b : ServerBuilder TlsAcceptor) (addr : ListenAddr) : M W Error Server :=
  listener ← map_err from_io (tcp_bind addr);
  local_addr ← map_err from_io (listener_addr listener);
  mpsc_channel (s_channel_capacity b);;
  mret (MkServer local_addr world_start).

(** [Server::bind], [Server::builder] *)
Definition server_builder : ServerBuilder TlsAcceptor := server_default.
Definition server_bind (addr : ListenAddr) : M W Error Server := bind server_default addr.
End bind.

Definition server_local_addr (s : Server) : SocketAddr := server_addr s.
Definition active_connections (w : world) : Z := active w.

(** ** The channels of acknowledgement

    Which channels are in use: a batch in flight carries the sender of its own channel, a channel
    is used once, and a handler that waits for an acknowledgement waits on the channel of a batch
    in flight, or its answer is there. *)

Section channels.
Context `{Zlib} {TlsAcceptor : Type}.
Context (b : ServerBuilder TlsAcceptor).

Definition key_of (p : parcel) : key := (p.1, default 0%nat (ack_tx p.2)).

(** The number of channels whose sender the handler has given away. *)
Definition issued (h : handler) : nat :=
  match h with
  | Handshaking => 0%nat
  | Serving c =>
      match c_state c with
      | AwaitDispatch _ rx => rx
      | _ => c_chans c
      end
  end.

Definition chan_ok (h : handler) : Prop :=
  match h with
  | Handshaking => True
  | Serving c =>
      match c_state c with
      | AwaitDispatch batch rx => ack_tx batch = Some rx ∧ c_chans c = S rx
      | AwaitAck _ rx | AwaitKeepalive _ rx => c_chans c = S rx
      | _ => True
      end
  end.

(** The channel the handler waits on, and the sequence number of its batch. *)
Definition awaited (h : handler) : option (chan * Z) :=
  match h with
  | Serving (Conn (AwaitAck last rx | AwaitKeepalive last rx) _) => Some (rx, last)
  | _ => None
  end.

Definition used (fl : list parcel) (a : gmap key Z) (k : key) : Prop :=
  k ∈ key_of <$> fl ∨ is_Some (a !! k).

Record chans_ok (hs : gmap nat handler) (next : nat) (fl : list parcel) (a : gmap key Z) :
    Prop := {
  ck_ids id h : hs !! id = Some h → (id < next)%nat;
  ck_conn id h : hs !! id = Some h → chan_ok h;
  ck_sender p : p ∈ fl → is_Some (ack_tx p.2);
  ck_nodup : NoDup (key_of <$> fl);
  ck_unsent k : k ∈ key_of <$> fl → a !! k = None;
  ck_used_id k : used fl a k → (k.1 < next)%nat;
  ck_used id h ch : hs !! id = Some h → used fl a (id, ch) → (ch < issued h)%nat;
  ck_awaited id h rx last :
    hs !! id = Some h → awaited h = Some (rx, last) →
    (∃ p, p ∈ fl ∧ key_of p = (id, rx) ∧ last_seq p.2 = last) ∨ a !! (id, rx) = Some last;
  ck_waiting p h :
    p ∈ fl → hs !! p.1 = Some h → awaited h = Some ((key_of p).2, last_seq p.2);
}.

Lemma used_perm fl fl' a k : fl ≡ₚ fl' → used fl a k → used fl' a k.
Proof. unfold used. by intros ->. Qed.

Lemma chans_perm hs next fl fl' a : fl ≡ₚ fl' → chans_ok hs next fl a → chans_ok hs next fl' a.
Proof.
  intros Hp [H1 H2 H3 H4 H5 H6 H7 H8 H9]. split; eauto using used_perm, Permutation_sym.
  - intros p. rewrite <- Hp. auto.
  - by rewrite <- Hp.
  - intros k. rewrite <- Hp. auto.
  - intros id h rx last Hh Ha. destruct (H8 id h rx last Hh Ha) as [(p & Hin & ?)|]; [|by right].
    left. exists p. by rewrite <- Hp.
  - intros p h. rewrite <- Hp. auto.
Qed.

Lemma settle_sender d p a ch :
  ack_tx p.2 = Some ch → settle d p a = <[(p.1, ch) := last_seq p.2]> a.
Proof. destruct p as [id [evs last tx]]. simpl. intros ->. by destruct d. Qed.

Lemma key_of_sender p ch : ack_tx p.2 = Some ch → key_of p = (p.1, ch).
Proof. unfold key_of. by intros ->. Qed.

Lemma chans_settle hs next d p fl a :
  chans_ok hs next (p :: fl) a → chans_ok hs next fl (settle d p a).
Proof.
  intros [H1 H2 H3 H4 H5 H6 H7 H8 H9].
  destruct (H3 p ltac:(by left)) as [ch Hch]. rewrite (settle_sender d p a ch Hch).
  rewrite fmap_cons, (key_of_sender p ch Hch) in H4, H5. apply NoDup_cons in H4 as [Hnin H4].
  assert (Hused : ∀ k, used fl (<[(p.1, ch) := last_seq p.2]> a) k → used (p :: fl) a k).
  { intros k [Hk|Hk]; [left; rewrite fmap_cons; by right|].
    destruct (decide (k = (p.1, ch))) as [->|Hne].
    - left. rewrite fmap_cons, (key_of_sender p ch Hch). by left.
    - rewrite lookup_insert_ne in Hk by done. by right. }
  split; eauto.
  - intros q Hq. apply H3. by right.
  - intros k Hk. rewrite lookup_insert_ne by (by intros <-). apply H5. by right.
  - intros id h rx last Hh Ha. destruct (H8 id h rx last Hh Ha) as [(q & Hin & Hq & Hl)|Hl].
    + apply elem_of_cons in Hin as [->|Hin]; [|by left; eauto]. right.
      rewrite (key_of_sender p ch Hch) in Hq. rewrite Hq, lookup_insert_eq. by rewrite Hl.
    + right. rewrite lookup_insert_ne; [done|]. intros He.
      rewrite <- He, H5 in Hl by (by left). done.
  - intros q h Hq. apply H9. by right.
Qed.

Lemma chans_settle_all hs next ps fl a :
  chans_ok hs next (ps ++ fl) a → chans_ok hs next fl (settle_all ps a).
Proof.
  unfold settle_all. revert a. induction ps as [|p ps IH]; intros a Hok; simpl; [done|].
  apply IH. by apply (chans_settle hs next ByDrop p (ps ++ fl)).
Qed.

Lemma chans_delete hs next fl a id : chans_ok hs next fl a → chans_ok (delete id hs) next fl a.
Proof.
  intros [H1 H2 H3 H4 H5 H6 H7 H8 H9].
  split; try done; intros id' h; intros;
    match goal with Hd : delete _ _ !! _ = Some _ |- _ =>
      apply lookup_delete_Some in Hd as [_ Hd] end; eauto.
Qed.

Lemma chans_spawn hs next fl a h :
  chan_ok h → awaited h = None → chans_ok hs next fl a →
  chans_ok (<[next := h]> hs) (S next) fl a.
Proof.
  intros Hc Hw [H1 H2 H3 H4 H5 H6 H7 H8 H9]. split; try done.
  - intros id h'. rewrite lookup_insert_Some. intros [[<- _]|[_ Hh]]; [lia|].
    apply H1 in Hh. lia.
  - intros id h'. rewrite lookup_insert_Some. intros [[_ <-]|[_ Hh]]; eauto.
  - intros k Hk. apply H6 in Hk. lia.
  - intros id h' ch. rewrite lookup_insert_Some. intros [[<- <-]|[_ Hh]] Hu; [|eauto].
    apply H6 in Hu. simpl in Hu. lia.
  - intros id h' rx last. rewrite lookup_insert_Some. intros [[<- <-]|[_ Hh]] Ha; [|eauto].
    congruence.
  - intros p h' Hp. rewrite lookup_insert_ne; [by apply H9|].
    pose proof (H6 (key_of p) ltac:(left; by apply list_elem_of_fmap_2)) as Hid. simpl in Hid. lia.
Qed.

(** A handler that waits for nothing, or has found its answer, has no batch in flight. *)
Definition answered_or_idle (a : gmap key Z) (id : nat) (h : handler) : Prop :=
  match awaited h with
  | Some (rx, _) => is_Some (a !! (id, rx))
  | None => True
  end.

Lemma idle_no_flight hs next fl a id h p :
  chans_ok hs next fl a → hs !! id = Some h → answered_or_idle a id h → p ∈ fl → p.1 ≠ id.
Proof.
  intros [H1 H2 H3 H4 H5 H6 H7 H8 H9] Hh Hidle Hp <-. unfold answered_or_idle in Hidle.
  rewrite (H9 _ _ Hp Hh) in Hidle. destruct Hidle as [v Hv].
  change (a !! key_of p = Some v) in Hv.
  by rewrite (H5 (key_of p)) in Hv by (by apply list_elem_of_fmap_2).
Qed.

(** A handler moves on. *)
Lemma chans_step hs next fl a id h h' :
  hs !! id = Some h → (issued h <= issued h')%nat → chan_ok h' →
  awaited h' = awaited h ∨ awaited h' = None ∧ answered_or_idle a id h →
  chans_ok hs next fl a → chans_ok (<[id := h']> hs) next fl a.
Proof.
  intros Hh Hi Hc Hw Hok. pose proof Hok as [H1 H2 H3 H4 H5 H6 H7 H8 H9]. split; try done.
  - intros id' h1. rewrite lookup_insert_Some. intros [[<- <-]|[_ ?]]; eauto.
  - intros id' h1. rewrite lookup_insert_Some. intros [[<- <-]|[_ ?]]; eauto.
  - intros id' h1 ch. rewrite lookup_insert_Some. intros [[<- <-]|[_ ?]] Hu; [|eauto].
    pose proof (H7 id h ch Hh Hu). lia.
  - intros id' h1 rx last. rewrite lookup_insert_Some. intros [[<- <-]|[_ ?]] Ha; [|eauto].
    destruct Hw as [Hw|[Hw _]]; [|congruence]. apply (H8 id h); congruence.
  - intros p h1 Hp. rewrite lookup_insert_Some. intros [[He <-]|[_ ?]]; [|eauto].
    destruct Hw as [->|[_ Hidle]]; [apply H9; [done|by rewrite <- He]|].
    by destruct (idle_no_flight _ _ _ _ _ _ _ Hok Hh Hidle Hp).
Qed.

(** A handler hands a batch over and waits for its acknowledgement. *)
Lemma chans_enqueue hs next fl a id batch rx n :
  hs !! id = Some (Serving (Conn (AwaitDispatch batch rx) n)) → chans_ok hs next fl a →
  chans_ok (<[id := Serving (Conn (AwaitAck (last_seq batch) rx) n)]> hs) next
    ((id, batch) :: fl) a.
Proof.
  intros Hh Hok. pose proof Hok as [H1 H2 H3 H4 H5 H6 H7 H8 H9].
  destruct (H2 _ _ Hh) as [Htx Hn].
  simpl in Hn. assert (Hkey : key_of (id, batch) = (id, rx)) by by apply key_of_sender.
  assert (Hnew : ¬ used fl a (id, rx)) by (intros Hu; apply (H7 _ _ _ Hh) in Hu; simpl in Hu; lia).
  assert (Hused : ∀ k, used ((id, batch) :: fl) a k → k = (id, rx) ∨ used fl a k).
  { intros k [Hk|Hk]; [|by right; right]. rewrite fmap_cons, Hkey in Hk.
    apply elem_of_cons in Hk as [->|Hk]; [by left|by right; left]. }
  split.
  - intros id' h1. rewrite lookup_insert_Some. intros [[<- <-]|[_ ?]]; eauto.
  - intros id' h1. rewrite lookup_insert_Some. intros [[<- <-]|[_ ?]]; eauto.
  - intros p [->|Hp]%elem_of_cons; eauto.
  - rewrite fmap_cons, Hkey. apply NoDup_cons. split; [|done]. intros Hin. by apply Hnew; left.
  - rewrite fmap_cons, Hkey. intros k [->|Hk]%elem_of_cons; [|eauto].
    apply eq_None_not_Some. intros Hs. by apply Hnew; right.
  - intros k [->|Hu]%Hused; eauto.
  - intros id' h1 ch. rewrite lookup_insert_Some. intros [[<- <-]|[Hne Hh1]] [Hk|Hu]%Hused.
    + injection Hk as ->. simpl. lia.
    + apply (H7 _ _ _ Hh) in Hu. simpl in *. lia.
    + by injection Hk as -> _.
    + eauto.
  - intros id' h1 rx' last. rewrite lookup_insert_Some. intros [[<- <-]|[_ Hh1]] Ha.
    + injection Ha as <- <-. left. exists (id, batch). split; [by left|done].
    + destruct (H8 _ _ _ _ Hh1 Ha) as [(p & Hp & ?)|?]; [|by right]. left. exists p.
      split; [by right|done].
  - intros p h1 [->|Hp]%elem_of_cons.
    + simpl. rewrite lookup_insert_eq. intros [= <-]. simpl. by rewrite Htx.
    + rewrite lookup_insert_ne; [by apply H9|]. intros He.
      by apply (idle_no_flight _ _ _ _ _ _ p Hok Hh).
Qed.

(** A handler whose batch nobody takes ends; the batch is dropped. *)
Lemma chans_refused hs next fl a id batch rx n d :
  hs !! id = Some (Serving (Conn (AwaitDispatch batch rx) n)) → chans_ok hs next fl a →
  chans_ok (delete id hs) next fl (settle d (id, batch) a).
Proof.
  intros Hh Hok. pose proof (chans_enqueue _ _ _ _ _ _ _ _ Hh Hok) as Hok'.
  apply (chans_settle _ _ d), (chans_delete _ _ _ _ id) in Hok'.
  by rewrite delete_insert_eq in Hok'.
Qed.

(** An acknowledgement that a handler finds is the one of the batch it waits for. *)
Lemma chans_honest hs next fl a id h rx last v :
  chans_ok hs next fl a → hs !! id = Some h → awaited h = Some (rx, last) →
  a !! (id, rx) = Some v → v = last.
Proof.
  intros [H1 H2 H3 H4 H5 H6 H7 H8 H9] Hh Ha Hv.
  destruct (H8 _ _ _ _ Hh Ha) as [(p & Hp & Hk & _)|?]; [|congruence].
  rewrite (H5 (id, rx)) in Hv; [done|]. rewrite <- Hk. by apply list_elem_of_fmap_2.
Qed.
End channels.

(** ** The invariant of the server *)

Lemma guard_new_size n : guard_new (wrap64 n) = wrap64 (n + 1).
Proof. unfold guard_new, wrap64. apply Zplus_mod_idemp_l. Qed.

Lemma guard_drop_size n : guard_drop (wrap64 n) = wrap64 (n - 1).
Proof. unfold guard_drop, wrap64. apply Zminus_mod_idemp_l. Qed.

Definition live_handlers (w : world) : Z := Z.of_nat (size (handlers w)).

Section invariant.
Context `{Zlib} {TlsAcceptor : Type}.
Context (b : ServerBuilder TlsAcceptor).

(** What an event does when it can happen. *)
Definition stepped (w : world) (e : event) (w' : world) : Prop :=
  match e with
  | Accept => shutdown_sent w = false ∧ accepting w = true ∧ w' = spawn (handler_start b) w
  | AcceptFails => shutdown_sent w = false ∧ accepting w = true ∧ w' = set_accepting false w
  | SeeShutdown => shutdown_sent w = true ∧ accepting w = true ∧ w' = set_accepting false w
  | Handshake id failure => handlers w !! id = Some Handshaking ∧
      w' = match failure with
           | None => set_handler id (Serving conn_start) w
           | Some _ => end_handler id w
           end
  | Handle id i => handle b id i w = Some w'
  | Recv => shutdown_sent w = false ∧
      ((queue w = [] ∧ w' = w) ∨
       ∃ p q, queue w = p :: q ∧ w' = set_batches q (held w ++ [p]) w)
  | Dispose k d => ∃ p, held w !! k = Some p ∧
      w' = set_acks (settle d p (acks w)) (set_batches (queue w) (delete k (held w)) w)
  | DropServer => shutdown_sent w = false ∧ w' = signal_shutdown w
  | DropReceiver => shutdown_sent w = true ∧ rx_alive w = true ∧ w' = drop_receiver w
  end.

Lemma server_step_inv w e w' : server_step b w e = Some w' → stepped w e w'.
Proof.
  destruct e as [| | |id f|id i| |k d| |]; simpl.
  1-3: destruct (accepting w), (shutdown_sent w); simpl; try done; by intros [= <-].
  - destruct (handlers w !! id) as [[|c]|]; try done. by intros [= <-].
  - done.
  - destruct (shutdown_sent w); [done|]. unfold server_recv.
    destruct (queue w) as [|p q]; [destruct (_ && _); [|done]|]; intros [= <-]; eauto 8.
  - destruct (held w !! k) as [p|]; [|done]. intros [= <-]. by exists p.
  - destruct (shutdown_sent w); [done|]. by intros [= <-].
  - destruct (shutdown_sent w) eqn:Hs; [|done]. destruct (rx_alive w); [|done]. by intros [= <-].
Qed.

Record world_ok (w : world) : Prop := {
  wk_active : active w = wrap64 (live_handlers w);
  wk_queue : len (queue w) <= Z.max 0 (s_channel_capacity b);
  wk_closed : rx_alive w = false → queue w = [] ∧ shutdown_sent w = true;
  wk_chans : chans_ok (handlers w) (next_id w) (queue w ++ held w) (acks w);
}.

Lemma world_start_ok : world_ok world_start.
Proof.
  split; simpl; [done|rewrite len_nil; lia|done|].
  split; simpl; try done; try (by constructor); try (by intros ? ?%elem_of_nil).
  - intros k [Hk|[? ?]]; [|done]. by apply elem_of_nil in Hk.
Qed.

(** A step of the connection keeps its channels in order. *)
Lemma resume_chans cfg c i c' :
  resume cfg c i = Some c' → chan_ok (Serving c) →
  (∃ r, c_state c' = Finished r) ∨
  (∃ batch rx n, c = Conn (AwaitDispatch batch rx) n ∧ i = InDispatched true ∧
     c' = Conn (AwaitAck (last_seq batch) rx) n) ∨
  ((∀ batch rx, c_state c ≠ AwaitDispatch batch rx) ∧ (∀ r, c_state c' ≠ Finished r) ∧
   chan_ok (Serving c') ∧
   (issued (Serving c) <= issued (Serving c'))%nat ∧
   (awaited (Serving c') = None ∨ awaited (Serving c') = awaited (Serving c))).
Proof.
  assert (Hloop : ∀ n w chans, chan_ok (Serving (window_loop n w chans)) ∧
    issued (Serving (window_loop n w chans)) = chans ∧
    awaited (Serving (window_loop n w chans)) = None ∧
    ∀ r, c_state (window_loop n w chans) ≠ Finished r).
  { intros n w chans. unfold window_loop. by destruct (_ <? n). }
  destruct c as [st chans], st as [|n w|batch rx|a rx|a rx|a|r];
    destruct i as [[[f|e|p]|]|[]|[v|]| |[u|e|p]];
    unfold resume; cbn [c_state c_chans]; try done; try (by intros [= <-]; eauto);
    try (intros [= <-] Hc; right; right; split; [done|split; [done|]]; simpl in *; by auto with lia).
  - destruct f; try (by intros [= <-]; eauto). intros [= <-] _. right; right.
    destruct (Hloop n window_start chans) as (? & -> & ? & ?). by eauto 6.
  - destruct (on_frame cfg n f w) as [[u|e|p] w']; intros [= <-]; [|by eauto..]. right; right.
    destruct (Hloop n w' chans) as (? & -> & ? & ?). by eauto 6.
  - intros [= <-] _. right; left. by exists batch, rx, chans.
  - destruct (cfg_keepalive cfg); [|done]. intros [= <-] Hc. right; right.
    split; [done|split; [done|]]. simpl in *. by auto.
Qed.

Lemma end_handler_ok id h w :
  handlers w !! id = Some h → world_ok w → world_ok (end_handler id w).
Proof.
  intros Hh [H1 H2 H3 H4]. split; simpl; [|done|done|by apply chans_delete].
  rewrite H1, guard_drop_size. unfold live_handlers. simpl. rewrite map_size_delete, Hh.
  assert (size (handlers w) ≠ 0%nat).
  { intros Hz. apply map_size_empty_inv in Hz. by rewrite Hz in Hh. }
  f_equal. lia.
Qed.

Lemma set_handler_ok id h h' w :
  handlers w !! id = Some h →
  chans_ok (<[id := h']> (handlers w)) (next_id w) (queue w ++ held w) (acks w) →
  world_ok w → world_ok (set_handler id h' w).
Proof.
  intros Hh Hc [H1 H2 H3 H4]. split; simpl; try done. rewrite H1.
  unfold live_handlers. simpl. by rewrite map_size_insert, Hh.
Qed.

Lemma spawn_ok w : world_ok w → world_ok (spawn (handler_start b) w).
Proof.
  intros [H1 H2 H3 H4]. split; simpl; try done.
  - rewrite H1, guard_new_size. unfold live_handlers. simpl. rewrite map_size_insert_None.
    + f_equal. lia.
    + apply eq_None_not_Some. intros [h Hh]. apply (ck_ids _ _ _ _ H4) in Hh. lia.
  - unfold handler_start. by destruct (s_tls b); apply chans_spawn.
Qed.

Lemma handle_ok id i w w' : world_ok w → handle b id i w = Some w' → world_ok w'.
Proof.
  intros Hok. unfold handle.
  destruct (handlers w !! id) as [[|c]|] eqn:Hh; try done. unfold resume_handler.
  destruct (resume (config b) c i) as [c'|] eqn:Hr; [|done]. simpl.
  pose proof (wk_chans _ Hok) as Hchans.
  destruct (resume_chans _ _ _ _ Hr (ck_conn _ _ _ _ Hchans _ _ Hh))
    as [[r Hr']|[(batch & rx & n & -> & -> & ->)|(Hnd & Hnf & Hc & Hi & Ha)]].
  - rewrite Hr'. pose proof (end_handler_ok _ _ _ Hh Hok) as Hend.
    destruct c as [st n], st as [|? ?|batch rx|? ?|? ?|?|?], i as [?|[]|?| |?];
      cbn [c_state]; try (by intros [= <-]); try (case_bool_decide; [|done]; by intros [= <-]).
    + injection Hr as <-. discriminate Hr'.
    + destruct (rx_alive w) eqn:Hrx; [done|]. intros [= <-]. destruct Hend as [H1 H2 H3 H4].
      split; simpl; try done. by apply (chans_refused _ _ _ _ _ _ rx n ByDrop).
  - cbn [c_state]. destruct (rx_alive w) eqn:Hrx; [|done].
    destruct (Z.ltb_spec (len (queue w)) (s_channel_capacity b)); [|done]. intros [= <-].
    destruct Hok as [H1 H2 H3 _]. split; simpl.
    + rewrite H1. unfold live_handlers. simpl. by rewrite map_size_insert, Hh.
    + rewrite len_app, len_one. lia.
    + congruence.
    + apply (chans_perm _ _ ((id, batch) :: queue w ++ held w)); 
        [by rewrite <- app_assoc; apply Permutation_middle|].
      by apply chans_enqueue.
  - assert (Hset : awaited (Serving c') = awaited (Serving c) ∨
                   answered_or_idle (acks w) id (Serving c) →
      world_ok (match c_state c' with Finished _ => end_handler id w
                | _ => set_handler id (Serving c') w end)).
    { intros Hidle. assert (world_ok (set_handler id (Serving c') w)).
      { apply (set_handler_ok id (Serving c)); [done| |done].
        apply (chans_step _ _ _ _ _ (Serving c)); [done..| |done]. tauto. }
      destruct (c_state c'); try done. by apply (end_handler_ok id (Serving c)). }
    destruct c as [st n], st as [|? ?|batch rx|last rx|last rx|?|?]; cbn [c_state];
      try (intros [= <-]; apply Hset; by right).
    + by destruct (Hnd batch rx).
    + destruct i as [?|[]|r| |?]; try done; case_bool_decide as Hv; try done; intros [= <-].
      * apply Hset. right. destruct Hv as [Hv Hsome]. unfold answered_or_idle. simpl.
        rewrite Hv. by apply not_eq_None_Some.
      * unfold resume in Hr. cbn in Hr. destruct (s_keepalive b); [|done].
        injection Hr as <-. apply Hset. by left.
    + destruct i as [?|[]|r| |[u|e|p]]; try done; injection Hr as <-; intros [= <-];
        [apply Hset; by left|by destruct (Hnf _ eq_refl)..].
Qed.

Lemma server_step_ok w e w' : world_ok w → server_step b w e = Some w' → world_ok w'.
Proof.
  intros Hok Hs%server_step_inv. destruct e as [| | |id f|id i| |k d| |]; simpl in Hs.
  - destruct Hs as (_ & _ & ->). by apply spawn_ok.
  - destruct Hs as (_ & _ & ->). by destruct Hok.
  - destruct Hs as (_ & _ & ->). by destruct Hok.
  - destruct Hs as [Hh ->]. destruct f as [io|]; [by eapply end_handler_ok|].
    apply (set_handler_ok id Handshaking); [done| |done].
    apply (chans_step _ _ _ _ _ Handshaking); simpl; auto with lia. apply Hok.
  - by eapply handle_ok.
  - destruct Hs as (_ & [[_ ->]|(p & q & Hq & ->)]); [done|].
    destruct Hok as [H1 H2 H3 H4]. rewrite Hq in *. split; simpl; try done.
    + rewrite len_cons in H2. lia.
    + intros Hrx. by apply H3 in Hrx as [? _].
    + eapply chans_perm; [|exact H4]. simpl. rewrite app_assoc. by rewrite Permutation_cons_append.
  - destruct Hs as (p & Hk & ->). destruct Hok as [H1 H2 H3 H4]. split; simpl; try done.
    apply chans_settle. eapply chans_perm; [|exact H4].
    rewrite (delete_Permutation _ _ _ Hk) at 1. by rewrite Permutation_middle.
  - destruct Hs as [Hs ->]. destruct Hok as [H1 H2 H3 H4]. split; simpl; try done.
    intros Hrx. by apply H3 in Hrx as [? ?].
  - destruct Hs as (Hsd & _ & ->). destruct Hok as [H1 H2 H3 H4].
    split; simpl; [done|rewrite len_nil; lia|done|]. by apply chans_settle_all.
Qed.

Lemma exec_world_ok t w : Task.exec (server_step b) world_start t w → world_ok w.
Proof.
  revert t w. apply (exec_ind_last (server_step b) world_start (λ _ w, world_ok w)).
  - apply world_start_ok.
  - intros t w e w' _. apply server_step_ok.
Qed.
End invariant.

(** ** Executions *)

Section executions.
Context `{Zlib} {TlsAcceptor : Type}.
Context (b : ServerBuilder TlsAcceptor).

Abbreviation exec := (Task.exec (server_step b)).

(** What a step of a handler does to the queue and to the consumer. *)
Lemma handle_batches id i w w' :
  handle b id i w = Some w' →
  queue w' = queue w ++ enqueued_by (w, Handle id i) ∧ held w' = held w ∧
  next_id w' = next_id w ∧ accepting w' = accepting w ∧ shutdown_sent w' = shutdown_sent w ∧
  rx_alive w' = rx_alive w ∧ (enqueued_by (w, Handle id i) ≠ [] → rx_alive w = true).
Proof.
  unfold handle, enqueued_by. cbn [fst snd].
  destruct (handlers w !! id) as [[|c]|] eqn:Hh; try done. unfold resume_handler.
  destruct (resume (config b) c i) as [c'|] eqn:Hr; [|done]. cbn [mbind option_bind].
  set (w1 := match c_state c' with Finished _ => end_handler id w
             | _ => set_handler id (Serving c') w end).
  assert (Hw1 : queue w1 = queue w ∧ held w1 = held w ∧ next_id w1 = next_id w ∧
    accepting w1 = accepting w ∧ shutdown_sent w1 = shutdown_sent w ∧ rx_alive w1 = rx_alive w)
    by (unfold w1; by destruct (c_state c')).
  destruct Hw1 as (Hq & Hd & Hn & Ha & Hs & Hx).
  assert (Hsame : Some w1 = Some w' → queue w' = queue w ++ [] ∧ held w' = held w ∧
    next_id w' = next_id w ∧ accepting w' = accepting w ∧ shutdown_sent w' = shutdown_sent w ∧
    rx_alive w' = rx_alive w ∧ (@nil parcel ≠ [] → rx_alive w = true)).
  { intros [= <-]. rewrite app_nil_r. done. }
  clearbody w1. destruct c as [st n].
  destruct st as [|? ?|batch rx|? ?|? ?|?|?], i as [?|[]|?| |?]; cbn [c_state]; try done;
    try (case_bool_decide; [|done]; done).
  - destruct (rx_alive w) eqn:Hrx; [|done]. destruct (_ <? _); [|done]. intros [= <-]. simpl.
    rewrite Hq. done.
  - destruct (rx_alive w) eqn:Hrx; [done|]. intros [= <-]. simpl. by rewrite app_nil_r.
Qed.

(** First in, first out. *)
Lemma exec_fifo t w :
  exec world_start t w →
  enqueued t = received t ++ lost t ++ queue w ∧ (rx_alive w = true → lost t = []).
Proof.
  revert t w. apply (exec_ind_last (server_step b) world_start (λ t w,
    enqueued t = received t ++ lost t ++ queue w ∧ (rx_alive w = true → lost t = []))).
  { done. }
  intros t w e w' Hx [IH Hlost] Hs%server_step_inv.
  pose proof (wk_closed _ _ (exec_world_ok b t w Hx)) as Hclosed.
  unfold enqueued, received, lost in *. rewrite !bind_snoc.
  destruct e as [| | |id f|id i| |k d| |]; simpl in Hs.
  5: { destruct (handle_batches _ _ _ _ Hs) as (Hq & _ & _ & _ & _ & Hrx & _).
       rewrite Hq, Hrx. unfold received_by at 2, lost_by at 2 3. cbn [snd].
       rewrite !app_nil_r, IH, <- !app_assoc. done. }
  all: unfold enqueued_by at 2, received_by at 2, lost_by at 2 3; cbn [fst snd];
    rewrite ?app_nil_r.
  - by destruct Hs as (_ & _ & ->).
  - by destruct Hs as (_ & _ & ->).
  - by destruct Hs as (_ & _ & ->).
  - destruct Hs as [_ ->]. by destruct f.
  - destruct Hs as (Hsd & [[-> ->]|(p & q & Hq & ->)]); [by rewrite app_nil_r|].
    rewrite Hq in *. simpl. rewrite IH. destruct (rx_alive w) eqn:Hrx.
    + rewrite (Hlost eq_refl), <- app_assoc. done.
    + by destruct (Hclosed eq_refl) as [? _].
  - by destruct Hs as (p & _ & ->).
  - by destruct Hs as [_ ->].
  - destruct Hs as (_ & _ & ->). simpl. rewrite IH, app_nil_r, app_assoc. done.
Qed.

(** No batch is lost or duplicated between the handlers, the queue and the consumer. *)
Lemma exec_conserves t w :
  exec world_start t w → enqueued t ≡ₚ disposed t ++ queue w ++ held w.
Proof.
  revert t w. apply (exec_ind_last (server_step b) world_start (λ t w,
    enqueued t ≡ₚ disposed t ++ queue w ++ held w)).
  { done. }
  intros t w e w' Hx IH Hs%server_step_inv. unfold enqueued, disposed in *.
  rewrite !bind_snoc. destruct e as [| | |id f|id i| |k d| |]; simpl in Hs.
  5: { destruct (handle_batches _ _ _ _ Hs) as (-> & -> & _).
       unfold disposed_by at 2. cbn [snd]. rewrite app_nil_r, IH. solve_Permutation. }
  all: unfold enqueued_by at 2, disposed_by at 2; cbn [fst snd]; rewrite ?app_nil_r.
  - by destruct Hs as (_ & _ & ->).
  - by destruct Hs as (_ & _ & ->).
  - by destruct Hs as (_ & _ & ->).
  - destruct Hs as [_ ->]. by destruct f.
  - destruct Hs as (_ & [[_ ->]|(p & q & Hq & ->)]); [done|].
    rewrite Hq in IH. simpl. rewrite IH. solve_Permutation.
  - destruct Hs as (p & Hk & ->). rewrite Hk. simpl.
    rewrite IH, (delete_Permutation _ _ _ Hk) at 1. solve_Permutation.
  - by destruct Hs as [_ ->].
  - destruct Hs as (_ & _ & ->). simpl. rewrite IH. solve_Permutation.
Qed.

(** A connection has at most one batch in flight, so that its batches are disposed of in the order
    in which it put them in the queue. *)
Definition of_conn (id : nat) (ps : list parcel) : list parcel := filter (λ p : parcel, p.1 = id) ps.

Lemma of_conn_app id ps ps' : of_conn id (ps ++ ps') = of_conn id ps ++ of_conn id ps'.
Proof. apply filter_app. Qed.

Lemma enqueue_alone id w e :
  world_ok b w →
  of_conn id (enqueued_by (w, e)) = [] ∨
  of_conn id (queue w ++ held w) = [] ∧ length (of_conn id (enqueued_by (w, e))) = 1%nat.
Proof.
  intros Hok. destruct e as [| | |id1 f|id1 i| |k d| |]; try by left.
  unfold enqueued_by. cbn [fst snd]. destruct i as [|[]| | |]; try by left.
  destruct (handlers w !! id1) as [[|[[| |batch rx| | | |] n]]|] eqn:Hh; try by left.
  unfold of_conn. destruct (decide (id1 = id)) as [->|Hne]; [|left; by rewrite filter_cons_False].
  right. rewrite filter_cons_True by done. split; [|done].
  destruct (filter _ (queue w ++ held w)) as [|p ps] eqn:Hf; [done|].
  assert (Hp : p ∈ filter (λ p : parcel, p.1 = id) (queue w ++ held w)) by (rewrite Hf; by left).
  apply list_elem_of_filter in Hp as [Hid Hp].
  by destruct (idle_no_flight _ _ _ _ _ _ p (wk_chans _ _ Hok) Hh).
Qed.

Lemma exec_in_order t w id :
  exec world_start t w →
  (length (of_conn id (queue w ++ held w)) <= 1)%nat ∧
  of_conn id (enqueued t) = of_conn id (disposed t) ++ of_conn id (queue w ++ held w).
Proof.
  revert t w. refine (exec_ind_last (server_step b) world_start _ _ _).
  { split; [simpl; lia|done]. }
  intros t w e w' Hx [Hle IH] Hs. pose proof (exec_snoc _ _ _ _ _ _ Hx Hs) as Hx'.
  apply exec_conserves, (filter_Permutation (λ p : parcel, p.1 = id)) in Hx'.
  fold (of_conn id (enqueued (t ++ [(w, e)]))) in Hx'. revert Hx'.
  fold (of_conn id (disposed (t ++ [(w, e)]) ++ queue w' ++ held w')). unfold enqueued, disposed in *.
  rewrite !bind_snoc, !of_conn_app, IH, <- !app_assoc, <- !(of_conn_app id (queue _)).
  intros Hx'%Permutation_app_inv_l.
  assert (Hone : (length (of_conn id (queue w ++ held w) ++ of_conn id (enqueued_by (w, e))) <= 1)%nat).
  { rewrite length_app. destruct (enqueue_alone id w e (exec_world_ok b t w Hx)) as [->|[-> ->]];
      simpl; lia. }
  apply (short_Permutation _ _ Hone) in Hx'. rewrite Hx' in *. split; [|done].
  rewrite length_app in Hone. lia.
Qed.

(** *** Where acknowledgements come from *)

Lemma settle_lookup d p a k v :
  settle d p a !! k = Some v → a !! k = Some v ∨ key_of p = k ∧ last_seq p.2 = v.
Proof.
  destruct (ack_tx p.2) as [ch|] eqn:Hch.
  - rewrite (settle_sender d p a ch Hch), lookup_insert_Some, (key_of_sender p ch Hch). tauto.
  - left. destruct p as [id [evs last tx]]. simpl in Hch. subst tx. by destruct d.
Qed.

Lemma settle_all_lookup ps a k v :
  settle_all ps a !! k = Some v →
  a !! k = Some v ∨ ∃ p, p ∈ ps ∧ key_of p = k ∧ last_seq p.2 = v.
Proof.
  unfold settle_all. revert a. induction ps as [|p ps IH]; intros a; simpl; [by left|].
  intros [Hk|(q & Hq & Hk)]%IH.
  - apply settle_lookup in Hk as [Hk|Hk]; [by left|]. right. exists p. split; [by left|done].
  - right. exists q. split; [by right|done].
Qed.

Lemma handle_acks id i w w' :
  handle b id i w = Some w' →
  (∀ j, handlers w !! j = None → handlers w' !! j = None) ∧
  (∀ k v, acks w' !! k = Some v → acks w !! k = Some v ∨ handlers w' !! k.1 = None).
Proof.
  unfold handle. destruct (handlers w !! id) as [[|c]|] eqn:Hh; try done. unfold resume_handler.
  destruct (resume (config b) c i) as [c'|] eqn:Hr; [|done]. cbn [mbind option_bind].
  set (w1 := match c_state c' with Finished _ => end_handler id w
             | _ => set_handler id (Serving c') w end).
  assert (Hw1 : (∀ j, handlers w !! j = None → handlers w1 !! j = None) ∧ acks w1 = acks w).
  { assert (Hset : ∀ j, handlers w !! j = None →
      handlers (set_handler id (Serving c') w) !! j = None).
    { intros j Hj. simpl. by rewrite lookup_insert_ne by congruence. }
    unfold w1. destruct (c_state c'); try (split; [exact Hset|done]).
    split; [|done]. intros j Hj. apply lookup_delete_None. by right. }
  destruct Hw1 as [Hw1 Ha].
  assert (Hsame : Some w1 = Some w' → (∀ j, handlers w !! j = None → handlers w' !! j = None) ∧
    (∀ k v, acks w' !! k = Some v → acks w !! k = Some v ∨ handlers w' !! k.1 = None)).
  { intros [= <-]. split; [done|]. intros k v. rewrite Ha. by left. }
  destruct c as [st n].
  destruct st as [|? ?|batch rx|? ?|? ?|?|?], i as [?|[]|?| |?]; cbn [c_state]; try done;
    try (case_bool_decide; [|done]; done).
  - destruct (_ && _); [|done]. intros [= <-]. split; [done|]. simpl. rewrite Ha. by left.
  - destruct (rx_alive w); [done|]. intros [= <-]. split; [done|]. simpl. intros k v Hk.
    apply settle_lookup in Hk as [Hk|[Hk _]]; [left; by rewrite <- Ha|right].
    rewrite <- Hk. unfold w1. injection Hr as <-. simpl. apply lookup_delete_eq.
Qed.

(** A value in a channel was sent by the disposal of a batch of the queue; otherwise its handler
    has ended. *)
Lemma exec_acks t w k v :
  exec world_start t w → acks w !! k = Some v →
  (∃ p, p ∈ disposed t ∧ key_of p = k ∧ last_seq p.2 = v) ∨ handlers w !! k.1 = None.
Proof.
  intros Hx. revert t w Hx k v.
  refine (exec_ind_last (server_step b) world_start (λ t w, ∀ k v, acks w !! k = Some v →
    (∃ p, p ∈ disposed t ∧ key_of p = k ∧ last_seq p.2 = v) ∨ handlers w !! k.1 = None) _ _).
  { done. }
  intros t w e w' Hx IH Hs%server_step_inv k v. pose proof (exec_world_ok b t w Hx) as Hok.
  unfold disposed in *. rewrite bind_snoc.
  assert (Hold : ∀ k v, acks w !! k = Some v →
    (∃ p, p ∈ (t ≫= disposed_by) ++ disposed_by (w, e) ∧ key_of p = k ∧ last_seq p.2 = v) ∨
    handlers w !! k.1 = None).
  { intros k1 v1 Hk. destruct (IH k1 v1 Hk) as [(p & Hp & ?)|?]; [left|by right].
    exists p. split; [apply elem_of_app; by left|done]. }
  clear IH. destruct e as [| | |id f|id i| |j d| |]; simpl in Hs.
  - destruct Hs as (_ & _ & ->). simpl. intros Hk.
    destruct (Hold k v Hk) as [?|Hn]; [by left|right]. rewrite lookup_insert_ne; [done|].
    intros He. pose proof (ck_used_id _ _ _ _ (wk_chans _ _ Hok) k ltac:(by right; eexists)). lia.
  - destruct Hs as (_ & _ & ->). apply Hold.
  - destruct Hs as (_ & _ & ->). apply Hold.
  - destruct Hs as [Hh ->]. intros Hk. assert (Hk' : acks w !! k = Some v) by by destruct f.
    destruct (Hold k v Hk') as [?|Hn]; [by left|right]. destruct f; simpl.
    + apply lookup_delete_None. by right.
    + by rewrite lookup_insert_ne by congruence.
  - destruct (handle_acks _ _ _ _ Hs) as [Hh Ha]. intros [Hk|Hk]%Ha; [|by right].
    destruct (Hold k v Hk) as [?|Hn]; [by left|right; by apply Hh].
  - destruct Hs as (_ & [[_ ->]|(p & q & Hq & ->)]); apply Hold.
  - destruct Hs as (p & Hj & ->). simpl. intros [Hk|Hk]%settle_lookup; [by apply Hold|].
    left. exists p. split; [|done]. apply elem_of_app. right. unfold disposed_by. simpl.
    rewrite Hj. by left.
  - destruct Hs as [_ ->]. apply Hold.
  - destruct Hs as (_ & _ & ->). simpl.
    intros [Hk|(p & Hp & Hk)]%settle_all_lookup; [by apply Hold|].
    left. exists p. split; [|done]. apply elem_of_app. by right.
Qed.

(** *** The connections of the server *)

Definition live (c : conn) : Prop := match c_state c with Finished _ => False | _ => True end.

Lemma handle_conn id i w w' :
  handle b id i w = Some w' →
  ∃ c c', handlers w !! id = Some (Serving c) ∧ resume (config b) c i = Some c' ∧
    (handlers w' !! id = Some (Serving c') ∧ live c' ∨ handlers w' !! id = None) ∧
    (∀ j, j ≠ id → handlers w' !! j = handlers w !! j) ∧
    (∀ last rx v, c_state c = AwaitAck last rx → i = InAck (Some v) →
       acks w !! (id, rx) = Some v).
Proof.
  unfold handle. destruct (handlers w !! id) as [[|c]|] eqn:Hh; try done. unfold resume_handler.
  destruct (resume (config b) c i) as [c'|] eqn:Hr; [|done]. cbn [mbind option_bind].
  set (w1 := match c_state c' with Finished _ => end_handler id w
             | _ => set_handler id (Serving c') w end).
  intros Hs. exists c, c'. split; [done|]. split; [done|].
  assert (Hw1 : (handlers w1 !! id = Some (Serving c') ∧ live c' ∨ handlers w1 !! id = None) ∧
    ∀ j, j ≠ id → handlers w1 !! j = handlers w !! j).
  { assert (Hset : (handlers (set_handler id (Serving c') w) !! id = Some (Serving c')) ∧
      ∀ j, j ≠ id → handlers (set_handler id (Serving c') w) !! j = handlers w !! j).
    { simpl. split; [apply lookup_insert_eq|]. intros j Hj. by apply lookup_insert_ne. }
    destruct Hset as [Hs1 Hs2]. unfold w1, live.
    destruct (c_state c'); try (split; [by left|exact Hs2]). simpl.
    split; [right; apply lookup_delete_eq|]. intros j Hj. by apply lookup_delete_ne. }
  assert (Hw' : handlers w' = handlers w1).
  { destruct (c_state c), i as [?|[]|?| |?]; try (by injection Hs as <-);
      try (case_bool_decide; [|done]; by injection Hs as <-).
    - destruct (_ && _); [|done]. by injection Hs as <-.
    - destruct (rx_alive w); [done|]. by injection Hs as <-. }
  rewrite Hw'. split; [apply Hw1|]. split; [apply Hw1|].
  intros last rx v Hst ->. rewrite Hst in Hs. case_bool_decide as Hv; [|done]. by destruct Hv.
Qed.

Lemma own_or_other id e : (∃ i, e = Handle id i) ∨ ∀ i, e ≠ Handle id i.
Proof.
  destruct e as [| | | |id1 i| | | |]; try (by right).
  destruct (decide (id1 = id)) as [->|]; [left; by exists i|right; congruence].
Qed.

(** An event that is not a step of the handler [id] leaves it alone, ends it, or starts it. *)
Lemma handler_other id w e w' :
  world_ok b w → server_step b w e = Some w' → (∀ i, e ≠ Handle id i) →
  (handlers w' !! id = handlers w !! id ∧ (next_id w' <= id → next_id w <= id)%nat) ∨
  (handlers w' !! id = None ∧ (id < next_id w')%nat) ∨
  ((handlers w' !! id = Some (Serving conn_start) ∨ handlers w' !! id = Some Handshaking) ∧
     (id < next_id w')%nat ∧ (handlers w !! id = Some Handshaking ∨ (next_id w <= id)%nat)).
Proof.
  intros Hok Hs%server_step_inv He. pose proof (ck_ids _ _ _ _ (wk_chans _ _ Hok)) as Hids.
  destruct e as [| | |id1 f|id1 i| |j d| |]; simpl in Hs;
    try (left; by destruct_and?; simplify_eq).
  - destruct Hs as (_ & _ & ->). simpl. destruct (decide (id = next_id w)) as [->|Hne].
    + right; right. rewrite lookup_insert_eq. unfold handler_start.
      split; [destruct (s_tls b); auto|]. split; [lia|by right].
    + left. rewrite lookup_insert_ne by done. split; [done|lia].
  - destruct Hs as [Hh ->]. pose proof (Hids _ _ Hh). destruct (decide (id1 = id)) as [->|Hne].
    + destruct f; simpl; [right; left; by rewrite lookup_delete_eq|right; right].
      rewrite lookup_insert_eq. auto.
    + left. destruct f; simpl; [rewrite lookup_delete_ne by done|rewrite lookup_insert_ne by done];
        done.
  - destruct (handle_conn _ _ _ _ Hs) as (c & c' & _ & _ & _ & Hj & _).
    destruct (handle_batches _ _ _ _ Hs) as (_ & _ & Hn & _).
    left. split; [|lia]. apply Hj. intros ->. by apply (He i).
  - left. by destruct Hs as (_ & [[_ ->]|(p & q & _ & ->)]).
  - left. by destruct Hs as (p & _ & ->).
Qed.

(** Nor does it belong to the run of that handler. *)
Lemma conn_step_other id w e :
  (∀ i, e ≠ Handle id i) →
  conn_step id (w, e) = [] ∧ filter (λ p : parcel, p.1 = id) (enqueued_by (w, e)) = [].
Proof.
  intros He. destruct e as [| | |id1 f|id1 i| |j d| |]; try done.
  assert (Hne : id ≠ id1) by (intros ->; by apply (He i)).
  unfold conn_step, enqueued_by. cbn [fst snd]. split.
  - destruct (handlers w !! id) as [[|c]|]; try done. by rewrite bool_decide_false.
  - destruct i as [|[]| | |]; try done.
    destruct (handlers w !! id1) as [[|[[] ?]]|]; try done.
    rewrite filter_cons_False; [done|]. simpl. congruence.
Qed.

(** A step of the handler [id] is a step of its connection. *)
Lemma conn_step_own id w i w' c :
  world_ok b w → handle b id i w = Some w' → handlers w !! id = Some (Serving c) →
  conn_step id (w, Handle id i) = [(c, i)] ∧ honest (c, i) ∧
  dispatched_by (config b) (c, i) =
    (filter (λ p : parcel, p.1 = id) (enqueued_by (w, Handle id i))).*2.
Proof.
  intros Hok Hs Hh. unfold conn_step, enqueued_by, honest, dispatched_by. cbn [fst snd].
  rewrite Hh, bool_decide_true by done. split; [done|].
  destruct (handle_conn _ _ _ _ Hs) as (c1 & c' & Hh1 & _ & _ & _ & Ha).
  rewrite Hh in Hh1. injection Hh1 as <-. destruct c as [st n]. simpl in *. split.
  - destruct st; try done. destruct i as [| |[v|]| |]; try done.
    eapply (chans_honest _ _ _ _ _ _ _ _ _ (wk_chans _ _ Hok) Hh); [done|]. by eapply Ha.
  - destruct st, i as [|[]|?| |]; try done. simpl. by rewrite filter_cons_True.
Qed.

Lemma exec_projects t w id :
  exec world_start t w →
  ∃ c, Task.exec (resume (config b)) conn_start (conn_trace id t) c ∧
    Forall honest (conn_trace id t) ∧
    dispatched (config b) (conn_trace id t) = (filter (λ p : parcel, p.1 = id) (enqueued t)).*2 ∧
    (∀ c1, handlers w !! id = Some (Serving c1) → c1 = c) ∧
    (handlers w !! id = Some Handshaking ∨ (next_id w <= id)%nat → c = conn_start).
Proof.
  intros Hx. revert t w Hx. refine (exec_ind_last (server_step b) world_start _ _ _).
  { exists conn_start. split; [constructor|]. split; [constructor|]. split; [done|].
    split; [|done]. intros c1. simpl. by rewrite lookup_empty. }
  intros t w e w' Hx (c & Hc & Hh & Hd & Hl & Hn) Hs.
  pose proof (exec_world_ok b t w Hx) as Hok.
  unfold conn_trace, enqueued, dispatched in *. rewrite !bind_snoc, filter_app, fmap_app, <- Hd.
  destruct (own_or_other id e) as [[i ->]|Hne].
  - destruct (handle_conn _ _ _ _ Hs) as (c1 & c' & Hh1 & Hr & Hnext & _).
    pose proof (ck_ids _ _ _ _ (wk_chans _ _ Hok) _ _ Hh1) as Hid.
    pose proof (Hl _ Hh1) as ->. destruct (conn_step_own _ _ _ _ _ Hok Hs Hh1) as (-> & Hho & <-).
    destruct (handle_batches _ _ _ _ Hs) as (_ & _ & Hid' & _).
    exists c'. split; [by apply (exec_snoc _ _ _ c)|]. split; [by apply Forall_app_2; [|constructor]|].
    split; [by rewrite bind_snoc|]. split.
    + intros c2 Hc2. destruct Hnext as [[? _]|?]; congruence.
    + intros [Hhs|Hge]; [destruct Hnext as [[? _]|?]; congruence|lia].
  - destruct (conn_step_other id w e Hne) as [-> ->]. exists c. rewrite !app_nil_r.
    split; [done|]. split; [done|]. split; [done|].
    destruct (handler_other id _ _ _ Hok Hs Hne) as [[-> Hge]|[[-> Hlt]|(Hw' & Hlt & Hnew)]].
    + split; [done|]. intros [?|?]; auto.
    + split; [done|]. intros [?|?]; [done|lia].
    + specialize (Hn Hnew) as ->. split; [|done]. intros c1 Hc1. destruct Hw'; congruence.
Qed.

(** The handlers of the shared state have not ended. *)
Lemma exec_live t w id c : exec world_start t w → handlers w !! id = Some (Serving c) → live c.
Proof.
  intros Hx. revert t w Hx c. refine (exec_ind_last (server_step b) world_start _ _ _).
  { intros c. simpl. by rewrite lookup_empty. }
  intros t w e w' Hx IH Hs c Hc. destruct (own_or_other id e) as [[i ->]|Hne].
  - destruct (handle_conn _ _ _ _ Hs) as (c1 & c' & _ & _ & [[Hc' Hl]|Hn] & _); [|congruence].
    rewrite Hc in Hc'. by injection Hc' as <-.
  - destruct (handler_other id _ _ _ (exec_world_ok b t w Hx) Hs Hne)
      as [[Heq _]|[[Hn _]|([Hw'|Hw'] & _)]].
    + rewrite Heq in Hc. by apply IH.
    + congruence.
    + rewrite Hw' in Hc. by injection Hc as <-.
    + congruence.
Qed.

(** *** Shutdown *)

Definition closing (w : world) : Prop := accepting w = false ∨ shutdown_sent w = true.

Lemma handlers_shrink w w' :
  (∀ j, handlers w !! j = None → handlers w' !! j = None) → live_handlers w' <= live_handlers w.
Proof.
  intros Hn. unfold live_handlers. rewrite <- !size_dom. apply inj_le, subseteq_size.
  intros j. rewrite !elem_of_dom. rewrite <- !not_eq_None_Some. auto.
Qed.

Ltac unchanged := split; [simpl; tauto|split; [done|apply Z.le_refl]].

Lemma step_closing w e w' :
  closing w → server_step b w e = Some w' →
  closing w' ∧ next_id w' = next_id w ∧ live_handlers w' <= live_handlers w.
Proof.
  unfold closing. intros Hc Hs%server_step_inv. destruct e as [| | |id f|id i| |j d| |]; simpl in Hs.
  - destruct Hs as (? & ? & _). destruct Hc; congruence.
  - destruct Hs as (_ & _ & ->). unchanged.
  - destruct Hs as (_ & _ & ->). unchanged.
  - destruct Hs as [Hh ->]. split; [by destruct f|]. split; [by destruct f|].
    apply handlers_shrink. intros k Hk. destruct f; simpl.
    + apply lookup_delete_None. by right.
    + by rewrite lookup_insert_ne by congruence.
  - destruct (handle_batches _ _ _ _ Hs) as (_ & _ & -> & -> & -> & _).
    split; [done|]. split; [done|]. apply handlers_shrink. by apply (handle_acks _ _ _ _ Hs).
  - destruct Hs as (_ & [[_ ->]|(p & q & _ & ->)]); unchanged.
  - destruct Hs as (p & _ & ->). unchanged.
  - destruct Hs as [_ ->]. unchanged.
  - destruct Hs as (_ & _ & ->). unchanged.
Qed.

Lemma exec_closing w t w' :
  closing w → exec w t w' → next_id w' = next_id w ∧ live_handlers w' <= live_handlers w.
Proof.
  intros Hc Hx. induction Hx as [w|w e w1 t w' Hs _ IH]; [auto with lia|].
  destruct (step_closing _ _ _ Hc Hs) as (Hc1 & Hn & Hl). destruct (IH Hc1). lia.
Qed.

(** The accept loop ends only after the handle was dropped or an [accept] failed. *)
Lemma exec_accepting t w :
  exec world_start t w →
  accepting w = true ∨ shutdown_sent w = true ∨ AcceptFails ∈ t.*2.
Proof.
  revert t w. apply (exec_ind_last (server_step b) world_start (λ t w,
    accepting w = true ∨ shutdown_sent w = true ∨ AcceptFails ∈ t.*2)).
  { by left. }
  intros t w e w' _ IH Hs%server_step_inv. rewrite fmap_app, elem_of_app. simpl.
  rewrite list_elem_of_singleton.
  destruct e as [| | |id f|id i| |j d| |]; simpl in Hs.
  - destruct Hs as (_ & _ & ->). tauto.
  - tauto.
  - destruct Hs as (? & _ & ->). tauto.
  - destruct Hs as [_ ->]. destruct f; tauto.
  - destruct (handle_batches _ _ _ _ Hs) as (_ & _ & _ & -> & -> & _). tauto.
  - destruct Hs as (_ & [[_ ->]|(p & q & _ & ->)]); tauto.
  - destruct Hs as (p & _ & ->). tauto.
  - destruct Hs as [_ ->]. tauto.
  - destruct Hs as (_ & _ & ->). tauto.
Qed.

(** *** A batch that waits can be acknowledged *)

Definition consumer_event (e : event) : Prop := e = Recv ∨ ∃ k, e = Dispose k ByAck.

(** The consumer takes everything that is in the queue. *)
Lemma receive_all w :
  shutdown_sent w = false →
  ∃ t, exec w t (set_batches [] (held w ++ queue w) w) ∧ Forall consumer_event t.*2.
Proof.
  destruct w as [a hs n g q hd k s r]. simpl. intros ->. revert hd.
  induction q as [|p q IH]; intros hd.
  - exists []. rewrite app_nil_r. split; [constructor|constructor].
  - destruct (IH (hd ++ [p])) as (t & Hx & Ht). simpl in *. rewrite <- app_assoc in Hx.
    eexists. split; [by eapply exec_cons with (i := Recv); [reflexivity|]|].
    constructor; [by left|done].
Qed.

Lemma acknowledge w id h rx last :
  world_ok b w → shutdown_sent w = false → handlers w !! id = Some h →
  awaited h = Some (rx, last) →
  ∃ t w', exec w t w' ∧ Forall consumer_event t.*2 ∧ handlers w' = handlers w ∧
    acks w' !! (id, rx) = Some last.
Proof.
  intros Hok Hsd Hh Ha. pose proof (wk_chans _ _ Hok) as Hc.
  destruct (ck_awaited _ _ _ _ Hc _ _ _ _ Hh Ha) as [(p & Hp & Hk & Hl)|Hv].
  2: { exists [], w. split; [constructor|]. split; [constructor|done]. }
  destruct (ck_sender _ _ _ _ Hc p Hp) as [ch Hch]. rewrite (key_of_sender p ch Hch) in Hk.
  destruct (receive_all w Hsd) as (t & Hx & Ht).
  rewrite Permutation_app_comm in Hp.
  apply list_elem_of_lookup in Hp as [k Hpk].
  eexists (t ++ [(_, Dispose k ByAck)]), _. split.
  { eapply exec_trans; [exact Hx|]. eapply exec_cons; [|constructor]. simpl. rewrite Hpk. reflexivity. }
  split; [|split; [done|]].
  - rewrite fmap_app. apply Forall_app. split; [done|].
    apply Forall_cons. split; [right; by exists k|constructor].
  - simpl. rewrite (settle_sender _ _ _ _ Hch), Hk, Hl. apply lookup_insert_eq.
Qed.
End executions.

(** ** Properties *)

Section server_properties.
Context `{Zlib} {TlsAcceptor : Type}.
Context (b : ServerBuilder TlsAcceptor).

Abbreviation exec := (Task.exec (server_step b)).

(** C22. The gauge of active connections is exact at every moment of every execution: it is the
    number of handler tasks that have not ended, TLS handshakes included (up to the wrap-around of
    a counter of 64 bits, which needs that many handlers). *)
Theorem gauge_counts_handlers t w :
  exec world_start t w → live_handlers w < 2 ^ 64 → active_connections w = live_handlers w.
Proof.
  intros Hx Hlt. unfold active_connections. rewrite (wk_active b w (exec_world_ok b t w Hx)).
  unfold wrap64. apply Z.mod_small. unfold live_handlers in *. lia.
Qed.

(** C21. The queue is bounded and in order: it never holds more batches than its capacity, and the
    batches the handlers put in are those the consumer took, in the same order, then those still
    queued; only dropping the receiver loses some, the ones queued at that moment. *)
Theorem queue_in_order t w :
  exec world_start t w →
  len (queue w) <= Z.max 0 (s_channel_capacity b) ∧
  enqueued t = received t ++ lost t ++ queue w ∧ (rx_alive w = true → lost t = []).
Proof.
  intros Hx. split; [apply (wk_queue b w (exec_world_ok b t w Hx))|by apply (exec_fifo b)].
Qed.

(** C20. No batch is lost or duplicated: at every moment the batches handed over by the handlers
    are, each once, disposed of, queued, or owned by the consumer. *)
Theorem batches_conserved t w :
  exec world_start t w → enqueued t ≡ₚ disposed t ++ queue w ++ held w.
Proof. apply (exec_conserves b). Qed.

(** C19. While a handler waits for an acknowledgement, its batch is in flight and its channel is
    silent, or the batch was disposed of and the channel holds its last sequence number: no
    handler waits for an answer that cannot come, and none is answered for a batch that nobody
    disposed of. *)
Theorem answered_once_disposed t w id h rx last :
  exec world_start t w → handlers w !! id = Some h → awaited h = Some (rx, last) →
  (acks w !! (id, rx) = None ∧
     ∃ p, p ∈ queue w ++ held w ∧ key_of p = (id, rx) ∧ last_seq p.2 = last) ∨
  (acks w !! (id, rx) = Some last ∧
     ∃ p, p ∈ disposed t ∧ key_of p = (id, rx) ∧ last_seq p.2 = last).
Proof.
  intros Hx Hh Ha. pose proof (wk_chans b w (exec_world_ok b t w Hx)) as Hc.
  destruct (ck_awaited _ _ _ _ Hc _ _ _ _ Hh Ha) as [(p & Hp & Hk & Hl)|Hv].
  - left. split; [|by exists p]. apply (ck_unsent _ _ _ _ Hc). rewrite <- Hk.
    by apply list_elem_of_fmap_2.
  - right. split; [done|]. destruct (exec_acks b t w _ _ Hx Hv) as [?|Hn]; [done|].
    simpl in Hn. congruence.
Qed.

(** C15. Whatever the other connections, the consumer and the accept loop do in between, what the
    server does on a connection is a run of [run_connection] from its start, in which every
    acknowledgement carries the last sequence number of its batch, and the batches of that run are
    the ones of that connection in the queue, in order. *)
Theorem connections_are_independent t w id c :
  exec world_start t w → handlers w !! id = Some (Serving c) →
  Task.exec (resume (config b)) conn_start (conn_trace id t) c ∧
  Forall honest (conn_trace id t) ∧
  dispatched (config b) (conn_trace id t) = (filter (λ p : parcel, p.1 = id) (enqueued t)).*2.
Proof.
  intros Hx Hh. destruct (exec_projects b t w id Hx) as (c' & Hc & Hho & Hd & Heq & _).
  by rewrite (Heq _ Hh).
Qed.

(** Once the handle was dropped, or the accept loop has ended, no connection is accepted any
    more and the number of handlers only decreases. *)
Theorem shutdown_stops_accepting w t w' :
  accepting w = false ∨ shutdown_sent w = true → exec w t w' →
  next_id w' = next_id w ∧ live_handlers w' <= live_handlers w.
Proof. apply exec_closing. Qed.

(** A batch that waits for its acknowledgement can always get it: as long as the handle is
    not dropped, the consumer, by receiving and acknowledging alone, reaches a state in which the
    handler finds its answer. *)
Theorem acknowledgement_reachable t w id h rx last :
  exec world_start t w → shutdown_sent w = false → handlers w !! id = Some h →
  awaited h = Some (rx, last) →
  ∃ t' w', exec w t' w' ∧ Forall consumer_event t'.*2 ∧ handlers w' = handlers w ∧
    acks w' !! (id, rx) = Some last.
Proof. intros Hx. apply acknowledge. by eapply exec_world_ok. Qed.

(** C35. [recv] reports the end only when nothing can come any more: no handler is left, every
    batch was received, and since the handle still exists the accept loop ended on a failed
    [accept]. *)
Theorem recv_end_is_final t w w' :
  exec world_start t w → shutdown_sent w = false → server_recv w = Some (None, w') →
  w' = w ∧ handlers w = ∅ ∧ received t = enqueued t ∧ AcceptFails ∈ t.*2.
Proof.
  intros Hx Hsd. unfold server_recv. destruct (queue w) as [|p q] eqn:Hq; [|done].
  destruct (accepting w) eqn:Ha; [done|]. case_bool_decide as Hh; [|done]. intros [= <-].
  split; [done|]. split; [done|]. destruct (exec_fifo b t w Hx) as [Hen Hlost]. split.
  - rewrite Hen, Hq, Hlost, app_nil_r; [done|]. destruct (rx_alive w) eqn:Hrx; [done|].
    apply (wk_closed b w (exec_world_ok b t w Hx)) in Hrx as [_ ?]. congruence.
  - destruct (exec_accepting b t w Hx) as [?|[?|?]]; [congruence|congruence|done].
Qed.
End server_properties.

(** [bind] with a positive capacity gives a server exactly when the address can be bound,
    with the address the listener reports and nothing accepted yet, and reports the I/O error
    otherwise; with the capacity 0, which the builder lets through, it panics, after the address
    was bound. *)
Theorem bind_result {W} `{Listen W, !ListenOk W} {TlsAcceptor} (b : ServerBuilder TlsAcceptor)
    addr w listener w1 local w2 :
  tcp_bind addr w = (Ok listener, w1) → listener_addr listener w1 = (Ok local, w2) →
  0 <= s_channel_capacity b →
  ∃ r w3, bind b addr w = (r, w3) ∧
    if 0 <? s_channel_capacity b then r = Ok (MkServer local world_start)
    else ∃ p, r = Panic p.
Proof.
  intros Hb Hl Hcap. unfold bind.
  erewrite bind_ok by (unfold map_err; by rewrite Hb).
  erewrite bind_ok by (unfold map_err; by rewrite Hl).
  destruct (Z.ltb_spec 0 (s_channel_capacity b)).
  - destruct (mpsc_channel_ok (s_channel_capacity b) w2) as [w3 Hm]; [done|].
    erewrite bind_ok by exact Hm. by eexists _, _.
  - replace (s_channel_capacity b) with 0 by lia.
    destruct (mpsc_channel_zero w2) as (p & w3 & Hm).
    erewrite bind_panic by exact Hm. eexists _, _. split; [done|by eexists].
Qed.

(** ** Witnesses *)

Definition sample_server : ServerBuilder unit :=
  set_max_frame_size sample_max (set_channel_capacity 2 server_default).

(** Two connections deliver a batch each; the consumer takes and acknowledges the first one. *)
Definition sample_schedule : list event :=
  [Accept; Accept;
   Handle 0 (InNext (Some (Ok (Window 1)))); Handle 1 (InNext (Some (Ok (Window 1))));
   Handle 1 (InNext (Some (Ok (Json 7 [x61])))); Handle 1 (InDispatched true);
   Handle 0 (InNext (Some (Ok (Json 1 [x62])))); Handle 0 (InDispatched true);
   Handle 1 InElapsed; Handle 1 (InSent (Ok tt)); Recv; Dispose 0 ByAck].

Definition schedule_run (l : list event) : option world :=
  Task.run (server_step sample_server) world_start l.

Definition schedule_trace (l : list event) : list (world * event) :=
  trace (server_step sample_server) world_start l.

Definition schedule_end (l : list event) : world := default world_start (schedule_run l).

Lemma schedule_exec l :
  is_Some (schedule_run l) →
  Task.exec (server_step sample_server) world_start (schedule_trace l) (schedule_end l).
Proof. intros [w Hw]. apply run_trace. unfold schedule_end, schedule_run in *. by rewrite Hw. Qed.

Lemma sample_schedule_exec k :
  (k <= 12)%nat →
  Task.exec (server_step sample_server) world_start (schedule_trace (take k sample_schedule))
    (schedule_end (take k sample_schedule)).
Proof.
  intros Hk. apply schedule_exec.
  do 13 (destruct k as [|k]; [vm_compute; by eexists|]). lia.
Qed.

Lemma gauge_counts_handlers_witness :
  active_connections (schedule_end sample_schedule) = 2.
Proof.
  apply (gauge_counts_handlers sample_server (schedule_trace sample_schedule)).
  - apply (sample_schedule_exec 12). lia.
  - vm_compute. reflexivity.
Defined.

Lemma queue_in_order_witness :
  len (queue (schedule_end sample_schedule)) <= Z.max 0 2 ∧
  enqueued (schedule_trace sample_schedule) =
    received (schedule_trace sample_schedule) ++ lost (schedule_trace sample_schedule) ++
    queue (schedule_end sample_schedule) ∧
  (rx_alive (schedule_end sample_schedule) = true → lost (schedule_trace sample_schedule) = []).
Proof.
  apply (queue_in_order sample_server). apply (sample_schedule_exec 12). lia.
Defined.

Lemma batches_conserved_witness :
  enqueued (schedule_trace sample_schedule) ≡ₚ disposed (schedule_trace sample_schedule) ++
    queue (schedule_end sample_schedule) ++ held (schedule_end sample_schedule).
Proof.
  apply (batches_conserved sample_server). apply (sample_schedule_exec 12). lia.
Defined.

Lemma answered_once_disposed_witness :
  (acks (schedule_end sample_schedule) !! (1, 0)%nat = None ∧
     ∃ p, p ∈ queue (schedule_end sample_schedule) ++ held (schedule_end sample_schedule) ∧
       key_of p = (1, 0)%nat ∧ last_seq p.2 = 7) ∨
  (acks (schedule_end sample_schedule) !! (1, 0)%nat = Some 7 ∧
     ∃ p, p ∈ disposed (schedule_trace sample_schedule) ∧ key_of p = (1, 0)%nat ∧
       last_seq p.2 = 7).
Proof.
  apply (answered_once_disposed sample_server (schedule_trace sample_schedule)
    (schedule_end sample_schedule) 1 (Serving (Conn (AwaitAck 7 0) 1)) 0 7).
  - apply (sample_schedule_exec 12). lia.
  - vm_compute. reflexivity.
  - reflexivity.
Defined.

Lemma connections_are_independent_witness :
  Task.exec (resume (config sample_server)) conn_start
    (conn_trace 0 (schedule_trace sample_schedule)) (Conn (AwaitAck 1 0) 1) ∧
  Forall honest (conn_trace 0 (schedule_trace sample_schedule)) ∧
  dispatched (config sample_server) (conn_trace 0 (schedule_trace sample_schedule)) =
    (filter (λ p : parcel, p.1 = 0%nat) (enqueued (schedule_trace sample_schedule))).*2.
Proof.
  apply (connections_are_independent sample_server (schedule_trace sample_schedule)
    (schedule_end sample_schedule) 0 (Conn (AwaitAck 1 0) 1)).
  - apply (sample_schedule_exec 12). lia.
  - vm_compute. reflexivity.
Defined.

Lemma shutdown_stops_accepting_witness :
  next_id (schedule_end (sample_schedule ++ [DropServer; SeeShutdown; DropReceiver])) = 2%nat ∧
  live_handlers (schedule_end (sample_schedule ++ [DropServer; SeeShutdown; DropReceiver])) <= 2.
Proof.
  apply (shutdown_stops_accepting sample_server (schedule_end (sample_schedule ++ [DropServer]))
    (zip [schedule_end (sample_schedule ++ [DropServer]);
          schedule_end (sample_schedule ++ [DropServer; SeeShutdown])]
       [SeeShutdown; DropReceiver])).
  - right. vm_compute. reflexivity.
  - eapply exec_cons; [vm_compute; reflexivity|].
    eapply exec_cons; [vm_compute; reflexivity|]. apply exec_nil.
Defined.

Lemma acknowledgement_reachable_witness :
  ∃ t' w', Task.exec (server_step sample_server) (schedule_end (take 8 sample_schedule)) t' w' ∧
    Forall consumer_event t'.*2 ∧
    handlers w' = handlers (schedule_end (take 8 sample_schedule)) ∧
    acks w' !! (0, 0)%nat = Some 1.
Proof.
  apply (acknowledgement_reachable sample_server (schedule_trace (take 8 sample_schedule))
    (schedule_end (take 8 sample_schedule)) 0 (Serving (Conn (AwaitAck 1 0) 1)) 0 1).
  - apply (sample_schedule_exec 8). lia.
  - vm_compute. reflexivity.
  - vm_compute. reflexivity.
  - reflexivity.
Defined.

Lemma recv_end_is_final_witness :
  schedule_end [AcceptFails] = schedule_end [AcceptFails] ∧
  handlers (schedule_end [AcceptFails]) = ∅ ∧
  received (schedule_trace [AcceptFails]) = enqueued (schedule_trace [AcceptFails]) ∧
  AcceptFails ∈ (schedule_trace [AcceptFails]).*2.
Proof.
  apply (recv_end_is_final sample_server (schedule_trace [AcceptFails])
    (schedule_end [AcceptFails]) (schedule_end [AcceptFails])).
  - apply schedule_exec. vm_compute. by eexists.
  - vm_compute. reflexivity.
  - vm_compute. reflexivity.
Defined.

(** A listener that binds every address, over a count of the calls. *)
#[export] Instance SampleListen : Listen nat := {|
  ListenAddr := SocketAddr;
  TcpListener := SocketAddr;
  tcp_bind a := λ n, (Ok a, S n);
  listener_addr a := λ n, (Ok a, S n);
  mpsc_channel c := λ n,
    if 0 <? c then (Ok tt, S n) else (Panic "mpsc bounded channel requires buffer > 0", S n);
|}.

#[export] Instance SampleListen_ok : ListenOk nat.
Proof.
  split.
  - intros n w Hn. exists (S w). simpl. by rewrite (proj2 (Z.ltb_lt _ _)).
  - intros w. by eexists _, _.
Qed.

Lemma bind_result_witness :
  ∃ r w3, @bind nat SampleListen unit sample_server sample_target 0%nat = (r, w3) ∧
    if 0 <? 2 then r = Ok (MkServer sample_target world_start) else ∃ p, r = Panic p.
Proof.
  apply (@bind_result nat SampleListen _ unit sample_server sample_target 0%nat sample_target 1%nat
    sample_target 2%nat).
  - reflexivity.
  - reflexivity.
  - vm_compute. congruence.
Defined.

(** Dropping the handle acknowledges what is still queued: the consumer never received the batch,
    and its client reads the acknowledgement. *)
Definition sample_drop : list event :=
  [Accept; Handle 0 (InNext (Some (Ok (Window 1)))); Handle 0 (InNext (Some (Ok (Json 1 [x61]))));
   Handle 0 (InDispatched true); DropServer; DropReceiver; Handle 0 (InAck (Some 1));
   Handle 0 (InSent (Ok tt))].

Lemma shutdown_acknowledges_unseen :
  Task.exec (server_step sample_server) world_start (schedule_trace sample_drop)
    (schedule_end sample_drop) ∧
  received (schedule_trace sample_drop) = [] ∧
  sent (config sample_server) (conn_trace 0 (schedule_trace sample_drop)) = [Ack 1].
Proof.
  split; [apply schedule_exec; vm_compute; by eexists|]. split; vm_compute; reflexivity.
Qed.
