(* ===== verification/Shutdown.v ===== *)
(** * Shutdown: dropping the server (src/src/server.rs, [Drop for Server], the end of the tasks)

    What happens when the [Server] handle is dropped: the accept loop sees the signal and ends, the
    receiver goes with what is queued, and the handlers go on on their own.  Nothing tells them:
    one that reads goes on until its peer does something ([reading_handler_stays]), no batch can be
    handed over any more ([receiver_gone]), and as soon as the peers close their connections and the
    consumer lets go of its batches, everything ends ([shutdown_completes]). *)

From stdpp Require Import gmap.
From S2P Require Import Prelude Errors Zlib Frame Codec Task Batch Connection Connect Server.

(** The steps of the end: the drop of [Server] and what its tasks notice of it, batches that are
    dropped, and connections closed by their peers. *)
Inductive winding_down : event → Prop :=
| wd_server : winding_down DropServer
| wd_accept_loop : winding_down SeeShutdown
| wd_receiver : winding_down DropReceiver
| wd_batch k : winding_down (Dispose k ByDrop)
| wd_handshake id io : winding_down (Handshake id (Some io))
| wd_eof id : winding_down (Handle id (InNext None))
| wd_refused id : winding_down (Handle id (InDispatched false))
| wd_answer id v : winding_down (Handle id (InAck (Some v)))
| wd_write id io : winding_down (Handle id (InSent (Err (Io io)))).

#[local] Hint Constructors winding_down : core.

Section shutdown.
Context `{Zlib} {TlsAcceptor : Type} (b : ServerBuilder TlsAcceptor).

Abbreviation exec := (Task.exec (server_step b)).

(** A continuation of these steps. *)
Definition winds (w w' : world) : Prop := ∃ t, exec w t w' ∧ Forall winding_down t.*2.

#[local] Instance winds_preorder : PreOrder winds.
Proof.
  split.
  - intros w. exists []. split; constructor.
  - intros w w1 w2 (t1 & Hx1 & Ht1) (t2 & Hx2 & Ht2). exists (t1 ++ t2).
    split; [by eapply exec_trans|]. rewrite fmap_app. by apply Forall_app.
Qed.

Lemma winds_step w e w' : winding_down e → server_step b w e = Some w' → winds w w'.
Proof.
  intros He Hs. exists [(w, e)]. split; [by eapply exec_cons; [|constructor]|]. by constructor.
Qed.

(** The server without its handle: the accept loop and the receiver are gone, and the consumer has
    let go of its batches. *)
Record released (w : world) : Prop := {
  rl_accepting : accepting w = false;
  rl_shutdown : shutdown_sent w = true;
  rl_receiver : rx_alive w = false;
  rl_queue : queue w = [];
  rl_held : held w = [];
}.

Lemma drop_held w :
  shutdown_sent w = true →
  ∃ a, winds w (set_acks a (set_batches (queue w) [] w)).
Proof.
  intros Hs. remember (held w) as hd eqn:Hhd. revert w Hs Hhd.
  induction hd as [|p hd IH]; intros w Hs Hhd.
  - exists (acks w). replace (set_acks _ _) with w by (destruct w; simpl in *; by subst).
    reflexivity.
  - set (w1 := set_acks (settle ByDrop p (acks w)) (set_batches (queue w) hd w)).
    destruct (IH w1) as [a Ha]; [done|done|]. exists a. etrans; [|exact Ha].
    apply (winds_step _ (Dispose 0 ByDrop)); [done|]. simpl. by rewrite <- Hhd.
Qed.

(** Dropping the handle releases the server, whatever its handlers do. *)
Lemma release w :
  world_ok b w → ∃ w', winds w w' ∧ released w' ∧ handlers w' = handlers w.
Proof.
  intros Hok.
  assert (H1 : ∃ w1, winds w w1 ∧ shutdown_sent w1 = true ∧ handlers w1 = handlers w ∧ world_ok b w1).
  { destruct (shutdown_sent w) eqn:Hs; [by exists w|].
    destruct (server_step b w DropServer) as [w1|] eqn:Hd; [|by simpl in Hd; rewrite Hs in Hd].
    exists w1. split; [by apply (winds_step _ DropServer)|]. pose proof (server_step_ok b _ _ _ Hok Hd) as Hok1.
    simpl in Hd. rewrite Hs in Hd. by injection Hd as <-. }
  destruct H1 as (w1 & Hw1 & Hs1 & Hh1 & Hok1).
  assert (H2 : ∃ w2, winds w1 w2 ∧ shutdown_sent w2 = true ∧ accepting w2 = false ∧
    handlers w2 = handlers w ∧ world_ok b w2).
  { destruct (accepting w1) eqn:Ha; [|by exists w1].
    destruct (server_step b w1 SeeShutdown) as [w2|] eqn:Hd;
      [|by simpl in Hd; rewrite Hs1, Ha in Hd].
    exists w2. split; [by apply (winds_step _ SeeShutdown)|]. pose proof (server_step_ok b _ _ _ Hok1 Hd) as Hok2.
    simpl in Hd. rewrite Hs1, Ha in Hd. by injection Hd as <-. }
  destruct H2 as (w2 & Hw2 & Hs2 & Ha2 & Hh2 & Hok2).
  assert (H3 : ∃ w3, winds w2 w3 ∧ shutdown_sent w3 = true ∧ accepting w3 = false ∧
    handlers w3 = handlers w ∧ rx_alive w3 = false ∧ queue w3 = []).
  { destruct (rx_alive w2) eqn:Hr; [|by exists w2; destruct (wk_closed _ _ Hok2 Hr)].
    destruct (server_step b w2 DropReceiver) as [w3|] eqn:Hd;
      [|by simpl in Hd; rewrite Hs2, Hr in Hd].
    exists w3. split; [by apply (winds_step _ DropReceiver)|].
    simpl in Hd. rewrite Hs2, Hr in Hd. by injection Hd as <-. }
  destruct H3 as (w3 & Hw3 & Hs3 & Ha3 & Hh3 & Hr3 & Hq3).
  destruct (drop_held w3 Hs3) as [a Ha].
  exists (set_acks a (set_batches (queue w3) [] w3)). split; [by etrans; [|etrans; [|etrans]]|].
  split; [by split|done].
Qed.

(** Any error of a write to a closed connection. *)
Definition broken_pipe : io_error := IoError (OtherKind "broken pipe") "broken pipe".

Lemma finish w id c i r k :
  released w → winding_down (Handle id i) → handlers w !! id = Some (Serving c) →
  resume (config b) c i = Some (Conn (Finished r) k) → (∀ v, i ≠ InAck v) → i ≠ InDispatched true →
  i ≠ InElapsed →
  ∃ a, winds w (set_acks a (end_handler id w)).
Proof.
  intros Hrl Hwd Hh Hr Hack Hdisp Hel.
  assert (Hs : ∃ a, handle b id i w = Some (set_acks a (end_handler id w))).
  { unfold handle, resume_handler. rewrite Hh, Hr. cbn [mbind option_bind c_state].
    assert (Hsame : ∃ a, Some (end_handler id w) = Some (set_acks a (end_handler id w)))
      by (by exists (acks w)).
    destruct (c_state c); try exact Hsame; destruct i as [|[]|v| |]; try exact Hsame; try congruence.
    - rewrite (rl_receiver _ Hrl). by eexists. }
  destruct Hs as [a Hs]. exists a. by apply (winds_step _ (Handle id i)).
Qed.

Lemma released_end w id a : released w → released (set_acks a (end_handler id w)).
Proof. by intros []. Qed.

(** A handler that is left ends. *)
Lemma end_one w id h :
  world_ok b w → released w → handlers w !! id = Some h →
  (∀ c, h = Serving c → live c) →
  ∃ w', winds w w' ∧ released w' ∧ handlers w' = delete id (handlers w).
Proof.
  intros Hok Hrl Hh Hlive.
  assert (Hfin : (∃ a, winds w (set_acks a (end_handler id w))) →
    ∃ w', winds w w' ∧ released w' ∧ handlers w' = delete id (handlers w)).
  { intros [a Ha]. exists (set_acks a (end_handler id w)).
    split; [done|]. split; [by apply released_end|done]. }
  destruct h as [|[st k]].
  { apply Hfin. exists (acks w). change (set_acks (acks w) (end_handler id w)) with (end_handler id w).
    apply (winds_step _ (Handshake id (Some broken_pipe))); [done|]. simpl. by rewrite Hh. }
  destruct st as [|n ws|batch rx|last rx|last rx|acked|r].
  - apply Hfin. by eapply (finish w id _ (InNext None)).
  - apply Hfin. by eapply (finish w id _ (InNext None)).
  - apply Hfin. by eapply (finish w id _ (InDispatched false)).
  - destruct (ck_awaited _ _ _ _ (wk_chans _ _ Hok) _ _ rx last Hh eq_refl)
      as [(p & Hp & _)|Hv].
    { rewrite (rl_queue _ Hrl), (rl_held _ Hrl) in Hp. by apply elem_of_nil in Hp. }
    set (c1 := Conn (AwaitAckSent last) k). set (w1 := set_handler id (Serving c1) w).
    assert (Hw1 : winds w w1).
    { apply (winds_step _ (Handle id (InAck (Some last)))); [done|]. simpl.
      unfold handle, resume_handler. rewrite Hh. cbn. by rewrite bool_decide_true. }
    assert (Hrl1 : released w1) by by destruct Hrl.
    destruct (finish w1 id c1 (InSent (Err (Io broken_pipe))) (Err (Io broken_pipe)) k Hrl1)
      as [a Ha]; try done; [apply lookup_insert_eq|].
    exists (set_acks a (end_handler id w1)). split; [by etrans|].
    split; [by apply released_end|]. simpl. by rewrite delete_insert_eq.
  - apply Hfin. by eapply (finish w id _ (InSent (Err (Io broken_pipe)))).
  - apply Hfin. by eapply (finish w id _ (InSent (Err (Io broken_pipe)))).
  - by destruct (Hlive _ eq_refl).
Qed.

Lemma winds_exec t w w' :
  exec world_start t w → winds w w' → ∃ t', exec world_start (t ++ t') w' ∧ Forall winding_down t'.*2.
Proof. intros Hx (t' & Hx' & Ht'). exists t'. split; [by eapply exec_trans|done]. Qed.

(** All the handlers end. *)
Lemma end_all t w :
  exec world_start t w → released w → ∃ w', winds w w' ∧ released w' ∧ handlers w' = ∅.
Proof.
  remember (size (handlers w)) as n eqn:Hn. revert t w Hn.
  induction n as [|n IH]; intros t w Hn Hx Hrl.
  - exists w. split; [reflexivity|]. split; [done|]. by apply map_size_empty_inv.
  - destruct (decide (handlers w = ∅)) as [He|He]; [by rewrite He, map_size_empty in Hn|].
    apply map_choose in He as (id & h & Hh).
    destruct (end_one w id h) as (w1 & Hw1 & Hrl1 & Hh1); [by eapply exec_world_ok|done|done| |].
    { intros c ->. by eapply exec_live. }
    destruct (winds_exec _ _ _ Hx Hw1) as (t1 & Hx1 & _).
    destruct (IH (t ++ t1) w1) as (w' & Hw' & ?); [|done|done|exists w'; split; [by etrans|done]].
    rewrite Hh1, map_size_delete, Hh. lia.
Qed.

(** *** What goes on after the drop *)

(** No event brings the receiver back, and without it nothing is handed over. *)
Lemma step_receiver w e w' :
  rx_alive w = false → server_step b w e = Some w' →
  rx_alive w' = false ∧ enqueued_by (w, e) = [].
Proof.
  intros Hrx Hs%server_step_inv. destruct e as [| | |id f|id i| |k d| |]; simpl in Hs.
  5: { destruct (handle_batches b _ _ _ _ Hs) as (_ & _ & _ & _ & _ & -> & Hne).
       split; [done|]. destruct (enqueued_by _); [done|]. rewrite Hne in Hrx; done. }
  all: split; [|done].
  - by destruct Hs as (_ & _ & ->).
  - by destruct Hs as (_ & _ & ->).
  - by destruct Hs as (_ & _ & ->).
  - destruct Hs as [_ ->]. by destruct f.
  - by destruct Hs as (_ & [[_ ->]|(p & q & _ & ->)]).
  - by destruct Hs as (p & _ & ->).
  - by destruct Hs as [_ ->].
  - by destruct Hs as (_ & _ & ->).
Qed.

(** A handler that serves its connection is left alone by the steps of the others. *)
Lemma serving_stays w e w' id c :
  world_ok b w → server_step b w e = Some w' → handlers w !! id = Some (Serving c) →
  (∀ i, e ≠ Handle id i) → handlers w' !! id = Some (Serving c).
Proof.
  intros Hok Hs Hh Hne. pose proof (ck_ids _ _ _ _ (wk_chans _ _ Hok) _ _ Hh) as Hid.
  apply server_step_inv in Hs. destruct e as [| | |id1 f|id1 i| |k d| |]; simpl in Hs.
  - destruct Hs as (_ & _ & ->). simpl. by rewrite lookup_insert_ne by lia.
  - by destruct Hs as (_ & _ & ->).
  - by destruct Hs as (_ & _ & ->).
  - destruct Hs as [Hh1 ->]. assert (id1 ≠ id) by congruence.
    destruct f; simpl; [by rewrite lookup_delete_ne|by rewrite lookup_insert_ne].
  - destruct (handle_conn b _ _ _ _ Hs) as (_ & _ & _ & _ & _ & Hj & _).
    rewrite Hj; [done|]. intros ->. by destruct (Hne i).
  - by destruct Hs as (_ & [[_ ->]|(p & q & _ & ->)]).
  - by destruct Hs as (p & _ & ->).
  - by destruct Hs as [_ ->].
  - by destruct Hs as (_ & _ & ->).
Qed.
End shutdown.

(** ** Properties *)

(** C9. Shutdown completes.  From every reachable state, whatever the handlers and the consumer are
    doing, the server can come to its end: dropping the handle ends the accept loop and the
    receiver, and then it is enough that the peers close their connections and that the consumer
    lets go of its batches.  At the end no task is left, the gauge is 0, and every batch that was
    ever put in the queue was disposed of, exactly once. *)
Theorem shutdown_completes `{Zlib} {TlsAcceptor} (b : ServerBuilder TlsAcceptor) t w :
  Task.exec (server_step b) world_start t w →
  ∃ t' w', Task.exec (server_step b) world_start (t ++ t') w' ∧ Forall winding_down t'.*2 ∧
    accepting w' = false ∧ handlers w' = ∅ ∧ active_connections w' = 0 ∧
    enqueued (t ++ t') ≡ₚ disposed (t ++ t').
Proof.
  intros Hx. destruct (release b w (exec_world_ok b t w Hx)) as (w1 & Hw1 & Hrl1 & _).
  destruct (winds_exec b _ _ _ Hx Hw1) as (t1 & Hx1 & Ht1).
  destruct (end_all b _ _ Hx1 Hrl1) as (w2 & Hw2 & Hrl2 & Hh2).
  destruct (winds_exec b _ _ _ Hx1 Hw2) as (t2 & Hx2 & Ht2). rewrite <- app_assoc in Hx2.
  exists (t1 ++ t2), w2. split; [done|]. split; [rewrite fmap_app; by apply Forall_app|].
  split; [apply Hrl2|]. split; [done|]. split.
  - unfold active_connections. rewrite (wk_active b _ (exec_world_ok b _ _ Hx2)).
    unfold live_handlers. by rewrite Hh2.
  - rewrite (exec_conserves b _ _ Hx2), (rl_queue _ Hrl2), (rl_held _ Hrl2). by rewrite app_nil_r.
Qed.

(** After the receiver is dropped, no connection hands a batch over any more, on any continuation:
    the handler of a complete batch ends without an answer, having given its batch up (so that
    the client is not told that it arrived). *)
Theorem receiver_gone `{Zlib} {TlsAcceptor} (b : ServerBuilder TlsAcceptor) w t w' id batch rx n :
  rx_alive w = false → Task.exec (server_step b) w t w' →
  enqueued t = [] ∧ rx_alive w' = false ∧
  (handlers w' !! id = Some (Serving (Conn (AwaitDispatch batch rx) n)) →
   ∀ i w'', server_step b w' (Handle id i) = Some w'' → handlers w'' !! id = None).
Proof.
  intros Hrx Hx.
  assert (Hinv : enqueued t = [] ∧ rx_alive w' = false).
  { induction Hx as [w|w e w1 t w' Hs _ IH]; [done|].
    destruct (step_receiver b w e w1 Hrx Hs) as [Hrx1 He]. destruct (IH Hrx1) as [Hen Hrx'].
    split; [|done]. change (enqueued_by (w, e) ++ enqueued t = []). by rewrite He, Hen. }
  destruct Hinv as [Hen Hrx']. split; [done|]. split; [done|]. intros Hh i w'' Hs. simpl in Hs.
  unfold handle, resume_handler in Hs. rewrite Hh in Hs. cbn in Hs.
  destruct i as [|[]| | |]; try done; cbn in Hs; rewrite Hrx' in Hs; [done|].
  injection Hs as <-. simpl. apply lookup_delete_eq.
Qed.

(** C34. A handler that reads stays.  As long as nothing comes from its own peer, a handler that waits
    for a frame is left where it is by whatever the rest of the server does, dropping the handle
    included, and the gauge counts it; and once something comes, it can only be the result of its
    read. *)
Theorem reading_handler_stays `{Zlib} {TlsAcceptor} (b : ServerBuilder TlsAcceptor) t0 w t w' id c :
  Task.exec (server_step b) world_start t0 w → handlers w !! id = Some (Serving c) →
  request_of (config b) c = ReqNext → Task.exec (server_step b) w t w' →
  (∀ item, Handle id (InNext item) ∉ t.*2) →
  handlers w' !! id = Some (Serving c) ∧ 0 < live_handlers w'.
Proof.
  intros Hx0 Hh Hreq Hx Hno.
  assert (Hstay : handlers w' !! id = Some (Serving c)).
  { revert t0 Hx0 Hh Hno. induction Hx as [w|w e w1 t w' Hs _ IH]; intros t0 Hx0 Hh Hno; [done|].
    apply (IH (t0 ++ [(w, e)])); [by eapply exec_snoc| |intros item Hin; apply (Hno item); by right].
    destruct (own_or_other id e) as [[i ->]|Hne].
    - destruct (handle_conn b _ _ _ _ Hs) as (c1 & c' & Hc1 & Hr & _).
      rewrite Hh in Hc1. injection Hc1 as <-. destruct i as [item| | | |];
        [by destruct (Hno item); left|..]; by destruct c as [[] ?].
    - eapply serving_stays; [by eapply exec_world_ok|done..]. }
  split; [done|]. unfold live_handlers.
  assert (size (handlers w') ≠ 0%nat); [|lia].
  intros Hz. apply map_size_empty_inv in Hz. by rewrite Hz in Hstay.
Qed.

(** ** Witnesses *)

(** Two connections, the first one waiting for an acknowledgement, the second one with a complete
    batch for which the queue has room. *)
Lemma shutdown_completes_witness :
  ∃ t' w', Task.exec (server_step sample_server) world_start
      (schedule_trace sample_schedule ++ t') w' ∧ Forall winding_down t'.*2 ∧
    accepting w' = false ∧ handlers w' = ∅ ∧ active_connections w' = 0 ∧
    enqueued (schedule_trace sample_schedule ++ t') ≡ₚ
      disposed (schedule_trace sample_schedule ++ t').
Proof.
  apply (shutdown_completes sample_server _ (schedule_end sample_schedule)).
  apply (sample_schedule_exec 12). lia.
Defined.

(** A batch is complete after the handle was dropped. *)
Definition late_batch : list event :=
  [Accept; Handle 0 (InNext (Some (Ok (Window 1)))); DropServer; SeeShutdown; DropReceiver;
   Handle 0 (InNext (Some (Ok (Json 1 [x61]))))].

Lemma receiver_gone_witness :
  let w := schedule_end (take 5 late_batch) in
  let e := Handle 0 (InNext (Some (Ok (Json 1 [x61])))) in
  enqueued [(w, e)] = [] ∧ rx_alive (schedule_end late_batch) = false ∧
  (handlers (schedule_end late_batch) !! 0%nat =
     Some (Serving (Conn (AwaitDispatch (MkBatch [[x61]] 1 (Some 0%nat)) 0) 1)) →
   ∀ i w'', server_step sample_server (schedule_end late_batch) (Handle 0 i) = Some w'' →
     handlers w'' !! 0%nat = None).
Proof.
  apply (receiver_gone sample_server (schedule_end (take 5 late_batch))).
  - vm_compute. reflexivity.
  - eapply exec_cons; [vm_compute; reflexivity|apply exec_nil].
Defined.

(** The first connection is idle while the handle is dropped. *)
Lemma reading_handler_stays_witness :
  let l := [Accept; DropServer; SeeShutdown; DropReceiver] in
  handlers (schedule_end l) !! 0%nat = Some (Serving conn_start) ∧ 0 < live_handlers (schedule_end l).
Proof.
  apply (reading_handler_stays sample_server (schedule_trace [Accept]) (schedule_end [Accept])
    (zip [schedule_end [Accept]; schedule_end [Accept; DropServer];
          schedule_end [Accept; DropServer; SeeShutdown]] [DropServer; SeeShutdown; DropReceiver])).
  - apply schedule_exec. vm_compute. by eexists.
  - vm_compute. reflexivity.
  - reflexivity.
  - do 3 (eapply exec_cons; [vm_compute; reflexivity|]). apply exec_nil.
  - intros item. simpl. rewrite !elem_of_cons. intros [?|[?|[?|Hn]]]; try done.
    by apply elem_of_nil in Hn.
Defined.
