(* ===== verification/System.v ===== *)
(** * System: a client and a server together

    The guarantee the protocol exists for, from the two ends: what the client of Client.v writes
    makes the connection of Connection.v deliver its batches and nothing else, and a [send] that
    returned [Ok] implies that its batch was delivered, in the server of Server.v among other
    connections too.  The ends are linked by the frames only: the server has received a prefix of
    the frames the client fed, the client a prefix of the frames the server wrote (those of a
    [framed.send] that failed included, since its bytes may have been written), as two streams
    in order give it ([Codec.framed_transfer]), whatever is still under way or was cut off. *)

From stdpp Require Import gmap.
From S2P Require Import Prelude Errors Zlib Frame Codec Task Batch Connection Client Server.

(** A batch the server accepts: not empty, a [u32] of events, each within its limit. *)
Record batch_fits (max : Z) (d : list bytes) : Prop := {
  bf_len : 0 < len d < 2 ^ 32;
  bf_size : Forall (λ x, len x <= max ∧ len x < 2 ^ 32) d;
}.

(** The frames a run of the connection received. *)
Definition frame_in (x : conn * input) : list Frame :=
  match x.2 with
  | InNext (Some (Ok f)) => [f]
  | _ => []
  end.

Definition frames_in (t : list (conn * input)) : list Frame := t ≫= frame_in.

(** The acknowledgements among frames that are not keepalives. *)
Definition real_ack (f : Frame) : list Z :=
  match f with
  | Ack s => if s =? 0 then [] else [s]
  | _ => []
  end.

Definition real_acks (fs : list Frame) : list Z := fs ≫= real_ack.

(** What the consumer sees of a batch. *)
Definition content (b : Batch) : list bytes * Z := (events b, last_seq b).

(** The batch of these events. *)
Definition numbered (d : list bytes) : list bytes * Z := (d, len d).

Section server_side.
Context `{Zlib}.
Context (cfg : ConnectionConfig) (level : Z).

Abbreviation max := (cfg_max_frame_size cfg).

(** The frames of several batches. *)
Definition plans (ds : list (list bytes)) : list Frame := mjoin (plan level <$> ds).

(** Where a connection is in a session that sends the batches [done], delivered, then [todo]:
    [rest] are the frames it has not received yet, and [acked] the acknowledgements it has
    written. *)
Definition at_state (done todo : list (list bytes)) (rest : list Frame) (acked : list Z)
    (st : conn_state) : Prop :=
  match st with
  | AwaitWindow => rest = plans todo ∧ acked = len <$> done
  | AwaitFrame n w =>
      ∃ d todo' l1 l2, todo = d :: todo' ∧ n = len d ∧ number 1 d = l1 ++ l2 ∧ l2 ≠ [] ∧
        w = after l1 window_start ∧ (0 < level → l1 = []) ∧
        rest = body level l2 ++ plans todo' ∧ acked = len <$> done
  | AwaitDispatch b _ =>
      ∃ d todo', todo = d :: todo' ∧ content b = numbered d ∧
        rest = plans todo' ∧ acked = len <$> done
  | AwaitAck a _ | AwaitKeepalive a _ | AwaitAckSent a =>
      ∃ done' d, done = done' ++ [d] ∧ a = len d ∧ rest = plans todo ∧ acked = len <$> done'
  | Finished _ => (∃ k, acked = len <$> take k done) ∧ (length rest <= length (plans todo))%nat
  end.

Inductive in_session (ds : list (list bytes)) (t : list (conn * input)) (c : conn) : Prop :=
| InSession done todo rest :
    ds = done ++ todo → plans ds = frames_in t ++ rest →
    content <$> dispatched cfg t = numbered <$> done →
    at_state done todo rest (real_acks (written cfg t)) (c_state c) →
    in_session ds t c.

Lemma plans_cons d ds : plans (d :: ds) = Window (len d) :: body level (number 1 d) ++ plans ds.
Proof. done. Qed.

Lemma plans_app ds ds' : plans (ds ++ ds') = plans ds ++ plans ds'.
Proof. unfold plans. by rewrite fmap_app, join_app. Qed.

(** The next frame of a body carries its next items. *)
Lemma body_head l r f rest :
  l ≠ [] → Forall (item_ok max) l → body level l ++ r = f :: rest →
  ∃ l1 l2, l = l1 ++ l2 ∧ l1 ≠ [] ∧ carries max f l1 ∧ (0 < level → l2 = []) ∧
    rest = if bool_decide (l2 = []) then r else body level l2 ++ r.
Proof.
  intros Hne Hl. unfold body. destruct (Z.ltb_spec 0 level) as [Hlv|Hlv].
  - intros [= <- <-]. exists l, []. rewrite app_nil_r. split; [done|]. split; [done|].
    split; [by constructor|]. by rewrite bool_decide_true.
  - destruct l as [|[s d] l]; [done|]. intros [= <- <-]. exists [(s, d)], l. split; [done|].
    split; [done|]. split; [constructor|]. split; [lia|]. case_bool_decide; [by subst|done].
Qed.

Lemma fits_items d : usize max → batch_fits max d → Forall (item_ok max) (number 1 d).
Proof.
  intros Hmax [Hlen Hsize].
  assert (Hgen : ∀ s, 0 <= s → s + len d <= 2 ^ 32 → Forall (item_ok max) (number s d)).
  { clear Hlen. induction Hsize as [|x d [Hx1 Hx2] _ IH]; intros s Hs Hs'; [constructor|].
    rewrite len_cons in Hs'. pose proof (len_nonneg d). pose proof (len_nonneg x).
    constructor; [|apply IH; lia]. unfold item_ok, json_of. simpl. unfold u32. lia. }
  apply Hgen; lia.
Qed.

(** A frame in a window of the session: the items it carries are taken, and the window is complete
    when none is left. *)
Lemma on_frame_session d l1 l2 l3 f :
  usize max → 0 < len d < 2 ^ 32 → number 1 d = l1 ++ l2 ++ l3 → l2 ≠ [] → carries max f l2 →
  on_frame cfg (len d) f (after l1 window_start) = (Ok tt, after (l1 ++ l2) window_start) ∧
  ∀ chans, window_loop (len d) (after (l1 ++ l2) window_start) chans =
    if bool_decide (l3 = [])
    then Conn (AwaitDispatch (MkBatch d (len d) (Some chans)) chans) (S chans)
    else Conn (AwaitFrame (len d) (after (l1 ++ l2) window_start)) chans.
Proof.
  intros Hmax Hd Hn Hne Hf. pose proof (len_number 1 d) as Hlen.
  rewrite Hn, !len_app in Hlen. apply len_pos in Hne.
  pose proof (len_nonneg l1). pose proof (len_nonneg l3).
  pose proof (number_increasing 0 1 d ltac:(lia)) as Hinc.
  rewrite Hn in Hinc. apply increasing_app in Hinc as [_ Hinc].
  apply increasing_app in Hinc as [Hinc _]. split.
  - rewrite (on_frame_carries cfg Hmax _ f l2) by (try done; unfold u32; simpl; lia).
    rewrite take_ge by (simpl; unfold len in *; lia).
    rewrite accept_items_ok by (simpl; (lia || done)). by rewrite after_app.
  - intros chans. unfold window_loop. cbn [w_received after window_start].
    rewrite len_app, Z.add_0_l. case_bool_decide as Hl3.
    + subst l3. rewrite (proj2 (Z.ltb_ge _ _)) by (rewrite len_nil in *; lia).
      rewrite app_nil_r in Hn. unfold after, window_start. cbn [w_events w_last_seq].
      rewrite <- Hn, number_datas, number_last, (proj2 (Z.eqb_neq _ _)) by lia.
      unfold batch_new. do 3 f_equal. lia.
    + apply len_pos in Hl3. by rewrite (proj2 (Z.ltb_lt _ _)) by lia.
Qed.

(** A frame arrives. *)
Lemma session_frame done todo rest f acked c c' :
  usize max → Forall (batch_fits max) todo →
  at_state done todo (f :: rest) acked (c_state c) →
  resume cfg c (InNext (Some (Ok f))) = Some c' →
  live c' ∧ at_state done todo rest acked (c_state c').
Proof.
  intros Hmax Hfits. destruct c as [[|n w|b rx|a rx|a rx|a|r] chans]; try done;
    unfold resume; cbn [c_state c_chans at_state].
  - intros [Hrest ->]. destruct todo as [|d todo]; [done|]. rewrite plans_cons in Hrest.
    injection Hrest as -> ->. apply Forall_cons in Hfits as [[Hd _] _]. intros [= <-].
    unfold window_loop. rewrite (proj2 (Z.ltb_lt _ _)) by (simpl; lia). split; [done|].
    exists d, todo, [], (number 1 d). rewrite after_nil. split; [done|]. split; [done|].
    split; [done|]. split; [|done]. intros Hn. pose proof (len_number 1 d) as Hl.
    rewrite Hn, len_nil in Hl. lia.
  - intros (d & todo' & l1 & l2 & -> & -> & Hn & Hne & -> & Hl1 & Hrest & ->).
    apply Forall_cons in Hfits as [Hd _]. pose proof (fits_items d Hmax Hd) as Hitems.
    rewrite Hn in Hitems. apply Forall_app in Hitems as [_ Hitems].
    destruct (body_head l2 _ _ _ Hne Hitems (eq_sym Hrest)) as (l3 & l4 & -> & Hl3 & Hf & Hl4 & ->).
    destruct (on_frame_session d l1 l3 l4 f Hmax (bf_len _ _ Hd) Hn Hl3 Hf) as [-> Hw].
    intros [= <-]. rewrite Hw. case_bool_decide as He; (split; [done|]); simpl.
    + exists d, todo'. done.
    + exists d, todo', (l1 ++ l3), l4. rewrite <- app_assoc. split; [done|]. split; [done|].
      split; [done|]. split; [done|]. split; [done|]. split; [|done].
      intros Hlv. by destruct He; apply Hl4.
Qed.

Lemma real_acks_app fs fs' : real_acks (fs ++ fs') = real_acks fs ++ real_acks fs'.
Proof. apply bind_app. Qed.

Lemma length_body l1 l2 : (length (body level l2) <= length (body level (l1 ++ l2)))%nat.
Proof. unfold body. destruct (0 <? level); [done|]. rewrite !length_fmap, length_app. lia. Qed.

(** What is delivered was received. *)
Lemma at_state_rest done todo rest acked st :
  at_state done todo rest acked st → (length rest <= length (plans todo))%nat.
Proof.
  destruct st; simpl; intros Hst; split_hyps; subst; try done; try (by rewrite plans_cons; simpl;
    rewrite length_app; lia).
  rewrite plans_cons. simpl. rewrite !length_app.
  match goal with E : number 1 _ = _ |- _ => rewrite E end.
  pose proof (length_body x1 x2). lia.
Qed.

(** What has been acknowledged is a part of what was delivered. *)
Lemma acked_prefix done todo rest acked st :
  at_state done todo rest acked st → ∃ k, acked = len <$> take k done.
Proof.
  assert (Hall : acked = len <$> done → ∃ k, acked = len <$> take k done).
  { intros ->. exists (length done). by rewrite take_ge. }
  destruct st; simpl; intros Hst; split_hyps; eauto; subst; exists (length x);
    by rewrite take_app_length.
Qed.

(** When everything was acknowledged, the connection waits for a window and nothing is left. *)
Lemma all_acked done todo rest acked st :
  at_state done todo rest acked st → (∀ r, st ≠ Finished r) →
  (length (done ++ todo) <= length acked)%nat →
  st = AwaitWindow ∧ rest = [] ∧ length acked = length (done ++ todo).
Proof.
  rewrite length_app. intros Hst Hf Hle.
  destruct st; simpl in Hst; split_hyps; subst; rewrite ?length_app, ?length_fmap in *;
    simpl in Hle; try lia; [|by destruct (Hf r)].
  assert (todo = []) as -> by (apply length_zero_iff_nil; lia). split; [done|]. split; [done|].
  simpl. lia.
Qed.

(** Acknowledgements that answer no batch are keepalives. *)
Lemma keepalives fs :
  (∀ f, f ∈ fs → ∃ s, f = Ack s) → real_acks fs = [] → fs = Ack <$> replicate (length fs) 0.
Proof.
  induction fs as [|f fs IH]; [done|]. intros Hf Hn.
  destruct (Hf f ltac:(by left)) as [s ->]. unfold real_acks in Hn. simpl in Hn.
  destruct (Z.eqb_spec s 0) as [Hs|]; [|done]. rewrite Hs. simpl. f_equal. apply IH; [|exact Hn].
  intros f Hin. apply Hf. by right.
Qed.

Lemma acked_snoc (past : list (list bytes)) (d : list bytes) :
  0 < len d → (len <$> past) ++ real_acks [Ack (len d)] = len <$> past ++ [d].
Proof. intros Hd. rewrite fmap_app. unfold real_acks. simpl. by rewrite (proj2 (Z.eqb_neq _ _)) by lia. Qed.

(** Anything else happens. *)
Lemma session_quiet done todo rest acked c i c' :
  Forall (batch_fits max) (done ++ todo) → at_state done todo rest acked (c_state c) →
  resume cfg c i = Some c' → honest (c, i) → frame_in (c, i) = [] →
  ∃ done' todo', done ++ todo = done' ++ todo' ∧
    numbered <$> done' = (numbered <$> done) ++ (content <$> dispatched_by cfg (c, i)) ∧
    at_state done' todo' rest (acked ++ real_acks (written_by cfg (c, i))) (c_state c').
Proof.
  intros Hfits Hst. destruct (acked_prefix _ _ _ _ _ Hst) as [k Hk].
  pose proof (at_state_rest _ _ _ _ _ Hst) as Hlen.
  assert (Hstay : dispatched_by cfg (c, i) = [] → real_acks (written_by cfg (c, i)) = [] →
    at_state done todo rest acked (c_state c') →
    ∃ done' todo', done ++ todo = done' ++ todo' ∧
      numbered <$> done' = (numbered <$> done) ++ (content <$> dispatched_by cfg (c, i)) ∧
      at_state done' todo' rest (acked ++ real_acks (written_by cfg (c, i))) (c_state c')).
  { intros -> -> Hst'. exists done, todo. by rewrite !app_nil_r. }
  assert (Hlast : ∀ a, at_state done todo rest acked (AwaitAckSent a) →
    rest = plans todo ∧ acked ++ real_acks [Ack a] = len <$> done).
  { intros a (past & d & -> & -> & Hrest & ->). split; [done|]. apply acked_snoc.
    apply Forall_app in Hfits as [[_ Hd]%Forall_app _]. by apply Forall_cons in Hd as [[[Hd _] _] _]. }
  destruct c as [[|n w|b rx|a rx|a rx|a|r] chans]; destruct i as [[[f|e|p]|]|[]|[v|]| |[u|e|p]];
    unfold resume, honest; cbn [c_state c_chans fst snd] in *; try done;
    try (intros [= <-] _ _; apply Hstay; [done|done|]; simpl; by eauto).
  - intros [= <-] _ _. destruct Hst as (d & todo' & -> & Hb & Hrest & Hacked).
    exists (done ++ [d]), todo'. split; [by rewrite <- app_assoc|].
    split; [rewrite fmap_app; simpl; by rewrite Hb|]. simpl. rewrite app_nil_r.
    exists done, d. injection Hb as _ Hb. by rewrite Hb.
  - intros [= <-] -> _. by apply Hstay.
  - destruct (cfg_keepalive cfg); [|done]. intros [= <-] _ _. by apply Hstay.
  - intros [= <-] _ _. exists done, todo. split; [done|]. split; [by rewrite app_nil_r|].
    destruct (Hlast _ Hst) as [Hrest Hacked]. by split.
  - intros [= <-] _ _. exists done, todo. split; [done|]. split; [by rewrite app_nil_r|].
    split; [exists (length done)|done]. rewrite take_ge by done. by destruct (Hlast _ Hst).
  - intros [= <-] _ _. exists done, todo. split; [done|]. split; [by rewrite app_nil_r|].
    split; [exists (length done)|done]. rewrite take_ge by done. by destruct (Hlast _ Hst).
Qed.

Lemma exec_session ds t c :
  usize max → Forall (batch_fits max) ds → Task.exec (resume cfg) conn_start t c →
  Forall honest t → frames_in t `prefix_of` plans ds → in_session ds t c.
Proof.
  intros Hmax Hfits Hx. revert t c Hx.
  refine (exec_ind_last (resume cfg) conn_start _ _ _).
  { intros _ _. by apply (InSession _ _ _ [] ds (plans ds)). }
  intros t c i c' _ IH Hr [Hh Hhi]%Forall_app Hp. apply Forall_cons in Hhi as [Hhi _].
  unfold frames_in in Hp. rewrite bind_snoc in Hp.
  destruct IH as [past todo rest -> Hf Hd Hst]; [done|by eapply prefix_app_l|].
  destruct Hp as [rest' Hp]. fold (frames_in t) in Hp. rewrite Hf, <- app_assoc in Hp.
  apply app_inv_head in Hp.
  destruct (frame_in (c, i)) as [|f fs] eqn:Hin.
  - destruct (session_quiet _ _ _ _ _ _ _ Hfits Hst Hr Hhi Hin)
      as (past' & todo' & Hsplit & Hd' & Hst').
    rewrite Hsplit in *. apply (InSession _ _ _ past' todo' rest); [done|..].
    + rewrite Hf. unfold frames_in. by rewrite bind_snoc, Hin, app_nil_r.
    + unfold dispatched in *. by rewrite bind_snoc, fmap_app, Hd, Hd'.
    + unfold written in *. by rewrite bind_snoc, real_acks_app.
  - assert (Hi : i = InNext (Some (Ok f)) ∧ fs = []).
    { destruct i as [[[]|]| | | |]; try done. by injection Hin as -> <-. }
    destruct Hi as [-> ->]. subst rest. apply Forall_app in Hfits as [_ Hfits].
    pose proof (session_frame _ _ _ _ _ _ _ Hmax Hfits Hst Hr) as [_ Hst'].
    apply (InSession _ _ _ past todo rest'); [done|..].
    + rewrite Hf. unfold frames_in. by rewrite bind_snoc, Hin, <- app_assoc.
    + unfold dispatched in *. rewrite bind_snoc. unfold dispatched_by at 2.
      destruct (c_state c) eqn:Hc; unfold request_of; simpl; rewrite Hc, app_nil_r; done.
    + unfold written in *. rewrite bind_snoc. unfold written_by at 2.
      destruct (c_state c) eqn:Hc; unfold request_of; simpl; rewrite Hc, app_nil_r; done.
Qed.

(** There are at most as many acknowledgements as batches. *)
Lemma exec_acks_le t c :
  Task.exec (resume cfg) conn_start t c →
  (length (real_acks (written cfg t)) +
     match c_state c with
     | AwaitAck _ _ | AwaitKeepalive _ _ | AwaitAckSent _ => 1
     | _ => 0
     end <= length (dispatched cfg t))%nat.
Proof.
  revert t c. refine (exec_ind_last (resume cfg) conn_start _ _ _); [simpl; lia|].
  intros t c i c' _ IH Hr. unfold written, dispatched in *. rewrite !bind_snoc, real_acks_app, !length_app.
  destruct c as [[|n w|b rx|a rx|a rx|a|r] chans]; destruct i as [[[f|e|p]|]|[]|[v|]| |[u|e|p]];
    unfold resume in Hr; cbn [c_state c_chans] in *; try done;
    try (injection Hr as <-; simpl in *; lia);
    try (injection Hr as <-; unfold real_acks, real_ack in *; simpl in *; case_match; simpl in *; lia).
  - destruct f as [m| | |]; injection Hr as <-; simpl in *; [unfold window_loop|lia..].
    destruct (_ <? m); simpl; lia.
  - destruct (on_frame cfg n f w) as [[?|?|?] w']; injection Hr as <-; simpl in *; [|lia..].
    unfold window_loop. destruct (_ <? n); simpl; lia.
  - destruct (cfg_keepalive cfg); [|done]. injection Hr as <-. simpl in *. lia.
Qed.

(** The channels of a connection are numbered in the order of its batches. *)
Lemma exec_channels t c :
  Task.exec (resume cfg) conn_start t c →
  let n := length (dispatched cfg t) in
  ack_tx <$> dispatched cfg t = Some <$> seq 0 n ∧
  match c_state c with
  | AwaitDispatch b rx => ack_tx b = Some rx ∧ rx = n ∧ c_chans c = S n
  | AwaitAck _ rx | AwaitKeepalive _ rx => S rx = n ∧ c_chans c = n
  | Finished _ => True
  | _ => c_chans c = n
  end.
Proof.
  revert t c. apply (exec_ind_last (resume cfg) conn_start (λ t c, let n := length (dispatched cfg t)
    in ack_tx <$> dispatched cfg t = Some <$> seq 0 n ∧
    match c_state c with
    | AwaitDispatch b rx => ack_tx b = Some rx ∧ rx = n ∧ c_chans c = S n
    | AwaitAck _ rx | AwaitKeepalive _ rx => S rx = n ∧ c_chans c = n
    | Finished _ => True
    | _ => c_chans c = n
    end)).
  { done. }
  cbv zeta. intros t c i c' _ [IH Hst] Hr. unfold dispatched in *. rewrite !bind_snoc.
  set (bs := t ≫= dispatched_by cfg) in *. clearbody bs.
  assert (Hloop : ∀ n w, match c_state (window_loop n w (length bs)) with
    | AwaitFrame _ _ => c_chans (window_loop n w (length bs)) = length bs
    | AwaitDispatch b rx => ack_tx b = Some rx ∧ rx = length bs ∧
        c_chans (window_loop n w (length bs)) = S (length bs)
    | _ => False
    end) by (intros n w; unfold window_loop; by destruct (_ <? n)).
  destruct c as [[|n w|b rx|a rx|a rx|a|r] chans]; destruct i as [[[f|e|p]|]|[]|[v|]| |[u|e|p]];
    unfold resume in Hr; cbn [c_state c_chans] in *; try done;
    try (unfold dispatched_by; cbn [fst snd]; rewrite app_nil_r; injection Hr as <-; cbn; tauto).
  - unfold dispatched_by. cbn [fst snd]. rewrite app_nil_r. split; [done|]. subst chans.
    destruct f; injection Hr as <-; try done. specialize (Hloop n window_start).
    by destruct (c_state (window_loop n window_start (length bs))).
  - unfold dispatched_by. cbn [fst snd]. rewrite app_nil_r. split; [done|]. subst chans.
    revert Hr. destruct (on_frame cfg n f w) as [[?|?|?] w']; intros [= <-]; try done.
    specialize (Hloop n w'). by destruct (c_state (window_loop n w' (length bs))).
  - unfold dispatched_by. cbn. rewrite length_app, Nat.add_1_r, fmap_app, IH, seq_S, fmap_app.
    injection Hr as <-. destruct Hst as (Htx & -> & ->). cbn. by rewrite Htx.
  - unfold dispatched_by. cbn. rewrite app_nil_r. revert Hr.
    destruct (cfg_keepalive cfg); [|done]. by intros [= <-].
Qed.
End server_side.

(** ** The client's side of a session

    Successive calls of [send] on one connection that all returned [Ok]: the batches, the frames
    fed and the frames received. *)
Inductive sends_ok `{Zlib} {T} (to_vec : T → string + bytes) (client : Client) :
  list (list bytes) → list Frame → list Frame → Prop :=
| sends_none : sends_ok to_vec client [] [] []
| sends_one evs datas t r ds f g :
    sendable to_vec (compression_level client) evs datas →
    Task.exec (send_resume client) (send_start to_vec evs) t (Returned (Ok r)) →
    sends_ok to_vec client ds f g →
    sends_ok to_vec client (datas :: ds) (fed client t ++ f) (got t ++ g).

Section client_side.
Context `{Zlib} {T : Type} (to_vec : T → string + bytes) (client : Client).

Lemma sends_fed ds f g : sends_ok to_vec client ds f g → f = plans (compression_level client) ds.
Proof.
  induction 1 as [|evs datas t r ds f g Hs Hx _ ->]; [done|].
  rewrite (send_start_ok _ _ _ _ Hs) in Hx.
  destruct (exec_feeds _ _ _ _ _ _ _ _ Hs (to_feed_start client datas) Hx) as (fs & Hp & Hst).
  destruct Hst as [_ ->]. by rewrite <- (app_nil_r (fed client t)), <- Hp.
Qed.

Lemma sends_snoc ds f g evs datas t r :
  sends_ok to_vec client ds f g → sendable to_vec (compression_level client) evs datas →
  Task.exec (send_resume client) (send_start to_vec evs) t (Returned (Ok r)) →
  sends_ok to_vec client (ds ++ [datas]) (f ++ fed client t) (g ++ got t).
Proof.
  intros Hds Hs Hx. induction Hds as [|evs' datas' t' r' ds f g Hs' Hx' _ IH].
  - simpl. rewrite <- (app_nil_r (fed client t)), <- (app_nil_r (got t)).
    by eapply sends_one; [..|constructor].
  - simpl. rewrite <- !app_assoc. by eapply sends_one.
Qed.

(** The acknowledgements received answer the batches one by one: what is below the size of the
    batch can only be a keepalive. *)
Lemma sends_acked ds f g more :
  sends_ok to_vec client ds f g → real_acks g `prefix_of` (len <$> ds) ++ more →
  real_acks g = len <$> ds.
Proof.
  induction 1 as [|evs datas t r ds f g Hs Hx Hrest IH]; [done|].
  rewrite (send_start_ok _ _ _ _ Hs) in Hx. eapply exec_acked in Hx; [|done].
  destruct Hx as (_ & ks & s & -> & Hks & Hle). pose proof (sd_len _ _ _ _ Hs) as [Hpos _].
  rewrite !real_acks_app. intros Hp.
  assert (Hnone : real_acks (Ack <$> ks) = []).
  { induction Hks as [|k ks Hk _ IHk]; [done|]. unfold real_acks in *. simpl in *.
    destruct (k =? 0); [by apply IHk|]. apply prefix_cons_inv_1 in Hp. lia. }
  rewrite Hnone in *. revert Hp. unfold real_acks at 1 3. simpl.
  rewrite (proj2 (Z.eqb_neq s 0)) by lia. simpl. intros Hp.
  pose proof (prefix_cons_inv_1 _ _ _ _ Hp) as ->. f_equal. apply IH.
  by apply prefix_cons_inv_2 in Hp.
Qed.
End client_side.

Lemma real_acks_prefix fs fs' : fs `prefix_of` fs' → real_acks fs `prefix_of` real_acks fs'.
Proof. intros [x ->]. rewrite real_acks_app. by eexists. Qed.

(** ** Both sides *)

Section both_sides.
Context `{Zlib} {T : Type} (to_vec : T → string + bytes) (client : Client).
Context (cfg : ConnectionConfig) (Hmax : usize (cfg_max_frame_size cfg)).

Abbreviation level := (compression_level client).

(** The run of a connection that has received a part of the frames of a session, and whose
    acknowledgements made [send] return for the batches [ds]: it has delivered these batches
    first, and acknowledged as many. *)
Lemma session_delivers ds more f g t c :
  sends_ok to_vec client ds f g →
  Forall (batch_fits (cfg_max_frame_size cfg)) (ds ++ more) →
  Task.exec (resume cfg) conn_start t c → Forall honest t →
  frames_in t `prefix_of` f ++ plans level more → g `prefix_of` written cfg t →
  ∃ later todo rest acked, more = later ++ todo ∧
    content <$> dispatched cfg t = numbered <$> ds ++ later ∧
    acked = real_acks (written cfg t) ∧
    at_state level (ds ++ later) todo rest acked (c_state c) ∧ (length ds <= length acked)%nat.
Proof.
  intros Hsends Hfits Hx Hh Hin Hout. rewrite (sends_fed _ _ _ _ _ Hsends), <- plans_app in Hin.
  destruct (exec_session cfg level _ _ _ Hmax Hfits Hx Hh Hin) as [past todo rest Hsplit Hf Hd Hst].
  destruct (acked_prefix _ _ _ _ _ _ Hst) as [k Hk].
  apply real_acks_prefix in Hout.
  assert (Hpre : real_acks g `prefix_of` (len <$> ds) ++ (len <$> more)).
  { etrans; [exact Hout|]. rewrite Hk, <- fmap_app, Hsplit.
    exists (len <$> drop k past ++ todo). rewrite <- fmap_app, app_assoc. by rewrite take_drop. }
  apply (sends_acked _ _ _ _ _ _ Hsends), (f_equal length) in Hpre. rewrite length_fmap in Hpre.
  apply prefix_length in Hout. rewrite Hpre in Hout.
  assert (Hle : (length ds <= length past)%nat)
    by (rewrite Hk, length_fmap, length_take in Hout; lia).
  apply app_eq_inv in Hsplit as [(l & Hl & Hm)|(l & -> & ->)].
  - assert (l = []) as ->.
    { apply (f_equal length) in Hl. rewrite length_app in Hl. destruct l; simpl in *; [done|lia]. }
    rewrite app_nil_r in Hl. subst past. exists [], todo, rest, (real_acks (written cfg t)).
    by rewrite !app_nil_r.
  - by exists l, todo, rest, (real_acks (written cfg t)).
Qed.
End both_sides.

(** ** A conversation that goes well *)

Section conversation.
Context `{Zlib} (cfg : ConnectionConfig) (Hmax : usize (cfg_max_frame_size cfg)).

Abbreviation run := (Task.run (resume cfg)).

Lemma resume_frame n w f w' k :
  on_frame cfg n f w = (Ok tt, w') →
  resume cfg (Conn (AwaitFrame n w) k) (InNext (Some (Ok f))) = Some (window_loop n w' k).
Proof. intros Hf. unfold resume. cbn [c_state]. by rewrite Hf. Qed.

(** What the server receives for a batch leads to the batch. *)
Lemma run_body level d l1 l2 k :
  batch_fits (cfg_max_frame_size cfg) d → number 1 d = l1 ++ l2 → l2 ≠ [] →
  run (Conn (AwaitFrame (len d) (after l1 window_start)) k) (arrive (body level l2)) =
    Some (Conn (AwaitDispatch (MkBatch d (len d) (Some k)) k) (S k)).
Proof.
  intros Hd Hn Hne. pose proof (fits_items cfg d Hmax Hd) as Hitems. rewrite Hn in Hitems.
  apply Forall_app in Hitems as [_ Hitems]. unfold body. destruct (0 <? level).
  - rewrite <- (app_nil_r l2) in Hn.
    destruct (on_frame_session cfg d l1 l2 [] _ Hmax (bf_len _ _ Hd) Hn Hne
      (carries_compressed _ _ Hitems)) as [Hf Hw].
    unfold arrive. cbn [fmap list_fmap Task.run]. rewrite (resume_frame _ _ _ _ k Hf).
    cbn [mbind option_bind]. by rewrite Hw.
  - revert l1 Hn. induction Hitems as [|[s x] l2 Hx Hl2 IH]; intros l1 Hn; [done|]. clear Hne.
    destruct (on_frame_session cfg d l1 [(s, x)] l2 (json_of (s, x)) Hmax (bf_len _ _ Hd) Hn ltac:(done)
      (carries_json _ s x)) as [Hf Hw].
    unfold arrive. cbn [fmap list_fmap Task.run]. rewrite (resume_frame _ _ _ _ k Hf).
    cbn [mbind option_bind]. rewrite Hw. case_bool_decide as He; [by subst l2|].
    apply IH; [done|]. by rewrite <- app_assoc.
Qed.

Lemma run_plan_server level d k :
  batch_fits (cfg_max_frame_size cfg) d →
  run (Conn AwaitWindow k) (arrive (plan level d)) =
    Some (Conn (AwaitDispatch (MkBatch d (len d) (Some k)) k) (S k)).
Proof.
  intros Hd. unfold plan, arrive. cbn [fmap list_fmap Task.run].
  change (resume cfg _ _) with (Some (window_loop (len d) window_start k)).
  cbn [mbind option_bind]. unfold window_loop.
  rewrite (proj2 (Z.ltb_lt _ _)) by (simpl; destruct Hd; lia).
  rewrite <- (after_nil window_start). apply run_body; [done|done|].
  intros Hn. pose proof (len_number 1 d) as Hl. rewrite Hn, len_nil in Hl. destruct Hd. lia.
Qed.

(** While frames arrive, nothing is handed over or sent. *)
Lemma arrive_quiet t fs :
  t.*2 = arrive fs → frames_in t = fs ∧ dispatched cfg t = [] ∧ sent cfg t = [].
Proof.
  revert fs. induction t as [|[c i] t IH]; intros [|f fs]; try done. intros [= -> Ht].
  destruct (IH fs Ht) as (Hf & Hd & Hs). set (i := InNext (Some (Ok f))).
  change (frames_in ((c, i) :: t)) with (f :: frames_in t).
  change (dispatched cfg ((c, i) :: t)) with (dispatched_by cfg (c, i) ++ dispatched cfg t).
  change (sent cfg ((c, i) :: t)) with (sent_by cfg (c, i) ++ sent cfg t).
  rewrite Hf, Hd, Hs. unfold dispatched_by, sent_by. cbn [fst snd].
  by destruct (request_of cfg c).
Qed.

(** [m] keepalives, then the acknowledgement of the consumer. *)
Lemma run_answering m a rx n v :
  (m = 0%nat ∨ cfg_keepalive cfg ≠ None) →
  ∃ t, Task.exec (resume cfg) (Conn (AwaitAck a rx) n) t (Conn AwaitWindow n) ∧
    frames_in t = [] ∧ dispatched cfg t = [] ∧ sent cfg t = replicate m (Ack 0) ++ [Ack v].
Proof.
  induction m as [|m IH]; intros Hm.
  - eexists. split.
    { eapply exec_cons with (i := InAck (Some v)); [reflexivity|].
      eapply exec_cons with (i := InSent (Ok tt)); [reflexivity|]. apply exec_nil. }
    done.
  - destruct Hm as [?|Hm]; [done|]. destruct IH as (t & Hx & Hf & Hd & Hs); [by right|].
    destruct (cfg_keepalive cfg) as [interval|] eqn:Hk; [|done].
    eexists. split.
    { eapply exec_cons with (i := InElapsed); [unfold resume; cbn; by rewrite Hk|].
      eapply exec_cons with (i := InSent (Ok tt)); [reflexivity|]. exact Hx. }
    split; [exact Hf|]. split; [exact Hd|exact (f_equal (cons (Ack 0)) Hs)].
Qed.
End conversation.

(** Acknowledged means delivered.  If a client made successive [send]s on a connection that
    all returned [Ok], then the server has delivered exactly these batches, in this order, with the
    events as they were serialized, possibly followed by batches sent later; whatever the
    compression, the keepalives, and wherever the two streams stopped. *)
Theorem acknowledged_means_delivered `{Zlib} {T} (to_vec : T → string + bytes) client cfg
    ds more f g t c :
  usize (cfg_max_frame_size cfg) →
  sends_ok to_vec client ds f g →
  Forall (batch_fits (cfg_max_frame_size cfg)) (ds ++ more) →
  Task.exec (resume cfg) conn_start t c → Forall honest t →
  frames_in t `prefix_of` f ++ plans (compression_level client) more →
  g `prefix_of` written cfg t →
  ∃ later, later `prefix_of` more ∧
    content <$> dispatched cfg t = numbered <$> ds ++ later.
Proof.
  intros Hmax Hsends Hfits Hx Hh Hin Hout.
  destruct (session_delivers to_vec client cfg Hmax _ _ _ _ _ _ Hsends Hfits Hx Hh Hin Hout)
    as (later & todo & _ & _ & -> & Hd & _). exists later. split; [by eexists|done].
Qed.

(** In the server, a batch of a live connection that was not disposed of is the last one the
    connection put in the queue, and the connection waits for its acknowledgement. *)
Lemma flight_is_last `{Zlib} {TlsAcceptor} (b : ServerBuilder TlsAcceptor) tw w id c p j :
  Task.exec (server_step b) world_start tw w → handlers w !! id = Some (Serving c) →
  filter (λ p : parcel, p.1 = id) (enqueued tw) !! j = Some p →
  p ∈ disposed tw ∨
  (S j = length (filter (λ p : parcel, p.1 = id) (enqueued tw)) ∧
   match c_state c with AwaitAck _ _ | AwaitKeepalive _ _ => True | _ => False end).
Proof.
  intros Hx Hh Hj. pose proof (wk_chans _ _ (exec_world_ok b tw w Hx)) as Hchans.
  pose proof (list_elem_of_lookup_2 _ _ _ Hj) as Hin. apply list_elem_of_filter in Hin as [Hid Hin].
  rewrite (exec_conserves b tw w Hx), elem_of_app in Hin. destruct Hin as [Hin|Hin]; [by left|right].
  pose proof (ck_waiting _ _ _ _ Hchans p (Serving c) Hin ltac:(by rewrite Hid)) as Hwait.
  destruct (exec_projects b tw w id Hx) as (c' & Hc & _ & Hd & Heq & _).
  specialize (Heq _ Hh). subst c'.
  destruct (exec_channels (config b) _ _ Hc) as [Htx Hst]. rewrite Hd in Htx, Hst.
  rewrite length_fmap in Htx, Hst. set (L := filter _ (enqueued tw)) in *.
  assert (Hch : ack_tx p.2 = Some j).
  { apply (f_equal (λ l, l !! j)) in Htx. rewrite !list_lookup_fmap, Hj in Htx. simpl in Htx.
    rewrite lookup_seq_lt in Htx by (by eapply lookup_lt_Some). by injection Htx. }
  unfold key_of in Hwait. rewrite Hch in Hwait. simpl in Hwait.
  destruct c as [[] n]; simpl in *; try done; injection Hwait as -> _; by destruct Hst.
Qed.

(** As many batches of a connection were disposed of as the connection has acknowledged, be it
    alive or not. *)
Lemma acked_disposed `{Zlib} {TlsAcceptor} (b : ServerBuilder TlsAcceptor) tw w id :
  Task.exec (server_step b) world_start tw w →
  Forall (λ p, p ∈ disposed tw)
    (take (length (real_acks (written (config b) (conn_trace id tw))))
       (filter (λ p : parcel, p.1 = id) (enqueued tw))).
Proof.
  revert tw w. refine (exec_ind_last (server_step b) world_start _ _ _); [constructor|].
  intros t w e w' Hx IH Hs. pose proof (exec_world_ok b t w Hx) as Hok.
  unfold disposed, enqueued, conn_trace in *. rewrite !bind_snoc, filter_app.
  destruct (exec_projects b t w id Hx) as (c & Hc & _ & Hd & Heq & _).
  pose proof (exec_acks_le (config b) _ _ Hc) as Hle. rewrite Hd, length_fmap in Hle.
  unfold enqueued, conn_trace in *. set (L := filter _ (t ≫= enqueued_by)) in *.
  set (tc := t ≫= conn_step id) in *.
  assert (Hold : Forall (λ p, p ∈ (t ≫= disposed_by) ++ disposed_by (w, e))
      (take (length (real_acks (written (config b) tc))) L)).
  { eapply Forall_impl; [exact IH|]. intros p Hp. apply elem_of_app. by left. }
  destruct (own_or_other id e) as [[i ->]|Hne].
  2: { rewrite (proj1 (conn_step_other id w e Hne)), app_nil_r. by rewrite take_app_le by lia. }
  destruct (handle_conn _ _ _ _ _ Hs) as (c1 & c' & Hh & _). pose proof (Heq _ Hh) as ->.
  destruct (conn_step_own _ _ _ _ _ _ Hok Hs Hh) as (-> & _ & _).
  unfold written. rewrite bind_snoc, real_acks_app, length_app. fold (written (config b) tc).
  destruct (real_acks (written_by (config b) (c, i))) as [|a l] eqn:Ha.
  { simpl. rewrite Nat.add_0_r. by rewrite take_app_le by lia. }
  assert (Hst : enqueued_by (w, Handle id i) = [] ∧ ∃ a', c_state c = AwaitAckSent a').
  { unfold written_by, request_of in Ha. cbn [fst snd] in Ha.
    destruct (c_state c), i; try done; eauto. }
  destruct Hst as [Hnone [a' Hst]].
  rewrite Hnone, filter_nil, (app_nil_r L). apply Forall_take, Forall_lookup. intros j p Hj.
  destruct (flight_is_last b t w id c p j Hx Hh Hj) as [Hp|[_ Hp]].
  - apply elem_of_app. by left.
  - by rewrite Hst in Hp.
Qed.

(** A server that received a part of what a client fed, and whose acknowledgements made the
    [send]s of the batches [ds] return: these are the first batches of the connection, then come
    later ones, and the batches of [ds] were disposed of. *)
Lemma sends_delivered `{Zlib} {T} (to_vec : T → string + bytes) client
    {TlsAcceptor} (b : ServerBuilder TlsAcceptor) ds more f g tw w id :
  usize (s_max_frame_size b) →
  sends_ok to_vec client ds f g → Forall (batch_fits (s_max_frame_size b)) (ds ++ more) →
  Task.exec (server_step b) world_start tw w →
  frames_in (conn_trace id tw) `prefix_of` f ++ plans (compression_level client) more →
  g `prefix_of` written (config b) (conn_trace id tw) →
  let ps := filter (λ p : parcel, p.1 = id) (enqueued tw) in
  ∃ later, later `prefix_of` more ∧ content ∘ snd <$> ps = numbered <$> ds ++ later ∧
    Forall (λ p, p ∈ disposed tw) (take (length ds) ps).
Proof.
  intros Hmax Hsends Hfits Hx Hin Hout ps.
  destruct (exec_projects b tw w id Hx) as (c & Hc & Hho & Hd & _).
  destruct (session_delivers to_vec client (config b) Hmax _ _ _ _ _ _ Hsends Hfits Hc Hho Hin Hout)
    as (later & todo & rest & acked & -> & Hcontent & -> & _ & Hlen). rewrite Hd in Hcontent.
  exists later. split; [by eexists|]. split; [by rewrite list_fmap_compose|].
  pose proof (acked_disposed b tw w id Hx) as Hall. fold ps in Hall. clear -Hall Hlen.
  rewrite Forall_lookup in *. intros j p [Hj Hlt]%lookup_take_Some. apply (Hall j).
  apply lookup_take_Some. split; [done|lia].
Qed.

(** Acknowledged means disposed of, in the whole server: on a connection that lives among
    others, or has ended, the batches whose [send] returned [Ok] are the first ones that the
    connection put in the queue, and each of them was disposed of (acknowledged, dropped or taken
    by the consumer, or dropped with the receiver), not merely received. *)
Theorem acknowledged_means_disposed `{Zlib} {T} (to_vec : T → string + bytes) client
    {TlsAcceptor} (b : ServerBuilder TlsAcceptor) ds more f g tw w id :
  usize (s_max_frame_size b) →
  sends_ok to_vec client ds f g → Forall (batch_fits (s_max_frame_size b)) (ds ++ more) →
  Task.exec (server_step b) world_start tw w →
  frames_in (conn_trace id tw) `prefix_of` f ++ plans (compression_level client) more →
  g `prefix_of` written (config b) (conn_trace id tw) →
  ∃ ps ps', filter (λ p : parcel, p.1 = id) (enqueued tw) = ps ++ ps' ∧
    content ∘ snd <$> ps = numbered <$> ds ∧ Forall (λ p, p ∈ disposed tw) ps.
Proof.
  intros Hmax Hsends Hfits Hx Hin Hout.
  destruct (sends_delivered to_vec client b ds more f g tw w id Hmax Hsends Hfits Hx Hin Hout)
    as (later & _ & Hcontent & Hdisp). set (L := filter _ (enqueued tw)) in *.
  exists (take (length ds) L), (drop (length ds) L). rewrite take_drop. split; [done|].
  split; [|done]. rewrite fmap_take, Hcontent, fmap_app.
  by rewrite take_app_length' by by rewrite length_fmap.
Qed.

(** A conversation completes: when the streams carry everything, a batch that fits the server
    leads from one window boundary to the next; the server hands over the one batch, sends any
    number of keepalives if it is configured to, and the acknowledgement once the consumer gave
    it, and with exactly these frames the client's [send] returns the number of events.  This holds
    at every compression level and after any earlier batches. *)
Theorem conversation_completes `{Zlib} {T} (to_vec : T → string + bytes) client cfg evs datas k m :
  usize (cfg_max_frame_size cfg) → batch_fits (cfg_max_frame_size cfg) datas →
  sendable to_vec (compression_level client) evs datas →
  (m = 0%nat ∨ cfg_keepalive cfg ≠ None) →
  ∃ t, Task.exec (resume cfg) (Conn AwaitWindow k) t (Conn AwaitWindow (S k)) ∧
    frames_in t = plan (compression_level client) datas ∧
    dispatched cfg t = [MkBatch datas (len datas) (Some k)] ∧
    Task.run (send_resume client) (send_start to_vec evs)
      (replicate (length (frames_in t)) (Fed (Ok tt)) ++ [Flushed (Ok tt)] ++
       gets (sent cfg t)) = Some (Returned (Ok (len datas))).
Proof.
  intros Hmax Hfits Hsend Hm. set (lv := compression_level client) in *.
  destruct (run_exec _ _ _ _ (run_plan_server cfg Hmax lv datas k Hfits)) as (t1 & Hx1 & Ht1).
  destruct (arrive_quiet cfg _ _ Ht1) as (Hf1 & Hd1 & Hs1).
  destruct (run_answering cfg m (len datas) k (S k) (len datas) Hm)
    as (t2 & Hx2 & Hf2 & Hd2 & Hs2).
  set (c := Conn (AwaitDispatch (MkBatch datas (len datas) (Some k)) k) (S k)) in *.
  set (t := t1 ++ (c, InDispatched true) :: t2).
  assert (Hf : frames_in t = plan lv datas).
  { transitivity (frames_in t1 ++ frames_in t2); [exact (bind_app _ t1 ((c, InDispatched true) :: t2))|].
    by rewrite Hf1, Hf2, app_nil_r. }
  exists t. split.
  { eapply (exec_trans (resume cfg)); [exact Hx1|]. eapply exec_cons; [reflexivity|exact Hx2]. }
  split; [done|]. split.
  { transitivity (dispatched cfg t1 ++ MkBatch datas (len datas) (Some k) :: dispatched cfg t2);
      [exact (bind_app _ t1 ((c, InDispatched true) :: t2))|by rewrite Hd1, Hd2]. }
  replace (sent cfg t) with ((Ack <$> replicate m 0) ++ [Ack (len datas)]).
  - rewrite Hf. apply send_completes; [done| |lia]. apply Forall_replicate. destruct Hfits. lia.
  - transitivity (sent cfg t1 ++ sent cfg t2);
      [|symmetry; exact (bind_app _ t1 ((c, InDispatched true) :: t2))].
    by rewrite Hs1, Hs2, fmap_replicate.
Qed.

(** C39. A client that goes on after a timeout loses its guarantee.  When the acknowledgement of a batch
    comes after [send] has given up on it, the next [send], of a batch that is not larger, takes it
    for its own: it returns [Ok] although the server has received nothing of that batch and has
    delivered the first one only. *)
Theorem late_acknowledgement_misleads `{Zlib} {T} (to_vec : T → string + bytes) client cfg
    evs1 d1 evs2 d2 :
  usize (cfg_max_frame_size cfg) → batch_fits (cfg_max_frame_size cfg) d1 →
  sendable to_vec (compression_level client) evs1 d1 →
  sendable to_vec (compression_level client) evs2 d2 →
  ack_timeout client ≠ None → len d2 <= len d1 →
  let wrote d := replicate (length (plan (compression_level client) d)) (Fed (Ok tt)) ++
                 [Flushed (Ok tt)] in
  ∃ t, Task.exec (resume cfg) conn_start t (Conn AwaitWindow 1) ∧ Forall honest t ∧
    frames_in t = plan (compression_level client) d1 ∧
    dispatched cfg t = [MkBatch d1 (len d1) (Some 0%nat)] ∧
    Task.run (send_resume client) (send_start to_vec evs1) (wrote d1 ++ [TimedOut]) =
      Some (Returned (Err AckTimeout)) ∧
    Task.run (send_resume client) (send_start to_vec evs2) (wrote d2 ++ gets (sent cfg t)) =
      Some (Returned (Ok (len d2))).
Proof.
  intros Hmax Hfits Hs1 Hs2 Hack Hle wrote. set (lv := compression_level client) in *.
  destruct (run_exec _ _ _ _ (run_plan_server cfg Hmax lv d1 0 Hfits)) as (t1 & Hx1 & Ht1).
  destruct (arrive_quiet cfg _ _ Ht1) as (Hf1 & Hd1 & Hs).
  set (b := MkBatch d1 (len d1) (Some 0%nat)) in *.
  set (t2 := [(Conn (AwaitDispatch b 0) 1, InDispatched true);
    (Conn (AwaitAck (len d1) 0) 1, InAck (Some (len d1)));
    (Conn (AwaitAckSent (len d1)) 1, InSent (Ok tt))]).
  exists (t1 ++ t2). split.
  { eapply (exec_trans (resume cfg)); [exact Hx1|].
    repeat (eapply exec_cons; [reflexivity|]). apply exec_nil. }
  split.
  { apply Forall_app. split; [|by repeat constructor]. clear -Ht1.
    apply Forall_forall. intros [c i] Hi.
    assert (Hi' : i ∈ t1.*2) by (apply list_elem_of_fmap; by exists (c, i)).
    rewrite Ht1 in Hi'. apply list_elem_of_fmap in Hi' as (f & -> & _).
    unfold honest. simpl. by destruct (c_state c). }
  unfold frames_in, dispatched, sent in *. rewrite !bind_app, Hf1, Hd1, Hs.
  split; [by rewrite app_nil_r|]. split; [done|].
  unfold wrote. split; rewrite run_app.
  - rewrite (run_plan to_vec client evs1 d1 Hs1). cbn. by destruct (ack_timeout client).
  - rewrite (run_plan to_vec client evs2 d2 Hs2). simpl.
    by rewrite (proj2 (Z.leb_le _ _)).
Qed.

(** ** Witnesses *)

(** A batch of two events, sent compressed and acknowledged after a keepalive. *)
Definition sample_datas : list bytes := [[x61]; [x62]].

Definition sample_inputs_c : list client_input :=
  [Fed (Ok tt); Fed (Ok tt); Flushed (Ok tt); Got (Some (Ok (Ack 0))); Got (Some (Ok (Ack 2)))].

Definition client_trace (evs : list (option bytes)) (l : list client_input) :
  list (send_state * client_input) :=
  trace (send_resume (sample_client 3)) (send_start sample_to_vec evs) l.

Definition sample_sent : list (send_state * client_input) :=
  client_trace sample_events sample_inputs_c.

Lemma sample_sends_ok :
  sends_ok sample_to_vec (sample_client 3) [sample_datas]
    (fed (sample_client 3) sample_sent ++ []) (got sample_sent ++ []).
Proof.
  apply (sends_one _ _ sample_events _ _ 2); [apply sample_sendable| |constructor].
  repeat (eapply exec_cons; [vm_compute; reflexivity|]). apply exec_nil.
Qed.

Lemma sample_fits : Forall (batch_fits sample_max) ([sample_datas] ++ []).
Proof. repeat constructor; vm_compute; congruence. Qed.

(** The server's side: one connection, whose batch the consumer takes for its events. *)
Definition sample_session : list event :=
  [Accept] ++ (Handle 0 <$> arrive (plan 3 sample_datas)) ++
  [Handle 0 (InDispatched true); Handle 0 InElapsed; Handle 0 (InSent (Ok tt)); Recv;
   Dispose 0 ByIntoEvents; Handle 0 (InAck (Some 2)); Handle 0 (InSent (Ok tt))].

Lemma sample_session_exec :
  Task.exec (server_step sample_server) world_start (schedule_trace sample_session)
    (schedule_end sample_session).
Proof. apply schedule_exec. vm_compute. by eexists. Qed.

Abbreviation sample_conn_trace := (conn_trace 0 (schedule_trace sample_session)).

Lemma sample_conn_exec :
  Task.exec (resume (config sample_server)) conn_start sample_conn_trace (Conn AwaitWindow 1) ∧
  Forall honest sample_conn_trace.
Proof.
  destruct (exec_projects sample_server _ _ 0 sample_session_exec) as (c & Hc & Hh & _ & Heq & _).
  rewrite <- (Heq (Conn AwaitWindow 1)) in Hc; [done|vm_compute; reflexivity].
Qed.

Lemma sample_links :
  frames_in sample_conn_trace `prefix_of`
    (fed (sample_client 3) sample_sent ++ []) ++ plans 3 [] ∧
  got sample_sent ++ [] `prefix_of` sent (config sample_server) sample_conn_trace.
Proof. split; exists []; vm_compute; reflexivity. Qed.

Lemma acknowledged_means_delivered_witness :
  ∃ later, later `prefix_of` [] ∧
    content <$> dispatched (config sample_server) sample_conn_trace =
      numbered <$> [sample_datas] ++ later.
Proof.
  apply (acknowledged_means_delivered sample_to_vec (sample_client 3) (config sample_server)
    [sample_datas] [] (fed (sample_client 3) sample_sent ++ []) (got sample_sent ++ [])
    sample_conn_trace (Conn AwaitWindow 1)).
  - apply sample_max_ok.
  - apply sample_sends_ok.
  - apply sample_fits.
  - apply sample_conn_exec.
  - apply sample_conn_exec.
  - apply sample_links.
  - apply sample_links.
Defined.

Lemma acknowledged_means_disposed_witness :
  ∃ ps ps', filter (λ p : parcel, p.1 = 0%nat) (enqueued (schedule_trace sample_session)) =
      ps ++ ps' ∧
    content ∘ snd <$> ps = numbered <$> [sample_datas] ∧
    Forall (λ p, p ∈ disposed (schedule_trace sample_session)) ps.
Proof.
  apply (acknowledged_means_disposed sample_to_vec (sample_client 3) sample_server
    [sample_datas] [] (fed (sample_client 3) sample_sent ++ []) (got sample_sent ++ [])
    (schedule_trace sample_session) (schedule_end sample_session) 0).
  - apply sample_max_ok.
  - apply sample_sends_ok.
  - apply sample_fits.
  - apply sample_session_exec.
  - apply sample_links.
  - apply sample_links.
Defined.

Lemma conversation_completes_witness :
  ∃ t, Task.exec (resume (config sample_server)) (Conn AwaitWindow 4) t (Conn AwaitWindow 5) ∧
    frames_in t = plan 3 sample_datas ∧
    dispatched (config sample_server) t = [MkBatch sample_datas 2 (Some 4%nat)] ∧
    Task.run (send_resume (sample_client 3)) (send_start sample_to_vec sample_events)
      (replicate (length (frames_in t)) (Fed (Ok tt)) ++ [Flushed (Ok tt)] ++
       gets (sent (config sample_server) t)) = Some (Returned (Ok 2)).
Proof.
  apply (conversation_completes sample_to_vec (sample_client 3) (config sample_server)
    sample_events sample_datas 4 7).
  - apply sample_max_ok.
  - pose proof sample_fits as Hf. by apply Forall_cons in Hf as [? _].
  - apply sample_sendable.
  - right. discriminate.
Defined.

Lemma late_acknowledgement_misleads_witness :
  let wrote d := replicate (length (plan 3 d)) (Fed (Ok tt)) ++ [Flushed (Ok tt)] in
  ∃ t, Task.exec (resume (config sample_server)) conn_start t (Conn AwaitWindow 1) ∧
    Forall honest t ∧ frames_in t = plan 3 sample_datas ∧
    dispatched (config sample_server) t = [MkBatch sample_datas 2 (Some 0%nat)] ∧
    Task.run (send_resume (sample_client 3)) (send_start sample_to_vec sample_events)
      (wrote sample_datas ++ [TimedOut]) = Some (Returned (Err AckTimeout)) ∧
    Task.run (send_resume (sample_client 3)) (send_start sample_to_vec [Some [x63]])
      (wrote [[x63]] ++ gets (sent (config sample_server) t)) = Some (Returned (Ok 1)).
Proof.
  apply (late_acknowledgement_misleads sample_to_vec (sample_client 3) (config sample_server)
    sample_events sample_datas [Some [x63]] [[x63]]).
  - apply sample_max_ok.
  - pose proof sample_fits as Hf. by apply Forall_cons in Hf as [? _].
  - apply sample_sendable.
  - split; [repeat constructor|by split|done].
  - discriminate.
  - vm_compute. congruence.
Defined.
