(* ===== verification/Abandon.v ===== *)
(** * Abandon: a [send] that is given up

    A [send] ends early when a timeout of the client expires, when a call fails, or when its future
    is dropped; [framed] keeps what was fed, and nothing in the [Client] marks the connection as
    unusable (src/src/client.rs).  An [attempt] is a [send] up to any of its await points, so it
    covers all of these.  What follows for a client that goes on depends on where the [send] was cut:
    within the batch, the server refuses the next window and no later [send] can succeed
    ([cut_send_is_final]); after it, the late acknowledgement may be taken for that of the next
    batch (System.v, [late_acknowledgement_misleads]), until a batch that is larger than those in
    between is confirmed ([larger_batch_recovers]).  In any case the server hands over whole batches
    only ([exec_cut_plans]); Network.v uses this for the clients that go on. *)

From S2P Require Import Prelude Errors Zlib Frame Codec Task Batch Connection Client Server System.

Section abandon.
Context `{Zlib} {T : Type} (to_vec : T → string + bytes) (client : Client).

Abbreviation level := (compression_level client).

(** A [send] of [evs], serialized as [d], up to the state [st]. *)
Definition attempt (evs : list T) (d : list bytes) (t : list (send_state * client_input))
    (st : send_state) : Prop :=
  sendable to_vec level evs d ∧ Task.exec (send_resume client) (send_start to_vec evs) t st.

(** Successive attempts, and the frames they fed and received. *)
Definition attempts (ts : list (list (send_state * client_input))) : Prop :=
  Forall (λ t, ∃ evs d st, attempt evs d t st) ts.

Definition all_fed (ts : list (list (send_state * client_input))) : list Frame := ts ≫= fed client.
Definition all_got (ts : list (list (send_state * client_input))) : list Frame := ts ≫= got.

Lemma attempt_feeds evs d t st : attempt evs d t st → fed client t `prefix_of` plan level d.
Proof.
  intros [Hs Hx]. rewrite (send_start_ok _ _ _ _ Hs) in Hx.
  destruct (exec_feeds _ _ _ _ _ _ _ _ Hs (to_feed_start client d) Hx) as (rest & -> & _).
  by eexists.
Qed.

(** What attempts feed is nothing or begins with a window. *)
Lemma attempts_feed ts : attempts ts → all_fed ts = [] ∨ ∃ n l, all_fed ts = Window n :: l.
Proof.
  induction 1 as [|t ts (evs & d & st & Ht) _ IH]; [by left|].
  destruct (attempt_feeds _ _ _ _ Ht) as [rest Hp]. unfold all_fed, plan in *. simpl.
  destruct (fed client t) as [|f fs]; [exact IH|]. injection Hp as <- _. right. by eexists _, _.
Qed.

(** A [send] that returned [Ok] has received an acknowledgement that is not a keepalive. *)
Lemma attempt_ok_acked evs d t r :
  attempt evs d t (Returned (Ok r)) → r = len d ∧ ∃ s, len d <= s ∧ s ∈ real_acks (got t).
Proof.
  intros [Hs Hx]. rewrite (send_start_ok _ _ _ _ Hs) in Hx. pose proof (sd_len _ _ _ _ Hs) as Hlen.
  eapply exec_acked in Hx as (-> & ks & s & -> & _ & Hle); [|done]. split; [done|].
  exists s. split; [done|]. rewrite real_acks_app. apply elem_of_app. right.
  unfold real_acks. simpl. rewrite (proj2 (Z.eqb_neq s 0)) by lia. by left.
Qed.

(** An attempt that wrote its whole batch. *)
Definition whole_attempt (t : list (send_state * client_input)) (d : list bytes) : Prop :=
  (∃ evs st, attempt evs d t st) ∧ fed client t = plan level d.

Lemma whole_fed ts ds : Forall2 whole_attempt ts ds → all_fed ts = plans level ds.
Proof.
  induction 1 as [|t d ts ds [_ Hf] _ IH]; [done|].
  change (fed client t ++ all_fed ts = plan level d ++ plans level ds). by rewrite Hf, IH.
Qed.

(** An acknowledgement that covers the last batch, larger than those before, is its own. *)
Lemma covering_last (l : list Z) (ds : list (list bytes)) (d : list bytes) s :
  Forall (λ d', len d' < len d) ds → l `prefix_of` len <$> ds ++ [d] → s ∈ l → len d <= s →
  length l = S (length ds).
Proof.
  intros Hlt [z Hz] Hin Hs. destruct (decide (length l <= length ds)%nat) as [Hle|Hle].
  - exfalso. rewrite fmap_app in Hz. apply app_eq_inv in Hz as [(l' & Hl & _)|(l' & Hl & Hz)].
    + assert (Hin' : s ∈ len <$> ds) by (rewrite Hl; apply elem_of_app; by left).
      apply list_elem_of_fmap in Hin' as (d' & -> & Hd'). rewrite Forall_forall in Hlt.
      specialize (Hlt d' Hd'). lia.
    + assert (l' = []) as ->.
      { apply length_zero_iff_nil. rewrite Hl, length_app, length_fmap in Hle. lia. }
      rewrite app_nil_r in Hl. subst l. apply list_elem_of_fmap in Hin as (d' & -> & Hd').
      rewrite Forall_forall in Hlt. specialize (Hlt d' Hd'). lia.
  - apply (f_equal length) in Hz. rewrite length_fmap, !length_app in Hz. simpl in Hz. lia.
Qed.

(** ** The server's side of a batch that was cut *)

Context (cfg : ConnectionConfig) (Hmax : usize (cfg_max_frame_size cfg)).
Context (ds : list (list bytes)) (d : list bytes) (fs rest : list Frame).
Context (Hfits : Forall (batch_fits (cfg_max_frame_size cfg)) (ds ++ [d])).
Context (Hplan : plan level d = fs ++ rest) (Hfs : fs ≠ []) (Hrest : rest ≠ []).

Lemma plans_one : plans level [d] = fs ++ rest.
Proof. rewrite <- Hplan. apply app_nil_r. Qed.

Lemma plans_cut : plans level (ds ++ [d]) = (plans level ds ++ fs) ++ rest.
Proof. by rewrite plans_app, plans_one, app_assoc. Qed.

(** Where the connection is before the next window: the batch [d] is not complete. *)
Lemma session_cut past todo rest' acked st l :
  ds ++ [d] = past ++ todo → at_state level past todo rest' acked st →
  plans level (ds ++ [d]) = l ++ rest' → l `prefix_of` plans level ds ++ fs →
  ∃ todo', todo = todo' ++ [d] ∧ ds = past ++ todo'.
Proof.
  intros Hsplit Hst Hl Hpre. apply app_eq_inv in Hsplit as [(l' & -> & ->)|(l' & -> & Hl')].
  - by exists l'.
  - destruct l' as [|d' l']; [exists []; by rewrite !app_nil_r|]. exfalso.
    injection Hl' as <- Hl'. destruct l', todo; try discriminate Hl'.
    apply at_state_rest in Hst. apply prefix_length in Hpre. pose proof plans_cut as Hc.
    rewrite Hl in Hc. apply (f_equal length) in Hc. rewrite !length_app in Hc.
    rewrite length_app in Hpre. destruct rest; [done|]. simpl in *. lia.
Qed.

(** When the whole cut batch was received, the connection waits for the rest of it. *)
Lemma session_at_cut past todo acked c i c' n :
  ds ++ [d] = past ++ todo → at_state level past todo rest acked (c_state c) →
  i = InNext (Some (Ok (Window n))) → resume cfg c i = Some c' →
  past = ds ∧ acked = len <$> ds ∧
  c_state c' = Finished (Err (UnexpectedFrame "expected J or C inside window")).
Proof.
  intros Hsplit Hst -> Hr.
  destruct (session_cut past todo rest acked (c_state c) (plans level ds ++ fs) Hsplit Hst plans_cut)
    as (todo' & -> & Hds); [done|].
  destruct c as [[|m w|b rx|a rx|a rx|a|r] chans]; try done; simpl in Hst.
  - destruct Hst as [Hst _]. exfalso. rewrite plans_app, plans_one in Hst.
    apply (f_equal length) in Hst. rewrite !length_app in Hst. destruct fs; [done|]. simpl in Hst. lia.
  - destruct Hst as (d' & todo2 & l1 & l2 & Htodo & _ & _ & _ & _ & _ & Hr' & ->).
    destruct todo' as [|d1 todo'].
    + rewrite app_nil_r in Hds. split; [done|]. split; [by rewrite Hds|].
      unfold resume in Hr. simpl in Hr. by injection Hr as <-.
    + exfalso. injection Htodo as -> <-. rewrite plans_app, plans_one in Hr'.
      apply (f_equal length) in Hr'. rewrite !length_app in Hr'. destruct fs; [done|].
      simpl in Hr'. lia.
Qed.

(** The next window ends the connection. *)
Lemma exec_after_cut t c n l :
  Task.exec (resume cfg) conn_start t c → Forall honest t →
  frames_in t = (plans level ds ++ fs) ++ Window n :: l →
  c_state c = Finished (Err (UnexpectedFrame "expected J or C inside window")) ∧
  content <$> dispatched cfg t = numbered <$> ds ∧ real_acks (written cfg t) = len <$> ds.
Proof.
  intros Hx. revert t c Hx l. refine (exec_ind_last (resume cfg) conn_start _ _ _).
  { intros l _ Hf. apply (f_equal length) in Hf. rewrite !length_app in Hf. simpl in Hf. lia. }
  intros t c i c' Hx IH Hr l [Hh _]%Forall_app. unfold frames_in. rewrite bind_snoc.
  fold (frames_in t). intros Hf. destruct (frame_in (c, i)) as [|f fs'] eqn:Hi.
  { rewrite app_nil_r in Hf. destruct (IH l Hh Hf) as [Hfin _]. unfold resume in Hr.
    by rewrite Hfin in Hr. }
  assert (Hi' : i = InNext (Some (Ok f)) ∧ fs' = []).
  { destruct i as [[[]|]| | | |]; try done. by injection Hi as -> <-. }
  destruct Hi' as [-> ->]. destruct l as [|g l _] using rev_ind.
  - apply app_inj_tail in Hf as [Hf ->].
    destruct (exec_session cfg level (ds ++ [d]) t c Hmax Hfits Hx Hh)
      as [past todo rest' Hsplit Hf' Hd Hst]; [rewrite Hf, plans_cut; by eexists|].
    rewrite plans_cut, Hf in Hf'. apply app_inv_head in Hf' as <-.
    destruct (session_at_cut past todo _ c _ c' n Hsplit Hst eq_refl Hr) as (-> & Ha & Hc').
    split; [done|]. unfold dispatched, written in *. rewrite !bind_snoc.
    assert (Hq : dispatched_by cfg (c, InNext (Some (Ok (Window n)))) = [] ∧
      written_by cfg (c, InNext (Some (Ok (Window n)))) = []).
    { unfold dispatched_by, written_by. cbn [fst snd]. by destruct (request_of cfg c). }
    destruct Hq as [-> ->]. by rewrite !app_nil_r.
  - rewrite app_comm_cons, app_assoc in Hf. apply app_inj_tail in Hf as [Hf ->].
    destruct (IH l Hh Hf) as [Hfin _]. unfold resume in Hr. by rewrite Hfin in Hr.
Qed.

(** In all, nothing of [d] or of what comes after it is delivered or acknowledged. *)
Lemma exec_cut t c ts :
  Task.exec (resume cfg) conn_start t c → Forall honest t → attempts ts →
  frames_in t `prefix_of` (plans level ds ++ fs) ++ all_fed ts →
  ∃ past, past `prefix_of` ds ∧ content <$> dispatched cfg t = numbered <$> past ∧
    real_acks (written cfg t) `prefix_of` len <$> past.
Proof.
  intros Hx Hh Hts [z Hin].
  assert (Hcases : frames_in t `prefix_of` plans level ds ++ fs ∨
      ∃ n l, frames_in t = (plans level ds ++ fs) ++ Window n :: l).
  { apply app_eq_inv in Hin as [(l & -> & _)|(l & -> & Hl)]; [by left; eexists|].
    destruct l as [|f l]; [left; by rewrite app_nil_r|right].
    destruct (attempts_feed ts Hts) as [He|(n & l' & He)]; rewrite He in Hl; [done|].
    injection Hl as <- _. by exists n, l. }
  destruct Hcases as [Hpre|(n & l & Hf)].
  - destruct (exec_session cfg level (ds ++ [d]) t c Hmax Hfits Hx Hh)
      as [past todo rest' Hsplit Hf Hd Hst]; [rewrite plans_cut; by apply prefix_app_r|].
    destruct (acked_prefix _ _ _ _ _ _ Hst) as [k Hk].
    destruct (session_cut past todo rest' _ _ _ Hsplit Hst Hf Hpre) as (todo' & _ & ->).
    exists past. split; [by eexists|]. split; [done|]. rewrite Hk.
    exists (len <$> drop k past). by rewrite <- fmap_app, take_drop.
  - destruct (exec_after_cut t c n l Hx Hh Hf) as (_ & Hd & Ha). exists ds. by rewrite Hd, Ha.
Qed.
End abandon.

(** ** Any number of cuts

    Whatever the client goes on with, the server hands over its batches whole or not at all. *)

Section cuts.
Context `{Zlib} (cfg : ConnectionConfig) (level : Z) (Hmax : usize (cfg_max_frame_size cfg)).

(** The frames of the batches [ds], each of them up to where its [send] was cut. *)
Inductive cut_plans : list (list bytes) → list Frame → Prop :=
| cut_nil : cut_plans [] []
| cut_cons d fs rest ds l :
    plan level d = fs ++ rest → cut_plans ds l → cut_plans (d :: ds) (fs ++ l).

Lemma cut_snoc ds l d fs rest :
  cut_plans ds l → plan level d = fs ++ rest → cut_plans (ds ++ [d]) (l ++ fs).
Proof.
  induction 1 as [|d1 fs1 rest1 ds l Hp _ IH]; intros Hd; simpl.
  - rewrite <- (app_nil_r fs). econstructor; [exact Hd|constructor].
  - rewrite <- app_assoc. econstructor; [exact Hp|by apply IH].
Qed.

(** Every frame is one of the batch. *)
Lemma cut_frames (P : Frame → Prop) ds l :
  cut_plans ds l → Forall P (plans level ds) → Forall P l.
Proof.
  induction 1 as [|d fs rest ds l Hp _ IH]; [done|].
  change (plans level (d :: ds)) with (plan level d ++ plans level ds). rewrite Hp.
  intros [[? _]%Forall_app ?]%Forall_app. apply Forall_app. auto.
Qed.

(** The next frame is the window of some batch; those before it were cut before they began. *)
Lemma cut_head ds f l :
  cut_plans ds (f :: l) →
  ∃ ds1 d ds2 fs rest l', ds = ds1 ++ d :: ds2 ∧ f = Window (len d) ∧
    body level (number 1 d) = fs ++ rest ∧ l = fs ++ l' ∧ cut_plans ds2 l'.
Proof.
  intros Hc. remember (f :: l) as fl eqn:Hfl.
  induction Hc as [|d fs rest ds l1 Hp Hc IH]; [done|].
  destruct fs as [|f' fs].
  - destruct (IH Hfl) as (ds1 & d' & ds2 & fs & rest' & l' & -> & ?).
    by exists (d :: ds1), d', ds2, fs, rest', l'.
  - injection Hfl as -> <-. injection Hp as <- Hp. by exists [], d, ds, fs, rest, l1.
Qed.

(** Where a connection is that has received a part of such frames: [todo] are the batches that it
    has not handed over and may still hand over. *)
Definition at_cut (todo : list (list bytes)) (rest : list Frame) (st : conn_state) : Prop :=
  match st with
  | AwaitFrame n w =>
      ∃ d todo' l1 l2 fs r l', todo = d :: todo' ∧ n = len d ∧ number 1 d = l1 ++ l2 ∧ l2 ≠ [] ∧
        w = after l1 window_start ∧ (0 < level → l1 = []) ∧ body level l2 = fs ++ r ∧
        rest = fs ++ l' ∧ cut_plans todo' l'
  | AwaitDispatch b _ => ∃ d todo', todo = d :: todo' ∧ content b = numbered d ∧ cut_plans todo' rest
  | Finished _ => True
  | _ => cut_plans todo rest
  end.

Lemma cut_frame todo rest f c c' :
  Forall (batch_fits (cfg_max_frame_size cfg)) todo → at_cut todo (f :: rest) (c_state c) →
  resume cfg c (InNext (Some (Ok f))) = Some c' →
  ∃ skipped todo', todo = skipped ++ todo' ∧ at_cut todo' rest (c_state c').
Proof.
  intros Hfits. destruct c as [[|n w|b rx|a rx|a rx|a|r] chans]; try done;
    unfold resume; cbn [c_state c_chans at_cut].
  - intros (ds1 & d & ds2 & fs & r & l' & -> & -> & Hb & -> & Hc)%cut_head [= <-].
    exists ds1, (d :: ds2). split; [done|]. apply Forall_app in Hfits as [_ [[Hd _] _]%Forall_cons].
    unfold window_loop. rewrite (proj2 (Z.ltb_lt _ _)) by (simpl; lia).
    exists d, ds2, [], (number 1 d), fs, r, l'. rewrite after_nil. repeat split; try done.
    intros Hn. pose proof (len_number 1 d) as Hl. rewrite Hn, len_nil in Hl. lia.
  - intros (d & todo' & l1 & l2 & fs & r & l' & -> & -> & Hn & Hne & -> & Hl1 & Hb & Hrest & Hc) Hr.
    exists [], (d :: todo'). split; [done|].
    destruct fs as [|f' fs]; simpl in Hrest.
    { subst l'. apply cut_head in Hc as (? & ? & ? & ? & ? & ? & _ & -> & _). by injection Hr as <-. }
    injection Hrest as <- ->. apply Forall_cons in Hfits as [Hd _].
    pose proof (fits_items cfg d Hmax Hd) as Hitems. rewrite Hn in Hitems.
    apply Forall_app in Hitems as [_ Hitems].
    destruct (body_head cfg level l2 [] f (fs ++ r) Hne Hitems) as (l3 & l4 & -> & Hl3 & Hf & Hl4 & Hfs).
    { by rewrite app_nil_r. }
    destruct (on_frame_session cfg d l1 l3 l4 f Hmax (bf_len _ _ Hd) Hn Hl3 Hf) as [Hon Hw].
    rewrite Hon in Hr. injection Hr as <-. rewrite Hw. case_bool_decide as He.
    + apply app_nil in Hfs as [-> ->]. by exists d, todo'.
    + rewrite app_nil_r in Hfs. exists d, todo', (l1 ++ l3), l4, fs, r, l'.
      rewrite <- app_assoc. repeat split; try done. intros Hlv. by destruct He; apply Hl4.
Qed.

Lemma cut_quiet todo rest c i c' :
  at_cut todo rest (c_state c) → resume cfg c i = Some c' → frame_in (c, i) = [] →
  ∃ past todo', todo = past ++ todo' ∧ content <$> dispatched_by cfg (c, i) = numbered <$> past ∧
    at_cut todo' rest (c_state c').
Proof.
  intros Hst.
  destruct c as [[|n w|b rx|a rx|a rx|a|r] chans]; destruct i as [[[f|e|p]|]|[]|[v|]| |[u|e|p]];
    unfold resume; cbn [c_state c_chans fst snd] in *; try done;
    try (intros [= <-] _; by exists [], todo).
  - intros [= <-] _. destruct Hst as (d & todo' & -> & Hb & Hc). exists [d], todo'.
    split; [done|]. split; [simpl; by rewrite Hb|done].
  - destruct (cfg_keepalive cfg); [|done]. intros [= <-] _. by exists [], todo.
Qed.

(** What is handed over are batches of the client, in order, each at most once. *)
Lemma exec_cut_plans ds l t c :
  Forall (batch_fits (cfg_max_frame_size cfg)) ds → cut_plans ds l →
  Task.exec (resume cfg) conn_start t c → frames_in t `prefix_of` l →
  content <$> dispatched cfg t `sublist_of` numbered <$> ds.
Proof.
  intros Hfits Hl Hx Hin.
  assert (Hinv : ∃ past todo rest, ds = past ++ todo ∧ l = frames_in t ++ rest ∧
    content <$> dispatched cfg t `sublist_of` numbered <$> past ∧ at_cut todo rest (c_state c)).
  { revert t c Hx Hin. refine (exec_ind_last (resume cfg) conn_start _ _ _).
    { intros _. by exists [], ds, l. }
    intros t c i c' _ IH Hr Hp. unfold frames_in in Hp. rewrite bind_snoc in Hp.
    destruct IH as (past & todo & rest & -> & -> & Hsub & Hst); [by eapply prefix_app_l|].
    destruct Hp as [rest' Hp]. fold (frames_in t) in Hp. rewrite <- app_assoc in Hp.
    apply app_inv_head in Hp. unfold dispatched, frames_in in *. rewrite !bind_snoc, fmap_app.
    apply Forall_app in Hfits as [_ Hfits].
    destruct (frame_in (c, i)) as [|f fs] eqn:Hi.
    - destruct (cut_quiet _ _ _ _ _ Hst Hr Hi) as (past' & todo' & -> & Hd & Hst').
      exists (past ++ past'), todo', rest. rewrite <- app_assoc, app_nil_r. split; [done|].
      split; [done|]. split; [|done]. rewrite Hd, fmap_app. by apply sublist_app.
    - assert (Hf : i = InNext (Some (Ok f)) ∧ fs = []).
      { destruct i as [[[]|]| | | |]; try done. by injection Hi as -> <-. }
      destruct Hf as [-> ->]. subst rest. simpl in Hst.
      destruct (cut_frame _ _ _ _ _ Hfits Hst Hr) as (skipped & todo' & -> & Hst').
      exists (past ++ skipped), todo', rest'. rewrite <- !app_assoc. split; [done|]. split; [done|].
      split; [|done]. assert (Hno : dispatched_by cfg (c, InNext (Some (Ok f))) = [])
        by (unfold dispatched_by; cbn [fst snd]; by destruct (request_of cfg c)).
      rewrite Hno, app_nil_r, fmap_app. by apply sublist_inserts_r. }
  destruct Hinv as (past & todo & rest & -> & _ & Hsub & _). rewrite fmap_app.
  by apply sublist_inserts_r.
Qed.
End cuts.

(** ** Properties *)

(** C8. A batch that was cut ends the guarantee and never breaks it.  After any [send]s that returned
    [Ok], let one be given up when a part of its batch is written, but not all of it; whatever is
    sent afterwards on the connection, no [send] returns [Ok], and the server delivers the earlier
    batches and nothing else.  Once the server has received the part that was written and anything
    more, it has ended the connection with [UnexpectedFrame]. *)
Theorem cut_send_is_final `{Zlib} {T} (to_vec : T → string + bytes) client cfg
    ds f g evs d t1 st ts t c :
  usize (cfg_max_frame_size cfg) → sends_ok to_vec client ds f g →
  Forall (batch_fits (cfg_max_frame_size cfg)) (ds ++ [d]) →
  attempt to_vec client evs d t1 st → fed client t1 ≠ [] →
  fed client t1 ≠ plan (compression_level client) d → attempts to_vec client ts →
  Task.exec (resume cfg) conn_start t c → Forall honest t →
  frames_in t `prefix_of` (f ++ fed client t1) ++ all_fed client ts →
  g ++ got t1 ++ all_got ts `prefix_of` written cfg t →
  content <$> dispatched cfg t = numbered <$> ds ∧
  Forall (λ t2, ∀ evs2 d2 r, ¬ attempt to_vec client evs2 d2 t2 (Returned (Ok r))) (t1 :: ts) ∧
  (len (f ++ fed client t1) < len (frames_in t) →
   c_state c = Finished (Err (UnexpectedFrame "expected J or C inside window"))).
Proof.
  intros Hmax Hs Hfits Ht1 Hne Hcut Hts Hx Hh Hin Hout.
  rewrite (sends_fed _ _ _ _ _ Hs) in *.
  destruct (attempt_feeds _ _ _ _ _ _ Ht1) as [rest Hplan].
  assert (Hrest : rest ≠ []) by (intros ->; rewrite app_nil_r in Hplan; by destruct Hcut).
  destruct (exec_cut to_vec client cfg Hmax ds d _ rest Hfits Hplan Hne Hrest t c ts Hx Hh Hts Hin)
    as (past & [later ->] & Hd & Hacks).
  apply real_acks_prefix in Hout.
  assert (Hg : real_acks g = len <$> past ++ later).
  { apply (sends_acked _ _ _ _ _ [] Hs). rewrite app_nil_r, fmap_app. apply prefix_app_r.
    etrans; [|exact Hacks]. etrans; [|exact Hout]. rewrite real_acks_app. by eexists. }
  assert (Hnone : later = [] ∧ real_acks (got t1 ++ all_got ts) = []).
  { pose proof (prefix_length _ _ Hout) as Hl1. pose proof (prefix_length _ _ Hacks) as Hl2.
    rewrite real_acks_app, Hg, length_app, length_fmap, length_app in Hl1.
    rewrite length_fmap in Hl2.
    split; apply length_zero_iff_nil; lia. }
  destruct Hnone as [-> Hnone]. rewrite app_nil_r in *. split; [done|]. split.
  - apply Forall_forall. intros t2 Ht2 evs2 d2 r Ha.
    apply attempt_ok_acked in Ha as (_ & s & _ & Hs2).
    assert (s ∈ real_acks (got t1 ++ all_got ts)); [|by rewrite Hnone in *; eapply not_elem_of_nil].
    change (got t1 ++ all_got ts) with ((t1 :: ts) ≫= got).
    apply list_elem_of_bind in Hs2 as (a & Ha & Hin2). apply list_elem_of_bind. exists a.
    split; [done|]. apply list_elem_of_bind. by exists t2.
  - intros Hlen. destruct Hin as [z Hin].
    apply app_eq_inv in Hin as [(l & Hl & _)|(l & Hl & Hz)].
    { rewrite Hl, (len_app (frames_in t)) in Hlen. pose proof (len_nonneg l). lia. }
    destruct l as [|x l]; [rewrite app_nil_r in Hl; rewrite Hl in Hlen; lia|].
    destruct (attempts_feed _ _ ts Hts) as [He|(n & l' & He)]; rewrite He in Hz; [done|].
    injection Hz as <- _.
    by destruct (exec_after_cut client cfg Hmax past d _ rest Hfits Hplan Hne Hrest t c n l Hx Hh Hl).
Qed.

(** C40. A larger batch recovers.  After [send]s that returned [Ok], let any number of [send]s on the
    connection write their whole batches, however each of them ended: by a timeout, given up, or by
    taking the late acknowledgement of another one.  When the next [send] is of a batch larger than
    each of these and returns [Ok], the server has delivered all of them and this one.  So the
    confusion of [late_acknowledgement_misleads] lasts only as long as no larger batch is confirmed. *)
Theorem larger_batch_recovers `{Zlib} {T} (to_vec : T → string + bytes) client cfg
    ds f g ts ds1 evs2 d2 t2 r t c :
  usize (cfg_max_frame_size cfg) → sends_ok to_vec client ds f g →
  Forall (batch_fits (cfg_max_frame_size cfg)) (ds ++ ds1 ++ [d2]) →
  Forall2 (whole_attempt to_vec client) ts ds1 →
  attempt to_vec client evs2 d2 t2 (Returned (Ok r)) → Forall (λ d, len d < len d2) ds1 →
  Task.exec (resume cfg) conn_start t c → Forall honest t →
  frames_in t `prefix_of` f ++ all_fed client ts ++ fed client t2 →
  g ++ all_got ts ++ got t2 `prefix_of` written cfg t →
  content <$> dispatched cfg t = numbered <$> ds ++ ds1 ++ [d2].
Proof.
  intros Hmax Hs Hfits Hts Ht2 Hlt Hx Hh Hin Hout. set (lv := compression_level client) in *.
  rewrite (sends_fed _ _ _ _ _ Hs), (whole_fed _ _ _ _ Hts) in Hin.
  assert (Hin' : frames_in t `prefix_of` plans lv (ds ++ ds1 ++ [d2])).
  { etrans; [exact Hin|]. rewrite !plans_app. do 2 apply prefix_app.
    change (plans lv [d2]) with (plan lv d2 ++ []). rewrite app_nil_r. by eapply attempt_feeds. }
  destruct (exec_session cfg lv _ _ _ Hmax Hfits Hx Hh Hin') as [past todo rest Hsplit _ Hd Hst].
  destruct (acked_prefix _ _ _ _ _ _ Hst) as [k Hk]. apply real_acks_prefix in Hout.
  rewrite Hk, real_acks_app in Hout.
  assert (Hall : (len <$> take k past) `prefix_of` (len <$> ds) ++ (len <$> ds1 ++ [d2])).
  { rewrite <- fmap_app, Hsplit.
    exists (len <$> drop k past ++ todo). by rewrite <- fmap_app, app_assoc, take_drop. }
  assert (Hg : real_acks g = len <$> ds).
  { apply (sends_acked _ _ _ _ _ (len <$> ds1 ++ [d2]) Hs). etrans; [|exact Hall].
    etrans; [|exact Hout]. by eexists. }
  rewrite Hg in Hout. pose proof (prefix_app_inv _ _ _ (transitivity Hout Hall)) as Hpre.
  destruct (attempt_ok_acked _ _ _ _ _ _ Ht2) as (_ & s & Hle & Hs2).
  assert (Hin2 : s ∈ real_acks (all_got ts ++ got t2)) by (rewrite real_acks_app; apply elem_of_app; by right).
  pose proof (covering_last _ _ _ _ Hlt Hpre Hin2 Hle) as Hlen.
  apply prefix_length in Hout. rewrite length_app, Hlen, !length_fmap, length_take in Hout.
  assert (todo = []) as ->.
  { apply length_zero_iff_nil. apply (f_equal length) in Hsplit. rewrite !length_app in Hsplit.
    simpl in Hsplit. lia. }
  by rewrite Hd, Hsplit, app_nil_r.
Qed.

(** ** Witnesses *)

(** A client with a write timeout sends a batch, gives the next one up after its window, and sends
    another one, to which the server answers by closing the connection. *)
Definition hasty_client : Client := MkClient 3 (Some 5) (Some 30).

Definition hasty_trace (evs : list (option bytes)) (l : list client_input) :
  list (send_state * client_input) :=
  trace (send_resume hasty_client) (send_start sample_to_vec evs) l.

Definition hasty_first : list (send_state * client_input) :=
  hasty_trace sample_events (replicate 2 (Fed (Ok tt)) ++ [Flushed (Ok tt)] ++ gets [Ack 0; Ack 2]).
Definition hasty_cut : list (send_state * client_input) :=
  hasty_trace [Some [x63]] [Fed (Ok tt); TimedOut].
Definition hasty_next : list (send_state * client_input) :=
  hasty_trace [Some [x64]] [Fed (Ok tt); Fed (Ok tt); Flushed (Ok tt); Got None].

Definition hasty_conn (after : list input) : list (conn * input) :=
  trace (resume (config sample_server)) conn_start
    (arrive (plan 3 sample_datas) ++ [InDispatched true; InElapsed; InSent (Ok tt);
       InAck (Some 2); InSent (Ok tt)] ++ after).

Lemma one_sendable level x : sendable sample_to_vec level [Some [x]] [[x]].
Proof. split; [repeat constructor|by split|]. intros _. repeat constructor; vm_compute; congruence. Qed.

Lemma hasty_sends_ok :
  sends_ok sample_to_vec hasty_client [sample_datas]
    (fed hasty_client hasty_first ++ []) (got hasty_first ++ []).
Proof.
  apply (sends_one _ _ sample_events _ _ 2); [apply sample_sendable| |constructor].
  by apply run_trace.
Qed.

Lemma cut_send_is_final_witness :
  let t := hasty_conn (arrive [Window 1; Window 1]) in
  content <$> dispatched (config sample_server) t = numbered <$> [sample_datas] ∧
  Forall (λ t2, ∀ evs2 d2 r, ¬ attempt sample_to_vec hasty_client evs2 d2 t2 (Returned (Ok r)))
    [hasty_cut; hasty_next] ∧
  (4 < 5 → Finished (Err (UnexpectedFrame "expected J or C inside window")) =
     Finished (Err (UnexpectedFrame "expected J or C inside window"))).
Proof.
  apply (cut_send_is_final sample_to_vec hasty_client (config sample_server) [sample_datas]
    (fed hasty_client hasty_first ++ []) (got hasty_first ++ []) [Some [x63]] [[x63]] hasty_cut
    (Returned (Err WriteTimeout)) [hasty_next] (hasty_conn (arrive [Window 1; Window 1]))
    (Conn (Finished (Err (UnexpectedFrame "expected J or C inside window"))) 1)).
  - apply sample_max_ok.
  - apply hasty_sends_ok.
  - repeat constructor; vm_compute; congruence.
  - split; [apply one_sendable|]. by apply run_trace.
  - discriminate.
  - discriminate.
  - apply Forall_singleton. exists [Some [x64]], [[x64]], (Returned (Err ConnectionClosed)).
    split; [apply one_sendable|]. by apply run_trace.
  - by apply run_trace.
  - repeat constructor.
  - eexists. vm_compute. reflexivity.
  - eexists. vm_compute. reflexivity.
Defined.

(** The same client gives a batch up while it waits; its next one takes the late acknowledgement of
    that for its own; then it sends a larger one. *)
Definition hasty_late : list (send_state * client_input) :=
  hasty_trace [Some [x63]] [Fed (Ok tt); Fed (Ok tt); Flushed (Ok tt); Got (Some (Ok (Ack 0))); TimedOut].
Definition hasty_misled : list (send_state * client_input) :=
  hasty_trace [Some [x64]] ([Fed (Ok tt); Fed (Ok tt); Flushed (Ok tt)] ++ gets [Ack 1]).
Definition hasty_larger : list (send_state * client_input) :=
  hasty_trace sample_events ([Fed (Ok tt); Fed (Ok tt); Flushed (Ok tt)] ++ gets [Ack 1; Ack 2]).

Definition hasty_late_conn : list (conn * input) :=
  trace (resume (config sample_server)) conn_start
    (arrive (plan 3 [[x63]]) ++ [InDispatched true; InElapsed; InSent (Ok tt); InAck (Some 1);
       InSent (Ok tt)] ++ arrive (plan 3 [[x64]]) ++ [InDispatched true; InAck (Some 1);
       InSent (Ok tt)] ++ arrive (plan 3 sample_datas) ++ [InDispatched true; InAck (Some 2);
       InSent (Ok tt)]).

Lemma larger_batch_recovers_witness :
  content <$> dispatched (config sample_server) hasty_late_conn =
    numbered <$> [[[x63]]; [[x64]]; sample_datas].
Proof.
  apply (larger_batch_recovers sample_to_vec hasty_client (config sample_server) [] [] []
    [hasty_late; hasty_misled] [[[x63]]; [[x64]]] sample_events sample_datas
    hasty_larger 2 hasty_late_conn (Conn AwaitWindow 3)).
  - apply sample_max_ok.
  - constructor.
  - repeat constructor; vm_compute; congruence.
  - apply Forall2_cons. split; [|apply Forall2_cons; split; [|constructor]].
    + split; [|reflexivity]. exists [Some [x63]], (Returned (Err AckTimeout)).
      split; [apply one_sendable|]. by apply run_trace.
    + split; [|reflexivity]. exists [Some [x64]], (Returned (Ok 1)).
      split; [apply one_sendable|]. by apply run_trace.
  - split; [apply sample_sendable|]. by apply run_trace.
  - repeat constructor.
  - by apply run_trace.
  - repeat constructor.
  - exists []. vm_compute. reflexivity.
  - exists []. vm_compute. reflexivity.
Defined.
