(* ===== verification/Network.v ===== *)
(** * Network: many clients and the whole server, over byte streams

    The composition of Client.v, Codec.v and Server.v.  A [link] is a client and the two byte
    streams of its connection; a [net] is the server's [world] and its links.  A [feed] appends the
    encoding of the frame to a stream, bytes arrive at the other end in pieces of any size, and a
    [next] decodes what has arrived; the calls that fail, time out or end a stream may do so at
    any moment, and bytes may never arrive.  Clients, handlers, consumer and accept loop take
    their steps in any order.  Nothing links the two ends but the bytes: the server's part of an
    execution ([served]) is an execution of Server.v, and [started] are the [send]s of one
    client.

    A link begins when the server accepts the connection; what a client does before that commutes
    with it.  The bytes are those above TLS.  A client may call [send] at any time, whatever became
    of the last one: it returned [Ok], it failed or timed out, or its future was dropped.  The
    full guarantees are for the clients that are [orderly]; of any client the server delivers whole
    batches only, in order and once ([exec_faithful]).  System.v and Abandon.v show what happens to
    one that goes on after a [send] that did not return [Ok].  A frame of the handler whose
    [framed.send] fails may reach the client all the same ([ServerFails]). *)

From stdpp Require Import gmap.
From S2P Require Import Prelude Errors Zlib Frame Codec Task Batch Connection Client Server System.
From S2P Require Import Abandon.

(** ** A stream in one direction: the bytes under way and those that have arrived *)
Record pipe : Type := Pipe { under_way : bytes; arrived : bytes }.

Definition pipe_empty : pipe := Pipe [] [].

Section network.
Context `{Zlib}.

Definition pipe_feed (c : LumberjackCodec) (f : Frame) (p : pipe) : option pipe :=
  match codec_encode c f (under_way p) with
  | (Ok _, bs) => Some (Pipe bs (arrived p))
  | _ => None
  end.

Definition pipe_arrive (k : nat) (p : pipe) : pipe :=
  Pipe (drop k (under_way p)) (arrived p ++ take k (under_way p)).

Definition pipe_next (c : LumberjackCodec) (p : pipe) : option (Frame * pipe) :=
  match codec_decode c (arrived p) with
  | (Ok (Some f), rest) => Some (f, Pipe (under_way p) rest)
  | _ => None
  end.

(** ** The links *)

Context {T : Type} (to_vec : T → string + bytes).
Context {TlsAcceptor : Type} (b : ServerBuilder TlsAcceptor).

(** A client, the state of its last [send] that came to write something (or of the call in whose
    favour that one was dropped), and its streams. *)
Record link : Type := Link {
  l_client : Client;
  l_send : send_state;
  l_up : pipe;
  l_down : pipe;
}.

Definition link_start (client : Client) : link :=
  Link client (Returned (Ok 0)) pipe_empty pipe_empty.

Inductive link_event : Type :=
| Send (evs : list T)              (* the client calls [send]; one under way is dropped *)
| ClientFeeds                      (* its [framed.feed] succeeds *)
| ClientNext                       (* its [framed.next] yields a frame *)
| ClientOther (i : client_input)   (* any other result of the call it awaits *)
| UpArrives (k : nat)              (* bytes arrive at the server *)
| DownArrives (k : nat)            (* bytes arrive at the client *)
| ServerNext                       (* the handler's [framed.next] yields a frame *)
| ServerSends                      (* the handler's [framed.send] succeeds *)
| ServerFails (r : outcome Error unit).  (* it fails, its frame written, in part or not at all *)

Definition set_send (st : send_state) (l : link) : link :=
  Link (l_client l) st (l_up l) (l_down l).
Definition set_up (p : pipe) (l : link) : link := Link (l_client l) (l_send l) p (l_down l).
Definition set_down (p : pipe) (l : link) : link := Link (l_client l) (l_send l) (l_up l) p.

Definition client_other (i : client_input) : bool :=
  match i with
  | Fed (Ok _) | Got (Some (Ok _)) => false
  | _ => true
  end.

(** The client goes on with an input. *)
Definition client_step (i : client_input) (l : link) : option link :=
  st ← send_resume (l_client l) (l_send l) i; Some (set_send st l).

(** The codec of the handlers. *)
Definition server_codec : LumberjackCodec := with_max_frame_size (s_max_frame_size b).

(** A step of a link whose handler awaits [req]: the link after it, and the input of the handler
    if it is a step of the handler.  When a [framed.send] fails, its bytes are under way, and as
    many of them arrive as were written. *)
Definition link_step (req : option request) (l : link) (e : link_event) :
    option (link * option input) :=
  match e with
  | Send evs =>
      match send_start to_vec evs, l_send l with
      | Returned _, Returned _ => Some (l, None)
      | st, _ => Some (set_send st l, None)
      end
  | ClientFeeds =>
      match send_request (l_client l) (l_send l) with
      | WantFeed f _ =>
          up ← pipe_feed codec_new f (l_up l);
          l' ← client_step (Fed (Ok tt)) l;
          Some (set_up up l', None)
      | _ => None
      end
  | ClientNext =>
      '(f, down) ← pipe_next codec_new (l_down l);
      l' ← client_step (Got (Some (Ok f))) l;
      Some (set_down down l', None)
  | ClientOther i =>
      if client_other i then (λ l', (l', None)) <$> client_step i l else None
  | UpArrives k => Some (set_up (pipe_arrive k (l_up l)) l, None)
  | DownArrives k => Some (set_down (pipe_arrive k (l_down l)) l, None)
  | ServerNext =>
      '(f, up) ← pipe_next server_codec (l_up l);
      Some (set_up up l, Some (InNext (Some (Ok f))))
  | ServerSends =>
      match req with
      | Some (ReqSend f) =>
          down ← pipe_feed server_codec f (l_down l); Some (set_down down l, Some (InSent (Ok tt)))
      | _ => None
      end
  | ServerFails r =>
      match r, req with
      | Ok _, _ => None
      | _, Some (ReqSend f) =>
          down ← pipe_feed server_codec f (l_down l); Some (set_down down l, Some (InSent r))
      | _, _ => None
      end
  end.

(** ** The network *)

Record net : Type := Net { n_world : world; n_links : gmap nat link }.

Inductive net_event : Type :=
| Connect (client : Client)
| Serve (e : event)
| OnLink (id : nat) (e : link_event).

Definition net_start : net := Net world_start ∅.

(** The events of the server that are not about the frames of a link. *)
Definition server_other (e : event) : bool :=
  match e with
  | Accept | Handle _ (InNext (Some (Ok _))) | Handle _ (InSent _) => false
  | _ => true
  end.

Definition request_at (w : world) (id : nat) : option request :=
  match handlers w !! id with
  | Some (Serving c) => Some (request_of (config b) c)
  | _ => None
  end.

Definition net_step (n : net) (e : net_event) : option net :=
  match e with
  | Connect client =>
      w ← server_step b (n_world n) Accept;
      Some (Net w (<[next_id (n_world n) := link_start client]> (n_links n)))
  | Serve e =>
      if server_other e then w ← server_step b (n_world n) e; Some (Net w (n_links n)) else None
  | OnLink id e =>
      l ← n_links n !! id;
      '(l', i) ← link_step (request_at (n_world n) id) l e;
      w ← match i with
          | Some i => server_step b (n_world n) (Handle id i)
          | None => Some (n_world n)
          end;
      Some (Net w (<[id := l']> (n_links n)))
  end.

(** The server's part of an execution. *)
Definition served_by (x : net * net_event) : list (world * event) :=
  match x.2 with
  | Connect _ => [(n_world x.1, Accept)]
  | Serve e => [(n_world x.1, e)]
  | OnLink id e =>
      match l ← n_links x.1 !! id; link_step (request_at (n_world x.1) id) l e with
      | Some (_, Some i) => [(n_world x.1, Handle id i)]
      | _ => []
      end
  end.

Definition served (t : list (net * net_event)) : list (world * event) := t ≫= served_by.

(** The batches whose [send] by the client [id] came to write something. *)
Definition starts (e : link_event) : list (list T) :=
  match e with
  | Send evs => match send_start to_vec evs with Returned _ => [] | _ => [evs] end
  | _ => []
  end.

Definition started_by (id : nat) (x : net * net_event) : list (list T) :=
  match x.2 with
  | OnLink id' e => if bool_decide (id = id') then starts e else []
  | _ => []
  end.

Definition started (id : nat) (t : list (net * net_event)) : list (list T) :=
  t ≫= started_by id.

(** A batch that the server accepts from the client: it fits, and so does its compression. *)
Record batch_accepted (client : Client) (evs : list T) (d : list bytes) : Prop := {
  bo_sendable : sendable to_vec (compression_level client) evs d;
  bo_fits : batch_fits (s_max_frame_size b) d;
  bo_compressed :
    0 < compression_level client →
    frame_ok (s_max_frame_size b) (Compressed (wires (json_of <$> number 1 d)));
}.

(** A client that keeps to the protocol: it calls [send] when the last one returned [Ok], not after
    one that failed, timed out or was dropped, and with batches that the server accepts. *)
Definition patient_by (id : nat) (x : net * net_event) : bool :=
  match x.2 with
  | OnLink id' (Send _) =>
      negb (bool_decide (id = id')) ||
        match l_send <$> n_links x.1 !! id with
        | Some (Returned (Ok _)) => true
        | _ => false
        end
  | _ => true
  end.

Definition patient (id : nat) (t : list (net * net_event)) : bool := forallb (patient_by id) t.

Record orderly (client : Client) (id : nat) (t : list (net * net_event)) : Prop := Orderly {
  or_patient : patient id t = true;
  or_accepted : Forall (λ evs, ∃ d, batch_accepted client evs d) (started id t);
}.

Lemma orderly_nil client id : orderly client id [].
Proof. split; [done|constructor]. Qed.

Lemma orderly_app client id t t' :
  orderly client id (t ++ t') ↔ orderly client id t ∧ orderly client id t'.
Proof.
  assert (Hst : started id (t ++ t') = started id t ++ started id t') by apply bind_app.
  split.
  - intros [Hp Ha]. unfold patient in Hp. rewrite forallb_app in Hp. rewrite Hst in Ha.
    apply andb_true_iff in Hp as [? ?]. apply Forall_app in Ha as [? ?]. by repeat split.
  - intros [[Hp Ha] [Hp' Ha']]. split; [unfold patient in *; by rewrite forallb_app, Hp, Hp'|].
    rewrite Hst. by apply Forall_app.
Qed.

(** A step that is no [send] of the client. *)
Lemma orderly_other client id x :
  (∀ evs, x.2 ≠ OnLink id (Send evs)) → orderly client id [x].
Proof.
  destruct x as [n [c|e|id' e]]; intros Hx; [split; [done|constructor]..|].
  destruct (decide (id = id')) as [<-|Hne].
  - destruct e; try (split; [done|unfold started; simpl; unfold started_by; simpl;
      case_bool_decide; constructor]). by destruct (Hx evs).
  - split.
    + unfold patient, patient_by. destruct e; try done. simpl. by rewrite bool_decide_false.
    + unfold started. simpl. unfold started_by. simpl. rewrite bool_decide_false by done.
      constructor.
Qed.

(** A [send] of the client. *)
Lemma orderly_send client id n evs :
  orderly client id [(n, OnLink id (Send evs))] →
  (∃ l r, n_links n !! id = Some l ∧ l_send l = Returned (Ok r)) ∧
  Forall (λ evs, ∃ d, batch_accepted client evs d) (starts (Send evs)).
Proof.
  intros [Hp Ha]. cbn [patient forallb patient_by snd] in Hp. rewrite bool_decide_true in Hp by done.
  unfold started, started_by in Ha. cbn [mbind list_bind snd] in Ha.
  rewrite bool_decide_true, app_nil_r in Ha by done. split; [|done].
  destruct (n_links n !! id) as [l|] eqn:Hl; cbn [fst] in Hp; rewrite Hl in Hp; [|done].
  simpl in Hp. exists l. destruct (l_send l) as [| | | | |[r| |]]; try done. by exists r.
Qed.

(** ** The streams *)

(** The frames whose bytes are in the stream. *)
Definition carrying (fs : list Frame) (p : pipe) : Prop := wires fs = arrived p ++ under_way p.

Lemma carrying_feed c f fs p p' :
  carrying fs p → pipe_feed c f p = Some p' → carrying (fs ++ [f]) p'.
Proof.
  unfold carrying, pipe_feed. rewrite codec_encode_total, wires_app. intros ->.
  assert (Hf : wires [f] = wire f) by (unfold wires; simpl; by rewrite app_nil_r).
  rewrite Hf, <- app_assoc. destruct f; try destruct feature_compression; by intros [= <-].
Qed.

Lemma carrying_arrive k fs p : carrying fs p → carrying fs (pipe_arrive k p).
Proof. unfold carrying. simpl. intros ->. by rewrite <- app_assoc, take_drop. Qed.

Lemma carrying_next `{!ZlibOk _} c fs p f p' :
  usize (max_frame_size c) → Forall (frame_ok (max_frame_size c)) fs → carrying fs p →
  pipe_next c p = Some (f, p') → ∃ fs', fs = f :: fs' ∧ carrying fs' p'.
Proof.
  intros Hmax Hfs Hp. unfold pipe_next.
  destruct (codec_decode c (arrived p)) as [[[g|]|e|e] rest] eqn:Hd; try done.
  intros [= <- <-].
  destruct (decode_next_wire c _ _ _ _ _ Hmax Hfs (eq_sym Hp) Hd) as (fs' & -> & Hr).
  by exists fs'.
Qed.

(** ** The client's side of a link

    After the [send]s [evss]: the batches [ds] whose [send] returned [Ok], the one that is being
    sent, if any, and the frames fed and received. *)
Inductive history (client : Client) : list (list T) → send_state → list (list bytes) →
    list (list bytes) → list Frame → list Frame → Prop :=
| history_fresh : history client [] (Returned (Ok 0)) [] [] [] []
| history_send evss ds f g evs d t st :
    Forall2 (batch_accepted client) evss ds → sends_ok to_vec client ds f g → batch_accepted client evs d →
    Task.exec (send_resume client) (send_start to_vec evs) t st →
    history client (evss ++ [evs]) st ds [d] (f ++ fed client t) (g ++ got t).

Lemma history_step client evss st ds more fs gs i st' :
  history client evss st ds more fs gs → send_resume client st i = Some st' →
  history client evss st' ds more (fs ++ fed_by client (st, i)) (gs ++ got_by (st, i)).
Proof.
  destruct 1 as [|evss ds f g evs d t st Hds Hs Hd Hx]; [done|]. intros Hr.
  rewrite <- !app_assoc. unfold fed, got. rewrite <- !bind_snoc.
  apply (history_send client evss ds f g evs d (t ++ [(st, i)])); [done..|]. by eapply exec_snoc.
Qed.

(** When the last [send] has returned [Ok], all have. *)
Lemma history_returned client evss r ds more fs gs :
  history client evss (Returned (Ok r)) ds more fs gs →
  Forall2 (batch_accepted client) evss (ds ++ more) ∧ sends_ok to_vec client (ds ++ more) fs gs.
Proof.
  inversion 1 as [|evss' ? f g evs d t st Hds Hs Hd Hx]; subst; [by repeat constructor|].
  split; [by apply Forall2_app; [|constructor]|]. by eapply sends_snoc; [exact Hs|apply Hd|].
Qed.

(** What [send] returned is the size of its batch. *)
Lemma history_result client evss r ds more fs gs :
  history client evss (Returned (Ok r)) ds more fs gs →
  r = default 0 (len <$> last (ds ++ more)).
Proof.
  inversion 1 as [|evss' ? f g evs d t st Hds Hs Hd Hx]; subst; [done|].
  rewrite last_snoc. rewrite (send_start_ok _ _ _ _ (bo_sendable _ _ _ Hd)) in Hx.
  by eapply exec_acked in Hx as [-> _].
Qed.

Lemma history_next client evss r ds more fs gs evs d :
  history client evss (Returned (Ok r)) ds more fs gs → batch_accepted client evs d →
  history client (evss ++ [evs]) (send_start to_vec evs) (ds ++ more) [d] fs gs.
Proof.
  intros [Hds Hs]%history_returned Hd.
  rewrite <- (app_nil_r fs), <- (app_nil_r gs).
  apply (history_send client evss (ds ++ more) fs gs evs d []); [done..|]. constructor.
Qed.

(** What the client has fed belongs to its batches, and what made its earlier [send]s return is
    a part of what it has received. *)
Lemma history_links client evss st ds more fs gs :
  history client evss st ds more fs gs →
  Forall2 (batch_accepted client) evss (ds ++ more) ∧ (length more <= 1)%nat ∧
  ∃ f g, sends_ok to_vec client ds f g ∧ g `prefix_of` gs ∧
    fs `prefix_of` f ++ plans (compression_level client) more.
Proof.
  destruct 1 as [|evss ds f g evs d t st Hds Hs Hd Hx].
  - split; [constructor|]. split; [simpl; lia|]. exists [], []. split; [constructor|].
    split; apply prefix_nil.
  - split; [by apply Forall2_app; [|constructor]|]. split; [simpl; lia|]. exists f, g.
    split; [done|]. split; [by eexists|]. apply prefix_app.
    pose proof (bo_sendable _ _ _ Hd) as Hsend. rewrite (send_start_ok _ _ _ _ Hsend) in Hx.
    destruct (exec_feeds _ _ _ _ _ _ _ _ Hsend (to_feed_start client d) Hx) as (rest & Hp & _).
    exists rest. by rewrite <- Hp, plans_cons, app_nil_r.
Qed.

(** A frame of a session does not end its handler. *)
Lemma handle_frame level ds tw w w' id f :
  usize (s_max_frame_size b) → Forall (batch_fits (s_max_frame_size b)) ds →
  Task.exec (server_step b) world_start tw w →
  frames_in (conn_trace id tw) ++ [f] `prefix_of` plans level ds →
  handle b id (InNext (Some (Ok f))) w = Some w' →
  ∃ c, handlers w' !! id = Some (Serving c).
Proof.
  intros Hmax Hfits Hx [z Hpre] Hs. rewrite <- app_assoc in Hpre.
  destruct (handle_conn b _ _ _ _ Hs) as (c & c' & Hc & Hr & _).
  destruct (exec_projects b _ _ id Hx) as (c1 & Hxc & Hho & _ & Heq & _).
  pose proof (Heq _ Hc) as <-.
  destruct (exec_session (config b) level ds _ c Hmax Hfits Hxc Hho)
    as [done todo rest -> Hrest _ Hst]; [by rewrite Hpre; eexists|].
  rewrite Hpre in Hrest. apply app_inv_head in Hrest as <-. apply Forall_app in Hfits as [_ Hfits].
  destruct (session_frame (config b) level _ _ _ _ _ _ _ Hmax Hfits Hst Hr) as [Hl _].
  exists c'. unfold handle, resume_handler in Hs. rewrite Hc, Hr in Hs. cbn [mbind option_bind] in Hs.
  assert (Hw : set_handler id (Serving c') w = w').
  { destruct (c_state c) eqn:Hcs; unfold resume in Hr; rewrite Hcs in Hr; try done;
      unfold live in Hl; destruct (c_state c'); try done; by injection Hs. }
  rewrite <- Hw. apply lookup_insert_eq.
Qed.

(** ** The invariant of a link

    [tr] is the run of the handler: what the client has fed has been received or is in the stream
    up, what the handler has written was received or is in the stream down. *)
Inductive link_ok (l : link) (evss : list (list T)) (tr : list (conn * input)) : Prop :=
| LinkOk ds more gs F G :
    history (l_client l) evss (l_send l) ds more (frames_in tr ++ F) gs →
    carrying F (l_up l) → written (config b) tr = gs ++ G → carrying G (l_down l) →
    link_ok l evss tr.

Lemma batch_accepted_plan client evs d :
  usize (s_max_frame_size b) → batch_accepted client evs d →
  Forall (frame_ok (s_max_frame_size b)) (plan (compression_level client) d).
Proof.
  intros Hmax [Hs Hf Hc]. unfold plan, body.
  constructor; [unfold frame_ok, u32; destruct Hf; lia|].
  destruct (Z.ltb_spec 0 (compression_level client)); [by repeat constructor; apply Hc|].
  apply Forall_fmap. by apply (fits_items (config b)).
Qed.

Lemma plans_ok client evss ds :
  usize (s_max_frame_size b) → Forall2 (batch_accepted client) evss ds →
  Forall (batch_fits (s_max_frame_size b)) ds ∧
  Forall (frame_ok (s_max_frame_size b)) (plans (compression_level client) ds).
Proof.
  intros Hmax. induction 1 as [|evs d evss ds Hd _ [IH1 IH2]]; [by split; constructor|].
  split; [constructor; [apply Hd|done]|]. apply Forall_app_2; [|done]. by eapply batch_accepted_plan.
Qed.

(** The frames the client has fed are the first of its batches. *)
Lemma history_plans client evss st ds more fs gs :
  history client evss st ds more fs gs →
  Forall2 (batch_accepted client) evss (ds ++ more) ∧
  fs `prefix_of` plans (compression_level client) (ds ++ more).
Proof.
  intros Hh. destruct (history_links _ _ _ _ _ _ _ Hh) as (Hds & _ & f & g & Hs & _ & Hf).
  split; [done|]. by rewrite plans_app, <- (sends_fed _ _ _ _ _ Hs).
Qed.

(** What a handler in a session sends are acknowledgements that any client accepts. *)
Lemma sent_acks cfg tr f : f ∈ written cfg tr → ∃ s, f = Ack s.
Proof.
  intros ([c i] & Hf & _)%list_elem_of_bind. unfold written_by, request_of in Hf. cbn [fst snd] in Hf.
  destruct (c_state c), i as [| | | |[]]; simpl in Hf; try by apply elem_of_nil in Hf.
  all: apply list_elem_of_singleton in Hf; eauto.
Qed.

Lemma real_acks_elem s fs : Ack s ∈ fs → s ≠ 0 → s ∈ real_acks fs.
Proof.
  intros Hf Hs. apply list_elem_of_bind. exists (Ack s). split; [|done]. simpl.
  rewrite (proj2 (Z.eqb_neq _ _)) by done. by left.
Qed.

Lemma session_sends max level ds tr c :
  usize (s_max_frame_size b) → Forall (batch_fits (s_max_frame_size b)) ds →
  Task.exec (resume (config b)) conn_start tr c → Forall honest tr →
  frames_in tr `prefix_of` plans level ds → Forall (frame_ok max) (written (config b) tr).
Proof.
  intros Hmax Hfits Hx Hh Hin.
  destruct (exec_session (config b) level ds tr c Hmax Hfits Hx Hh Hin)
    as [done todo rest -> _ _ Hst].
  apply acked_prefix in Hst as [k Hk]. apply Forall_app in Hfits as [Hfits _].
  apply Forall_forall. intros f Hf.
  destruct (sent_acks _ _ _ Hf) as [s ->]. simpl. destruct (decide (s = 0)) as [->|Hs]; [done|].
  pose proof (real_acks_elem _ _ Hf Hs) as Hin'.
  rewrite Hk in Hin'. apply list_elem_of_fmap in Hin' as (d & -> & Hd).
  rewrite Forall_forall in Hfits. destruct (Hfits d) as [? _]; [|unfold u32; lia].
  rewrite <- (take_drop k done). apply elem_of_app. by left.
Qed.

(** The client goes on with an input, and its streams change accordingly. *)
Lemma link_client_ok l evss tr i st up down :
  link_ok l evss tr → send_resume (l_client l) (l_send l) i = Some st →
  (∀ F, carrying F (l_up l) → carrying (F ++ fed_by (l_client l) (l_send l, i)) up) →
  (∀ G, Forall (λ f, f ∈ written (config b) tr) G → carrying G (l_down l) →
     ∃ G', G = got_by (l_send l, i) ++ G' ∧ carrying G' down) →
  link_ok (Link (l_client l) st up down) evss tr.
Proof.
  intros [ds more gs F G Hh Hup Hsent Hdown] Hr Hup' Hdown'.
  pose proof (history_step _ _ _ _ _ _ _ _ _ Hh Hr) as Hh'. rewrite <- app_assoc in Hh'.
  destruct (Hdown' G) as (G' & -> & HG'); [|done|].
  { apply Forall_forall. intros f Hf. rewrite Hsent. apply elem_of_app. by right. }
  econstructor; [exact Hh'|by apply Hup'| |exact HG']. by rewrite Hsent, app_assoc.
Qed.

Lemma link_send_ok l evss tr evs r :
  link_ok l evss tr → l_send l = Returned (Ok r) →
  (∃ d, batch_accepted (l_client l) evs d) →
  link_ok (set_send (send_start to_vec evs) l) (evss ++ [evs]) tr.
Proof.
  intros [ds more gs F G Hh Hup Hsent Hdown] Hst [d Hd]. rewrite Hst in Hh.
  econstructor; [by apply (history_next _ _ _ _ _ _ _ evs d Hh)|done..].
Qed.

(** The steps of the client. *)
Lemma link_step_client_ok `{!ZlibOk _} req l evss tr e l' :
  link_ok l evss tr → Forall (frame_ok DEFAULT_MAX_FRAME_SIZE) (written (config b) tr) →
  Forall (λ evs, ∃ d, batch_accepted (l_client l) evs d) (starts e) →
  (∀ evs, e = Send evs → ∃ r, l_send l = Returned (Ok r)) →
  link_step req l e = Some (l', None) → link_ok l' (evss ++ starts e) tr.
Proof.
  intros Hl Hacks Hstart Hpat Hs.
  destruct e as [evs| | |i1|k|k| | |r1]; simpl in Hs, Hstart |- *; rewrite ?app_nil_r.
  - destruct (Hpat evs eq_refl) as [r Hst]. rewrite Hst in Hs.
    pose proof (link_send_ok l evss tr evs r Hl Hst) as Hsend.
    destruct (send_start to_vec evs); injection Hs as <-; try (by rewrite app_nil_r);
      by apply Hsend, (Forall_singleton (λ evs, ∃ d, batch_accepted (l_client l) evs d)).
  - destruct (send_request _ _) as [f to| | |] eqn:Hw; try done.
    destruct (pipe_feed _ f (l_up l)) as [up|] eqn:Hp; [|done]. cbn [mbind option_bind] in Hs.
    unfold client_step in Hs. destruct (send_resume _ _ _) as [st|] eqn:Hr; [|done].
    injection Hs as <-. apply (link_client_ok l evss tr _ st up _ Hl Hr); [|by eauto].
    intros F HF. unfold fed_by. cbn [fst snd]. rewrite Hw. by eapply carrying_feed.
  - destruct (pipe_next _ (l_down l)) as [[f down]|] eqn:Hp; [|done].
    cbn [mbind option_bind] in Hs. unfold client_step in Hs.
    destruct (send_resume _ _ _) as [st|] eqn:Hr; [|done]. injection Hs as <-.
    apply (link_client_ok l evss tr _ st _ down Hl Hr).
    + intros F HF. unfold fed_by. cbn [fst snd]. destruct (send_request _ _); by rewrite app_nil_r.
    + intros G HG Hdown. rewrite Forall_forall in Hacks.
      apply (carrying_next codec_new G (l_down l)); [done| |done|done].
      eapply Forall_impl; [exact HG|]. intros g. apply Hacks.
  - destruct (client_other i1) eqn:Ho; [|done]. unfold client_step in Hs.
    destruct (send_resume _ _ _) as [st|] eqn:Hr; [|done]. injection Hs as <-.
    assert (Hnone : fed_by (l_client l) (l_send l, i1) = [] ∧ got_by (l_send l, i1) = []).
    { unfold fed_by, got_by. cbn [fst snd].
      destruct (send_request _ _), i1 as [[]| |[[]|]|]; try done. }
    destruct Hnone as [Hf Hg].
    apply (link_client_ok l evss tr _ st _ _ Hl Hr); intros F; rewrite ?Hf, ?Hg, ?app_nil_r; eauto.
  - injection Hs as <-. destruct Hl. by econstructor; [done|apply carrying_arrive|..].
  - injection Hs as <-. destruct Hl. by econstructor; [done|done|done|apply carrying_arrive].
  - by destruct (pipe_next _ (l_up l)) as [[f up]|].
  - destruct req as [[]|]; try done. by destruct (pipe_feed _ f (l_down l)).
  - destruct r1, req as [[]|]; try done; by destruct (pipe_feed _ _ (l_down l)).
Qed.

(** The handler has handed a frame to [framed.send], which ended. *)
Lemma link_written_ok l evss tr c f down i :
  link_ok l evss tr → request_of (config b) c = ReqSend f →
  pipe_feed server_codec f (l_down l) = Some down → (∃ r, i = InSent r) →
  link_ok (set_down down l) evss (tr ++ [(c, i)]).
Proof.
  intros [ds more gs F G Hh Hup Hsent Hdown] Hc Hp [r ->].
  econstructor; [|exact Hup| |by eapply carrying_feed].
  - unfold frames_in. rewrite bind_snoc, app_nil_r. exact Hh.
  - unfold written. rewrite bind_snoc. unfold written_by at 2. simpl. rewrite Hc.
    fold (written (config b) tr). by rewrite Hsent, <- app_assoc.
Qed.

(** The steps of the handler. *)
Lemma link_step_handler_ok `{!ZlibOk _} l evss tr e l' i c :
  usize (s_max_frame_size b) → link_ok l evss tr →
  link_step (Some (request_of (config b) c)) l e = Some (l', Some i) →
  starts e = [] ∧ link_ok l' evss (tr ++ [(c, i)]).
Proof.
  intros Hmax Hl Hs.
  destruct e as [evs| | |i1|k|k| | |r1]; simpl in Hs; try done;
    try (by unfold client_step in Hs; simplify_option_eq; repeat case_match; simplify_option_eq).
  - destruct Hl as [ds more gs F G Hh Hup Hsent Hdown]. destruct (pipe_next _ (l_up l)) as [[f up]|] eqn:Hp; [|done]. injection Hs as <- <-.
    destruct (history_plans _ _ _ _ _ _ _ Hh) as [Hds [z Hpre]].
    apply (plans_ok _ _ _ Hmax) in Hds as [_ Hok]. rewrite Hpre in Hok.
    apply Forall_app in Hok as [[_ Hok]%Forall_app _].
    destruct (carrying_next server_codec F (l_up l) f up) as (F' & -> & Hup'); [done..|].
    split; [done|]. econstructor; [|exact Hup'| |exact Hdown].
    + unfold frames_in. rewrite bind_snoc, <- app_assoc. exact Hh.
    + unfold written. rewrite bind_snoc. unfold written_by at 2. simpl.
      destruct (request_of _ c); by rewrite app_nil_r.
  - destruct (request_of _ c) as [| | |f|] eqn:Hc; try done.
    destruct (pipe_feed _ f (l_down l)) as [down|] eqn:Hp; [|done]. injection Hs as <- <-.
    split; [done|]. eapply link_written_ok; eauto.
  - destruct (request_of _ c) as [| | |f|] eqn:Hc, r1 as [u|e|p]; try done;
      destruct (pipe_feed _ f (l_down l)) as [down|] eqn:Hp; try done; injection Hs as <- <-;
      (split; [done|]); eapply link_written_ok; eauto.
Qed.

Lemma link_step_ok `{!ZlibOk _} req l evss tr e l' i c :
  usize (s_max_frame_size b) → link_ok l evss tr →
  Forall (frame_ok DEFAULT_MAX_FRAME_SIZE) (written (config b) tr) →
  Forall (λ evs, ∃ d, batch_accepted (l_client l) evs d) (starts e) →
  (∀ evs, e = Send evs → ∃ r, l_send l = Returned (Ok r)) →
  link_step req l e = Some (l', i) → (i ≠ None → req = Some (request_of (config b) c)) →
  link_ok l' (evss ++ starts e) (tr ++ match i with Some i => [(c, i)] | None => [] end).
Proof.
  intros Hmax Hl Hacks Hstart Hpat Hs Hreq. destruct i as [i|].
  - rewrite Hreq in Hs by done.
    destruct (link_step_handler_ok l evss tr e l' i c Hmax Hl Hs) as [-> ?]. by rewrite app_nil_r.
  - rewrite app_nil_r. by eapply link_step_client_ok.
Qed.

(** ** The invariant of a link whose client goes on as it likes *)

(** What was fed of the batches [ds], each up to where its [send] was cut; the last one may be under
    way. *)
Inductive cut_sends (client : Client) : list (list bytes) → list Frame → send_state → Prop :=
| sends_at_rest ds fs r :
    cut_plans (compression_level client) ds fs → cut_sends client ds fs (Returned r)
| sends_under_way ds d evs fs fs' rest st :
    cut_plans (compression_level client) ds fs →
    sendable to_vec (compression_level client) evs d →
    plan (compression_level client) d = fs' ++ rest → to_feed client d st rest →
    cut_sends client (ds ++ [d]) (fs ++ fs') st.

Lemma cut_sends_plans client ds fs st :
  cut_sends client ds fs st → cut_plans (compression_level client) ds fs.
Proof. destruct 1; [done|by eapply cut_snoc]. Qed.

Lemma cut_sends_step client ds fs st i st' :
  cut_sends client ds fs st → send_resume client st i = Some st' →
  cut_sends client ds (fs ++ fed_by client (st, i)) st'.
Proof.
  destruct 1 as [ds fs r Hc|ds d evs fs fs' rest st Hc Hs Hp Hf]; [done|]. intros Hr.
  destruct (send_resume_feeds _ _ _ _ _ _ _ _ Hs Hf Hr) as (rest' & -> & Hf').
  rewrite <- app_assoc. eapply (sends_under_way client ds d evs); [done|done| |exact Hf'].
  by rewrite <- app_assoc.
Qed.

Inductive link_cut (l : link) (evss : list (list T)) (tr : list (conn * input)) : Prop :=
| LinkCut ds F :
    Forall2 (batch_accepted (l_client l)) evss ds →
    cut_sends (l_client l) ds (frames_in tr ++ F) (l_send l) → carrying F (l_up l) →
    link_cut l evss tr.

Lemma link_start_cut client : link_cut (link_start client) [] [].
Proof. by eapply (LinkCut _ _ _ [] []); [constructor|apply sends_at_rest; constructor|]. Qed.

(** A step of the client. *)
Lemma link_client_cut l evss tr i st up down :
  link_cut l evss tr → send_resume (l_client l) (l_send l) i = Some st →
  (∀ F, carrying F (l_up l) → carrying (F ++ fed_by (l_client l) (l_send l, i)) up) →
  link_cut (Link (l_client l) st up down) evss tr.
Proof.
  intros [ds F Hds Hc Hup] Hr Hup'. econstructor; [exact Hds| |by apply Hup'].
  rewrite app_assoc. by eapply cut_sends_step.
Qed.

Lemma link_send_cut l evss tr evs d :
  link_cut l evss tr → batch_accepted (l_client l) evs d →
  link_cut (set_send (send_start to_vec evs) l) (evss ++ [evs]) tr.
Proof.
  intros [ds F Hds Hc Hup] Hd. apply (LinkCut _ _ _ (ds ++ [d]) F); [|simpl|done].
  - by apply Forall2_app; [|constructor].
  - apply cut_sends_plans in Hc. rewrite <- (app_nil_r (_ ++ F)).
    eapply (sends_under_way _ ds d evs); [exact Hc|apply Hd|done|].
    rewrite (send_start_ok _ _ _ _ (bo_sendable _ _ _ Hd)). by apply to_feed_start.
Qed.

(** A step of the handler that receives nothing, and of the streams. *)
Lemma link_quiet_cut l evss tr tr' up down :
  link_cut l evss tr → frames_in tr' = [] → (∀ F, carrying F (l_up l) → carrying F up) →
  link_cut (Link (l_client l) (l_send l) up down) evss (tr ++ tr').
Proof.
  intros [ds F Hds Hc Hup] Htr Hup'. apply (LinkCut _ _ _ ds F); [done| |by apply Hup'].
  unfold frames_in in *. by rewrite bind_app, Htr, app_nil_r.
Qed.

Lemma link_step_cut `{!ZlibOk _} req l evss tr e l' i c :
  usize (s_max_frame_size b) → link_cut l evss tr →
  Forall (λ evs, ∃ d, batch_accepted (l_client l) evs d) (starts e) →
  link_step req l e = Some (l', i) →
  link_cut l' (evss ++ starts e) (tr ++ match i with Some i => [(c, i)] | None => [] end).
Proof.
  intros Hmax Hl Hstart Hs.
  assert (Hquiet : ∀ up down i, frames_in (match i with Some i => [(c, i)] | None => [] end) = [] →
    (∀ F, carrying F (l_up l) → carrying F up) →
    link_cut (Link (l_client l) (l_send l) up down) evss
      (tr ++ match i with Some i => [(c, i)] | None => [] end)) by (intros; by apply link_quiet_cut).
  destruct e as [evs| | |i1|k|k| | |r1]; simpl in Hs, Hstart |- *; rewrite ?app_nil_r.
  - assert (Hsame : link_cut l evss tr) by done.
    destruct (send_start to_vec evs) eqn:Hst;
      try (injection Hs as <- <-; rewrite app_nil_r, <- Hst; apply Forall_singleton in Hstart as [d Hd];
        by eapply link_send_cut).
    rewrite app_nil_r. destruct Hl as [ds F Hds Hc Hup].
    destruct (l_send l); injection Hs as <- <-; rewrite app_nil_r; try done;
      (apply (LinkCut _ _ _ ds F); [done| |done]); apply sends_at_rest; by eapply cut_sends_plans.
  - destruct (send_request _ _) as [f to| | |] eqn:Hw; try done.
    destruct (pipe_feed _ f (l_up l)) as [up|] eqn:Hp; [|done]. cbn [mbind option_bind] in Hs.
    unfold client_step in Hs. destruct (send_resume _ _ _) as [st|] eqn:Hr; [|done].
    injection Hs as <- <-. rewrite app_nil_r. apply (link_client_cut l evss tr _ st up _ Hl Hr).
    intros F HF. unfold fed_by. cbn [fst snd]. rewrite Hw. by eapply carrying_feed.
  - destruct (pipe_next _ (l_down l)) as [[f down]|] eqn:Hp; [|done].
    cbn [mbind option_bind] in Hs. unfold client_step in Hs.
    destruct (send_resume _ _ _) as [st|] eqn:Hr; [|done]. injection Hs as <- <-.
    rewrite app_nil_r. apply (link_client_cut l evss tr _ st _ down Hl Hr).
    intros F HF. unfold fed_by. cbn [fst snd]. destruct (send_request _ _); by rewrite app_nil_r.
  - destruct (client_other i1) eqn:Ho; [|done]. unfold client_step in Hs.
    destruct (send_resume _ _ _) as [st|] eqn:Hr; [|done]. injection Hs as <- <-.
    rewrite app_nil_r. apply (link_client_cut l evss tr _ st _ _ Hl Hr). intros F HF.
    assert (Hf : fed_by (l_client l) (l_send l, i1) = [])
      by (unfold fed_by; cbn [fst snd]; destruct (send_request _ _), i1 as [[]| |[[]|]|]; done).
    by rewrite Hf, app_nil_r.
  - injection Hs as <- <-. apply (Hquiet _ _ None); [done|]. intros F. apply carrying_arrive.
  - injection Hs as <- <-. by apply (Hquiet _ _ None).
  - destruct (pipe_next _ (l_up l)) as [[f up]|] eqn:Hp; [|done]. injection Hs as <- <-.
    destruct Hl as [ds F Hds Hc Hup]. pose proof (cut_sends_plans _ _ _ _ Hc) as Hcut.
    destruct (plans_ok _ _ _ Hmax Hds) as [_ Hok].
    pose proof (cut_frames _ _ _ _ Hcut Hok) as [_ HF]%Forall_app.
    destruct (carrying_next server_codec F (l_up l) f up) as (F' & -> & Hup'); [done..|].
    apply (LinkCut _ _ _ ds F'); [done| |done].
    unfold frames_in. rewrite bind_snoc, <- app_assoc. exact Hc.
  - destruct req as [[]|]; try done. destruct (pipe_feed _ f (l_down l)); [|done].
    injection Hs as <- <-. by apply (Hquiet _ _ (Some _)).
  - destruct r1, req as [[]|]; try done; (destruct (pipe_feed _ _ (l_down l)); [|done]);
      injection Hs as <- <-; by apply (Hquiet _ _ (Some _)).
Qed.

(** ** Executions of the network *)

(** A step of the network is a step of the server, or leaves it as it is. *)
Lemma net_step_served n e n' :
  net_step n e = Some n' →
  Task.exec (server_step b) (n_world n) (served_by (n, e)) (n_world n').
Proof.
  assert (Hone : ∀ w se w', server_step b w se = Some w' →
    Task.exec (server_step b) w [(w, se)] w') by (intros; econstructor; [done|constructor]).
  destruct e as [client|e|id e]; unfold served_by; cbn [fst snd net_step].
  - destruct (server_step b _ _) as [w|] eqn:Hs; [|done]. intros [= <-]. by apply Hone.
  - destruct (server_other e); [|done].
    destruct (server_step b _ _) as [w|] eqn:Hs; [|done]. intros [= <-]. by apply Hone.
  - destruct (n_links n !! id) as [l|]; [|done]. cbn [mbind option_bind].
    destruct (link_step _ l e) as [[l' [i|]]|]; [|intros [= <-]; constructor|done].
    cbn [mbind option_bind].
    destruct (server_step b _ _) as [w|] eqn:Hs; [|done]. intros [= <-]. by apply Hone.
Qed.

Lemma exec_served n t n' :
  Task.exec net_step n t n' → Task.exec (server_step b) (n_world n) (served t) (n_world n').
Proof.
  induction 1 as [n|n e n1 t n' Hs%net_step_served _ IH]; [constructor|].
  by eapply exec_trans.
Qed.

Lemma next_id_step w e w' : server_step b w e = Some w' → e ≠ Accept → next_id w' = next_id w.
Proof.
  intros Hs%server_step_inv He. destruct e as [| | |id f|id i| |k d| |]; simpl in Hs;
    try done; try (by destruct_and?; subst).
  - destruct Hs as [_ ->]. by destruct f.
  - by destruct (handle_batches b _ _ _ _ Hs) as (_ & _ & ? & _).
  - by destruct Hs as (_ & [[_ ->]|(p & q & _ & ->)]).
  - by destruct Hs as (p & _ & ->).
Qed.

(** What the server does on a connection apart from the frames of its link. *)
Lemma server_other_quiet id w e :
  server_other e = true →
  frames_in (conn_step id (w, e)) = [] ∧ written (config b) (conn_step id (w, e)) = [].
Proof.
  intros He. destruct (own_or_other id e) as [[i ->]|Hne].
  2: { by rewrite (proj1 (conn_step_other id w e Hne)). }
  unfold conn_step. cbn [fst snd]. destruct (handlers w !! id) as [[|c]|]; try done.
  rewrite bool_decide_true by done. unfold frames_in, written. simpl. rewrite !app_nil_r.
  unfold written_by. cbn [fst snd]. destruct (request_of _ c), i as [[[]|]| | | |[]]; done.
Qed.

(** A link in every reachable state; a connection that was not accepted has no run. *)
Definition linked (t : list (net * net_event)) (n : net) (id : nat) : Prop :=
  match n_links n !! id with
  | Some l => ((id < next_id (n_world n))%nat ∧
      (Forall (λ evs, ∃ d, batch_accepted (l_client l) evs d) (started id t) →
       link_cut l (started id t) (conn_trace id (served t)))) ∧
      (orderly (l_client l) id t → link_ok l (started id t) (conn_trace id (served t)))
  | None => (next_id (n_world n) <= id)%nat ∧
      started id t = [] ∧ conn_trace id (served t) = []
  end.

Lemma link_start_ok client : link_ok (link_start client) [] [].
Proof. by eapply (LinkOk _ _ _ [] [] [] [] []); [constructor|..]. Qed.

(** The frames that a handler has written are acknowledgements for its client. *)
Lemma link_sends t n id l evss :
  usize (s_max_frame_size b) → Task.exec net_step net_start t n →
  link_ok l evss (conn_trace id (served t)) →
  Forall (frame_ok DEFAULT_MAX_FRAME_SIZE) (written (config b) (conn_trace id (served t))).
Proof.
  intros Hmax Hx [ds more gs F G Hh _ _ _].
  destruct (exec_projects b _ _ id (exec_served _ t n Hx)) as (c & Hc & Hho & _).
  destruct (history_plans _ _ _ _ _ _ _ Hh) as [Hds Hpre].
  apply (plans_ok _ _ _ Hmax) in Hds as [Hfits _].
  eapply session_sends; [done..|]. by eapply prefix_app_l.
Qed.

Lemma link_step_trace t n id e l l' i w' :
  Task.exec net_step net_start t n → n_links n !! id = Some l →
  link_step (request_at (n_world n) id) l e = Some (l', i) →
  match i with
  | Some i => server_step b (n_world n) (Handle id i)
  | None => Some (n_world n)
  end = Some w' →
  ∃ c, (i ≠ None → request_at (n_world n) id = Some (request_of (config b) c)) ∧
    conn_trace id (served (t ++ [(n, OnLink id e)])) =
      conn_trace id (served t) ++ match i with Some i => [(c, i)] | None => [] end.
Proof.
  intros Hx Hl Hs Hw. unfold served, conn_trace. rewrite bind_snoc, bind_app.
  unfold served_by at 2. cbn [fst snd]. rewrite Hl. cbn [mbind option_bind]. rewrite Hs.
  destruct i as [i|]; [|by exists conn_start].
  simpl. rewrite app_nil_r. destruct (handle_conn b _ _ _ _ Hw) as (c & c' & Hc & _).
  exists c. unfold request_at, conn_step. cbn [fst snd]. rewrite Hc. split; [done|].
  by rewrite bool_decide_true.
Qed.

Lemma link_snoc id t x :
  started id (t ++ [x]) = started id t ++ started_by id x ∧
  conn_trace id (served (t ++ [x])) = conn_trace id (served t) ++ conn_trace id (served_by x).
Proof. split; [apply bind_snoc|]. unfold served, conn_trace. by rewrite bind_snoc, bind_app. Qed.

(** An event that is not about the connection [id]. *)
Lemma linked_elsewhere t n e n' id :
  linked t n id → started_by id (n, e) = [] → conn_trace id (served_by (n, e)) = [] →
  n_links n' !! id = n_links n !! id →
  (next_id (n_world n) <= next_id (n_world n'))%nat →
  (n_links n !! id = None → (next_id (n_world n') <= id)%nat) → linked (t ++ [(n, e)]) n' id.
Proof.
  unfold linked. destruct (link_snoc id t (n, e)) as [-> ->]. intros Hl -> -> -> Hle Hnext.
  rewrite !app_nil_r. destruct (n_links n !! id) as [l|]; [|by split; [apply Hnext|apply Hl]].
  destruct Hl as [[Hid Hcut] Hok]. split; [by split; [lia|]|].
  intros [Ho _]%orderly_app. by apply Hok.
Qed.

Lemma linked_connect t n client n' id :
  linked t n id → net_step n (Connect client) = Some n' →
  linked (t ++ [(n, Connect client)]) n' id.
Proof.
  intros IH Hs. cbn [net_step] in Hs.
  destruct (server_step b _ Accept) as [w|] eqn:Ha; [|done]. injection Hs as <-.
  apply server_step_inv in Ha as (_ & _ & ->).
  destruct (decide (id = next_id (n_world n))) as [->|Hne].
  - unfold linked in *. destruct (link_snoc (next_id (n_world n)) t (n, Connect client)) as [-> ->].
    simpl. rewrite lookup_insert_eq. destruct (n_links n !! _); [lia|].
    destruct IH as (_ & -> & ->). split; [split; [lia|]|]; intros _;
      [apply link_start_cut|apply link_start_ok].
  - apply linked_elsewhere; simpl; try done; [by apply lookup_insert_ne|lia|].
    intros Hl. unfold linked in IH. rewrite Hl in IH. lia.
Qed.

Lemma linked_serve t n e n' id :
  Task.exec net_step net_start t n → linked t n id → net_step n (Serve e) = Some n' →
  linked (t ++ [(n, Serve e)]) n' id.
Proof.
  intros Hx IH Hs. cbn [net_step] in Hs. destruct (server_other e) eqn:He; [|done].
  destruct (server_step b _ e) as [w|] eqn:Ha; [|done]. injection Hs as <-.
  pose proof (next_id_step _ _ _ Ha ltac:(by destruct e)) as Hn.
  assert (Htr : conn_trace id (served_by (n, Serve e)) = conn_step id (n_world n, e))
    by (unfold conn_trace; simpl; by rewrite app_nil_r).
  destruct (own_or_other id e) as [[i ->]|Hne].
  2: { apply linked_elsewhere; try done; [rewrite Htr; by apply conn_step_other|simpl; lia|].
       simpl. intros Hl. unfold linked in IH. rewrite Hl in IH. lia. }
  destruct (server_other_quiet id (n_world n) _ He) as [Hq1 Hq2].
  unfold linked in *. destruct (link_snoc id t (n, Serve (Handle id i))) as [-> ->].
  rewrite Htr. cbn [n_world n_links]. change (started_by id (n, _)) with (@nil (list T)).
  rewrite app_nil_r, Hn. destruct (n_links n !! id) as [l|].
  - destruct IH as [[Hid IHcut] IH]. split; [split; [done|]|].
    { intros Hf. destruct (IHcut Hf) as [ds F Hds Hc Hup]. apply (LinkCut _ _ _ ds F); [done| |done].
      unfold frames_in in *. by rewrite bind_app, Hq1, app_nil_r. }
    intros [Hf _]%orderly_app. destruct (IH Hf) as [ds more gs F G Hh Hup Hsent Hdown].
    apply (LinkOk _ _ _ ds more gs F G); [|done| |done].
    + unfold frames_in in *. by rewrite bind_app, Hq1, app_nil_r.
    + unfold written in *. by rewrite bind_app, Hq2, app_nil_r.
  - pose proof (exec_world_ok b _ _ (exec_served _ t n Hx)) as Hok.
    destruct (handle_conn b _ _ _ _ Ha) as (c & _ & Hc & _).
    pose proof (ck_ids _ _ _ _ (wk_chans _ _ Hok) _ _ Hc). lia.
Qed.

Lemma link_step_client req l e l' i : link_step req l e = Some (l', i) → l_client l' = l_client l.
Proof.
  unfold link_step, client_step. intros Hs.
  destruct e; repeat (case_hyp Hs; try done); simplify_option_eq; try done; repeat case_match;
    by simplify_option_eq.
Qed.

Lemma linked_link `{!ZlibOk _} t n id' e n' id :
  usize (s_max_frame_size b) → Task.exec net_step net_start t n → linked t n id →
  net_step n (OnLink id' e) = Some n' → linked (t ++ [(n, OnLink id' e)]) n' id.
Proof.
  intros Hmax Hx IH Hs. cbn [net_step] in Hs. destruct (n_links n !! id') as [l|] eqn:Hl; [|done].
  cbn [mbind option_bind] in Hs.
  destruct (link_step _ l e) as [[l' i]|] eqn:Hls; [|done]. cbn [mbind option_bind] in Hs.
  destruct (match i with Some _ => _ | None => _ end) as [w|] eqn:Hw; [|done]. injection Hs as <-.
  assert (Hn : next_id w = next_id (n_world n)).
  { destruct i; [|by injection Hw as ->]. by apply (next_id_step _ _ _ Hw). }
  destruct (decide (id = id')) as [<-|Hne].
  - unfold linked in *. destruct (link_step_trace t n id e l l' i w Hx Hl Hls Hw) as (c & Hreq & ->).
    rewrite (proj1 (link_snoc _ _ _)). unfold started_by. cbn [fst snd n_world n_links].
    rewrite lookup_insert_eq, bool_decide_true by done. rewrite Hl in IH. rewrite Hn.
    destruct IH as [[Hid IHcut] IH]. rewrite (link_step_client _ _ _ _ _ Hls). split; [split; [done|]|].
    { intros [Hf1 Hf2]%Forall_app. by eapply link_step_cut; [done|apply IHcut|..]. }
    intros [Hf1 Hf2]%orderly_app. specialize (IH Hf1).
    eapply link_step_ok; [done|done|by eapply link_sends| | |done..].
    + destruct e; try constructor. by apply orderly_send in Hf2 as [_ ?].
    + intros evs ->. apply orderly_send in Hf2 as [(l0 & r & Hl0 & Hr) _]. rewrite Hl in Hl0.
      injection Hl0 as <-. by exists r.
  - apply linked_elsewhere; simpl; [done| | |by apply lookup_insert_ne|lia|].
    + unfold started_by. simpl. by rewrite bool_decide_false.
    + unfold served_by. cbn [fst snd]. rewrite Hl. cbn [mbind option_bind]. rewrite Hls.
      destruct i as [i|]; [|done]. simpl. rewrite app_nil_r. apply conn_step_other. congruence.
    + intros Hnone. unfold linked in IH. rewrite Hnone in IH. lia.
Qed.

Lemma exec_linked `{!ZlibOk _} t n :
  usize (s_max_frame_size b) → Task.exec net_step net_start t n → ∀ id, linked t n id.
Proof.
  intros Hmax. revert t n. refine (exec_ind_last net_step net_start _ _ _).
  { intros id. split; [|done]. simpl. lia. }
  intros t n e n' Hx IH Hs id. specialize (IH id). destruct e.
  - by apply linked_connect.
  - by apply linked_serve.
  - by apply linked_link.
Qed.

(** The batches of a link in the server.  The theorem [network_delivers] says what it means. *)
Lemma exec_delivers `{!ZlibOk _} t n id l :
  usize (s_max_frame_size b) → Task.exec net_step net_start t n → n_links n !! id = Some l →
  orderly (l_client l) id t →
  let ps := filter (λ p : parcel, p.1 = id) (enqueued (served t)) in
  ∃ ds last later,
    Forall2 (batch_accepted (l_client l)) (started id t) (ds ++ last) ∧
    (length last <= 1)%nat ∧ later `prefix_of` last ∧
    content ∘ snd <$> ps = numbered <$> ds ++ later ∧
    Forall (λ p, p ∈ disposed (served t)) (take (length ds) ps) ∧
    (∀ r, l_send l = Returned (Ok r) → last = []).
Proof.
  intros Hmax Hx Hl Hok. pose proof (exec_linked t n Hmax Hx id) as Hlink.
  unfold linked in Hlink. rewrite Hl in Hlink. destruct Hlink as [_ Hlink].
  destruct (Hlink Hok) as [ds more gs F G Hh _ Hsent _]. set (tr := conn_trace id _) in *.
  pose proof (exec_served _ t n Hx) as Hsx.
  assert (Hcase : (∃ r, l_send l = Returned (Ok r)) ∨ ∀ r, l_send l ≠ Returned (Ok r))
    by (destruct (l_send l) as [| | | | |[]]; eauto).
  destruct Hcase as [[r Hr]|Hr].
  - rewrite Hr in Hh. apply history_returned in Hh as [Hds Hs].
    destruct (plans_ok _ _ _ Hmax Hds) as [Hfits _].
    destruct (sends_delivered to_vec (l_client l) b (ds ++ more) [] _ gs _ _ id Hmax Hs
      ltac:(by rewrite app_nil_r) Hsx) as (later & Hlater & Hps).
    { rewrite app_nil_r. by eexists. }
    { by eexists. }
    apply prefix_nil_inv in Hlater as ->. exists (ds ++ more), [], [].
    split; [by rewrite app_nil_r|]. split; [simpl; lia|]. split; [done|]. by destruct Hps.
  - destruct (history_links _ _ _ _ _ _ _ Hh) as (Hds & Hle & f & g & Hs & Hg & Hf).
    destruct (plans_ok _ _ _ Hmax Hds) as [Hfits _].
    destruct (sends_delivered to_vec (l_client l) b ds more f g _ _ id Hmax Hs Hfits Hsx)
      as (later & Hlater & Hps).
    { by eapply prefix_app_l. }
    { etrans; [exact Hg|]. by eexists. }
    exists ds, more, later. split; [done|]. split; [done|]. split; [done|].
    destruct Hps as [Hps1 Hps2]. split; [done|]. split; [done|]. naive_solver.
Qed.

(** The batches in the queue, whatever the client does. *)
Lemma exec_faithful `{!ZlibOk _} t n id l :
  usize (s_max_frame_size b) → Task.exec net_step net_start t n → n_links n !! id = Some l →
  Forall (λ evs, ∃ d, batch_accepted (l_client l) evs d) (started id t) →
  ∃ ds, Forall2 (batch_accepted (l_client l)) (started id t) ds ∧
    content ∘ snd <$> filter (λ p : parcel, p.1 = id) (enqueued (served t)) `sublist_of`
      numbered <$> ds.
Proof.
  intros Hmax Hx Hl Hok. pose proof (exec_linked t n Hmax Hx id) as Hlink.
  unfold linked in Hlink. rewrite Hl in Hlink. destruct Hlink as [[_ Hlink] _].
  destruct (Hlink Hok) as [ds F Hds Hc _]. exists ds. split; [done|].
  destruct (plans_ok _ _ _ Hmax Hds) as [Hfits _].
  destruct (exec_projects b _ _ id (exec_served _ t n Hx)) as (c & Hxc & _ & Hd & _).
  rewrite list_fmap_compose, <- Hd.
  eapply (exec_cut_plans (config b)); [exact Hmax|exact Hfits|by eapply cut_sends_plans|exact Hxc|].
  by eexists.
Qed.

End network.

(** What arrives decodes, and fails nobody.  The theorem [peers_understand] says what it means. *)
Lemma exec_understands `{Zlib, !ZlibOk _} {T} (to_vec : T → string + bytes) {TlsAcceptor}
    (b : ServerBuilder TlsAcceptor) t n id l :
  usize (s_max_frame_size b) →
  Task.exec (net_step to_vec b) net_start t n → n_links n !! id = Some l →
  orderly to_vec b (l_client l) id t →
  (∃ o, (codec_decode (server_codec b) (arrived (l_up l))).1 = Ok o) ∧
  (∃ o, (codec_decode codec_new (arrived (l_down l))).1 = Ok o ∧
     ∀ f, o = Some f → ∃ s, f = Ack s) ∧
  (∀ n', net_step to_vec b n (OnLink id ServerNext) = Some n' →
     ∃ c, handlers (n_world n') !! id = Some (Serving c)) ∧
  (∀ n', net_step to_vec b n (OnLink id ClientNext) = Some n' →
     ∃ l', n_links n' !! id = Some l' ∧
       ((∃ k, l_send l' = AwaitAcks k) ∨ ∃ k, l_send l' = Returned (Ok k))).
Proof.
  intros Hmax Hx Hl Hok. pose proof (exec_linked to_vec b t n Hmax Hx id) as Hlink.
  unfold linked in Hlink. rewrite Hl in Hlink. destruct Hlink as [_ Hlink]. specialize (Hlink Hok).
  pose proof (link_sends to_vec b t n id l _ Hmax Hx Hlink) as Hacks.
  destruct Hlink as [ds more gs F G Hh Hup Hsent Hdown]. set (tr := conn_trace id _) in *.
  destruct (history_plans _ _ _ _ _ _ _ _ _ Hh) as [Hds [z Hpre]].
  destruct (plans_ok _ _ _ _ _ Hmax Hds) as [Hfits Hplans].
  rewrite Hpre in Hplans. apply Forall_app in Hplans as [[_ HF]%Forall_app _].
  rewrite Hsent in Hacks. apply Forall_app in Hacks as [_ HG].
  assert (Hack : ∀ f G', G = f :: G' → ∃ s, f = Ack s).
  { intros f G' ->. apply (sent_acks (config b) tr). rewrite Hsent. apply elem_of_app. right. by left. }
  split; [|split; [|split]].
  - destruct (codec_decode _ (arrived (l_up l))) as [r rest] eqn:Hd.
    by eapply (decode_wire_ok (server_codec b)).
  - destruct (codec_decode _ (arrived (l_down l))) as [r rest] eqn:Hd.
    destruct (decode_wire_ok codec_new _ _ G r rest ltac:(done) HG (eq_sym Hdown) Hd) as [o ->].
    exists o. split; [done|]. intros f ->.
    destruct (decode_next_wire codec_new _ _ G f rest ltac:(done) HG (eq_sym Hdown) Hd)
      as (G' & HG' & _). exact (Hack f G' HG').
  - intros n' Hs. cbn [net_step] in Hs. rewrite Hl in Hs. cbn [mbind option_bind link_step] in Hs.
    destruct (pipe_next _ (l_up l)) as [[f up]|] eqn:Hp; [|done]. cbn [mbind option_bind] in Hs.
    destruct (server_step b _ _) as [w|] eqn:Hw; [|done]. injection Hs as <-. simpl.
    destruct (carrying_next (server_codec b) F (l_up l) f up Hmax HF Hup Hp) as (F' & -> & _).
    eapply (handle_frame b (compression_level (l_client l))); [exact Hmax|exact Hfits|exact (exec_served to_vec b _ t n Hx)| |exact Hw].
    exists (F' ++ z). rewrite Hpre. fold tr. by rewrite <- !app_assoc.
  - intros n' Hs. cbn [net_step] in Hs. rewrite Hl in Hs. cbn [mbind option_bind link_step] in Hs.
    destruct (pipe_next _ (l_down l)) as [[f down]|] eqn:Hp; [|done]. cbn [mbind option_bind] in Hs.
    destruct (carrying_next codec_new G (l_down l) f down ltac:(done) HG Hdown Hp) as (G' & HG' & _).
    destruct (Hack f G' HG') as [s ->]. unfold client_step in Hs.
    destruct (l_send l) as [| | | |k|]; try done. injection Hs as <-. simpl.
    eexists. split; [apply lookup_insert_eq|]. simpl. destruct (k <=? s); eauto.
Qed.

(** ** Properties *)

(** C2. The network delivers.  Take any execution of a server and its clients over byte streams,
    whatever fails and in whatever order things happen, and a client whose batches the server
    accepts.  Whatever this client does after a [send] that failed, timed out or was dropped, its
    connection only ever puts batches in the queue that its [send]s started, whole, with their events
    as serialized, in order and each once.  If it was patient, calling [send] only when its last
    [send] had returned [Ok], these are all its batches: at most the last one can be missing, none is
    once its [send] has returned [Ok], and all the batches before it were disposed of by the consumer
    or with the receiver.  The other clients need not be patient. *)
Theorem network_delivers `{Zlib, !ZlibOk _} {T} (to_vec : T → string + bytes) {TlsAcceptor}
    (b : ServerBuilder TlsAcceptor) t n id l :
  usize (s_max_frame_size b) →
  Task.exec (net_step to_vec b) net_start t n → n_links n !! id = Some l →
  Forall (λ evs, ∃ d, batch_accepted to_vec b (l_client l) evs d) (started to_vec id t) →
  let ps := filter (λ p : parcel, p.1 = id) (enqueued (served to_vec b t)) in
  (∃ ds, Forall2 (batch_accepted to_vec b (l_client l)) (started to_vec id t) ds ∧
     content ∘ snd <$> ps `sublist_of` numbered <$> ds) ∧
  (patient id t = true →
   ∃ ds last later,
     Forall2 (batch_accepted to_vec b (l_client l)) (started to_vec id t) (ds ++ last) ∧
     (length last <= 1)%nat ∧ later `prefix_of` last ∧
     content ∘ snd <$> ps = numbered <$> ds ++ later ∧
     Forall (λ p, p ∈ disposed (served to_vec b t)) (take (length ds) ps) ∧
     (∀ r, l_send l = Returned (Ok r) → last = [])).
Proof.
  intros Hmax Hx Hl Hok. split; [by apply (exec_faithful to_vec b t n id l)|].
  intros Hp. by apply (exec_delivers to_vec b t n id l).
Qed.

(** C6. The two ends understand each other.  As long as a client is orderly (it sends batches that
    the server accepts, and stops after a [send] that did not return [Ok]), whatever part of its
    bytes has arrived decodes without an error, and no frame ends the handler; in the other
    direction, what arrives decodes to acknowledgements only, and none fails the [send].  So every
    error of such a connection comes from the outside: the transport, a timer, or the other parts of
    the two programs. *)
Theorem peers_understand `{Zlib, !ZlibOk _} {T} (to_vec : T → string + bytes) {TlsAcceptor}
    (b : ServerBuilder TlsAcceptor) t n id l :
  usize (s_max_frame_size b) →
  Task.exec (net_step to_vec b) net_start t n → n_links n !! id = Some l →
  orderly to_vec b (l_client l) id t →
  (∃ o, (codec_decode (server_codec b) (arrived (l_up l))).1 = Ok o) ∧
  (∃ o, (codec_decode codec_new (arrived (l_down l))).1 = Ok o ∧
     ∀ f, o = Some f → ∃ s, f = Ack s) ∧
  (∀ n', net_step to_vec b n (OnLink id ServerNext) = Some n' →
     ∃ c, handlers (n_world n') !! id = Some (Serving c)) ∧
  (∀ n', net_step to_vec b n (OnLink id ClientNext) = Some n' →
     ∃ l', n_links n' !! id = Some l' ∧
       ((∃ k, l_send l' = AwaitAcks k) ∨ ∃ k, l_send l' = Returned (Ok k))).
Proof. exact (exec_understands to_vec b t n id l). Qed.

(** ** Witnesses *)

(** Two clients: the first, with compression, sends a batch, and its bytes arrive in two pieces;
    the consumer takes the batch after a keepalive.  Then it starts a second one, of which the
    server has received the window, while the second client is in the middle of its first batch. *)
Abbreviation sample_step := (net_step sample_to_vec sample_server).

Definition sample_network : list net_event :=
  [Connect (sample_client 3); Connect (sample_client 0);
   OnLink 0 (Send sample_events); OnLink 0 ClientFeeds; OnLink 0 ClientFeeds;
   OnLink 0 (UpArrives 9); OnLink 0 ServerNext; OnLink 1 (Send []); OnLink 1 (Send [None]);
   OnLink 1 (Send [Some [x63]]); OnLink 1 ClientFeeds; OnLink 0 (ClientOther (Flushed (Ok tt)));
   OnLink 0 (UpArrives 999); OnLink 0 ServerNext; Serve (Handle 0 (InDispatched true));
   OnLink 1 (UpArrives 999); OnLink 1 ServerNext; Serve (Handle 0 InElapsed); Serve Recv;
   OnLink 0 ServerSends; Serve (Dispose 0 ByIntoEvents); OnLink 0 (DownArrives 6);
   OnLink 0 ClientNext; Serve (Handle 0 (InAck (Some 2))); OnLink 0 ServerSends;
   OnLink 0 (DownArrives 6); OnLink 0 ClientNext; OnLink 0 (Send [Some [x64]; Some []]);
   OnLink 0 ClientFeeds; OnLink 0 (UpArrives 6); OnLink 0 ServerNext; OnLink 1 ClientFeeds].

Definition network_trace (l : list net_event) : list (net * net_event) :=
  trace sample_step net_start l.

Definition network_end (l : list net_event) : net :=
  default net_start (Task.run sample_step net_start l).

Lemma network_exec l :
  is_Some (Task.run sample_step net_start l) →
  Task.exec sample_step net_start (network_trace l) (network_end l).
Proof. intros [n Hn]. apply run_trace. unfold network_end. by rewrite Hn. Qed.

Example network_runs :
  is_Some (Task.run sample_step net_start sample_network).
Proof. vm_compute. by eexists. Qed.

Lemma sample_batches_ok d :
  d ∈ [[[x61]; [x62]]; [[x64]; []]] →
  batch_accepted sample_to_vec sample_server (sample_client 3) (Some <$> d) d.
Proof.
  intros Hd. repeat (apply elem_of_cons in Hd as [->|Hd]); [| |by apply elem_of_nil in Hd].
  all: split; [split|split|]; try done; try (intros _); repeat constructor; vm_compute; congruence.
Qed.

Lemma sample_orderly k l :
  patient 0 (network_trace l) = true →
  started sample_to_vec 0 (network_trace l) =
    take k [Some <$> [[x61]; [x62]]; Some <$> [[x64]; []]] →
  orderly sample_to_vec sample_server (sample_client 3) 0 (network_trace l).
Proof.
  intros Hp Hs. split; [exact Hp|]. rewrite Hs. apply Forall_take.
  repeat constructor; eexists; apply sample_batches_ok; by repeat constructor.
Qed.

Lemma network_delivers_witness :
  let t := network_trace sample_network in
  let ps := filter (λ p : parcel, p.1 = 0%nat)
    (enqueued (served sample_to_vec sample_server t)) in
  (∃ ds, Forall2 (batch_accepted sample_to_vec sample_server (sample_client 3))
       (started sample_to_vec 0 t) ds ∧
     content ∘ snd <$> ps `sublist_of` numbered <$> ds) ∧
  ∃ ds last later,
    Forall2 (batch_accepted sample_to_vec sample_server (sample_client 3))
      (started sample_to_vec 0 t) (ds ++ last) ∧
    (length last <= 1)%nat ∧ later `prefix_of` last ∧
    content ∘ snd <$> ps = numbered <$> ds ++ later ∧
    Forall (λ p, p ∈ disposed (served sample_to_vec sample_server t)) (take (length ds) ps) ∧
    (∀ r, FeedCompressed 2 (wires [Json 1 [x64]; Json 2 []]) = Returned (Ok r) → last = []).
Proof.
  edestruct (network_delivers sample_to_vec sample_server (network_trace sample_network)
    (network_end sample_network) 0
    (Link (sample_client 3) (FeedCompressed 2 (wires [Json 1 [x64]; Json 2 []]))
      pipe_empty pipe_empty)) as [Hwhole Hpatient].
  - apply sample_max_ok.
  - apply network_exec, network_runs.
  - vm_compute. reflexivity.
  - eapply or_accepted. apply (sample_orderly 2); vm_compute; reflexivity.
  - split; [exact Hwhole|]. apply Hpatient. vm_compute. reflexivity.
Defined.

(** A client that is not patient: its first [send] fails after the window, and it calls [send] again.
    The handler ends at the second window, and nothing is delivered. *)
Definition unruly_network : list net_event :=
  [Connect (sample_client 3); OnLink 0 (Send sample_events); OnLink 0 ClientFeeds;
   OnLink 0 (ClientOther (Fed (Err ConnectionClosed))); OnLink 0 (Send [Some [x63]]);
   OnLink 0 ClientFeeds; OnLink 0 ClientFeeds; OnLink 0 (UpArrives 999); OnLink 0 ServerNext;
   OnLink 0 ServerNext].

Example unruly_network_cut :
  (handlers (n_world (network_end unruly_network)) !! 0%nat,
   patient 0 (network_trace unruly_network),
   enqueued (served sample_to_vec sample_server (network_trace unruly_network))) =
  (None, false, []).
Proof. vm_compute. reflexivity. Qed.

(** A keepalive whose [framed.send] fails reaches the client all the same. *)
Definition failing_network : list net_event :=
  take 5 (Connect (sample_client 3) :: drop 2 sample_network) ++
  [OnLink 0 ServerNext; OnLink 0 (ClientOther (Flushed (Ok tt))); OnLink 0 (UpArrives 999);
   OnLink 0 ServerNext; Serve (Handle 0 (InDispatched true)); Serve (Handle 0 InElapsed);
   OnLink 0 (ServerFails (Err ConnectionClosed)); OnLink 0 (DownArrives 6); OnLink 0 ClientNext].

Example failing_network_runs :
  (handlers (n_world (network_end failing_network)) !! 0%nat,
   l_send <$> n_links (network_end failing_network) !! 0%nat) = (None, Some (AwaitAcks 2)).
Proof. vm_compute. reflexivity. Qed.

Lemma peers_understand_witness :
  let n := network_end (take 30 sample_network) in
  let l := Link (sample_client 3)
    (FeedCompressed 2 (wires [Json 1 [x64]; Json 2 []])) (Pipe [] (wire (Window 2))) pipe_empty in
  (∃ o, (codec_decode (server_codec sample_server) (arrived (l_up l))).1 = Ok o) ∧
  (∃ o, (codec_decode codec_new (arrived (l_down l))).1 = Ok o ∧
     ∀ f, o = Some f → ∃ s, f = Ack s) ∧
  (∀ n', sample_step n (OnLink 0 ServerNext) = Some n' →
     ∃ c, handlers (n_world n') !! 0%nat = Some (Serving c)) ∧
  (∀ n', sample_step n (OnLink 0 ClientNext) = Some n' →
     ∃ l', n_links n' !! 0%nat = Some l' ∧
       ((∃ k, l_send l' = AwaitAcks k) ∨ ∃ k, l_send l' = Returned (Ok k))).
Proof.
  apply (peers_understand sample_to_vec sample_server (network_trace (take 30 sample_network))).
  - apply sample_max_ok.
  - apply network_exec. vm_compute. by eexists.
  - vm_compute. reflexivity.
  - apply (sample_orderly 2); vm_compute; reflexivity.
Defined.
