(* ===== verification/Timing.v ===== *)
(** * Timing: keepalives against the acknowledgement timeout (src/src/server.rs, src/src/client.rs)

    The one place of the protocol that is about time: while a client waits for an acknowledgement,
    at most [ack_timeout] for each frame, the handler of its connection waits for the consumer and
    sends a keepalive after each [interval].  [timed] is a client and a handler with a clock: since
    when each awaits its present call, and the frames on their way to the client with the time at
    which they were written.  The code is [resume] and [send_resume]; what this file adds is when
    their inputs may come.

    A timer of tokio never fires early: [sleep(interval)] and [timeout(d, _)] are ready only after
    the interval, and [timeout] asks the inner future first.  How late things may be is not up to
    the program: [reaction] bounds the delay of the handler after its timer, [write] that of its
    writes, and [latency] that of the transport and of the client.  [Wait] lets time pass as long as
    no such bound is exceeded; a call without a timer may take any time. *)

From S2P Require Import Prelude Errors Zlib Frame Codec Task Batch Connection Client Connect.

Record timed : Type := Timed {
  now : Z;
  t_server : conn;
  server_since : Z;            (* when the handler began to await its present call *)
  t_wire : list (Z * Frame);   (* the frames under way to the client, oldest first *)
  t_client : send_state;
  client_since : Z;            (* when the client began to await its present call *)
}.

Inductive timed_event : Type :=
| Wait (d : Z)
| ServerGoes (i : input)
| ClientGets                   (* the client's [framed.next] yields the oldest frame *)
| ClientTimesOut.

Section timing.
Context `{Zlib} (cfg : ConnectionConfig) (client : Client).
Context (reaction write latency : Z).

(** [tokio::time::sleep(interval)] may be ready. *)
Definition sleep_ready (since now : Z) : bool :=
  match cfg_keepalive cfg with
  | Some interval => since + interval <=? now
  | None => false
  end.

(** [tokio::time::timeout(ack_timeout, _)] may give up. *)
Definition timeout_ready (since now : Z) : bool :=
  match ack_timeout client with
  | Some d => since + d <=? now
  | None => false
  end.

(** Until when the handler goes on with its present call. *)
Definition server_deadline (s : timed) : option Z :=
  match c_state (t_server s) with
  | AwaitAck _ _ => (λ interval, server_since s + interval + reaction) <$> cfg_keepalive cfg
  | AwaitKeepalive _ _ | AwaitAckSent _ => Some (server_since s + write)
  | _ => None
  end.

(** Until when the client gets the oldest frame. *)
Definition wire_deadline (s : timed) : option Z :=
  match t_wire s with
  | (sent, _) :: _ => Some (sent + latency)
  | [] => None
  end.

Definition in_time (now : Z) (deadline : option Z) : bool :=
  match deadline with
  | Some d => now <=? d
  | None => true
  end.

Definition timed_step (s : timed) (e : timed_event) : option timed :=
  match e with
  | Wait d =>
      if (0 <=? d) && in_time (now s + d) (server_deadline s) && in_time (now s + d) (wire_deadline s)
      then Some (Timed (now s + d) (t_server s) (server_since s) (t_wire s) (t_client s)
                   (client_since s))
      else None
  | ServerGoes i =>
      if match i with InElapsed => sleep_ready (server_since s) (now s) | _ => true end then
        c ← resume cfg (t_server s) i;
        Some (Timed (now s) c (now s) (t_wire s ++ (pair (now s) <$> sent_by cfg (t_server s, i)))
                (t_client s) (client_since s))
      else None
  | ClientGets =>
      match t_wire s with
      | (_, f) :: wire =>
          st ← send_resume client (t_client s) (Got (Some (Ok f)));
          Some (Timed (now s) (t_server s) (server_since s) wire st (now s))
      | [] => None
      end
  | ClientTimesOut =>
      if timeout_ready (client_since s) (now s) then
        st ← send_resume client (t_client s) TimedOut;
        Some (Timed (now s) (t_server s) (server_since s) (t_wire s) st (now s))
      else None
  end.

(** The consumer answers with the number of its batch (as [Batch] does), and the transport does
    not fail. *)
Definition goes_well (x : timed * timed_event) : Prop :=
  match x.2 with
  | ServerGoes i => honest (t_server x.1, i) ∧ ∀ r, i = InSent r → r = Ok tt
  | _ => True
  end.

Context (interval : Z) (Hkeepalive : cfg_keepalive cfg = Some interval).

(** The longest time between two frames, as they are written. *)
Definition period : Z := interval + reaction + write.

(** When the next frame of the handler is written at the latest, if it waits for the
    acknowledgement of a batch of [n] events. *)
Definition frame_due (n : Z) (s : timed) : option Z :=
  match c_state (t_server s) with
  | AwaitAck last _ => if bool_decide (last = n) then Some (server_since s + period) else None
  | AwaitKeepalive last _ => if bool_decide (last = n) then Some (server_since s + write) else None
  | AwaitAckSent acked => if bool_decide (acked = n) then Some (server_since s + write) else None
  | _ => None
  end.

(** The frames under way, then the next one, follow each other within a period, from [base] on, up
    to the acknowledgement. *)
Fixpoint timely (n base : Z) (wire : list (Z * Frame)) (since : Z) (due : option Z) : Prop :=
  match wire with
  | (sent, f) :: wire =>
      base <= sent <= base + period ∧ (f = Ack n ∨ f = Ack 0 ∧ timely n sent wire since due)
  | [] => base <= since ∧ ∃ d, due = Some d ∧ d <= base + period
  end.

Record on_time (n delay : Z) (s : timed) : Prop := {
  ot_client : t_client s = AwaitAcks n;
  ot_timely : ∃ base, base <= client_since s + delay ∧
    timely n base (t_wire s) (server_since s) (frame_due n s);
  ot_server : in_time (now s) (server_deadline s) = true;
  ot_wire : in_time (now s) (wire_deadline s) = true;
  ot_past : server_since s <= now s ∧ Forall (λ x, x.1 <= now s) (t_wire s);
}.

Context (Hreaction : 0 <= reaction) (Hwrite : 0 <= write) (Hinterval : 0 <= interval).

Lemma timely_head n base sent f wire since due :
  timely n base ((sent, f) :: wire) since due → base <= sent <= base + period.
Proof. by intros [? _]. Qed.

(** What the handler does next. *)
Lemma timely_server n base wire since due since' due' fs :
  timely n base wire since due →
  (∀ base, base <= since → (∃ d, due = Some d ∧ d <= base + period) →
     timely n base fs since' due') →
  timely n base (wire ++ fs) since' due'.
Proof.
  intros Ht Hnext. revert base Ht. induction wire as [|[sent f] wire IH]; intros base; simpl.
  - intros [Hb Hd]. by apply Hnext.
  - intros [Hs [->|[-> Ht]]]; (split; [done|]); [by left|right]. split; [done|]. by apply IH.
Qed.

Lemma server_on_time n s i c base d :
  0 < n → goes_well (s, ServerGoes i) → resume cfg (t_server s) i = Some c →
  in_time (now s) (server_deadline s) = true → server_since s <= now s →
  frame_due n s = Some d → base <= server_since s → d <= base + period →
  timely n base (pair (now s) <$> sent_by cfg (t_server s, i)) (now s)
    (frame_due n (Timed (now s) c (now s) (t_wire s) (t_client s) (client_since s))).
Proof.
  unfold goes_well, honest, frame_due, server_deadline, period. cbn [fst snd t_server server_since].
  destruct s as [nw [st k] since wire cl csince]. cbn [t_server server_since now c_state].
  intros Hn [Hh Hsent] Hr Hdl Hpast Hdue Hb Hd.
  destruct st as [| |batch rx|last rx|last rx|acked|]; try done; case_bool_decide as Hl; try done;
    subst; injection Hdue as <-; unfold in_time in *; rewrite ?Hkeepalive in *; simpl in Hdl; zbool.
  - assert (Hr' : c = Conn (AwaitAckSent n) k ∨ c = Conn (AwaitKeepalive n rx) k).
    { destruct i as [| |[v|]| |]; unfold resume in Hr; cbn in Hr, Hh; try done.
      - injection Hr as <-. rewrite Hh. by left.
      - injection Hr as <-. by left.
      - rewrite Hkeepalive in Hr. injection Hr as <-. by right. }
    assert (Hno : sent_by cfg (Conn (AwaitAck n rx) k, i) = []) by done.
    rewrite Hno. destruct Hr' as [-> | ->]; cbn; rewrite bool_decide_true by done;
      (split; [lia|]; eexists; split; [done|unfold period; lia]).
  - destruct i as [| | | |r]; try done. rewrite (Hsent r eq_refl) in *.
    injection Hr as <-. cbn. rewrite bool_decide_true by done. unfold period in *.
    split; [lia|]. right. split; [done|]. split; [lia|]. eexists. split; [done|lia].
  - destruct i as [| | | |r]; try done. rewrite (Hsent r eq_refl) in *.
    injection Hr as <-. cbn. unfold period in *. split; [lia|by left].
Qed.
(** A call that has just begun is in time. *)
Lemma server_deadline_new nw c wire cl cs :
  in_time nw (server_deadline (Timed nw c nw wire cl cs)) = true.
Proof.
  unfold server_deadline. cbn [t_server server_since].
  destruct (c_state c); rewrite ?Hkeepalive; simpl; try done; apply Z.leb_le; lia.
Qed.

(** No timeout can expire in time. *)
Lemma on_time_no_timeout n delay s d :
  0 <= latency → ack_timeout client = Some d → delay + period + latency < d →
  on_time n delay s → timeout_ready (client_since s) (now s) = false.
Proof.
  intros Hlat Ha Hlt [_ (base & Hbase & Ht) Hs Hw _]. unfold timeout_ready. rewrite Ha.
  apply Z.leb_gt. unfold wire_deadline in Hw.
  destruct (t_wire s) as [|[sent f] wire].
  - destruct Ht as (_ & d' & Hdue & Hle). unfold frame_due, period in *. unfold server_deadline in Hs.
    destruct (c_state (t_server s)); try done; case_bool_decide; try done; injection Hdue as <-;
      rewrite ?Hkeepalive in Hs; simpl in Hs; zbool; lia.
  - destruct Ht as [? _]. simpl in Hw. zbool. lia.
Qed.

Lemma timed_step_ok n delay d s e s' :
  0 < n → 0 <= delay → 0 <= latency →
  ack_timeout client = Some d → delay + period + latency < d → goes_well (s, e) →
  on_time n delay s ∨ t_client s = Returned (Ok n) → timed_step s e = Some s' →
  on_time n delay s' ∨ t_client s' = Returned (Ok n).
Proof.
  intros Hn Hdelay Hlat Ha Hlt Hwell Hinv Hs. destruct Hinv as [Hot|Hret].
  2: { right. destruct e; cbn [timed_step] in Hs; rewrite ?Hret in Hs.
       - case_match; [|done]. by injection Hs as <-.
       - case_match; [|done]. destruct (resume _ _ _); [|done]. by injection Hs as <-.
       - by destruct (t_wire s) as [|[]].
       - by case_match. }
  destruct e as [w|i| |]; cbn [timed_step] in Hs.
  - destruct Hot as [Hc Ht Hsd Hwd [Hp1 Hp2]].
    destruct (_ && _ && _) eqn:Hg; [|done]. injection Hs as <-.
    apply andb_true_iff in Hg as [Hg Hw]. apply andb_true_iff in Hg as [Hg Hd]. zbool. left.
    split; [exact Hc|exact Ht|exact Hd|exact Hw|]. simpl.
    split; [lia|]. eapply Forall_impl; [exact Hp2|]. simpl. lia.
  - destruct (match i with InElapsed => _ | _ => _ end); [|done].
    destruct (resume cfg (t_server s) i) as [c|] eqn:Hr; [|done]. injection Hs as <-. left.
    destruct Hot as [Hc (base & Hb & Ht) Hsd Hwd [Hp1 Hp2]].
    split; [done| |apply server_deadline_new| |].
    + exists base. split; [done|]. eapply (timely_server _ _ _ _ _ _ _ _ Ht).
      intros base' Hb' (d' & Hd' & Hle).
      exact (server_on_time n s i c base' d' Hn Hwell Hr Hsd Hp1 Hd' Hb' Hle).
    + unfold wire_deadline in *. cbn [t_wire now]. destruct (t_wire s) as [|x wire]; [|done].
      destruct (sent_by _ _); [done|]. simpl. apply Z.leb_le. lia.
    + split; [done|]. simpl. apply Forall_app. split; [done|]. apply Forall_fmap, Forall_true.
      simpl. lia.
  - destruct Hot as [Hc (base & Hb & Ht) Hsd Hwd [Hp1 Hp2]].
    unfold wire_deadline in Hwd. destruct (t_wire s) as [|[sent f] wire]; [done|].
    rewrite Hc in Hs. destruct Ht as [Hsent Hf]. apply Forall_cons in Hp2 as [Hp Hp2].
    simpl in Hwd, Hp. zbool.
    destruct Hf as [->|[-> Hf]]; cbn in Hs.
    + rewrite Z.leb_refl in Hs. injection Hs as <-. by right.
    + rewrite (proj2 (Z.leb_gt _ _)) in Hs by done. injection Hs as <-. left.
      split; [done| |done| |done].
      * exists sent. split; [simpl; lia|exact Hf].
      * unfold wire_deadline. cbn [t_wire now]. destruct wire as [|[sent' f'] wire]; [done|].
        destruct Hf as [? _]. simpl. apply Z.leb_le. lia.
  - by rewrite (on_time_no_timeout n delay s d) in Hs.
Qed.
End timing.

(** C7. Keepalives prevent the timeout.  While a client waits for the acknowledgement of its batch and
    the handler waits for the consumer, however long the consumer takes, the client does not time
    out, and what its [send] returns, if it returns, is the number of events, provided that the
    timeout is longer than the keepalive interval plus what things may take: the handler to react
    to its timer and to write, the transport, and the [delay] by which the handler began to wait
    after the client. *)
Theorem keepalives_prevent_timeout `{Zlib} cfg client reaction write latency interval d delay n
    chans rx start since t s :
  cfg_keepalive cfg = Some interval → ack_timeout client = Some d →
  0 <= interval → 0 <= reaction → 0 <= write → 0 <= latency → 0 <= delay →
  delay + (interval + reaction + write) + latency < d →
  0 < n → since <= start <= since + delay →
  Task.exec (timed_step cfg client reaction write latency)
    (Timed start (Conn (AwaitAck n rx) chans) start [] (AwaitAcks n) since) t s →
  Forall goes_well t →
  t_client s = AwaitAcks n ∨ t_client s = Returned (Ok n).
Proof.
  intros Hk Ha Hi Hr Hw Hlat Hdelay Hlt Hn Hstart Hx Hwell.
  assert (Hinv : on_time cfg reaction write latency interval n delay s ∨
    t_client s = Returned (Ok n)); [|by destruct Hinv as [[? _ _ _ _]|?]; [left|right]].
  assert (H0 : on_time cfg reaction write latency interval n delay
    (Timed start (Conn (AwaitAck n rx) chans) start [] (AwaitAcks n) since)).
  { split; [done| |by apply server_deadline_new with interval|done|by split; [simpl; lia|]].
    exists start. split; [simpl; lia|]. cbn. rewrite bool_decide_true by done.
    split; [lia|]. eexists. split; [done|unfold period; lia]. }
  apply (or_introl (B := t_client (Timed start (Conn (AwaitAck n rx) chans) start []
    (AwaitAcks n) since) = Returned (Ok n))) in H0.
  revert H0. induction Hx as [|s0 e s1 t s Hs _ IH]; [done|]. apply Forall_cons in Hwell as [Hw0 Hwell].
  intros H0. apply IH; [done|]. by eapply timed_step_ok.
Qed.

(** ** The answer is prompt *)

Section prompt.
Context `{Zlib} (cfg : ConnectionConfig) (client : Client).
Context (reaction write latency : Z) (Hwrite : 0 <= write) (Hlatency : 0 <= latency).
Context (n T : Z) (Hn : 0 < n).

(** The acknowledgement is being written, or it is under way behind keepalives. *)
Inductive answering (s : timed) : Prop :=
| answering_writes :
    c_state (t_server s) = AwaitAckSent n → server_since s = T → now s <= T + write →
    Forall (λ x, x.2 = Ack 0 ∧ x.1 <= T + write) (t_wire s) → answering s
| answering_sent ks sent fs :
    t_wire s = ks ++ (sent, Ack n) :: fs →
    Forall (λ x, x.2 = Ack 0 ∧ x.1 <= T + write) ks → sent <= T + write →
    now s <= T + write + latency → answering s.

Lemma answering_bound s : answering s → now s <= T + write + latency.
Proof. destruct 1; lia. Qed.

Lemma answering_step s e s' :
  t_client s = AwaitAcks n → answering s → goes_well (s, e) →
  timed_step cfg client reaction write latency s e = Some s' →
  (∃ r, t_client s' = Returned r) ∨ t_client s' = AwaitAcks n ∧ answering s'.
Proof.
  intros Hc Han Hwell Hs. destruct e as [w|i| |]; cbn [timed_step] in Hs.
  - destruct (_ && _ && _) eqn:Hg; [|done]. injection Hs as <-. right. split; [done|].
    apply andb_true_iff in Hg as [Hg Hw]. apply andb_true_iff in Hg as [_ Hd].
    destruct Han as [Hst Hsince Hnow Hks|ks sent fs Hwire Hks Hsent Hnow].
    + apply answering_writes; try done. unfold server_deadline in Hd. rewrite Hst in Hd.
      simpl in *. zbool. lia.
    + apply (answering_sent _ ks sent fs); try done. unfold wire_deadline in Hw.
      rewrite Hwire in Hw. destruct Hks as [|[s1 f1] ks [_ Hs1] _]; simpl in *; zbool; lia.
  - destruct (match i with InElapsed => _ | _ => _ end); [|done].
    destruct (resume cfg (t_server s) i) as [c|] eqn:Hr; [|done]. injection Hs as <-. right.
    split; [done|]. destruct Han as [Hst Hsince Hnow Hks|ks sent fs Hwire Hks Hsent Hnow].
    + destruct (t_server s) as [st k]. cbn [c_state] in Hst. subst st.
      destruct i as [| | | |r]; try done. destruct Hwell as [_ Hwell]. rewrite (Hwell r eq_refl).
      apply (answering_sent _ (t_wire s) (now s) []); [done|done|done|]. simpl. lia.
    + apply (answering_sent _ ks sent (fs ++ (pair (now s) <$> sent_by cfg (t_server s, i))));
        [|done..]. cbn [t_wire]. by rewrite Hwire, <- app_assoc.
  - destruct (t_wire s) as [|[s1 f1] wire] eqn:Hwire; [done|]. rewrite Hc in Hs.
    assert (Hf : f1 = Ack n ∨ f1 = Ack 0 ∧ answering (Timed (now s) (t_server s) (server_since s)
      wire (AwaitAcks n) (now s))).
    { destruct Han as [Hst Hsince Hnow Hks|[|[s2 f2] ks] sent fs Hwire' Hks Hsent Hnow].
      - rewrite Hwire in Hks. apply Forall_cons in Hks as [[Hf _] Hks]. right.
        split; [exact Hf|]. by apply answering_writes.
      - rewrite Hwire in Hwire'. injection Hwire' as -> -> ->. by left.
      - rewrite Hwire in Hwire'. injection Hwire' as -> -> ->.
        apply Forall_cons in Hks as [[Hf _] Hks]. simpl in Hf. right. split; [done|].
        by apply (answering_sent _ ks sent fs). }
    destruct Hf as [->|[-> Han']]; cbn in Hs.
    + rewrite Z.leb_refl in Hs. injection Hs as <-. left. by eexists.
    + rewrite (proj2 (Z.leb_gt _ _)) in Hs by done. injection Hs as <-. by right.
  - destruct (timeout_ready _ _ _); [|done]. rewrite Hc in Hs. cbn in Hs.
    destruct (ack_timeout client); [|done]. injection Hs as <-. left. by eexists.
Qed.

Lemma returned_stays s e s' r :
  t_client s = Returned r → timed_step cfg client reaction write latency s e = Some s' →
  t_client s' = Returned r.
Proof.
  intros Hr Hs. destruct e; cbn [timed_step] in Hs; rewrite ?Hr in Hs.
  - case_match; [|done]. by injection Hs as <-.
  - case_match; [|done]. destruct (resume _ _ _); [|done]. by injection Hs as <-.
  - by destruct (t_wire s) as [|[]].
  - by case_match.
Qed.
End prompt.

(** The answer is prompt.  From the moment [T] at which the handler has the answer of the consumer,
    the client's [send] returns within the time the handler takes to write the acknowledgement and
    the transport to deliver it, however many keepalives are still under way: at no later time is
    it still waiting. *)
Theorem acknowledgement_prompt `{Zlib} cfg client reaction write latency n T chans wire since t s :
  0 <= write → 0 <= latency → 0 < n → Forall (λ x, x.2 = Ack 0 ∧ x.1 <= T) wire →
  Task.exec (timed_step cfg client reaction write latency)
    (Timed T (Conn (AwaitAckSent n) chans) T wire (AwaitAcks n) since) t s →
  Forall goes_well t → t_client s = AwaitAcks n → now s <= T + write + latency.
Proof.
  intros Hw Hl Hn Hwire Hx Hwell Hc.
  assert (Hinv : (∃ r, t_client s = Returned r) ∨
    t_client s = AwaitAcks n ∧ answering write latency n T s).
  2: { destruct Hinv as [[r Hr]|[_ Han]]; [congruence|]. by eapply answering_bound. }
  clear Hc. set (s0 := Timed T _ _ _ _ _) in Hx.
  assert (H0 : (∃ r, t_client s0 = Returned r) ∨
    t_client s0 = AwaitAcks n ∧ answering write latency n T s0).
  { right. split; [done|]. apply answering_writes; simpl; try done; [lia|].
    eapply Forall_impl; [exact Hwire|]. simpl. intros x [? ?]. split; [done|lia]. }
  clearbody s0. induction Hx as [|s0 e s1 t s Hs _ IH]; [done|].
  apply Forall_cons in Hwell as [Hw0 Hwell]. apply IH; [done|].
  destruct H0 as [[r Hr]|[Hc Han]]; [left; exists r; by eapply returned_stays|].
  by eapply answering_step.
Qed.

(** C38. Without room in the queue nothing prevents the timeout.  While the handler waits to hand its
    batch over, it writes no keepalive, whatever the interval is: as long as the queue stays full,
    a waiting client with a timeout has heard nothing, and [send] can return [AckTimeout], with the
    server alive and the batch received in full. *)
Theorem full_queue_times_out `{Zlib} cfg client reaction write latency batch rx chans start n since
    d t s :
  ack_timeout client = Some d →
  Task.exec (timed_step cfg client reaction write latency)
    (Timed start (Conn (AwaitDispatch batch rx) chans) start [] (AwaitAcks n) since) t s →
  (∀ r, ServerGoes (InDispatched r) ∉ t.*2) → t_client s = AwaitAcks n →
  t_server s = Conn (AwaitDispatch batch rx) chans ∧ t_wire s = [] ∧
  ∃ w s', Task.run (timed_step cfg client reaction write latency) s [Wait w; ClientTimesOut] =
      Some s' ∧ t_client s' = Returned (Err AckTimeout) ∧ t_server s' = t_server s.
Proof.
  intros Hd Hx Hno Hc.
  assert (Hinv : t_server s = Conn (AwaitDispatch batch rx) chans ∧ t_wire s = []).
  { clear Hc. set (s0 := Timed start _ _ _ _ _) in Hx.
    assert (H0 : t_server s0 = Conn (AwaitDispatch batch rx) chans ∧ t_wire s0 = []) by done.
    clearbody s0. induction Hx as [|s0 e s1 t s Hs _ IH]; [done|].
    apply IH; [intros r Hr; apply (Hno r); by right|]. destruct H0 as [Hsv Hwire].
    destruct e as [w|i| |]; cbn [timed_step] in Hs; rewrite ?Hwire, ?Hsv in Hs; try done.
    - case_match; [|done]. by injection Hs as <-.
    - destruct i as [|r| | |]; try done; [by destruct (Hno r); left|].
      by destruct (sleep_ready _ _ _).
    - destruct (timeout_ready _ _ _); [|done]. destruct (send_resume _ _ _); [|done].
      by injection Hs as <-. }
  destruct Hinv as [Hsv Hwire]. split; [done|]. split; [done|].
  exists (Z.max 0 (client_since s + d - now s)). eexists. split.
  - cbn [Task.run timed_step]. unfold server_deadline, wire_deadline. rewrite Hsv, Hwire.
    cbn [c_state in_time]. rewrite (proj2 (Z.leb_le _ _)) by lia. cbn [andb mbind option_bind].
    cbn [timed_step now client_since t_client]. unfold timeout_ready. rewrite Hd.
    rewrite (proj2 (Z.leb_le _ _)) by lia. rewrite Hc. cbn. rewrite Hd. reflexivity.
  - done.
Qed.

(** ** Witnesses *)

(** The defaults: a keepalive every 15 s, a timeout of 30 s.  The handler, which began to wait 2 s
    after the client, sends two keepalives before the consumer acknowledges after 40 s. *)
Definition default_client : Client := MkClient 3 None (Some (from_secs 30)).
Definition default_config : ConnectionConfig :=
  ConnConfig DEFAULT_MAX_FRAME_SIZE (Some (from_secs 15)).

Definition ms (k : Z) : Z := k * 1000000.

Definition slow_consumer : list timed_event :=
  [Wait (ms 15100); ServerGoes InElapsed; Wait (ms 200); ServerGoes (InSent (Ok tt));
   Wait (ms 500); ClientGets; Wait (ms 14700); ServerGoes InElapsed; ServerGoes (InSent (Ok tt));
   Wait (ms 10); ClientGets; Wait (ms 9500); ServerGoes (InAck (Some 2)); Wait (ms 300);
   ServerGoes (InSent (Ok tt)); Wait (ms 900)].

Abbreviation default_step := (timed_step default_config default_client (ms 1000) (ms 500) (ms 1000)).

Definition timed_end (s : timed) (l : list timed_event) : timed :=
  default s (Task.run default_step s l).

Lemma timed_exec s l :
  is_Some (Task.run default_step s l) →
  Task.exec default_step s (trace default_step s l) (timed_end s l).
Proof. intros [s' Hs]. apply run_trace. unfold timed_end. by rewrite Hs. Qed.

Definition slow_start : timed :=
  Timed (ms 2000) (Conn (AwaitAck 2 0) 1) (ms 2000) [] (AwaitAcks 2) 0.

Ltac all_go_well :=
  vm_compute trace;
  repeat (constructor; [first [exact I | split; [done|intros ? ?; congruence]]|]);
  constructor.

Lemma keepalives_prevent_timeout_witness :
  let s := timed_end slow_start (slow_consumer ++ [ClientGets]) in
  now s = ms 43210 ∧ (t_client s = AwaitAcks 2 ∨ t_client s = Returned (Ok 2)).
Proof.
  split; [vm_compute; reflexivity|].
  apply (keepalives_prevent_timeout default_config default_client (ms 1000) (ms 500) (ms 1000)
    (from_secs 15) (from_secs 30) (ms 2000) 2 1 0 (ms 2000) 0
    (trace default_step slow_start (slow_consumer ++ [ClientGets]))).
  1-10: vm_compute; try done; by split.
  - apply timed_exec. vm_compute. by eexists.
  - all_go_well.
Defined.

(** A keepalive is still under way when the answer comes. *)
Lemma acknowledgement_prompt_witness :
  let s0 := Timed (ms 100) (Conn (AwaitAckSent 2) 1) (ms 100) [(ms 50, Ack 0)] (AwaitAcks 2) 0 in
  let l := [Wait (ms 300); ServerGoes (InSent (Ok tt)); Wait (ms 600); ClientGets; Wait (ms 250)] in
  t_client (timed_end s0 l) = AwaitAcks 2 ∧ now (timed_end s0 l) <= ms 100 + ms 500 + ms 1000.
Proof.
  cbv zeta. set (s0 := Timed _ _ _ _ _ _).
  set (l := [Wait (ms 300); ServerGoes _; Wait _; ClientGets; Wait _]).
  split; [vm_compute; reflexivity|].
  apply (acknowledgement_prompt default_config default_client (ms 1000) (ms 500) (ms 1000) 2 (ms 100)
    1 [(ms 50, Ack 0)] 0 (trace default_step s0 l)).
  - by vm_compute.
  - by vm_compute.
  - done.
  - by repeat constructor.
  - apply timed_exec. vm_compute. by eexists.
  - all_go_well.
  - vm_compute. reflexivity.
Defined.

(** With the defaults, a client whose batch waits for 25 s. *)
Lemma full_queue_times_out_witness :
  let s0 := Timed (ms 10) (Conn (AwaitDispatch (MkBatch [] 2 (Some 0%nat)) 0) 1) (ms 10) []
    (AwaitAcks 2) 0 in
  let s := timed_end s0 [Wait (ms 25000)] in
  t_server s = t_server s0 ∧ t_wire s = [] ∧
  ∃ w s', Task.run default_step s [Wait w; ClientTimesOut] = Some s' ∧
    t_client s' = Returned (Err AckTimeout) ∧ t_server s' = t_server s.
Proof.
  cbv zeta. set (s0 := Timed _ _ _ _ _ _).
  apply (full_queue_times_out default_config default_client (ms 1000) (ms 500) (ms 1000)
    (MkBatch [] 2 (Some 0%nat)) 0 1 (ms 10) 2 0 (from_secs 30)
    (trace default_step s0 [Wait (ms 25000)])).
  - done.
  - apply timed_exec. vm_compute. by eexists.
  - intros r. vm_compute trace. simpl. intros [Hr|Hr]%elem_of_cons; [done|by apply elem_of_nil in Hr].
  - vm_compute. reflexivity.
Defined.
