(* ===== verification/Progress.v ===== *)
(** * Progress: the network does not get stuck

    Network.v shows that nothing goes wrong; this file shows that things can go right.  Whatever
    happened before, and whatever the other connections are doing, an orderly client whose
    last [send] returned [Ok] on a connection whose handler is alive can send another batch: there is a
    continuation in which only this client, its handler and the consumer take steps, and the [send]
    returns [Ok].  The continuation is built phase by phase; [advances] is a part of it, seen from
    one link and the server. *)

From stdpp Require Import gmap.
From S2P Require Import Prelude Errors Zlib Frame Codec Task Batch Connection Client Server System.
From S2P Require Import Network.

Section progress.
Context `{Zlib, !ZlibOk _} {T : Type} (to_vec : T → string + bytes).
Context {TlsAcceptor : Type} (b : ServerBuilder TlsAcceptor).
Context (Hmax : usize (s_max_frame_size b)).

(** The steps of one client, of its handler, and of the consumer. *)
Definition own (id : nat) (e : net_event (T := T)) : Prop :=
  match e with
  | Connect _ => False
  | Serve e => (∃ i, e = Handle id i) ∨ consumer_event e
  | OnLink id' _ => id' = id
  end.

(** From the server [w] and the link [l], the network can get to [w'] and [l'], by such steps
    only, in which the [send]s [ss] start and the client stays orderly. *)
Definition advances (id : nat) (w : world) (l : link) (ss : list (list T)) (w' : world) (l' : link)
    : Prop :=
  ∀ links, links !! id = Some l →
  ∃ t links', Task.exec (net_step to_vec b) (Net w links) t (Net w' links') ∧
    links' !! id = Some l' ∧ Forall (own id) t.*2 ∧ started to_vec id t = ss ∧
    orderly to_vec b (l_client l) id t ∧ l_client l' = l_client l.

Lemma advances_refl id w l : advances id w l [] w l.
Proof.
  intros links Hl. exists [], links. split; [constructor|]. split; [done|]. split; [constructor|].
  split; [done|]. split; [apply orderly_nil|done].
Qed.

Lemma advances_trans id w l ss w1 l1 ss' w2 l2 :
  advances id w l ss w1 l1 → advances id w1 l1 ss' w2 l2 → advances id w l (ss ++ ss') w2 l2.
Proof.
  intros H1 H2 links Hl. destruct (H1 links Hl) as (t1 & links1 & Hx1 & Hl1 & Ho1 & <- & Hor1 & Hc1).
  destruct (H2 links1 Hl1) as (t2 & links2 & Hx2 & Hl2 & Ho2 & <- & Hor2 & Hc2).
  exists (t1 ++ t2), links2. split; [by eapply exec_trans|]. split; [done|].
  rewrite fmap_app. split; [by apply Forall_app|]. split; [unfold started; by rewrite bind_app|].
  split; [|congruence]. apply orderly_app. split; [done|]. by rewrite <- Hc1.
Qed.

(** A step of the link, with the step of its handler if there is one. *)
Lemma advances_link id w l e l' i w' :
  link_step to_vec b (request_at b w id) l e = Some (l', i) →
  match i with Some i => server_step b w (Handle id i) | None => Some w end = Some w' →
  (∀ evs, e = Send evs → (∃ r, l_send l = Returned (Ok r)) ∧
     ∃ d, batch_accepted to_vec b (l_client l) evs d) →
  advances id w l (starts to_vec e) w' l'.
Proof.
  intros Hs Hw He links Hl. exists [(Net w links, OnLink id e)], (<[id := l']> links).
  split; [|split; [apply lookup_insert_eq|split; [by repeat constructor|split; [|split]]]].
  - eapply exec_cons; [|constructor]. cbn [net_step n_world n_links]. rewrite Hl.
    cbn [mbind option_bind]. rewrite Hs. cbn [mbind option_bind]. by rewrite Hw.
  - unfold started. simpl. rewrite app_nil_r. unfold started_by. simpl. by rewrite bool_decide_true.
  - assert (Hcase : (∃ evs, e = Send evs) ∨ ∀ evs, e ≠ Send evs) by (destruct e; eauto).
    destruct Hcase as [[evs ->]|Hno]; [|apply orderly_other; simpl; intros evs [= Hevs]; by destruct (Hno evs)].
    destruct (He evs eq_refl) as [[r Hr] Hd]. split.
    + cbn [patient forallb patient_by snd fst n_links]. rewrite Hl. cbn. by rewrite Hr, orb_true_r.
    + unfold started. simpl. rewrite app_nil_r. unfold started_by. simpl.
      rewrite bool_decide_true by done. destruct (send_start to_vec evs); by repeat constructor.
  - by eapply link_step_client.
Qed.

(** Steps of the server. *)
Lemma advances_serve id w l t w' :
  Task.exec (server_step b) w t w' →
  Forall (λ e, server_other e = true ∧ own id (Serve e)) t.*2 → advances id w l [] w' l.
Proof.
  induction 1 as [w|w e w1 t w' Hs _ IH]; [intros _; apply advances_refl|].
  intros [[Ho Hown] Ht]%Forall_cons links Hl. destruct (IH Ht links Hl)
    as (t' & links' & Hx & Hl' & Ho' & Hst & Hor & Hcl).
  exists ((Net w links, Serve e) :: t'), links'.
  split; [|split; [done|split; [by constructor|split; [done|split; [|done]]]]].
  2: { apply (orderly_app to_vec b _ _ [(Net w links, Serve e)]). split; [by apply orderly_other|done]. }
  eapply exec_cons; [|exact Hx]. cbn [net_step n_world n_links snd] in *. by rewrite Ho, Hs.
Qed.

Lemma advances_handle id w l i w' :
  server_other (Handle id i) = true → handle b id i w = Some w' → advances id w l [] w' l.
Proof.
  intros Ho Hs. apply (advances_serve id w l [(w, Handle id i)]).
  - eapply exec_cons; [exact Hs|constructor].
  - apply Forall_singleton. split; [done|]. left. by exists i.
Qed.

Lemma consumer_own id t :
  Forall consumer_event t → Forall (λ e, server_other e = true ∧ own id (Serve e)) t.
Proof.
  intros Ht. eapply Forall_impl; [exact Ht|]. intros e He. split; [|by right].
  by destruct He as [->|[k ->]].
Qed.

(** ** The client writes *)

Lemma client_feeds id w client st t st' up down fs :
  Task.exec (send_resume client) st t st' → Forall (λ i, i = Fed (Ok tt)) t.*2 →
  Forall encodable (fed client t) → carrying fs up →
  ∃ up', advances id w (Link client st up down) [] w (Link client st' up' down) ∧
    carrying (fs ++ fed client t) up'.
Proof.
  intros Hx. revert fs up. induction Hx as [st|st i st1 t st' Hr _ IH]; intros fs up Ht Henc Hup.
  - exists up. split; [apply advances_refl|by rewrite app_nil_r].
  - apply Forall_cons in Ht as [Hi Ht]. simpl in Hi. subst i.
    assert (Hreq : ∃ f to, send_request client st = WantFeed f to)
      by (destruct st; try done; by eexists _, _).
    destruct Hreq as (f & to & Hreq).
    assert (Hfed : fed client ((st, Fed (Ok tt)) :: t) = f :: fed client t).
    { unfold fed. simpl. unfold fed_by at 1. simpl. by rewrite Hreq. }
    rewrite Hfed in *. apply Forall_cons in Henc as [Hf Henc].
    assert (Hfeed : pipe_feed codec_new f up = Some (Pipe (under_way up ++ wire f) (arrived up)))
      by (unfold pipe_feed; by rewrite codec_encode_wire).
    destruct (IH (fs ++ [f]) _ Ht Henc (carrying_feed _ _ _ _ _ Hup Hfeed)) as (up' & Ha & Hc).
    exists up'. rewrite <- app_assoc in Hc. split; [|exact Hc].
    change (@nil (list T)) with (starts to_vec ClientFeeds ++ []).
    eapply advances_trans; [|exact Ha]. eapply (advances_link _ _ _ _ _ None); [|done|done].
    cbn [link_step l_client l_send l_up]. rewrite Hreq, Hfeed. cbn [mbind option_bind].
    unfold client_step. cbn [l_client l_send]. by rewrite Hr.
Qed.

(** ** Bytes arrive *)

Lemma pipe_arrive_all fs p :
  carrying fs p → pipe_arrive (length (under_way p)) p = Pipe [] (wires fs).
Proof. unfold carrying, pipe_arrive. intros ->. by rewrite drop_all, firstn_all. Qed.

Lemma pipe_next_wire c f fs :
  usize (max_frame_size c) → frame_ok (max_frame_size c) f →
  pipe_next c (Pipe [] (wires (f :: fs))) = Some (f, Pipe [] (wires fs)).
Proof.
  intros Hc Hf. unfold pipe_next, codec_decode. simpl arrived. rewrite wires_cons.
  rewrite (decode_complete _ _ (Ok (Some f)) (wires fs)); [done|by apply decodes_wire].
Qed.

(** The handler receives frames, and goes on from [c] to [c']. *)
Lemma handle_next id w c x c' :
  handlers w !! id = Some (Serving c) → resume (config b) c (InNext x) = Some c' → live c' →
  handle b id (InNext x) w = Some (set_handler id (Serving c') w).
Proof.
  intros Hh Hr Hl. unfold handle, resume_handler. rewrite Hh, Hr. cbn [mbind option_bind].
  unfold live in Hl. destruct (c_state c) eqn:Hc, (c_state c'); try done;
    unfold resume in Hr; by rewrite Hc in Hr.
Qed.

Lemma server_receives id w client st down c t c' fs :
  Task.exec (resume (config b)) c t c' → t.*2 = arrive fs →
  Forall (frame_ok (s_max_frame_size b)) fs →
  handlers w !! id = Some (Serving c) → live c' →
  advances id w (Link client st (Pipe [] (wires fs)) down) []
    (set_handler id (Serving c') w) (Link client st pipe_empty down).
Proof.
  intros Hx. revert fs w. induction Hx as [c|c i c1 t c' Hr Hx IH]; intros fs w Ht Hfs Hh Hl.
  - destruct fs; [|done]. replace (set_handler id (Serving c) w) with w; [apply advances_refl|].
    unfold set_handler. rewrite insert_id by done. by destruct w.
  - destruct fs as [|f fs]; [done|]. injection Ht as -> Ht. apply Forall_cons in Hfs as [Hf Hfs].
    assert (Hl1 : live c1).
    { inversion Hx; subst; [done|]. unfold live. by destruct c1 as [[] ?]. }
    change (@nil (list T)) with (starts to_vec ServerNext ++ []).
    eapply advances_trans.
    + eapply (advances_link _ _ _ _ _ (Some (InNext (Some (Ok f))))); [|by eapply handle_next|done].
      cbn [link_step l_up]. by rewrite (pipe_next_wire (server_codec b) f fs).
    + replace (set_handler id (Serving c') w)
        with (set_handler id (Serving c') (set_handler id (Serving c1) w))
        by (unfold set_handler; simpl; by rewrite insert_insert_eq).
      apply IH; [done|done| |done]. simpl. apply lookup_insert_eq.
Qed.

(** The client receives frames. *)
Lemma client_receives id w client st up t st' fs :
  Task.exec (send_resume client) st t st' → t.*2 = gets fs →
  Forall (frame_ok DEFAULT_MAX_FRAME_SIZE) fs →
  advances id w (Link client st up (Pipe [] (wires fs))) [] w (Link client st' up pipe_empty).
Proof.
  intros Hx. revert fs. induction Hx as [st|st i st1 t st' Hr _ IH]; intros fs Ht Hfs.
  - destruct fs; [|done]. apply advances_refl.
  - destruct fs as [|f fs]; [done|]. injection Ht as -> Ht. apply Forall_cons in Hfs as [Hf Hfs].
    change (@nil (list T)) with (starts to_vec ClientNext ++ []).
    eapply advances_trans; [|by apply IH]. eapply (advances_link _ _ _ _ _ None); [|done|done].
    cbn [link_step l_down]. rewrite (pipe_next_wire codec_new f fs); [|done..].
    cbn [mbind option_bind]. unfold client_step. cbn [l_client l_send]. by rewrite Hr.
Qed.

(** ** The phases of a [send] *)

(** The client calls [send] and writes the whole batch. *)
Lemma send_phase id w client r up down evs d fs :
  batch_accepted to_vec b client evs d → carrying fs up →
  ∃ up', advances id w (Link client (Returned (Ok r)) up down) [evs]
           w (Link client (AwaitAcks (len d)) up' down) ∧
    carrying (fs ++ plan (compression_level client) d) up'.
Proof.
  intros Hd Hup. pose proof (bo_sendable _ _ _ _ _ Hd) as Hs.
  pose proof (run_plan to_vec client evs d Hs) as Hrun. rewrite run_app in Hrun.
  destruct (Task.run _ _ (replicate _ _)) as [st|] eqn:Hfeed; [|done].
  cbn [mbind option_bind Task.run] in Hrun.
  destruct (run_exec _ _ _ _ Hfeed) as (t & Hx & Ht).
  assert (Hst : st = AwaitFlush (len d)).
  { destruct st; try done; simpl in Hrun; try (by destruct (write_timeout client)).
    by injection Hrun as ->. }
  subst st. pose proof Hx as Hx'. rewrite (send_start_ok _ _ _ _ Hs) in Hx'.
  destruct (exec_feeds _ _ _ _ _ _ _ _ Hs (to_feed_start client d) Hx') as (rest & Hp & _ & ->).
  rewrite app_nil_r in Hp.
  destruct (client_feeds id w client _ _ _ up down fs Hx) as (up' & Ha & Hc).
  { rewrite Ht. by apply Forall_replicate. }
  { rewrite <- Hp. eapply Forall_impl; [by eapply batch_accepted_plan|]. intros f Hf.
    by eapply frame_ok_encodable. }
  { exact Hup. }
  rewrite <- Hp in Hc. exists up'. split; [|exact Hc].
  change [evs] with ([evs] ++ [] ++ []).
  eapply advances_trans; [|eapply advances_trans; [exact Ha|]].
  - replace [evs] with (starts to_vec (Send evs))
      by (simpl; by rewrite (send_start_ok _ _ _ _ Hs)).
    eapply (advances_link _ _ _ _ _ None); [|done|].
    + simpl. by rewrite (send_start_ok _ _ _ _ Hs).
    + intros ? [= <-]. split; by eexists.
  - change (@nil (list T)) with (starts to_vec (ClientOther (Flushed (Ok tt)))).
    by eapply (advances_link _ _ _ _ _ None).
Qed.

(** The handler receives it. *)
Lemma receive_phase id w client st up down k d :
  batch_fits (s_max_frame_size b) d →
  Forall (frame_ok (s_max_frame_size b)) (plan (compression_level client) d) →
  carrying (plan (compression_level client) d) up →
  handlers w !! id = Some (Serving (Conn AwaitWindow k)) →
  advances id w (Link client st up down) []
    (set_handler id (Serving (Conn (AwaitDispatch (MkBatch d (len d) (Some k)) k) (S k))) w)
    (Link client st pipe_empty down).
Proof.
  intros Hd Hok Hup Hh.
  destruct (run_exec _ _ _ _ (run_plan_server (config b) Hmax (compression_level client) d k Hd))
    as (t & Hx & Ht).
  change (@nil (list T)) with (starts to_vec (UpArrives (length (under_way up))) ++ []).
  eapply advances_trans.
  - eapply (advances_link _ _ _ _ _ None); [|done|done]. reflexivity.
  - simpl. unfold set_up. cbn [l_client l_send l_up l_down].
    rewrite (pipe_arrive_all _ _ Hup). by eapply server_receives.
Qed.

(** The handler hands the batch over, and the consumer acknowledges it. *)
Lemma dispatch_phase id w l k d :
  world_ok b w → shutdown_sent w = false → 0 < s_channel_capacity b →
  handlers w !! id = Some (Serving (Conn (AwaitDispatch (MkBatch d (len d) (Some k)) k) (S k))) →
  ∃ w', advances id w l [] w' l ∧
    handlers w' !! id = Some (Serving (Conn (AwaitAckSent (len d)) (S k))).
Proof.
  intros Hok Hsd Hcap Hh. destruct (receive_all b w Hsd) as (t1 & Hx1 & Ht1).
  set (w1 := set_batches [] (held w ++ queue w) w) in *.
  set (c2 := Conn (AwaitAck (len d) k) (S k)).
  set (w2 := set_batches [(id, MkBatch d (len d) (Some k))] (held w ++ queue w)
    (set_handler id (Serving c2) w1)).
  assert (Hrx : rx_alive w = true).
  { destruct (rx_alive w) eqn:Hrx; [done|]. apply (wk_closed _ _ Hok) in Hrx as [_ ?]. congruence. }
  assert (Hd : handle b id (InDispatched true) w1 = Some w2).
  { unfold handle, resume_handler. simpl. rewrite Hh. cbn. rewrite Hrx, len_nil.
    by rewrite (proj2 (Z.ltb_lt _ _)) by done. }
  assert (Hx2 : Task.exec (server_step b) w (t1 ++ [(w1, Handle id (InDispatched true))]) w2).
  { eapply exec_trans; [exact Hx1|]. eapply exec_cons; [exact Hd|constructor]. }
  assert (Hok2 : world_ok b w2).
  { eapply (exec_preserves (server_step b) (world_ok b) (λ _, True)); [|exact Hok| |exact Hx2].
    - intros ? ? ? ? _. by apply server_step_ok.
    - by apply Forall_true. }
  destruct (acknowledge b w2 id (Serving c2) k (len d) Hok2) as (t3 & w3 & Hx3 & Ht3 & Hh3 & Ha3).
  { done. } { apply lookup_insert_eq. } { done. }
  assert (Hc3 : handlers w3 !! id = Some (Serving c2)) by (rewrite Hh3; apply lookup_insert_eq).
  exists (set_handler id (Serving (Conn (AwaitAckSent (len d)) (S k))) w3).
  split; [|apply lookup_insert_eq].
  change (@nil (list T)) with (@nil (list T) ++ [] ++ [] ++ []).
  eapply advances_trans; [eapply advances_serve; [exact Hx1|by apply consumer_own]|].
  eapply advances_trans; [by apply (advances_handle _ _ _ (InDispatched true) w2)|].
  eapply advances_trans; [eapply advances_serve; [exact Hx3|by apply consumer_own]|].
  apply (advances_handle _ _ _ (InAck (Some (len d)))); [done|].
  unfold handle, resume_handler. rewrite Hc3. cbn. by rewrite Ha3, bool_decide_true.
Qed.

(** The acknowledgement goes to the client, after what was still on its way. *)
Lemma answer_phase id w client up down k (d : list bytes) ks :
  handlers w !! id = Some (Serving (Conn (AwaitAckSent (len d)) (S k))) →
  u32 (len d) → Forall (λ s, s < len d) ks → Forall u32 ks → carrying (Ack <$> ks) down →
  ∃ w' down', advances id w (Link client (AwaitAcks (len d)) up down) []
    w' (Link client (Returned (Ok (len d))) up down').
Proof.
  intros Hh Hlen Hks Hu Hdown. set (down1 := Pipe (under_way down ++ wire (Ack (len d))) (arrived down)).
  assert (Hfeed : pipe_feed (server_codec b) (Ack (len d)) down = Some down1)
    by (unfold pipe_feed; by rewrite codec_encode_wire).
  pose proof (carrying_feed _ _ _ _ _ Hdown Hfeed) as Hdown1.
  destruct (run_exec _ _ _ _ (run_acks client (len d) ks (len d) Hks ltac:(lia))) as (t & Hx & Ht).
  eexists _, pipe_empty.
  change (@nil (list T)) with
    (starts to_vec ServerSends ++ starts to_vec (DownArrives (length (under_way down1))) ++ []).
  eapply advances_trans; [eapply (advances_link _ _ _ _ _ (Some (InSent (Ok tt))))|eapply advances_trans;
    [eapply (advances_link _ _ _ _ _ None); [reflexivity|done|done]|]].
  - unfold request_at. rewrite Hh. cbn [link_step]. cbn [request_of c_state l_down].
    rewrite Hfeed. reflexivity.
  - simpl. unfold handle, resume_handler. rewrite Hh. reflexivity.
  - done.
  - unfold set_down. cbn [l_client l_send l_up l_down]. rewrite (pipe_arrive_all _ _ Hdown1).
    eapply client_receives; [exact Hx|exact Ht|].
    apply Forall_app. split; [by apply Forall_fmap|by apply Forall_singleton].
Qed.

(** ** Where a quiet link is *)

(** When the last [send] of a client has returned [Ok] and its handler is alive, the handler is at
    a window boundary, nothing is on its way to it, and only keepalives are on their way back. *)
Lemma quiet t n id l r c :
  Task.exec (net_step to_vec b) net_start t n → n_links n !! id = Some l →
  orderly to_vec b (l_client l) id t →
  l_send l = Returned (Ok r) → handlers (n_world n) !! id = Some (Serving c) →
  c_state c = AwaitWindow ∧ carrying [] (l_up l) ∧ ∃ m, carrying (Ack <$> replicate m 0) (l_down l).
Proof.
  intros Hx Hl Hok Hr Hc. pose proof (exec_linked to_vec b t n Hmax Hx id) as Hlink.
  unfold linked in Hlink. rewrite Hl in Hlink. destruct Hlink as [_ Hlink].
  destruct (Hlink Hok) as [ds more gs F G Hh Hup Hsent Hdown]. rewrite Hr in Hh.
  apply history_returned in Hh as [Hds Hs]. set (all := ds ++ more) in *. clearbody all.
  destruct (plans_ok _ _ _ _ _ Hmax Hds) as [Hfits _].
  pose proof (exec_served to_vec b _ t n Hx) as Hsx. set (tr := conn_trace id _) in *.
  destruct (exec_projects b _ _ id Hsx) as (c' & Hxc & Hho & _ & Heq & _).
  pose proof (Heq _ Hc) as <-. pose proof (exec_live b _ _ _ _ Hsx Hc) as Hlive.
  pose proof (sends_fed _ _ _ _ _ Hs) as Hfed.
  destruct (exec_session (config b) (compression_level (l_client l)) all tr c Hmax Hfits Hxc Hho)
    as [done todo rest Hall Hrest _ Hst]; [by rewrite <- Hfed; eexists|].
  destruct (acked_prefix _ _ _ _ _ _ Hst) as [k Hk].
  assert (Hacks : real_acks gs = len <$> all).
  { apply (sends_acked to_vec _ all _ gs [] Hs). rewrite app_nil_r, Hall.
    rewrite Hsent, real_acks_app in Hk. exists (real_acks G ++ (len <$> drop k done ++ todo)).
    by rewrite app_assoc, Hk, <- fmap_app, app_assoc, take_drop. }
  destruct (all_acked _ _ _ _ _ _ Hst) as (Hcs & -> & Hlen).
  { intros r' Hr'. unfold live in Hlive. by rewrite Hr' in Hlive. }
  { rewrite Hsent, real_acks_app, (length_app (real_acks gs)), Hacks, length_fmap, Hall. lia. }
  rewrite Hsent, real_acks_app, (length_app (real_acks gs)), Hacks, length_fmap, Hall in Hlen.
  split; [done|]. split.
  - rewrite Hrest in Hfed. apply app_inv_head in Hfed as ->. exact Hup.
  - exists (length G). rewrite <- (keepalives G); [done| |apply length_zero_iff_nil; lia].
    intros f Hf. apply (sent_acks (config b) tr). rewrite Hsent. apply elem_of_app. by right.
Qed.
(** A [send] completes.  The theorem [send_can_complete] says what it means. *)
Lemma send_completion t n id l r c evs d :
  0 < s_channel_capacity b →
  Task.exec (net_step to_vec b) net_start t n → n_links n !! id = Some l →
  orderly to_vec b (l_client l) id t →
  l_send l = Returned (Ok r) → handlers (n_world n) !! id = Some (Serving c) →
  shutdown_sent (n_world n) = false → batch_accepted to_vec b (l_client l) evs d →
  ∃ t' n' l', Task.exec (net_step to_vec b) n t' n' ∧ Forall (own id) t'.*2 ∧
    started to_vec id t' = [evs] ∧ n_links n' !! id = Some l' ∧
    l_send l' = Returned (Ok (len d)) ∧ l_client l' = l_client l ∧
    orderly to_vec b (l_client l) id t'.
Proof.
  intros Hcap Hx Hl Hok Hr Hc Hsd Hd.
  destruct (quiet t n id l r c Hx Hl Hok Hr Hc) as (Hcs & Hup & m & Hdown).
  pose proof (exec_world_ok b _ _ (exec_served to_vec b _ t n Hx)) as Hw.
  destruct c as [st k], l as [client snd up down], n as [w links]. simpl in *. subst st snd.
  pose proof (bo_fits _ _ _ _ _ Hd) as Hfits. pose proof (bf_len _ _ Hfits) as Hlen.
  destruct (send_phase id w client r up down evs d [] Hd Hup) as (up1 & Ha1 & Hup1).
  pose proof (receive_phase id w client (AwaitAcks (len d)) up1 down k d Hfits
    (batch_accepted_plan to_vec b client evs d Hmax Hd) Hup1 Hc) as Ha2.
  set (w2 := set_handler id _ w) in *.
  assert (Hw2 : world_ok b w2).
  { destruct (Ha2 {[id := Link client (AwaitAcks (len d)) up1 down]} (lookup_singleton_eq _ _))
      as (t2 & links2 & Hx2 & _). apply exec_served in Hx2.
    eapply (exec_preserves (server_step b) (world_ok b) (λ _, True)); [|exact Hw| |exact Hx2].
    - intros ? ? ? ? _. by apply server_step_ok.
    - by apply Forall_true. }
  destruct (dispatch_phase id w2 (Link client (AwaitAcks (len d)) pipe_empty down) k d
    Hw2 Hsd Hcap (lookup_insert_eq _ _ _)) as (w3 & Ha3 & Hh3).
  destruct (answer_phase id w3 client pipe_empty down k d (replicate m 0) Hh3)
    as (w4 & down4 & Ha4); [unfold u32; lia|by apply Forall_replicate; lia|by apply Forall_replicate|done|].
  destruct (advances_trans _ _ _ _ _ _ _ _ _ Ha1
    (advances_trans _ _ _ _ _ _ _ _ _ Ha2
      (advances_trans _ _ _ _ _ _ _ _ _ Ha3 Ha4)) links Hl)
    as (t' & links' & Hx' & Hl' & Hown & Hst & Hor & _).
  by exists t', (Net w4 links'), (Link client (Returned (Ok (len d))) pipe_empty down4).
Qed.
End progress.

(** ** Property *)

(** A send can always complete.  In every reachable state of the network, an orderly client whose last
    [send] returned [Ok], on a connection whose handler is alive in a server that was not dropped,
    can send any batch that the server accepts: there is a continuation, made of steps of this
    client, of its handler and of the consumer only, in which the [send] returns the number of
    events.  So neither the queue, nor the acknowledgements of other connections, nor frames left
    over from earlier batches can block it for good. *)
Theorem send_can_complete `{Zlib, !ZlibOk _} {T} (to_vec : T → string + bytes) {TlsAcceptor}
    (b : ServerBuilder TlsAcceptor) t n id l r c evs d :
  usize (s_max_frame_size b) → 0 < s_channel_capacity b →
  Task.exec (net_step to_vec b) net_start t n → n_links n !! id = Some l →
  orderly to_vec b (l_client l) id t →
  l_send l = Returned (Ok r) → handlers (n_world n) !! id = Some (Serving c) →
  shutdown_sent (n_world n) = false → batch_accepted to_vec b (l_client l) evs d →
  ∃ t' n' l', Task.exec (net_step to_vec b) n t' n' ∧ Forall (own id) t'.*2 ∧
    started to_vec id t' = [evs] ∧ n_links n' !! id = Some l' ∧
    l_send l' = Returned (Ok (len d)).
Proof.
  intros Hmax Hcap Hx Hl Hok Hr Hc Hsd Hd.
  destruct (send_completion to_vec b Hmax t n id l r c evs d Hcap Hx Hl Hok Hr Hc Hsd Hd)
    as (t' & n' & l' & Hx' & Hown & Hst & Hl' & Hr' & _). by exists t', n', l'.
Qed.

(** ** Witness *)

(** After the first batch of the sample network, while the second client is in the middle of its
    first batch. *)
Lemma send_can_complete_witness :
  let l := take 27 sample_network in
  ∃ t' n' l', Task.exec sample_step (network_end l) t' n' ∧ Forall (own 0) t'.*2 ∧
    started sample_to_vec 0 t' = [Some <$> [[x64]; []]] ∧ n_links n' !! 0%nat = Some l' ∧
    l_send l' = Returned (Ok 2).
Proof.
  apply (send_can_complete sample_to_vec sample_server (network_trace (take 27 sample_network))
    (network_end (take 27 sample_network)) 0
    (Link (sample_client 3) (Returned (Ok 2)) pipe_empty pipe_empty) 2 (Conn AwaitWindow 1)
    (Some <$> [[x64]; []]) [[x64]; []]).
  - apply sample_max_ok.
  - reflexivity.
  - apply network_exec. vm_compute. by eexists.
  - vm_compute. reflexivity.
  - apply (sample_orderly 1); vm_compute; reflexivity.
  - reflexivity.
  - vm_compute. reflexivity.
  - vm_compute. reflexivity.
  - apply sample_batches_ok. by repeat constructor.
Defined.
