(* ===== verification/Service.v ===== *)
(** * Service: what the protocol promises, as an abstract machine

    The specification of the whole program: batches of a connection, submitted one at a time, each
    delivered once, settled by the consumer, and then confirmed to the client that submitted it.
    An [account] is the state of one connection and knows nothing of frames, bytes, windows,
    acknowledgement numbers, queues or timeouts; [account_step] says which [action] may come next.

    The refinement: [visible] are the actions of a step of the network of Network.v, most of
    which are silent, [account_at] is the abstraction function, and every execution of the
    network, whatever fails in it, is an execution of the account of each of its connections whose
    client is [orderly] ([service_refines]).  What the specification promises ([account_bounds]) is then true of the
    program. *)

From stdpp Require Import gmap.
From S2P Require Import Prelude Errors Zlib Frame Codec Task Batch Connection Client Server System.
From S2P Require Import Network Progress.

(** ** The specification *)

Record account : Type := Account {
  submitted : list (list bytes);   (* the batches the client has submitted *)
  delivered : nat;                 (* how many of them the server has handed to its consumer *)
  settled : nat;                   (* how many of these the consumer has disposed of *)
  confirmed : nat;                 (* how many of these the client knows to be settled *)
}.

Inductive action : Type :=
| Submit (d : list bytes)
| Deliver (c : list bytes * Z)
| Settle (c : list bytes * Z)
| Confirm (n : Z).

Definition account_start : account := Account [] 0 0 0.

(** The next batch to be delivered, settled or confirmed is always the oldest that is not. *)
Definition account_step (a : account) (x : action) : option account :=
  match x with
  | Submit d =>
      if bool_decide (confirmed a = length (submitted a))
      then Some (Account (submitted a ++ [d]) (delivered a) (settled a) (confirmed a)) else None
  | Deliver c =>
      if bool_decide (settled a = delivered a ∧ numbered <$> submitted a !! delivered a = Some c)
      then Some (Account (submitted a) (S (delivered a)) (settled a) (confirmed a)) else None
  | Settle c =>
      if bool_decide (settled a < delivered a ∧ numbered <$> submitted a !! settled a = Some c)%nat
      then Some (Account (submitted a) (delivered a) (S (settled a)) (confirmed a)) else None
  | Confirm n =>
      if bool_decide (confirmed a < settled a ∧ len <$> submitted a !! confirmed a = Some n)%nat
      then Some (Account (submitted a) (delivered a) (settled a) (S (confirmed a))) else None
  end.

(** What it promises of its states. *)
Record account_ok (a : account) : Prop := {
  ao_confirmed : (confirmed a <= settled a)%nat;
  ao_settled : (settled a <= delivered a)%nat;
  ao_delivered : (delivered a <= length (submitted a))%nat;
  ao_submitted : (length (submitted a) <= S (confirmed a))%nat;
}.

Lemma account_step_ok a x a' : account_ok a → account_step a x = Some a' → account_ok a'.
Proof.
  intros [H1 H2 H3 H4]. destruct x; simpl; case_bool_decide as Hg; try done; intros [= <-];
    split; simpl; rewrite ?length_app; simpl; try lia.
  destruct Hg as [_ Hg]. destruct (submitted a !! delivered a) eqn:Hl; [|done].
  apply lookup_lt_Some in Hl. lia.
Qed.

Lemma account_run_ok l a : Task.run account_step account_start l = Some a → account_ok a.
Proof.
  intros Hr. apply run_trace in Hr.
  eapply (exec_preserves account_step account_ok (λ _, True)); [| | |exact Hr].
  - intros ? ? ? ? _. by apply account_step_ok.
  - split; simpl; lia.
  - by apply Forall_true.
Qed.

(** Runs of at most one action of a kind. *)
Lemma run_deliver a cs :
  (length cs <= 1)%nat → (cs ≠ [] → settled a = delivered a) →
  cs `prefix_of` (numbered <$> drop (delivered a) (submitted a)) →
  Task.run account_step a (Deliver <$> cs) =
    Some (Account (submitted a) (delivered a + length cs) (settled a) (confirmed a)).
Proof.
  destruct cs as [|c [|]]; simpl; [..|lia]; intros _ Hs Hc.
  { rewrite Nat.add_0_r. by destruct a. }
  destruct Hc as [l Hc]. rewrite bool_decide_true; [simpl; by rewrite Nat.add_1_r|].
  split; [by apply Hs|]. apply (f_equal (λ l, l !! 0%nat)) in Hc.
  rewrite list_lookup_fmap, lookup_drop, Nat.add_0_r in Hc. exact Hc.
Qed.

Lemma run_settle a cs :
  (length cs <= 1)%nat → (settled a + length cs <= delivered a)%nat →
  cs `prefix_of` (numbered <$> drop (settled a) (submitted a)) →
  Task.run account_step a (Settle <$> cs) =
    Some (Account (submitted a) (delivered a) (settled a + length cs) (confirmed a)).
Proof.
  destruct cs as [|c [|]]; simpl; [..|lia]; intros _ Hs Hc.
  { rewrite Nat.add_0_r. by destruct a. }
  destruct Hc as [l Hc]. rewrite bool_decide_true; [simpl; by rewrite Nat.add_1_r|].
  split; [lia|]. apply (f_equal (λ l, l !! 0%nat)) in Hc.
  rewrite list_lookup_fmap, lookup_drop, Nat.add_0_r in Hc. exact Hc.
Qed.

(** A batch that goes from its submission to its confirmation does so in these four actions. *)
Definition full_turn (d : list bytes) : list action :=
  [Submit d; Deliver (numbered d); Settle (numbered d); Confirm (len d)].

Lemma step_submitted a x a' :
  account_step a x = Some a' → ∃ l, submitted a' = submitted a ++ l.
Proof.
  destruct x as [d|c|c|k]; simpl; case_bool_decide; try done; intros [= <-]; simpl;
    [by exists [d]|exists []; by rewrite app_nil_r..].
Qed.

Lemma run_submitted l a a' :
  Task.run account_step a l = Some a' → ∃ l, submitted a' = submitted a ++ l.
Proof.
  revert a. induction l as [|x l IH]; intros a; simpl.
  - intros [= ->]. exists []. by rewrite app_nil_r.
  - destruct (account_step a x) as [a1|] eqn:Hs; [|done]. intros (l2 & ->)%IH.
    destruct (step_submitted _ _ _ Hs) as (l1 & ->). exists (l1 ++ l2). by rewrite app_assoc.
Qed.

Lemma settled_step sub n x a' :
  n = length sub → account_step (Account sub n n n) x = Some a' →
  ∃ d, x = Submit d ∧ a' = Account (sub ++ [d]) n n n.
Proof.
  intros ->. destruct x as [d|c|c|k]; simpl; case_bool_decide as Hg; try done.
  - intros [= <-]. by exists d.
  - rewrite lookup_ge_None_2 in Hg by lia. by destruct Hg.
  - lia.
  - lia.
Qed.

Lemma submitted_step sub d n x a' :
  n = length sub →
  (account_step (Account (sub ++ [d]) n n n) x = Some a' →
     x = Deliver (numbered d) ∧ a' = Account (sub ++ [d]) (S n) n n) ∧
  (account_step (Account (sub ++ [d]) (S n) n n) x = Some a' →
     x = Settle (numbered d) ∧ a' = Account (sub ++ [d]) (S n) (S n) n) ∧
  (account_step (Account (sub ++ [d]) (S n) (S n) n) x = Some a' →
     x = Confirm (len d) ∧ a' = Account (sub ++ [d]) (S n) (S n) (S n)).
Proof.
  intros ->. assert (Hd : (sub ++ [d]) !! length sub = Some d) by by apply list_lookup_middle.
  assert (Hn : (sub ++ [d]) !! S (length sub) = None)
    by (apply lookup_ge_None_2; rewrite length_app; simpl; lia).
  split; [|split]; destruct x as [d'|c|c|k]; cbn [account_step submitted delivered settled confirmed];
    rewrite ?length_app, ?Hd, ?Hn; simpl; case_bool_decide as Hg; try done; try lia;
    intros [= <-]; destruct Hg as [? [= <-]]; try done; lia.
Qed.

(** From a settled account, one more batch can only be confirmed by going through all of it. *)
Lemma run_full_turn a l d a' :
  account_ok a → confirmed a = length (submitted a) →
  Task.run account_step a l = Some a' → submitted a' = submitted a ++ [d] →
  confirmed a' = length (submitted a') → l = full_turn d.
Proof.
  destruct a as [sub dl st cf]. intros [H1 H2 H3 _] Hq. simpl in *. subst cf.
  assert (dl = length sub) as -> by lia. assert (st = length sub) as -> by lia. clear H1 H2 H3.
  intros Hr Hsub Hc.
  destruct l as [|x l]; [injection Hr as <-; simpl in Hsub|].
  { apply (f_equal length) in Hsub. rewrite length_app in Hsub. simpl in Hsub. lia. }
  cbn [Task.run] in Hr. destruct (account_step _ x) as [a1|] eqn:Hx; [|done].
  apply settled_step in Hx as (e & -> & ->); [|done]. cbn [mbind option_bind] in Hr.
  destruct (run_submitted _ _ _ Hr) as [more Hmore]. rewrite Hsub in Hmore. simpl in Hmore.
  rewrite <- app_assoc in Hmore. apply app_inv_head in Hmore. injection Hmore as <- <-.
  assert (Hnext : ∀ l a, Task.run account_step a l = Some a' →
    (confirmed a = length sub) → ∃ x l' a1, l = x :: l' ∧ account_step a x = Some a1 ∧
      Task.run account_step a1 l' = Some a').
  { intros [|x l'] a Ha Hca; simpl in Ha.
    - injection Ha as ->. rewrite Hc, Hsub, length_app in Hca. simpl in Hca. lia.
    - destruct (account_step a x) as [a1|] eqn:Hx; [|done]. by exists x, l', a1. }
  destruct (Hnext _ _ Hr eq_refl) as (x1 & l1 & a1 & -> & Hx1 & Hr1).
  apply (submitted_step sub d _ _ _ eq_refl) in Hx1 as [-> ->].
  destruct (Hnext _ _ Hr1 eq_refl) as (x2 & l2 & a2 & -> & Hx2 & Hr2).
  apply (submitted_step sub d _ _ _ eq_refl) in Hx2 as [-> ->].
  destruct (Hnext _ _ Hr2 eq_refl) as (x3 & l3 & a3 & -> & Hx3 & Hr3).
  apply (submitted_step sub d _ _ _ eq_refl) in Hx3 as [-> ->].
  destruct l3 as [|x4 l4]; [done|]. cbn [Task.run] in Hr3.
  destruct (account_step _ x4) as [a4|] eqn:Hx4; [|done].
  apply settled_step in Hx4 as (e & -> & ->); [|by rewrite length_app, Nat.add_1_r].
  apply run_submitted in Hr3 as [more Hmore]. rewrite Hsub in Hmore.
  apply (f_equal length) in Hmore. simpl in Hmore. rewrite !length_app in Hmore. simpl in Hmore. lia.
Qed.

(** ** The actions of the network *)

Section service.
Context `{Zlib} {T : Type} (to_vec : T → string + bytes).
Context {TlsAcceptor : Type} (b : ServerBuilder TlsAcceptor).

(** The events of a batch as they are serialized. *)
Definition serialize (evs : list T) : list bytes :=
  default [] (mapM (λ ev, match to_vec ev with inr d => Some d | inl _ => None end) evs).

Lemma serialize_ok evs d : serialized to_vec evs d → serialize evs = d.
Proof.
  intros Hs. unfold serialize. replace (mapM _ evs) with (Some d); [done|].
  symmetry. apply mapM_Some_2. eapply Forall2_impl; [exact Hs|]. by intros ev x ->.
Qed.

(** A [send] that was waiting returns [Ok]. *)
Definition send_result_of (st st' : send_state) : list Z :=
  match st, st' with
  | Returned _, _ => []
  | _, Returned (Ok k) => [k]
  | _, _ => []
  end.

Definition confirmed_by (id : nat) (x : net * net_event (T := T)) : list Z :=
  match x.2 with
  | OnLink id' e =>
      if bool_decide (id = id') then
        match l ← n_links x.1 !! id;
              '(l', _) ← link_step to_vec b (request_at b (n_world x.1) id) l e;
              Some (send_result_of (l_send l) (l_send l')) with
        | Some ks => ks
        | None => []
        end
      else []
  | _ => []
  end.

Definition visible (id : nat) (x : net * net_event (T := T)) : list action :=
  (Submit <$> (serialize <$> started_by to_vec id x)) ++
  (Deliver <$> (content ∘ snd <$> of_conn id (enqueued (served_by to_vec b x)))) ++
  (Settle <$> (content ∘ snd <$> of_conn id (disposed (served_by to_vec b x)))) ++
  (Confirm <$> confirmed_by id x).

(** ** The abstraction function *)

Definition confirmed_at (l : option link) (n : nat) : nat :=
  match l_send <$> l with
  | Some (Returned (Ok _)) => n
  | _ => pred n
  end.

Definition account_at (id : nat) (t : list (net * net_event (T := T))) (n : net) : account :=
  Account (serialize <$> started to_vec id t)
    (length (of_conn id (enqueued (served to_vec b t))))
    (length (of_conn id (disposed (served to_vec b t))))
    (confirmed_at (n_links n !! id) (length (started to_vec id t))).

(** ** What a step shows *)

Abbreviation exec := (Task.exec (net_step to_vec b) net_start).

(** A server event puts a batch in the queue or disposes of some, not both. *)
Lemma one_kind id x :
  of_conn id (enqueued (served_by to_vec b x)) = [] ∨
  of_conn id (disposed (served_by to_vec b x)) = [].
Proof.
  assert (Hkind : ∀ w e, enqueued_by (w, e) = [] ∨ disposed_by (w, e) = [])
    by (intros w e; destruct e; auto).
  assert (Hserved : served_by to_vec b x = [] ∨ ∃ w e, served_by to_vec b x = [(w, e)]).
  { destruct x as [n [client|e|id' e]]; unfold served_by; cbn [fst snd]; [by eauto..|].
    destruct (l ← _; _) as [[? [i|]]|]; eauto. }
  destruct Hserved as [->|(w & e & ->)]; [by left|].
  unfold enqueued, disposed. simpl. rewrite !app_nil_r.
  by destruct (Hkind w e) as [-> | ->]; [left|right].
Qed.

(** What a step of a link does to the client's [send]. *)
Lemma link_step_send req l e l' i :
  link_step to_vec b req l e = Some (l', i) →
  (starts to_vec e = [] ∧ l_send l' = l_send l) ∨
  (∃ evs, e = Send evs ∧ starts to_vec e = [evs] ∧ i = None ∧ ∀ r, l_send l' ≠ Returned r) ∨
  ((∀ r, l_send l ≠ Returned r) ∧ starts to_vec e = [] ∧ i = None).
Proof.
  assert (Hres : ∀ j l1, client_step j l = Some l1 → ∀ r, l_send l ≠ Returned r).
  { intros j l1. unfold client_step. intros Hj r Hr. by rewrite Hr in Hj. }
  destruct e as [evs| | |j|k|k| | |r1]; cbn [link_step]; intros Hs.
  - unfold starts. destruct (send_start to_vec evs) eqn:Hss;
      try (injection Hs as <- <-; right; left; by exists evs).
    destruct (l_send l) eqn:Hst; injection Hs as <- <-; first [by left|right; right; done].
  - destruct (send_request _ _); try done. destruct (pipe_feed _ _ _); [|done].
    cbn [mbind option_bind] in Hs. destruct (client_step _ l) as [l1|] eqn:Hc; [|done].
    injection Hs as <- <-. right; right. by split; [eapply Hres|].
  - destruct (pipe_next _ _) as [[f down]|]; [|done]. cbn [mbind option_bind] in Hs.
    destruct (client_step _ l) as [l1|] eqn:Hc; [|done].
    injection Hs as <- <-. right; right. by split; [eapply Hres|].
  - destruct (client_other j); [|done]. destruct (client_step j l) as [l1|] eqn:Hc; [|done].
    injection Hs as <- <-. right; right. by split; [eapply Hres|].
  - injection Hs as <- <-. by left.
  - injection Hs as <- <-. by left.
  - destruct (pipe_next _ _) as [[f up]|]; [|done]. injection Hs as <- <-. by left.
  - destruct req as [[]|]; try done. destruct (pipe_feed _ _ _); [|done].
    injection Hs as <- <-. by left.
  - destruct r1, req as [[]|]; try done; (destruct (pipe_feed _ _ _); [|done]);
      injection Hs as <- <-; by left.
Qed.

(** What a step shows of a connection: a batch is submitted, or one is confirmed, or anything
    else. *)
Inductive step_kind (id : nat) (t : list (net * net_event (T := T))) (x : net * net_event (T := T))
    (n' : net) : Prop :=
| kind_other :
    started_by to_vec id x = [] → confirmed_by id x = [] →
    confirmed_at (n_links n' !! id) (length (started to_vec id t)) =
      confirmed_at (n_links x.1 !! id) (length (started to_vec id t)) →
    step_kind id t x n'
| kind_submit l r evs :
    n_links x.1 !! id = Some l → l_send l = Returned (Ok r) →
    started_by to_vec id x = [evs] → served_by to_vec b x = [] → confirmed_by id x = [] →
    confirmed_at (n_links n' !! id) (S (length (started to_vec id t))) =
      length (started to_vec id t) →
    step_kind id t x n'
| kind_confirm l l' k :
    n_links x.1 !! id = Some l → (∀ r, l_send l ≠ Returned r) →
    started_by to_vec id x = [] → served_by to_vec b x = [] → confirmed_by id x = [k] →
    n_links n' !! id = Some l' → l_send l' = Returned (Ok k) →
    step_kind id t x n'.

Lemma link_step_kind t n e l l' i w id :
  n_links n !! id = Some l → patient_by id (n, OnLink id e) = true →
  link_step to_vec b (request_at b (n_world n) id) l e = Some (l', i) →
  step_kind id t (n, OnLink id e) (Net w (<[id:=l']> (n_links n))).
Proof.
  intros Hl Hpat Hls.
  assert (Hst : started_by to_vec id (n, OnLink id e) = starts to_vec e)
    by (unfold started_by; cbn [snd]; by rewrite bool_decide_true).
  assert (Hcf : confirmed_by id (n, OnLink id e) = send_result_of (l_send l) (l_send l')).
  { unfold confirmed_by. cbn [fst snd]. rewrite bool_decide_true, Hl by done.
    cbn [mbind option_bind]. by rewrite Hls. }
  assert (Hsv : i = None → served_by to_vec b (n, OnLink id e) = []).
  { intros ->. unfold served_by. cbn [fst snd]. rewrite Hl. cbn [mbind option_bind].
    by rewrite Hls. }
  assert (Hl' : n_links (Net w (<[id:=l']> (n_links n))) !! id = Some l')
    by apply lookup_insert_eq.
  destruct (link_step_send _ _ _ _ _ Hls)
    as [[Hnone Hsame]|[(evs & -> & Hss & Hi & Hnr)|(Hnr & Hnone & Hi)]].
  + apply kind_other; [by rewrite Hst| |].
    * rewrite Hcf, Hsame. by destruct (l_send l) as [| | | | |[]].
    * cbn [fst]. rewrite Hl', Hl. unfold confirmed_at. simpl. by rewrite Hsame.
  + assert (Hr : ∃ r, l_send l = Returned (Ok r)).
    { unfold patient_by in Hpat. cbn [snd fst] in Hpat. rewrite bool_decide_true, Hl in Hpat by done.
      simpl in Hpat. destruct (l_send l) as [| | | | |[r| |]]; try done. by exists r. }
    destruct Hr as [r Hr]. eapply kind_submit; [exact Hl|exact Hr|by rewrite Hst|by apply Hsv|by rewrite Hcf, Hr|].
    rewrite Hl'. unfold confirmed_at. simpl. destruct (l_send l'); try done. by destruct (Hnr r0).
  + assert (Hcase : (∃ k, l_send l' = Returned (Ok k)) ∨ ∀ k, l_send l' ≠ Returned (Ok k))
      by (destruct (l_send l') as [| | | | |[]]; eauto).
    destruct Hcase as [[k Hk]|Hk].
    * eapply kind_confirm; [exact Hl|exact Hnr|by rewrite Hst|by apply Hsv| |exact Hl'|exact Hk].
      rewrite Hcf, Hk. destruct (l_send l); try done. by destruct (Hnr r).
    * apply kind_other; [by rewrite Hst| |].
      -- rewrite Hcf. unfold send_result_of.
         destruct (l_send l), (l_send l') as [| | | | |[k| |]]; try done; by destruct (Hk k).
      -- cbn [fst]. rewrite Hl', Hl. unfold confirmed_at. simpl.
         destruct (l_send l) as [| | | | |r]; [..|by destruct (Hnr r)];
           destruct (l_send l') as [| | | | |[k| |]]; try done; by destruct (Hk k).
Qed.

Lemma step_kinds t n e n' id :
  linked to_vec b t n id → patient_by id (n, e) = true → net_step to_vec b n e = Some n' →
  step_kind id t (n, e) n'.
Proof.
  intros Hlink Hpat Hs. destruct e as [client|e|id' e]; cbn [net_step] in Hs.
  - destruct (server_step b _ Accept) as [w|]; [|done]. injection Hs as <-.
    apply kind_other; [done..|]. simpl.
    destruct (decide (id = next_id (n_world n))) as [->|Hne];
      [|by rewrite lookup_insert_ne by done].
    rewrite lookup_insert_eq. unfold linked in Hlink.
    destruct (n_links n !! _); [lia|]. by destruct Hlink as (_ & -> & _).
  - destruct (server_other e); [|done]. destruct (server_step b _ e); [|done].
    injection Hs as <-. by apply kind_other.
  - destruct (n_links n !! id') as [l|] eqn:Hl; [|done]. cbn [mbind option_bind] in Hs.
    destruct (link_step _ _ _ l e) as [[l' i]|] eqn:Hls; [|done]. cbn [mbind option_bind] in Hs.
    destruct (match i with Some _ => _ | None => _ end) as [w|] eqn:Hw; [|done]. injection Hs as <-.
    destruct (decide (id = id')) as [<-|Hne].
    2: { apply kind_other; unfold started_by, confirmed_by; cbn [fst snd n_links].
         - by rewrite bool_decide_false.
         - by rewrite bool_decide_false.
         - by rewrite lookup_insert_ne. }
    by eapply link_step_kind.
Qed.

(** ** The state of a connection *)

Lemma net_step_client t n e n' id l' :
  linked to_vec b t n id → net_step to_vec b n e = Some n' → n_links n' !! id = Some l' →
  match n_links n !! id with Some l => l_client l = l_client l' | None => True end.
Proof.
  unfold linked. intros Hlink Hs Hl'. destruct (n_links n !! id) as [l|] eqn:Hl; [|done].
  destruct e as [client|e|id' e]; cbn [net_step] in Hs.
  - destruct (server_step b _ Accept) as [w|]; [|done]. injection Hs as <-. simpl in Hl'.
    rewrite lookup_insert_ne in Hl' by lia. congruence.
  - destruct (server_other e); [|done]. destruct (server_step b _ e); [|done].
    injection Hs as <-. simpl in Hl'. congruence.
  - destruct (n_links n !! id') as [l0|] eqn:Hl0; [|done]. cbn [mbind option_bind] in Hs.
    destruct (link_step _ _ _ l0 e) as [[l1 i]|] eqn:Hls; [|done]. cbn [mbind option_bind] in Hs.
    destruct (match i with Some _ => _ | None => _ end) as [w|] eqn:Hw; [|done]. injection Hs as <-.
    simpl in Hl'. apply lookup_insert_Some in Hl' as [[<- <-]|[_ ?]]; [|congruence].
    rewrite (link_step_client _ _ _ _ _ _ _ Hls). congruence.
Qed.

Lemma started_nonempty t n id l :
  linked to_vec b t n id → n_links n !! id = Some l → orderly to_vec b (l_client l) id t →
  (∀ r, l_send l ≠ Returned r) → started to_vec id t ≠ [].
Proof.
  unfold linked. intros Hlink Hl Hok Hr Hnil. rewrite Hl, Hnil in Hlink.
  destruct Hlink as [_ Hlink]. destruct (Hlink Hok) as [ds more gs F G Hh _ _ _].
  inversion Hh as [Hst|? ? ? ? evs d tr st _ _ _ _ Hev]; subst; [by destruct (Hr (Ok 0))|].
  by destruct evss.
Qed.

Lemma enqueued_nodup tw w id :
  Task.exec (server_step b) world_start tw w → NoDup (of_conn id (enqueued tw)).
Proof.
  intros Hx. destruct (exec_projects b tw w id Hx) as (c & Hc & _ & Hd & _).
  destruct (exec_channels (config b) _ _ Hc) as [Htx _]. rewrite Hd in Htx.
  apply (NoDup_fmap_1 snd), (NoDup_fmap_1 ack_tx). unfold of_conn. rewrite Htx.
  apply (NoDup_fmap_2 Some), NoDup_seq.
Qed.

Lemma accepted_serialize client evss ds :
  Forall2 (batch_accepted to_vec b client) evss ds → serialize <$> evss = ds.
Proof.
  induction 1 as [|evs d evss ds Hd _ IH]; [done|].
  rewrite fmap_cons, IH. f_equal. apply serialize_ok, Hd.
Qed.

Section facts.
Context `{!ZlibOk _} (Hmax : usize (s_max_frame_size b)).

Lemma account_facts t n id l :
  exec t n → n_links n !! id = Some l →
  orderly to_vec b (l_client l) id t →
  let a := account_at id t n in
  content ∘ snd <$> of_conn id (enqueued (served to_vec b t)) `prefix_of` numbered <$> submitted a ∧
  (∀ r, l_send l = Returned (Ok r) → (length (submitted a) <= settled a)%nat ∧
     (submitted a = [] ∨ len <$> last (submitted a) = Some r)).
Proof.
  intros Hx Hl Hok a. pose proof (exec_served to_vec b _ t n Hx) as Hsx.
  destruct (exec_delivers to_vec b t n id l Hmax Hx Hl Hok)
    as (ds & more & later & Hds & _ & Hlater & Hcontent & Hdisp & Hret).
  assert (Hsub : submitted a = ds ++ more).
  { exact (accepted_serialize _ _ _ Hds). }
  rewrite Hsub. split.
  - unfold of_conn. rewrite Hcontent, !fmap_app. apply prefix_app.
    destruct Hlater as [z ->]. rewrite fmap_app. by eexists.
  - intros r Hr. rewrite (Hret r Hr) in *. apply prefix_nil_inv in Hlater as ->.
    rewrite app_nil_r in *. split.
    + subst a. simpl. destruct (exec_in_order b _ _ id Hsx) as [_ Hord].
      pose proof (enqueued_nodup _ _ id Hsx) as Hnd. unfold of_conn at 1 in Hord.
      apply (f_equal length) in Hcontent. rewrite !length_fmap in Hcontent.
      rewrite take_ge in Hdisp by lia. fold (of_conn id (enqueued (served to_vec b t))) in *.
      rewrite <- Hcontent, Hord in *. rewrite length_app.
      destruct (of_conn id (queue _ ++ held _)) as [|p F]; [simpl; lia|].
      apply NoDup_app in Hnd as (_ & Hnd & _).
      apply Forall_app in Hdisp as [_ [Hp _]%Forall_cons]. destruct (Hnd p); [|by left].
      apply list_elem_of_filter. split; [|done].
      assert (Hin : p ∈ of_conn id (enqueued (served to_vec b t)))
        by (rewrite Hord; apply elem_of_app; right; by left).
      by apply list_elem_of_filter in Hin as [? _].
    + pose proof (exec_linked to_vec b t n Hmax Hx id) as Hlink. unfold linked in Hlink.
      rewrite Hl in Hlink. destruct Hlink as [_ Hlink].
      destruct (Hlink Hok) as [ds' more' gs F G Hh _ _ _]. rewrite Hr in Hh.
      pose proof (history_result _ _ _ _ _ _ _ _ _ Hh) as ->.
      apply history_returned in Hh as [Hds' _]. apply accepted_serialize in Hds', Hds.
      rewrite <- Hds', Hds. destruct (last ds) eqn:Hlast; [by right|left].
      by apply last_None.
Qed.
(** What a step adds to the batches of a connection, put in the queue or disposed of, the account
    allows. *)
Lemma run_batches sub conf (E D F es ds F' : list parcel) :
  E = D ++ F → (length F <= 1)%nat → E ++ es = (D ++ ds) ++ F' → (length F' <= 1)%nat →
  es = [] ∨ ds = [] → content ∘ snd <$> E ++ es `prefix_of` numbered <$> sub →
  Task.run account_step (Account sub (length E) (length D) conf)
    ((Deliver <$> (content ∘ snd <$> es)) ++ (Settle <$> (content ∘ snd <$> ds))) =
  Some (Account sub (length (E ++ es)) (length (D ++ ds)) conf).
Proof.
  intros HE HF HE' HF' Hkind Hpre.
  assert (Hnext : ∀ A B, A ++ B `prefix_of` E ++ es →
    content ∘ snd <$> B `prefix_of` numbered <$> drop (length A) sub).
  { intros A B [z HAB]. rewrite HAB, !fmap_app, <- app_assoc in Hpre. destruct Hpre as [z' Hsub].
    rewrite fmap_drop, Hsub, <- !app_assoc, drop_app_length' by by rewrite length_fmap.
    by eexists. }
  rewrite HE in HE'. destruct Hkind as [-> | ->].
  - rewrite app_nil_r, <- app_assoc in HE'. apply app_inv_head in HE'. rewrite app_nil_r.
    cbn [fmap list_fmap app]. rewrite run_settle; cbn [settled delivered submitted].
    + by rewrite length_fmap, length_app.
    + rewrite length_fmap. rewrite HE', length_app in HF. lia.
    + rewrite length_fmap, HE, HE', !length_app. lia.
    + apply Hnext. rewrite app_nil_r, HE, HE', app_assoc. by eexists.
  - rewrite app_nil_r, <- app_assoc in HE'. apply app_inv_head in HE'. rewrite !app_nil_r.
    rewrite <- HE', length_app in HF'.
    rewrite run_deliver; cbn [settled delivered submitted].
    + by rewrite length_fmap, length_app.
    + rewrite length_fmap. lia.
    + intros Hne. rewrite HE, length_app. destruct es; [done|]. simpl in HF'. lia.
    + by apply Hnext.
Qed.

Lemma visible_step t n e n' id l :
  exec t n → net_step to_vec b n e = Some n' → n_links n' !! id = Some l →
  orderly to_vec b (l_client l) id (t ++ [(n, e)]) →
  Task.run account_step (account_at id t n) (visible id (n, e)) =
    Some (account_at id (t ++ [(n, e)]) n').
Proof.
  intros Hx Hs Hl Hok. pose proof (exec_snoc _ _ _ _ _ _ Hx Hs) as Hx'.
  destruct (account_facts _ _ id l Hx' Hl Hok) as [Hpre Hret]. cbv zeta in *.
  destruct (exec_in_order b _ _ id (exec_served to_vec b _ t n Hx)) as [HF HE].
  destruct (exec_in_order b _ _ id (exec_served to_vec b _ _ _ Hx')) as [HF' HE'].
  unfold account_at in *. cbn [submitted settled] in *. revert Hpre Hret HF' HE'.
  rewrite (proj1 (link_snoc to_vec b id t (n, e))).
  assert (Hsv : served to_vec b (t ++ [(n, e)]) = served to_vec b t ++ served_by to_vec b (n, e))
    by apply bind_snoc.
  rewrite Hsv. unfold enqueued, disposed. rewrite !bind_app, !of_conn_app.
  fold (enqueued (served to_vec b t)) (disposed (served to_vec b t)).
  fold (enqueued (served_by to_vec b (n, e))) (disposed (served_by to_vec b (n, e))).
  intros Hpre Hret HF' HE'. unfold visible.
  pose proof (exec_linked to_vec b t n Hmax Hx id) as Hlink.
  pose proof (net_step_client t n e n' id l Hlink Hs Hl) as Hcl.
  apply orderly_app in Hok as [Hok1 [Hpat _]]. cbn [patient forallb] in Hpat. rewrite andb_true_r in Hpat.
  destruct (step_kinds t n e n' id Hlink Hpat Hs)
    as [Hss Hks Hconf|l0 r evs Hl0 Hr Hss Hno Hks Hconf|l0 l1 k Hl0 Hr Hss Hno Hks Hl1 Hk].
  - rewrite Hss in Hpre, Hret |- *. rewrite !app_nil_r in *. rewrite Hks, Hconf.
    cbn [fst fmap list_fmap app]. rewrite app_nil_r. by eapply run_batches; [exact HE|..|apply one_kind|].
  - rewrite Hss, Hno, Hks in *. cbn [enqueued disposed mbind list_bind] in *.
    change (of_conn id []) with (@nil parcel). rewrite !app_nil_r.
    rewrite fmap_app, (length_app (started _ _ _)), (Nat.add_comm _ (length [evs])). simpl.
    rewrite Hconf. unfold confirmed_at. cbn [fst] in Hl0. rewrite Hl0. simpl. rewrite Hr.
    rewrite bool_decide_true; [done|]. by rewrite length_fmap.
  - rewrite Hss, Hno, Hks in *. cbn [enqueued disposed mbind list_bind] in *.
    change (of_conn id []) with (@nil parcel) in *. rewrite !app_nil_r in *.
    rewrite Hl in Hl1. injection Hl1 as <-.
    destruct (Hret k Hk) as [Hle Hlast]. rewrite length_fmap in *.
    cbn [fst] in Hl0. rewrite Hl0 in Hcl.
    pose proof (started_nonempty t n id l0 Hlink Hl0 ltac:(by rewrite Hcl) Hr) as Hne.
    unfold confirmed_at. rewrite Hl0, Hl. simpl. rewrite Hk.
    replace (match l_send l0 with Returned (Ok _) => _ | _ => _ end)
      with (pred (length (started to_vec id t)))
      by (destruct (l_send l0) as [| | | | |r]; try done; by destruct (Hr r)).
    destruct (started to_vec id t) as [|evs evss] eqn:Hst; [done|]. rewrite <- Hst in *.
    assert (Hlen : length (started to_vec id t) = S (length evss)) by by rewrite Hst.
    rewrite bool_decide_true; [by rewrite Hlen|]. split; [lia|].
    destruct Hlast as [Hnil|Hlast]; [by rewrite Hst in Hnil|].
    rewrite last_lookup, length_fmap in Hlast. exact Hlast.
Qed.
(** A connection that was not accepted shows nothing. *)
Lemma unlinked_start t n id :
  exec t n → n_links n !! id = None → account_at id t n = account_start ∧
  of_conn id (enqueued (served to_vec b t)) = [] ∧ of_conn id (disposed (served to_vec b t)) = [] ∧
  started to_vec id t = [].
Proof.
  intros Hx Hl. pose proof (exec_linked to_vec b t n Hmax Hx id) as Hlink. unfold linked in Hlink.
  rewrite Hl in Hlink. destruct Hlink as (_ & Hst & Htr).
  pose proof (exec_served to_vec b _ t n Hx) as Hsx.
  destruct (exec_projects b _ _ id Hsx) as (c & _ & _ & Hd & _). rewrite Htr in Hd.
  symmetry in Hd. apply fmap_nil_inv in Hd. fold (of_conn id (enqueued (served to_vec b t))) in Hd.
  destruct (exec_in_order b _ _ id Hsx) as [_ Hord]. rewrite Hd in Hord. symmetry in Hord.
  apply app_nil in Hord as [HD _]. unfold account_at. by rewrite Hst, Hd, HD, Hl.
Qed.

Lemma net_step_keeps n e n' id l :
  net_step to_vec b n e = Some n' → n_links n !! id = Some l → is_Some (n_links n' !! id).
Proof.
  intros Hs Hl. destruct e as [client|e|id' e]; cbn [net_step] in Hs.
  - destruct (server_step b _ Accept) as [w|]; [|done]. injection Hs as <-. simpl.
    apply lookup_insert_is_Some'. right. by eexists.
  - destruct (server_other e); [|done]. destruct (server_step b _ e); [|done].
    injection Hs as <-. by eexists.
  - destruct (n_links n !! id') as [l0|]; [|done]. cbn [mbind option_bind] in Hs.
    destruct (link_step _ _ _ l0 e) as [[l1 i]|]; [|done]. cbn [mbind option_bind] in Hs.
    destruct (match i with Some _ => _ | None => _ end) as [w|]; [|done]. injection Hs as <-.
    simpl. apply lookup_insert_is_Some'. right. by eexists.
Qed.

Lemma visible_unlinked t n e n' id :
  exec t n → net_step to_vec b n e = Some n' → n_links n' !! id = None →
  Task.run account_step (account_at id t n) (visible id (n, e)) =
    Some (account_at id (t ++ [(n, e)]) n').
Proof.
  intros Hx Hs Hl'. destruct (unlinked_start _ _ id (exec_snoc _ _ _ _ _ _ Hx Hs) Hl')
    as (-> & He & Hd & Hst).
  destruct (n_links n !! id) as [l|] eqn:Hl.
  { destruct (net_step_keeps _ _ _ _ _ Hs Hl). congruence. }
  destruct (unlinked_start _ _ id Hx Hl) as (-> & _).
  assert (Hsv : served to_vec b (t ++ [(n, e)]) = served to_vec b t ++ served_by to_vec b (n, e))
    by apply bind_snoc.
  rewrite Hsv in He, Hd. unfold enqueued in He. unfold disposed in Hd.
  rewrite bind_app, of_conn_app in He, Hd. apply app_nil in He as [_ He], Hd as [_ Hd].
  rewrite (proj1 (link_snoc to_vec b id t _)) in Hst. apply app_nil in Hst as [_ Hst].
  unfold visible, enqueued, disposed. rewrite He, Hd, Hst.
  unfold confirmed_by. cbn [fst snd]. destruct e; try done. rewrite Hl. by case_bool_decide.
Qed.
(** The simulation.  The theorem [service_refines] says what it means. *)
Lemma exec_account t n id l :
  exec t n → n_links n !! id = Some l →
  orderly to_vec b (l_client l) id t →
  Task.run account_step account_start (t ≫= visible id) = Some (account_at id t n) ∧
  account_ok (account_at id t n).
Proof.
  intros Hx Hl Hok.
  assert (Hrun : (∀ l, n_links n !! id = Some l →
      orderly to_vec b (l_client l) id t) →
    Task.run account_step account_start (t ≫= visible id) =
      Some (account_at id t n)).
  { clear l Hl Hok. revert t n Hx. refine (exec_ind_last (net_step to_vec b) net_start _ _ _); [done|].
    intros t n e n' Hx IH Hs Hok. rewrite bind_snoc, run_app.
    pose proof (exec_linked to_vec b t n Hmax Hx id) as Hlink.
    rewrite IH.
    - cbn [mbind option_bind]. destruct (n_links n' !! id) as [l|] eqn:Hl.
      + apply (visible_step t n e n' id l Hx Hs Hl). by apply Hok.
      + by apply visible_unlinked.
    - intros l Hl. destruct (net_step_keeps n e n' id l Hs Hl) as [l' Hl'].
      pose proof (net_step_client t n e n' id l' Hlink Hs Hl') as Hc. rewrite Hl in Hc.
      specialize (Hok l' Hl'). rewrite <- Hc in Hok. by apply orderly_app in Hok as [? _]. }
  assert (Hl' : ∀ l', n_links n !! id = Some l' →
    orderly to_vec b (l_client l') id t)
    by (rewrite Hl; by intros l' [= <-]).
  split; [by apply Hrun|]. eapply account_run_ok. by apply Hrun.
Qed.
End facts.
End service.

(** ** Properties *)

(** C1. The program refines the specification of reliable delivery, for a client that is orderly:
    it calls [send] only when its last one returned [Ok], and with batches that the server accepts.
    Every execution of the network in which the client of a connection is orderly, restricted to
    what it shows of that connection (the [send]s started, the batches put in the queue, the batches
    disposed of, the [send]s that return [Ok], with their contents), is an execution of the account
    of the connection: each batch that is submitted is delivered at most once, in order and
    unchanged, is settled only after it was delivered, and is confirmed to the client, with its size,
    only after it was settled, so that an orderly client submits a batch when the one before is
    settled; and the account it leads to is the one read off the state.  It holds whatever fails,
    disconnects or times out, on this connection and on all others, and whatever the other clients
    do; a client whose [send] failed or timed out is orderly as long as it does not call [send]
    again on that connection. *)
Theorem service_refines `{Zlib, !ZlibOk _} {T} (to_vec : T → string + bytes) {TlsAcceptor}
    (b : ServerBuilder TlsAcceptor) t n id l :
  usize (s_max_frame_size b) →
  Task.exec (net_step to_vec b) net_start t n → n_links n !! id = Some l →
  orderly to_vec b (l_client l) id t →
  Task.run account_step account_start (t ≫= visible to_vec b id) = Some (account_at to_vec b id t n) ∧
  account_ok (account_at to_vec b id t n).
Proof. exact (λ Hmax, exec_account to_vec b Hmax t n id l). Qed.

(** C3. The specification is live.  In every reachable state of the network, an orderly client whose
    last [send] returned [Ok], on a connection whose handler is alive in a server that was not dropped,
    can have any batch that the server accepts submitted, delivered, settled and confirmed, in this
    order and with nothing else on its connection, by steps of its own, of its handler and of the
    consumer: whatever the other connections do, and whatever was left over from earlier batches. *)
Theorem service_live `{Zlib, !ZlibOk _} {T} (to_vec : T → string + bytes) {TlsAcceptor}
    (b : ServerBuilder TlsAcceptor) t n id l r c evs d :
  usize (s_max_frame_size b) → 0 < s_channel_capacity b →
  Task.exec (net_step to_vec b) net_start t n → n_links n !! id = Some l →
  orderly to_vec b (l_client l) id t →
  l_send l = Returned (Ok r) → handlers (n_world n) !! id = Some (Serving c) →
  shutdown_sent (n_world n) = false → batch_accepted to_vec b (l_client l) evs d →
  ∃ t' n', Task.exec (net_step to_vec b) n t' n' ∧ Forall (own id) t'.*2 ∧
    t' ≫= visible to_vec b id = full_turn d.
Proof.
  intros Hmax Hcap Hx Hl Hok Hr Hc Hsd Hd.
  destruct (send_completion to_vec b Hmax t n id l r c evs d Hcap Hx Hl Hok Hr Hc Hsd Hd)
    as (t' & n' & l' & Hx' & Hown & Hst & Hl' & Hr' & Hcl & Hor).
  exists t', n'. split; [done|]. split; [done|].
  destruct (exec_account to_vec b Hmax t n id l Hx Hl Hok) as [Hrun Hacc].
  pose proof (exec_trans _ _ _ _ _ _ Hx Hx') as Hxx.
  assert (Hst' : started to_vec id (t ++ t') = started to_vec id t ++ [evs])
    by (unfold started in *; by rewrite bind_app, Hst).
  destruct (exec_account to_vec b Hmax (t ++ t') n' id l' Hxx Hl') as [Hrun' _].
  { rewrite Hcl. by apply orderly_app. }
  rewrite bind_app, run_app, Hrun in Hrun'. cbn [mbind option_bind] in Hrun'.
  assert (Hconf : ∀ t n l r, n_links n !! id = Some l → l_send l = Returned (Ok r) →
    confirmed (account_at to_vec b id t n) = length (submitted (account_at to_vec b id t n))).
  { intros t1 n1 l1 r1 Hl1 Hr1. unfold account_at, confirmed_at. cbn [confirmed submitted].
    rewrite Hl1, length_fmap. simpl. by rewrite Hr1. }
  apply (run_full_turn _ _ _ _ Hacc (Hconf _ _ _ _ Hl Hr) Hrun'); [|by eapply Hconf].
  unfold account_at. cbn [submitted]. rewrite Hst', fmap_app. simpl.
  by rewrite (serialize_ok to_vec evs d) by apply Hd.
Qed.

(** ** Witnesses *)

(** The sample network: the first batch of the first client goes through, the second is only
    submitted. *)
Lemma service_refines_witness :
  let t := network_trace sample_network in
  let n := network_end sample_network in
  t ≫= visible sample_to_vec sample_server 0 =
    [Submit [[x61]; [x62]]; Deliver (numbered [[x61]; [x62]]); Settle (numbered [[x61]; [x62]]);
     Confirm 2; Submit [[x64]; []]] ∧
  Task.run account_step account_start (t ≫= visible sample_to_vec sample_server 0) =
    Some (account_at sample_to_vec sample_server 0 t n) ∧
  account_ok (account_at sample_to_vec sample_server 0 t n).
Proof.
  cbv zeta. split; [vm_compute; reflexivity|].
  apply (service_refines sample_to_vec sample_server (network_trace sample_network)
    (network_end sample_network) 0
    (Link (sample_client 3) (FeedCompressed 2 (wires [Json 1 [x64]; Json 2 []]))
      pipe_empty pipe_empty)).
  - apply sample_max_ok.
  - apply network_exec, network_runs.
  - vm_compute. reflexivity.
  - apply (sample_orderly 2); vm_compute; reflexivity.
Defined.

(** After the first batch of the sample network, while the second client is in the middle of its
    first batch. *)
Lemma service_live_witness :
  let l := take 27 sample_network in
  ∃ t' n', Task.exec sample_step (network_end l) t' n' ∧ Forall (own 0) t'.*2 ∧
    t' ≫= visible sample_to_vec sample_server 0 = full_turn [[x64]; []].
Proof.
  apply (service_live sample_to_vec sample_server (network_trace (take 27 sample_network))
    (network_end (take 27 sample_network)) 0
    (Link (sample_client 3) (Returned (Ok 2)) pipe_empty pipe_empty) 2 (Conn AwaitWindow 1)
    (Some <$> [[x64]; []]) [[x64]; []]).
  - apply sample_max_ok.
  - reflexivity.
  - apply network_exec. vm_compute. by eexists.
  - vm_compute. reflexivity.
  - apply (sample_orderly 1); vm_compute; reflexivity.
  - reflexivity.
  - vm_compute. reflexivity.
  - vm_compute. reflexivity.
  - apply sample_batches_ok. by repeat constructor.
Defined.
