(* ===== verification/Liveness.v ===== *)
(** * Liveness: every [send] completes, not only some

    Progress.v builds one execution in which a [send] returns.  Here all of them are bounded: [work]
    measures what is left to do for the [send] of one connection, each [productive] step of its
    client, its streams, its handler, the queue or the consumer uses up at least one unit of it, and
    nothing else adds to it but the keepalive timer ([work_step]), as long as the client is
    [orderly].  While the [send] waits, a productive step is enabled, or the queue is full ([send_not_stuck]).  So a scheduler that does not
    neglect the connection for ever completes the [send], in a number of steps that is known. *)

From stdpp Require Import gmap.
From S2P Require Import Prelude Errors Zlib Frame Codec Task Batch Connection Client Server System.
From S2P Require Import Network Progress Service.

Section liveness.
Context `{Zlib} {T : Type} (to_vec : T → string + bytes).
Context {TlsAcceptor : Type} (b : ServerBuilder TlsAcceptor).

(** ** Steps *)

(** Executions in which the connection [id] does not fail and the server is not dropped; the other
    clients, handlers and batches do what they like. *)
Definition smooth (id : nat) (e : net_event (T := T)) : Prop :=
  match e with
  | Serve (Handle id' i) =>
      id' = id → match i with InDispatched true | InAck _ | InElapsed => True | _ => False end
  | Serve (DropServer | DropReceiver) => False
  | OnLink id' (ClientOther i) => id' = id → i = Flushed (Ok tt)
  | OnLink id' (ServerFails _) => id' ≠ id
  | _ => True
  end.

Definition in_parcels (id : nat) (ps : list parcel) : bool :=
  existsb (λ p : parcel, bool_decide (p.1 = id)) ps.

Definition arrives (k : nat) (p : pipe) : bool :=
  negb (bool_decide (k = 0%nat)) && negb (bool_decide (under_way p = [])).

Definition link_productive (l : link) (e : link_event (T := T)) : bool :=
  match e with
  | ClientFeeds | ClientNext | ClientOther _ | ServerNext | ServerSends | ServerFails _ => true
  | UpArrives k => arrives k (l_up l)
  | DownArrives k => arrives k (l_down l)
  | Send _ => false
  end.

(** The steps that bring the [send] of the connection [id] nearer to its end. *)
Definition productive (id : nat) (x : net * net_event (T := T)) : bool :=
  match x.2 with
  | OnLink id' e =>
      bool_decide (id' = id) && from_option (λ l, link_productive l e) false (n_links x.1 !! id)
  | Serve (Handle id' (InDispatched _ | InAck _)) => bool_decide (id' = id)
  | Serve Recv => in_parcels id (queue (n_world x.1))
  | Serve (Dispose k _) => in_parcels id (option_list (held (n_world x.1) !! k))
  | _ => false
  end.

(** The keepalive timer of the connection fires. *)
Definition ticks (id : nat) (x : net * net_event (T := T)) : bool :=
  match x.2 with
  | Serve (Handle id' InElapsed) => bool_decide (id' = id)
  | _ => false
  end.

Definition count (P : net * net_event (T := T) → bool) (t : list (net * net_event (T := T))) : Z :=
  len (filter (λ x, P x = true) t).

(** ** The work that is left *)

(** A byte on its way is to arrive and to be read. *)
Definition pipe_work (p : pipe) : Z := 2 * len (under_way p) + len (arrived p).

Definition frame_work (f : Frame) : Z := 1 + 2 * len (wire f).

(** The client: the frames it is to feed, and the flush. *)
Definition client_work (level : Z) (st : send_state) : Z :=
  match st with
  | FeedWindow n payload =>
      frame_work (Window n) +
      (if 0 <? level then frame_work (Compressed payload) else 3 * len payload) + 1
  | FeedCompressed _ payload => frame_work (Compressed payload) + 1
  | FeedFrame _ f buf => frame_work f + 3 * len buf + 1
  | AwaitFlush _ => 1
  | AwaitAcks _ | Returned _ => 0
  end.

(** The handler: to take the answer of the consumer and to send it, after a keepalive if it is
    sending one. *)
Definition ack_work : Z := frame_work (Ack 0).

Definition handler_work (h : option handler) : Z :=
  match h with
  | Some (Serving c) =>
      match c_state c with
      | AwaitAck _ _ => 1 + ack_work
      | AwaitKeepalive _ _ => 1 + ack_work + ack_work
      | AwaitAckSent _ => ack_work
      | _ => 0
      end
  | _ => 0
  end.

(** A batch in the queue is to be received, after those before it, and disposed of. *)
Fixpoint queue_work (id : nat) (i : Z) (q : list parcel) : Z :=
  match q with
  | [] => 0
  | p :: q' => (if bool_decide (p.1 = id) then i + 2 else 0) + queue_work id (i + 1) q'
  end.

Definition held_work (id : nat) (ps : list parcel) : Z :=
  len (filter (λ p : parcel, p.1 = id) ps).

(** A batch that was not handed over: its dispatch, and all that follows. *)
Definition batch_work : Z := 3 + Z.max 0 (s_channel_capacity b) + ack_work.

Definition undelivered (id : nat) (t : list (net * net_event (T := T))) : Z :=
  len (started to_vec id t) - len (of_conn id (enqueued (served to_vec b t))).

Definition world_work (id : nat) (w : world) : Z :=
  handler_work (handlers w !! id) + queue_work id 0 (queue w) + held_work id (held w).

Definition link_work (l : link) : Z :=
  client_work (compression_level (l_client l)) (l_send l) + pipe_work (l_up l) + pipe_work (l_down l).

(** The work left for the connection [id] after the execution [t], in the state [n]. *)
Definition work (id : nat) (t : list (net * net_event (T := T))) (n : net) : Z :=
  batch_work * undelivered id t + world_work id (n_world n) +
  from_option link_work 0 (n_links n !! id).

(** *** The server's part *)

Lemma ack_frame s : frame_work (Ack s) = ack_work.
Proof. done. Qed.

Lemma len_filter_cons id (p : parcel) ps :
  len (filter (λ p : parcel, p.1 = id) (p :: ps)) =
  (if bool_decide (p.1 = id) then 1 else 0) + len (filter (λ p : parcel, p.1 = id) ps).
Proof.
  rewrite filter_cons. unfold bool_decide, decide.
  destruct (decide_rel _ _ _); [by rewrite len_cons|lia].
Qed.

Lemma queue_work_shift id i q :
  queue_work id (i + 1) q = queue_work id i q + len (filter (λ p : parcel, p.1 = id) q).
Proof.
  revert i. induction q as [|p q IH]; intros i; [done|]. cbn [queue_work].
  rewrite IH, len_filter_cons. case_bool_decide; lia.
Qed.

Lemma queue_work_app id i q q' :
  queue_work id i (q ++ q') = queue_work id i q + queue_work id (i + len q) q'.
Proof.
  revert i. induction q as [|p q IH]; intros i; cbn [queue_work app].
  { change (len (@nil parcel)) with 0. by rewrite (Z.add_0_r i). }
  rewrite IH, len_cons. replace (i + 1 + len q) with (i + (1 + len q)) by lia. lia.
Qed.

Lemma queue_work_nonneg id i q : 0 <= i → 0 <= queue_work id i q.
Proof.
  revert i. induction q as [|p q IH]; intros i Hi; cbn [queue_work]; [lia|].
  specialize (IH (i + 1) ltac:(lia)). case_bool_decide; lia.
Qed.

Lemma in_parcels_len id ps :
  (if in_parcels id ps then 1 else 0) <= len (filter (λ p : parcel, p.1 = id) ps).
Proof.
  induction ps as [|p ps IH]; [done|]. unfold in_parcels in *. cbn [existsb]. rewrite len_filter_cons.
  pose proof (len_nonneg (filter (λ p : parcel, p.1 = id) ps)).
  case_bool_decide; simpl; lia.
Qed.

(** The consumer takes the first batch of the queue. *)
Lemma recv_work id p q h :
  queue_work id 0 q + held_work id (h ++ [p]) + (if in_parcels id (p :: q) then 1 else 0) <=
  queue_work id 0 (p :: q) + held_work id h.
Proof.
  unfold held_work. rewrite filter_app, len_app. cbn [queue_work]. rewrite queue_work_shift.
  pose proof (in_parcels_len id q) as Hq. unfold in_parcels in *. cbn [existsb].
  rewrite len_filter_cons, filter_nil. change (len (@nil parcel)) with 0.
  case_bool_decide; simpl; [destruct (existsb _ q)|]; lia.
Qed.

(** The consumer disposes of a batch. *)
Lemma dispose_work id k p h :
  h !! k = Some p →
  held_work id (delete k h) + (if in_parcels id [p] then 1 else 0) <= held_work id h.
Proof.
  intros Hk. unfold held_work. rewrite (delete_Permutation _ _ _ Hk) at 2.
  unfold in_parcels. cbn [existsb]. rewrite len_filter_cons, orb_false_r.
  case_bool_decide; lia.
Qed.

Lemma handler_work_nonneg h : 0 <= handler_work h.
Proof. destruct h as [[|[[]]]|]; done. Qed.

Lemma frame_work_nonneg f : 1 <= frame_work f.
Proof. unfold frame_work. pose proof (len_nonneg (wire f)). lia. Qed.

(** What the handler of the connection uses up with an input. *)
Definition gain (i : input) : Z :=
  match i with
  | InDispatched true => 1 - batch_work
  | InAck _ => 1
  | InElapsed => - ack_work
  | InSent (Ok _) => ack_work
  | _ => 0
  end.

Lemma resume_work c i c' :
  resume (config b) c i = Some c' →
  handler_work (Some (Serving c')) +
    match i with InDispatched true => -1 - ack_work | _ => gain i end <= handler_work (Some (Serving c)).
Proof.
  assert (Hloop : ∀ n w k, handler_work (Some (Serving (window_loop n w k))) = 0).
  { intros n w k. unfold window_loop. by destruct (_ <? _). }
  destruct c as [[|n w|batch rx|a rx|a rx|a|r] k], i as [[[f|e|p]|]|[]|[v|]| |[u|e|p]];
    unfold resume; cbn [c_state c_chans]; try done; try (by intros [= <-]).
  - destruct f; intros [= <-]; try done. by rewrite Hloop.
  - destruct (on_frame _ _ _ _) as [[]]; intros [= <-]; try done. by rewrite Hloop.
  - destruct (cfg_keepalive _); [|done]. by intros [= <-].
Qed.

Lemma handle_handler_work id i w w' :
  handle b id i w = Some w' →
  handler_work (handlers w' !! id) +
    match i with InDispatched true => -1 - ack_work | _ => gain i end <=
    handler_work (handlers w !! id).
Proof.
  intros Hs. destruct (handle_conn b _ _ _ _ Hs) as (c & c' & Hc & Hr & Hc' & _).
  pose proof (resume_work _ _ _ Hr) as Hw. rewrite Hc.
  destruct Hc' as [[-> _]| ->]; [done|].
  pose proof (handler_work_nonneg (Some (Serving c'))). change (handler_work None) with 0. lia.
Qed.

(** What is put in the queue, and where. *)
Lemma handle_queue_work id id' i w w' :
  handle b id' i w = Some w' →
  queue_work id 0 (queue w') <= queue_work id 0 (queue w) +
    match i with
    | InDispatched true => if bool_decide (id' = id) then 1 + Z.max 0 (s_channel_capacity b) else 0
    | _ => 0
    end.
Proof.
  intros Hs. destruct (handle_batches b _ _ _ _ Hs) as (-> & _). rewrite queue_work_app.
  assert (Hcase : enqueued_by (w, Handle id' i) = [] ∨
    (i = InDispatched true ∧ len (queue w) < s_channel_capacity b ∧
     ∃ batch, enqueued_by (w, Handle id' i) = [(id', batch)])).
  { unfold enqueued_by. cbn [fst snd]. destruct i as [|[]| | |]; try (by left).
    revert Hs. unfold handle, resume_handler.
    destruct (handlers w !! id') as [[|[st n]]|]; try (by left).
    destruct st as [|? ?|batch rx|? ?|? ?|?|?]; try (by left). cbn.
    destruct (rx_alive w); [|done]. destruct (Z.ltb_spec (len (queue w)) (s_channel_capacity b));
      [|done]. intros _. right. eauto. }
  destruct Hcase as [->|(-> & Hlt & batch & ->)]; cbn [queue_work].
  - destruct i as [|[]| | |]; try lia. case_bool_decide; lia.
  - cbn [fst]. case_bool_decide; lia.
Qed.

(** A step of the handler of the connection. *)
Lemma handle_work id i w w' :
  handle b id i w = Some w' → world_work id w' + gain i <= world_work id w.
Proof.
  intros Hs. pose proof (handle_handler_work id i w w' Hs) as H1.
  pose proof (handle_queue_work id id i w w' Hs) as H2.
  destruct (handle_batches b _ _ _ _ Hs) as (_ & Hh & _). unfold world_work. rewrite Hh.
  destruct i as [|[]| | |]; rewrite ?bool_decide_true in H2 by done; unfold gain, batch_work in *; lia.
Qed.

(** Any other step of the server. *)
Lemma other_work id w e w' :
  server_step b w e = Some w' → (∀ i, e ≠ Handle id i) → e ≠ DropReceiver →
  world_work id w' +
    match e with
    | Recv => if in_parcels id (queue w) then 1 else 0
    | Dispose k _ => if in_parcels id (option_list (held w !! k)) then 1 else 0
    | _ => 0
    end <= world_work id w.
Proof.
  intros Hs%server_step_inv Hown Hdrop. pose proof (handler_work_nonneg (handlers w !! id)).
  destruct e as [| | |id' f|id' i| |k d| |]; simpl in Hs; try done; unfold world_work.
  - destruct Hs as (_ & _ & ->). cbn [spawn handlers queue held].
    destruct (decide (id = next_id w)) as [->|Hne]; [|rewrite lookup_insert_ne by done; lia].
    rewrite lookup_insert_eq. unfold handler_start. destruct (s_tls b); simpl; lia.
  - destruct Hs as (_ & _ & ->). simpl. lia.
  - destruct Hs as (_ & _ & ->). simpl. lia.
  - destruct Hs as [Hh ->]. destruct f; cbn [end_handler set_handler handlers queue held];
      destruct (decide (id = id')) as [->|Hne]; rewrite ?lookup_delete_eq, ?lookup_insert_eq, ?Hh,
        ?lookup_delete_ne, ?lookup_insert_ne by done; simpl; lia.
  - assert (Hne : id' ≠ id) by (intros ->; by destruct (Hown i)).
    destruct (handle_conn b _ _ _ _ Hs) as (_ & _ & _ & _ & _ & Hother & _).
    destruct (handle_batches b _ _ _ _ Hs) as (_ & Hh & _).
    pose proof (handle_queue_work id id' i w w' Hs) as Hq. rewrite Hother, Hh by done.
    destruct i as [|[]| | |]; rewrite ?bool_decide_false in Hq by done; lia.
  - destruct Hs as (_ & [[Hq ->]|(p & q & Hq & ->)]); rewrite Hq; [simpl; lia|].
    cbn [set_batches handlers queue held]. pose proof (recv_work id p q (held w)). lia.
  - destruct Hs as (p & Hp & ->). rewrite Hp. cbn [set_acks set_batches handlers queue held].
    change (option_list (Some p)) with [p]. pose proof (dispose_work id k p (held w) Hp). lia.
  - destruct Hs as (_ & ->). simpl. lia.
Qed.

(** *** The streams and the client's part *)

Lemma feed_work c f p p' : pipe_feed c f p = Some p' → pipe_work p' + 1 = pipe_work p + frame_work f.
Proof.
  unfold pipe_feed. rewrite codec_encode_total.
  assert (Hw : pipe_work (Pipe (under_way p ++ wire f) (arrived p)) + 1 = pipe_work p + frame_work f).
  { unfold pipe_work, frame_work. simpl. rewrite len_app. lia. }
  destruct f; try destruct feature_compression; by intros [= <-].
Qed.

Lemma arrive_work k p :
  pipe_work (pipe_arrive k p) + (if arrives k p then 1 else 0) <= pipe_work p.
Proof.
  unfold pipe_work, pipe_arrive, arrives. cbn [under_way arrived].
  rewrite len_app. unfold len. rewrite length_drop, length_take.
  rewrite (bool_decide_ext (under_way p = []) (length (under_way p) = 0%nat))
    by (symmetry; apply length_zero_iff_nil).
  repeat case_bool_decide; simpl negb; simpl andb; cbv iota; lia.
Qed.

Lemma next_work c p f p' :
  usize (max_frame_size c) → pipe_next c p = Some (f, p') → pipe_work p' + 1 <= pipe_work p.
Proof.
  intros Hc. unfold pipe_next, codec_decode. pose proof (decode_consumption _ (arrived p) Hc) as Hd.
  destruct (decode_with_limit _ (arrived p)) as [[[g|]|e|e] rest]; try done.
  intros [= <- <-]. destruct Hd as (l & Hl & Hlen). unfold pipe_work. simpl.
  rewrite Hl, len_app. lia.
Qed.

Lemma next_frame_work level n l :
  Forall (item_ok DEFAULT_MAX_FRAME_SIZE) l →
  client_work level (next_frame n (wires (json_of <$> l))) <= 3 * len (wires (json_of <$> l)) + 1.
Proof.
  intros Hl. destruct Hl as [|it l Hit _]; [done|]. rewrite next_frame_item by done.
  cbn [client_work fmap list_fmap]. rewrite wires_cons, len_app. unfold frame_work.
  pose proof (wire_len (json_of it)). lia.
Qed.

Lemma feed_client_work client evs d st fs f to st' :
  sendable to_vec (compression_level client) evs d → to_feed client d st fs →
  send_request client st = WantFeed f to → send_resume client st (Fed (Ok tt)) = Some st' →
  client_work (compression_level client) st' + frame_work f <=
    client_work (compression_level client) st.
Proof.
  intros Hs Hf. pose proof (sendable_items _ _ _ _ Hs) as Hitems.
  destruct st as [n payload|n payload|n g buf|n|n|r]; try done; intros [= <- <-] [= <-];
    simpl or_return; cbn [client_work].
  - destruct Hf as (_ & -> & _). destruct (Z.ltb_spec 0 (compression_level client)) as [Hlv|Hlv];
      cbn [client_work]; [lia|]. pose proof (next_frame_work (compression_level client) n _ (Hitems Hlv)).
    lia.
  - lia.
  - destruct Hf as (_ & Hlv & l & Hl & -> & _).
    pose proof (next_frame_work (compression_level client) n l Hl). lia.
Qed.

(** The batch that is being sent, what was fed of it and what is still to be fed. *)
Lemma history_sending client evss st ds more fs gs :
  history to_vec b client evss st ds more fs gs → (∀ r, st ≠ Returned r) →
  ∃ evs d pre rest, more = [d] ∧ batch_accepted to_vec b client evs d ∧ to_feed client d st rest ∧
    plan (compression_level client) d = pre ++ rest.
Proof.
  destruct 1 as [|evss ds f g evs d t st Hds Hs Hd Hx]; intros Hst; [by destruct (Hst (Ok 0))|].
  pose proof (bo_sendable _ _ _ _ _ Hd) as Hsend. rewrite (send_start_ok _ _ _ _ Hsend) in Hx.
  destruct (exec_feeds _ _ _ _ _ _ _ _ Hsend (to_feed_start client d) Hx) as (rest & Hp & Hf).
  by exists evs, d, (fed client t), rest.
Qed.

(** A step of the link. *)
Lemma link_step_work id req l e l' i evss tr :
  usize (s_max_frame_size b) → link_ok to_vec b l evss tr → (∀ r, l_send l ≠ Returned r) →
  link_step to_vec b req l e = Some (l', i) → smooth id (OnLink id e) →
  (∀ evs, e ≠ Send evs) → (∀ f, req = Some (ReqSend f) → ∃ s, f = Ack s) →
  link_work l' + (if link_productive l e then 1 else 0) <= link_work l + from_option gain 0 i.
Proof.
  intros Hmax [ds more gs F G Hh _ _ _] Hst Hs Hsm Hno Hreq.
  destruct (history_sending _ _ _ _ _ _ _ Hh Hst) as (evs & d & pre & rest & _ & Hd & Hf & _).
  unfold link_work, link_productive.
  destruct e as [evs1| | |j|k|k| | |r1]; cbn [link_step] in Hs; [by destruct (Hno evs1)|..].
  - destruct (send_request _ _) as [f to| | |] eqn:Hw; try done.
    destruct (pipe_feed _ f (l_up l)) as [up|] eqn:Hp; [|done]. cbn [mbind option_bind] in Hs.
    unfold client_step in Hs. destruct (send_resume _ _ _) as [st|] eqn:Hr; [|done].
    injection Hs as <- <-. cbn [set_up set_send l_client l_send l_up l_down from_option].
    apply feed_work in Hp.
    pose proof (feed_client_work _ _ _ _ _ _ _ _ (bo_sendable _ _ _ _ _ Hd) Hf Hw Hr). lia.
  - destruct (pipe_next _ (l_down l)) as [[f down]|] eqn:Hp; [|done].
    cbn [mbind option_bind] in Hs. unfold client_step in Hs.
    destruct (send_resume _ _ _) as [st|] eqn:Hr; [|done]. injection Hs as <- <-.
    cbn [set_down set_send l_client l_send l_up l_down from_option].
    apply next_work in Hp; [|done].
    assert (Hz : client_work (compression_level (l_client l)) st = 0).
    { destruct (l_send l); try done. injection Hr as <-. destruct f; try done. simpl.
      by destruct (_ <=? _). }
    assert (0 <= client_work (compression_level (l_client l)) (l_send l)) by (by destruct (l_send l)).
    lia.
  - rewrite (Hsm eq_refl) in Hs. cbn in Hs. unfold client_step in Hs.
    destruct (l_send l) as [| | |n|n|r]; try done. injection Hs as <- <-. simpl. lia.
  - injection Hs as <- <-. cbn [set_up l_client l_send l_up l_down from_option].
    pose proof (arrive_work k (l_up l)). lia.
  - injection Hs as <- <-. cbn [set_down l_client l_send l_up l_down from_option].
    pose proof (arrive_work k (l_down l)). lia.
  - destruct (pipe_next _ (l_up l)) as [[f up]|] eqn:Hp; [|done]. injection Hs as <- <-.
    cbn [set_up l_client l_send l_up l_down from_option gain].
    apply next_work in Hp; [lia|done].
  - destruct req as [[| | |f|]|]; try done. destruct (Hreq f eq_refl) as [s ->].
    destruct (pipe_feed _ _ (l_down l)) as [down|] eqn:Hp; [|done]. injection Hs as <- <-.
    cbn [set_down l_client l_send l_up l_down from_option gain].
    apply feed_work in Hp. rewrite ack_frame in Hp. lia.
  - by destruct Hsm.
Qed.

(** ** Steps of the network *)

Lemma enqueued_other id w e :
  (∀ i, e ≠ Handle id i) → of_conn id (enqueued_by (w, e)) = [].
Proof.
  intros He. unfold enqueued_by. cbn [fst snd]. destruct e as [| | | |id' [|[]| | |]| | | |]; try done.
  destruct (handlers w !! id') as [[|[[] ?]]|]; try done. unfold of_conn. rewrite filter_cons.
  rewrite decide_False; [done|]. intros Hid. simpl in Hid. subst id'. by destruct (He (InDispatched true)).
Qed.

Lemma enqueued_own id i w w' :
  handle b id i w = Some w' →
  len (of_conn id (enqueued_by (w, Handle id i))) = match i with InDispatched true => 1 | _ => 0 end.
Proof.
  unfold handle, resume_handler, enqueued_by. cbn [fst snd].
  destruct i as [|[]| | |]; try done. destruct (handlers w !! id) as [[|[[] ?]]|]; try done.
  intros _. unfold of_conn. rewrite filter_cons, decide_True by done. done.
Qed.

Lemma undelivered_snoc id t x :
  undelivered id (t ++ [x]) = undelivered id t + len (started_by to_vec id x) -
    len (of_conn id (enqueued (served_by to_vec b x))).
Proof.
  unfold undelivered. rewrite (proj1 (link_snoc to_vec b id t x)).
  assert (Hsv : served to_vec b (t ++ [x]) = served to_vec b t ++ served_by to_vec b x)
    by apply bind_snoc.
  rewrite Hsv. unfold enqueued. rewrite bind_app, of_conn_app, !len_app. lia.
Qed.

Lemma link_step_input req l e l' i :
  link_step to_vec b req l e = Some (l', Some i) →
  (∃ x, i = InNext x) ∨ i = InSent (Ok tt) ∨ ∃ r, e = ServerFails r.
Proof.
  destruct e; cbn [link_step]; intros Hs; repeat (case_hyp Hs; try done); simplify_option_eq; eauto;
    repeat case_match; simplify_option_eq; eauto.
Qed.

Section steps.
Context `{!ZlibOk _} (Hmax : usize (s_max_frame_size b)).
Context (t : list (net * net_event (T := T))) (n n' : net) (id : nat) (l : link).
Context (Hx : Task.exec (net_step to_vec b) net_start t n) (Hl : n_links n !! id = Some l).
Context (Hok : orderly to_vec b (l_client l) id t).
Context (Hst : ∀ r, l_send l ≠ Returned r).

Abbreviation one x := (if x then 1 else 0).

(** A step of the server, or of another link. *)
Lemma elsewhere_work e w' :
  server_step b (n_world n) e = Some w' → (∀ i, e ≠ Handle id i) → e ≠ DropReceiver →
  world_work id w' - batch_work * len (of_conn id (enqueued [(n_world n, e)])) +
    match e with
    | Recv => one (in_parcels id (queue (n_world n)))
    | Dispose k _ => one (in_parcels id (option_list (held (n_world n) !! k)))
    | _ => 0
    end <= world_work id (n_world n).
Proof.
  intros Hs Hown Hdrop. pose proof (other_work id _ _ _ Hs Hown Hdrop) as Hw.
  unfold enqueued. simpl. rewrite app_nil_r, (enqueued_other id _ _ Hown).
  change (len (@nil parcel)) with 0. lia.
Qed.

Lemma connect_work client :
  net_step to_vec b n (Connect client) = Some n' →
  work id (t ++ [(n, Connect client)]) n' <= work id t n.
Proof.
  intros Hs. cbn [net_step] in Hs. destruct (server_step b _ Accept) as [w|] eqn:Ha; [|done].
  injection Hs as <-. unfold work. rewrite undelivered_snoc. cbn [n_world n_links].
  change (started_by to_vec id (n, Connect client)) with (@nil (list T)).
  change (served_by to_vec b (n, Connect client)) with [(n_world n, Accept)].
  pose proof (elsewhere_work Accept w Ha ltac:(done) ltac:(done)) as Hw. cbv iota in Hw.
  pose proof (exec_linked to_vec b t n Hmax Hx id) as Hlink. unfold linked in Hlink.
  rewrite Hl in Hlink. rewrite lookup_insert_ne by lia. change (len (@nil (list T))) with 0. lia.
Qed.

Lemma serve_work e :
  net_step to_vec b n (Serve e) = Some n' → smooth id (Serve e) →
  work id (t ++ [(n, Serve e)]) n' + one (productive id (n, Serve e)) <=
    work id t n + ack_work * one (ticks id (n, Serve e)).
Proof.
  intros Hs Hsm. cbn [net_step] in Hs. destruct (server_other e) eqn:Ho; [|done].
  destruct (server_step b _ e) as [w|] eqn:Ha; [|done].
  injection Hs as <-. unfold work. rewrite undelivered_snoc. cbn [n_world n_links].
  change (started_by to_vec id (n, Serve e)) with (@nil (list T)).
  change (served_by to_vec b (n, Serve e)) with [(n_world n, e)].
  change (len (@nil (list T))) with 0.
  destruct (own_or_other id e) as [[i ->]|Hne].
  - pose proof (handle_work id i _ _ Ha) as Hw. pose proof (enqueued_own id i _ _ Ha) as He.
    unfold enqueued. cbn [mbind list_bind]. rewrite app_nil_r, He. specialize (Hsm eq_refl).
    unfold productive, ticks, gain, batch_work in *. cbn [snd].
    destruct i as [|[]| | |]; try done; rewrite ?bool_decide_true by done; lia.
  - pose proof (elsewhere_work e w Ha Hne ltac:(by destruct e)) as Hw.
    unfold productive, ticks. cbn [fst snd].
    destruct e as [| | | |id' i| |k d| |]; try done; try lia.
    assert (id' ≠ id) by (intros ->; by destruct (Hne i)).
    destruct i as [|[]| | |]; rewrite ?bool_decide_false by done; lia.
Qed.

Lemma on_link_work id' e :
  net_step to_vec b n (OnLink id' e) = Some n' → smooth id (OnLink id' e) →
  patient_by id (n, OnLink id' e) = true →
  work id (t ++ [(n, OnLink id' e)]) n' + one (productive id (n, OnLink id' e)) <= work id t n.
Proof.
  intros Hs Hsm Hpat. cbn [net_step] in Hs. destruct (n_links n !! id') as [l0|] eqn:Hl0; [|done].
  cbn [mbind option_bind] in Hs.
  destruct (link_step _ _ _ l0 e) as [[l1 i]|] eqn:Hls; [|done]. cbn [mbind option_bind] in Hs.
  destruct (match i with Some _ => _ | None => _ end) as [w|] eqn:Hw; [|done]. injection Hs as <-.
  assert (Hsv : served_by to_vec b (n, OnLink id' e) =
    match i with Some i => [(n_world n, Handle id' i)] | None => [] end).
  { unfold served_by. cbn [fst snd]. rewrite Hl0. cbn [mbind option_bind]. rewrite Hls. by destruct i. }
  unfold work. rewrite undelivered_snoc, Hsv. cbn [n_world n_links].
  unfold productive, started_by. cbn [fst snd].
  destruct (decide (id' = id)) as [->|Hne].
  - rewrite lookup_insert_eq, Hl. rewrite Hl in Hl0. injection Hl0 as <-.
    rewrite !bool_decide_true by done. cbn [from_option andb].
    pose proof (exec_linked to_vec b t n Hmax Hx id) as Hlink. unfold linked in Hlink.
    rewrite Hl in Hlink. destruct Hlink as [_ Hlink].
    assert (Hacks : ∀ f, request_at b (n_world n) id = Some (ReqSend f) → ∃ s, f = Ack s).
    { intros f. unfold request_at. destruct (handlers _ !! id) as [[|[[] ?]]|]; try done;
        intros [= <-]; eauto. }
    assert (Hno : ∀ evs, e ≠ Send evs).
    { intros evs ->. unfold patient_by in Hpat. cbn [snd fst] in Hpat.
      rewrite bool_decide_true, Hl in Hpat by done. simpl in Hpat.
      destruct (l_send l) as [| | | | |r]; try done. by destruct (Hst r). }
    pose proof (link_step_work id _ l e l1 i _ _ Hmax (Hlink Hok) Hst Hls Hsm Hno Hacks) as Hlw.
    assert (Hstart : starts to_vec e = []) by (destruct e; try done; by destruct (Hno evs)).
    rewrite Hstart. change (len (@nil (list T))) with 0. destruct i as [i|].
    + pose proof (handle_work id i _ _ Hw) as Hhw. pose proof (enqueued_own id i _ _ Hw) as He.
      unfold enqueued. cbn [mbind list_bind]. rewrite app_nil_r, He. simpl in Hlw.
      destruct (link_step_input _ _ _ _ _ Hls) as [[x ->]|[->|[r ->]]]; [lia|lia|by destruct Hsm].
    + injection Hw as <-. change (len (of_conn id (enqueued []))) with 0. simpl in Hlw. lia.
  - rewrite lookup_insert_ne, !bool_decide_false by done. change (len (@nil (list T))) with 0.
    cbn [andb]. destruct i as [i|].
    + pose proof (elsewhere_work (Handle id' i) w Hw ltac:(congruence) ltac:(done)) as Ho.
      cbv iota in Ho. lia.
    + injection Hw as <-. change (len (of_conn id (enqueued []))) with 0. lia.
Qed.

Lemma work_step e :
  net_step to_vec b n e = Some n' → smooth id e → patient_by id (n, e) = true →
  work id (t ++ [(n, e)]) n' + one (productive id (n, e)) <=
    work id t n + ack_work * one (ticks id (n, e)).
Proof.
  intros Hs Hsm Hpat. destruct e as [client|e|id' e].
  - pose proof (connect_work client Hs). simpl. lia.
  - by apply serve_work.
  - pose proof (on_link_work id' e Hs Hsm Hpat). change (one (ticks id (n, OnLink id' e))) with 0. lia.
Qed.
End steps.

(** ** While the [send] waits, something can be done *)








Context `{!ZlibOk _}.







(** ** What the steps of the connection keep *)








(** ** Completion *)


Lemma pipe_work_nonneg p : 0 <= pipe_work p.
Proof. unfold pipe_work. pose proof (len_nonneg (under_way p)). pose proof (len_nonneg (arrived p)). lia. Qed.

Lemma client_work_nonneg level st : 0 <= client_work level st.
Proof.
  assert (Hf : ∀ f, 0 <= frame_work f) by (intros f; pose proof (frame_work_nonneg f); lia).
  destruct st as [n payload|n payload|n f buf|n|n|r]; cbn [client_work]; try done.
  - pose proof (Hf (Window n)). pose proof (Hf (Compressed payload)). pose proof (len_nonneg payload).
    destruct (0 <? level); lia.
  - pose proof (Hf f). pose proof (len_nonneg buf). lia.
Qed.

Lemma work_nonneg t n id l :
  usize (s_max_frame_size b) → Task.exec (net_step to_vec b) net_start t n →
  n_links n !! id = Some l →
  orderly to_vec b (l_client l) id t →
  0 <= work id t n.
Proof.
  intros Hmax Hx Hl Hok. destruct (exec_account to_vec b Hmax t n id l Hx Hl Hok) as [_ Hacc].
  apply ao_delivered in Hacc. unfold account_at in Hacc. cbn [delivered submitted] in Hacc.
  rewrite length_fmap in Hacc. unfold work, world_work, link_work. rewrite Hl. cbn [from_option].
  pose proof (client_work_nonneg (compression_level (l_client l)) (l_send l)).
  pose proof (pipe_work_nonneg (l_up l)). pose proof (pipe_work_nonneg (l_down l)).
  pose proof (handler_work_nonneg (handlers (n_world n) !! id)).
  pose proof (queue_work_nonneg id 0 (queue (n_world n)) ltac:(lia)).
  assert (0 <= held_work id (held (n_world n))) by apply len_nonneg.
  assert (0 <= batch_work * undelivered id t).
  { apply Z.mul_nonneg_nonneg; [unfold batch_work, ack_work; pose proof (frame_work_nonneg (Ack 0)); lia|].
    unfold undelivered, len. lia. }
  lia.
Qed.





(** A [send] that is still waiting was waiting all along. *)
Lemma sending_before t n id l e n' l' :
  usize (s_max_frame_size b) → Task.exec (net_step to_vec b) net_start t n →
  n_links n !! id = Some l → net_step to_vec b n e = Some n' → n_links n' !! id = Some l' →
  started_by to_vec id (n, e) = [] → (∀ r, l_send l' ≠ Returned r) →
  (∀ r, l_send l ≠ Returned r) ∧ ∀ evs, e ≠ OnLink id (Send evs).
Proof.
  intros Hmax Hx Hl Hs Hl' Hno Hst. pose proof (exec_linked to_vec b t n Hmax Hx id) as Hlink.
  destruct e as [client|e|id' e]; cbn [net_step] in Hs.
  - destruct (server_step b _ Accept) as [w|]; [|done]. injection Hs as <-. simpl in Hl'.
    unfold linked in Hlink. rewrite Hl in Hlink. rewrite lookup_insert_ne in Hl' by lia. by simplify_eq.
  - destruct (server_other e); [|done]. destruct (server_step b _ e); [|done]. injection Hs as <-.
    simpl in Hl'. by simplify_eq.
  - destruct (n_links n !! id') as [l0|] eqn:Hl0; [|done]. cbn [mbind option_bind] in Hs.
    destruct (link_step _ _ _ l0 e) as [[l1 i]|] eqn:Hls; [|done]. cbn [mbind option_bind] in Hs.
    destruct (match i with Some _ => _ | None => _ end) as [w|]; [|done]. injection Hs as <-.
    simpl in Hl'. apply lookup_insert_Some in Hl' as [[-> <-]|[Hne ?]]; [|simplify_eq; split; [done|congruence]].
    rewrite Hl in Hl0. injection Hl0 as <-. unfold started_by in Hno. cbn [snd] in Hno.
    rewrite bool_decide_true in Hno by done. split.
    + destruct (link_step_send _ _ _ _ _ _ _ Hls) as [[_ <-]|[(evs & _ & Hev & _)|(Hst' & _)]];
        [done|congruence|done].
    + intros evs [= ->]. cbn [link_step starts] in *.
      destruct (send_start to_vec evs), (l_send l) eqn:Hr; try done; injection Hls as <- <-;
        simpl in Hst; by eapply Hst.
Qed.

Lemma count_snoc P t x : count P (t ++ [x]) = count P t + (if P x then 1 else 0).
Proof.
  unfold count. rewrite filter_app, len_app, filter_cons, filter_nil.
  destruct (P x); [by rewrite decide_True|by rewrite decide_False].
Qed.

Lemma exec_work t n id l t' n' l' :
  usize (s_max_frame_size b) → Task.exec (net_step to_vec b) net_start t n →
  n_links n !! id = Some l →
  orderly to_vec b (l_client l) id t →
  Task.exec (net_step to_vec b) n t' n' → Forall (smooth id) t'.*2 → started to_vec id t' = [] →
  n_links n' !! id = Some l' → (∀ r, l_send l' ≠ Returned r) →
  l_client l' = l_client l ∧ orderly to_vec b (l_client l) id t' ∧
  work id (t ++ t') n' + count (productive id) t' <= work id t n + ack_work * count (ticks id) t'.
Proof.
  intros Hmax Hx Hl Hok Hx'. revert t' n' Hx' l'.
  refine (exec_ind_last (net_step to_vec b) n _ _ _).
  { intros l' _ _ Hl' _. rewrite Hl in Hl'. injection Hl' as <-. rewrite app_nil_r. split; [done|]. split; [apply orderly_nil|].
    unfold count. change (len (filter _ [])) with 0. lia. }
  intros t' n1 e n2 Hx1 IH Hs l2 Hsm Hno Hl2 Hst. rewrite fmap_app in Hsm.
  apply Forall_app in Hsm as [Hsm1 [Hsm2 _]%Forall_cons].
  unfold started in Hno. rewrite bind_snoc in Hno. apply app_nil in Hno as [Hno1 Hno2].
  pose proof (exec_trans _ _ _ _ _ _ Hx Hx1) as Hxx.
  assert (Hl1 : ∃ l1, n_links n1 !! id = Some l1).
  { clear -Hx1 Hl. revert t' n1 Hx1. refine (exec_ind_last (net_step to_vec b) n _ _ _); [eauto|].
    intros t' n1 e n2 _ [l1 Hl1] Hs. destruct (net_step_keeps to_vec b _ _ _ _ _ Hs Hl1); eauto. }
  destruct Hl1 as [l1 Hl1].
  destruct (sending_before _ _ _ _ _ _ _ Hmax Hxx Hl1 Hs Hl2 Hno2 Hst) as [Hst1 Hsend].
  destruct (IH l1 Hsm1 Hno1 Hl1 Hst1) as (Hc1 & Ho1 & Hw).
  assert (Ho2 : ∀ client, orderly to_vec b client id [(n1, e)]) by (intros client; by apply orderly_other).
  pose proof (exec_linked to_vec b _ _ Hmax Hxx id) as Hlink.
  pose proof (net_step_client to_vec b _ _ _ _ _ _ Hlink Hs Hl2) as Hc2. rewrite Hl1 in Hc2.
  split; [congruence|]. split; [by apply orderly_app|]. rewrite app_assoc, !count_snoc.
  assert (Hok1 : orderly to_vec b (l_client l1) id (t ++ t')) by (rewrite Hc1; by apply orderly_app).
  destruct (Ho2 (l_client l)) as [Hpat _]. cbn [patient forallb] in Hpat. rewrite andb_true_r in Hpat.
  pose proof (work_step Hmax _ _ _ _ _ Hxx Hl1 Hok1 Hst1 e Hs Hsm2 Hpat). simpl snd in *. lia.
Qed.
End liveness.

(** ** Properties *)


(** C5. How long a [send] can take.  In every execution in which the connection does not fail, while a
    [send] of an orderly client waits, the number of steps made for it (frames fed and read, pieces of bytes that
    arrive, the hand-over, the batches taken from the queue up to its own, its disposal and its
    answer) is at most the work that was left plus 13 for each keepalive, whatever the other
    connections do in between. *)
Theorem send_bounded `{Zlib, !ZlibOk _} {T} (to_vec : T → string + bytes) {TlsAcceptor}
    (b : ServerBuilder TlsAcceptor) t n id l t' n' l' :
  usize (s_max_frame_size b) → Task.exec (net_step to_vec b) net_start t n →
  n_links n !! id = Some l →
  orderly to_vec b (l_client l) id t →
  Task.exec (net_step to_vec b) n t' n' → Forall (smooth id) t'.*2 → started to_vec id t' = [] →
  n_links n' !! id = Some l' → (∀ r, l_send l' ≠ Returned r) →
  count (productive id) t' <= work to_vec b id t n + 13 * count (ticks id) t'.
Proof.
  intros Hmax Hx Hl Hok Hx' Hsm Hno Hl' Hst.
  destruct (exec_work to_vec b t n id l t' n' l' Hmax Hx Hl Hok Hx' Hsm Hno Hl' Hst) as (Hc & Ho & Hw).
  assert (Hok' : orderly to_vec b (l_client l') id (t ++ t')) by (rewrite Hc; by apply orderly_app).
  pose proof (work_nonneg to_vec b _ _ id l' Hmax (exec_trans _ _ _ _ _ _ Hx Hx') Hl' Hok').
  change ack_work with 13 in Hw. lia.
Qed.

(** ** Witnesses *)


(** Its first batch, from the flush to the arrival of the acknowledgement, with a keepalive. *)
Definition sample_wait : list (net * net_event) :=
  trace sample_step (network_end (take 12 sample_network)) (drop 12 (take 26 sample_network)).

Lemma send_bounded_witness :
  count (productive 0) sample_wait = 11 ∧
  count (productive 0) sample_wait <=
    work sample_to_vec sample_server 0 (network_trace (take 12 sample_network))
      (network_end (take 12 sample_network)) + 13 * count (ticks 0) sample_wait.
Proof.
  split; [vm_compute; reflexivity|].
  assert (Hl : ∃ l, n_links (network_end (take 12 sample_network)) !! 0%nat = Some l ∧
    l_client l = sample_client 3) by (vm_compute; by eexists).
  destruct Hl as (l & Hl & Hc).
  apply (send_bounded sample_to_vec sample_server (network_trace (take 12 sample_network))
    (network_end (take 12 sample_network)) 0 l sample_wait (network_end (take 26 sample_network))
    (Link (sample_client 3) (AwaitAcks 2) pipe_empty (Pipe [] (wire (Ack 2))))).
  - apply sample_max_ok.
  - apply network_exec. vm_compute. by eexists.
  - exact Hl.
  - rewrite Hc. apply (sample_orderly 1); vm_compute; reflexivity.
  - apply run_trace. vm_compute. reflexivity.
  - replace (sample_wait.*2) with (drop 12 (take 26 sample_network)) by (vm_compute; reflexivity).
    repeat (apply Forall_cons; split; [by simpl|]). constructor.
  - vm_compute. reflexivity.
  - vm_compute. reflexivity.
  - done.
Defined.
