(* ===== verification/UnitTests.v ===== *)
(** * UnitTests: the unit tests of the crate, run on the model

    The [mod tests] of frame.rs, codec.rs, error.rs, server.rs and client.rs, translated line by
    line and evaluated: each test is code that panics when an assertion fails, and each passes.
    They tie the model to the behaviour its authors expect of the code.

    The synchronous tests work on a buffer.  The tests of [run_connection] and [Client::send] talk
    to the task under test over a duplex stream: a bench holds the task, the two streams and what
    the task is waiting for, [turn] lets the task take one step if it can, and an operation of the
    test that waits lets it run until the wait is over ([until]).  A payload is compared with the
    text of the JSON value where the test decodes it and looks at its only field.  The tests that
    use sockets run on [SampleNet] and on the shared state of the server.  flate2 is the toy
    instance [StoredZlib]. *)

From Stdlib Require Import Strings.String.
From stdpp Require Import gmap.
From S2P Require Import Prelude Errors Zlib Frame Codec Task Batch Connection Client Connect Server.
From S2P Require Import Network.

(** ** Assertions *)

Section tests.
Context {S : Type}.

Definition assert (c : bool) : M S Error unit :=
  if c then mret tt else panic "assertion failed".

Definition assert_eq {A} `{EqDecision A} (x y : A) : M S Error unit :=
  assert (bool_decide (x = y)).

Definition unwrap {A} (m : M S Error A) : M S Error A := λ s,
  match m s with
  | (Err e, s') => (Panic "called `Result::unwrap()` on an `Err` value", s')
  | r => r
  end.

Definition unwrap_option {A} (o : option A) : M S Error A :=
  match o with
  | Some a => mret a
  | None => panic "called `Option::unwrap()` on a `None` value"
  end.

Fixpoint for_each {A} (l : list A) (f : A → M S Error unit) : M S Error unit :=
  match l with
  | [] => mret tt
  | a :: l' => f a;; for_each l' f
  end.

(** Code on a buffer of its own: its result and the buffer after it. *)
Definition on {A} (buf : bytes) (m : M bytes Error A) : M S Error (A * bytes) := λ s,
  match m buf with
  | (Ok a, buf') => (Ok (a, buf'), s)
  | (Err e, _) => (Err e, s)
  | (Panic p, _) => (Panic p, s)
  end.

Definition passes (t : M S Error unit) (s : S) : bool :=
  match (t s).1 with
  | Ok _ => true
  | _ => false
  end.
End tests.

(** Text as bytes. *)
Definition lit (s : string) : bytes := list_byte_of_string s.
Definition quoted (s : string) : bytes := [x22] ++ lit s ++ [x22].
Definition obj (key : string) (value : bytes) : bytes :=
  lit "{" ++ quoted key ++ lit ":" ++ value ++ lit "}".

(** ** frame.rs *)

Definition decode_frame : M bytes Error Frame := unwrap decode ≫= unwrap_option.

Definition decode_none : M bytes Error unit :=
  r ← unwrap decode; assert (bool_decide (r = None)).

Definition window_round_trip : M bytes Error unit :=
  encode (Window 42);;
  buf ← get;
  assert_eq buf [x32; x57; x00; x00; x00; x2a];;
  decoded ← decode_frame;
  assert_eq decoded (Window 42);;
  buf ← get;
  assert_eq buf [].

Definition window_partial_returns_none : M bytes Error unit :=
  put [x32; x57; x00; x00];;
  decode_none;;
  buf ← get;
  assert_eq (len buf) 4.

Definition invalid_version_errors : M bytes Error unit :=
  put [x31; x57; x00; x00; x00; x01];;
  r ← result_of decode;
  assert_eq r (inl (InvalidFrame "unsupported protocol version")).

Definition unknown_type_errors : M bytes Error unit :=
  put [x32; x58];;
  r ← result_of decode;
  assert_eq r (inl (InvalidFrame "unknown frame type")).

Definition json_round_trip : M bytes Error unit :=
  let payload := obj "hello" (quoted "world") in
  let frame := Json 7 payload in
  encode frame;;
  buf ← get;
  assert_eq (take 2 buf) (lit "2J");;
  assert_eq (len buf) (2 + 4 + 4 + len payload);;
  decoded ← decode_frame;
  assert_eq decoded (Json 7 payload);;
  buf ← get;
  assert_eq buf [].

Definition json_partial_returns_none : M bytes Error unit :=
  '(_, full) ← on [] (encode (Json 1 (lit "abc")));
  for_each (seq 0 (length full)) (λ n,
    put (take n full);;
    decode_none;;
    partial ← get;
    assert_eq (length partial) n).

Definition json_oversize_errors : M bytes Error unit :=
  put (lit "2J" ++ be32 0 ++ be32 10 ++ replicate 10 x00);;
  res ← result_of (decode_with_limit 5);
  assert_eq res (inl (FrameTooLarge 10 5)).

Definition ack_round_trip : M bytes Error unit :=
  encode (Ack 99);;
  buf ← get;
  assert_eq buf [x32; x41; x00; x00; x00; x63];;
  decoded ← decode_frame;
  assert_eq decoded (Ack 99).

Definition ack_zero_round_trip : M bytes Error unit :=
  encode (Ack 0);;
  decoded ← decode_frame;
  assert_eq decoded (Ack 0).

Definition ack_partial_returns_none : M bytes Error unit :=
  put [x32; x41; x00; x00];;
  decode_none.

Definition compressed_round_trip : M bytes Error unit :=
  let inner_a := Json 1 (obj "a" (lit "1")) in
  let inner_b := Json 2 (obj "b" (lit "2")) in
  '(_, inner_bytes) ← on [] (encode inner_a;; encode inner_b);
  encode (Compressed inner_bytes);;
  decoded ← decode_frame;
  match decoded with
  | Compressed b => assert_eq b inner_bytes
  | _ => panic "expected Compressed"
  end.

Definition compressed_corrupted_payload_errors : M bytes Error unit :=
  put (lit "2C" ++ be32 4 ++ [xff; xff; xff; xff]);;
  r ← result_of decode;
  assert match r with inl (Compression _) => true | _ => false end.

Definition compressed_partial_returns_none : M bytes Error unit :=
  '(_, full) ← on [] (encode (Compressed (lit "hello world hello world hello world hello world")));
  for_each (seq 0 (length full)) (λ n,
    put (take n full);;
    decode_none).

(** ** codec.rs *)

Definition codec_decode_frame (codec : LumberjackCodec) : M bytes Error Frame :=
  unwrap (codec_decode codec) ≫= unwrap_option.

Definition encode_then_decode_window : M bytes Error unit :=
  let codec := codec_new in
  unwrap (codec_encode codec (Window 5));;
  out ← codec_decode_frame codec;
  assert_eq out (Window 5).

Definition decode_streams_back_to_back_frames : M bytes Error unit :=
  let codec := codec_new in
  unwrap (codec_encode codec (Window 2));;
  unwrap (codec_encode codec (Json 1 (lit "{}")));;
  unwrap (codec_encode codec (Json 2 (lit "[]")));;
  f1 ← codec_decode_frame codec;
  f2 ← codec_decode_frame codec;
  f3 ← codec_decode_frame codec;
  assert_eq f1 (Window 2);;
  assert_eq f2 (Json 1 (lit "{}"));;
  assert_eq f3 (Json 2 (lit "[]"));;
  buf ← get;
  assert_eq buf [].

(** ** error.rs *)

Definition io_error_converts_via_from : M bytes Error unit :=
  let io := IoError (OtherKind "Other") "boom" in
  let err := from_io io in
  assert match err with Io _ => true | _ => false end;;
  assert match source err with Some _ => true | None => false end.

Definition display_format_includes_context : M bytes Error unit :=
  let err := FrameTooLarge 100 10 in
  assert_eq (to_string err) "frame too large: 100 > 10"%string.

Example buffer_tests_pass :
  forallb (λ t, passes t [])
    [window_round_trip; window_partial_returns_none; invalid_version_errors; unknown_type_errors;
     json_round_trip; json_partial_returns_none; json_oversize_errors; ack_round_trip;
     ack_zero_round_trip; ack_partial_returns_none; compressed_round_trip;
     compressed_corrupted_payload_errors; compressed_partial_returns_none;
     encode_then_decode_window; decode_streams_back_to_back_frames; io_error_converts_via_from;
     display_format_includes_context] = true.
Proof. vm_compute. reflexivity. Qed.

(** ** The bench of the asynchronous tests *)

(** [tokio::io::duplex]: the stream to the task under test and the one from it, and whether the
    test has dropped its end. *)
Record duplex : Type := Duplex { to_task : pipe; from_task : pipe; dropped : bool }.

Definition duplex_new : duplex := Duplex pipe_empty pipe_empty false.

Class Bench (S : Type) : Type := {
  io : S → duplex;
  set_io : duplex → S → S;
  turn : S → option S;
}.

Section bench.
Context {S : Type} `{Bench S}.

(** Wait until [probe] yields something: the task runs in the meantime. *)
Fixpoint until {A} (fuel : nat) (probe : S → option (A * S)) : M S Error A := λ s,
  match probe s with
  | Some (a, s') => (Ok a, s')
  | None =>
      match fuel, turn s with
      | Datatypes.S fuel', Some s' => until fuel' probe s'
      | _, _ => (Panic "the test does not go on", s)
      end
  end.

(** The test's end of the stream is a [Framed] with the default codec: [send], and [next]. *)
Definition peer_send (f : Frame) : M S Error unit :=
  s ← get;
  match pipe_feed codec_new f (to_task (io s)) with
  | Some p =>
      put (set_io (Duplex (pipe_arrive (length (under_way p)) p) (from_task (io s))
                     (dropped (io s))) s)
  | None => panic "send failed"
  end.

Definition peer_next : M S Error Frame :=
  until 100 (λ s,
    let p := from_task (io s) in
    '(f, p') ← pipe_next codec_new (pipe_arrive (length (under_way p)) p);
    Some (f, set_io (Duplex (to_task (io s)) p' (dropped (io s))) s)).

Definition peer_drop : M S Error unit :=
  s ← get; put (set_io (Duplex (to_task (io s)) (from_task (io s)) true) s).
End bench.

(** ** server.rs *)

(** *** [Batch] *)

(** What was sent through the oneshot [rx]. *)
Definition oneshot_recv (rx : chan) : M (list (chan * Z)) Error Z :=
  sent ← get;
  '(_, x) ← unwrap_option (list_find (λ x, x.1 = rx) sent);
  mret x.2.

Definition explicit_ack_sends_last_seq : M (list (chan * Z)) Error unit :=
  let batch := batch_new [lit "null"] 7 0 in
  batch_ack batch;;
  v ← oneshot_recv 0;
  assert_eq v 7.

Definition drop_without_ack_still_sends_last_seq : M (list (chan * Z)) Error unit :=
  let batch := batch_new [lit "null"; lit "null"] 12 0 in
  batch_drop batch;;
  v ← oneshot_recv 0;
  assert_eq v 12.

Definition double_ack_is_a_noop : M (list (chan * Z)) Error unit :=
  let batch := batch_new [] 3 0 in
  batch_ack batch;;
  v ← oneshot_recv 0;
  assert_eq v 3.

Example batch_tests_pass :
  forallb (λ t, passes t [])
    [explicit_ack_sends_last_seq; drop_without_ack_still_sends_last_seq; double_ack_is_a_noop] =
  true.
Proof. reflexivity. Qed.

(** *** [run_connection] *)

(** The task [run_connection] with its configuration, the channel of batches, and what was sent
    through the oneshots. *)
Record conn_bench : Type := ConnBench {
  cb_cfg : ConnectionConfig;
  cb_conn : conn;
  cb_io : duplex;
  cb_out : list Batch;
  cb_acks : list (chan * Z);
}.

Definition from_millis (n : Z) : Z := n * 1000000.

(** [duplex], [mpsc::channel] and [tokio::spawn(run_connection(..))] *)
Definition spawn_connection (cfg : ConnectionConfig) : M conn_bench Error unit :=
  put (ConnBench cfg conn_start duplex_new [] []).

(** The task goes on with the input [i]. *)
Definition conn_go (i : input) (io : duplex) (out : list Batch) (s : conn_bench) :
    option conn_bench :=
  c ← resume (cb_cfg s) (cb_conn s) i; Some (ConnBench (cb_cfg s) c io out (cb_acks s)).

Definition conn_turn (s : conn_bench) : option conn_bench :=
  let io := cb_io s in
  let codec := with_max_frame_size (cfg_max_frame_size (cb_cfg s)) in
  match request_of (cb_cfg s) (cb_conn s) with
  | ReqNext =>
      match codec_decode codec (arrived (to_task io)) with
      | (Ok (Some f), rest) =>
          conn_go (InNext (Some (Ok f))) (Duplex (Pipe [] rest) (from_task io) (dropped io))
            (cb_out s) s
      | (Err e, rest) => conn_go (InNext (Some (Err e))) io (cb_out s) s
      | _ => if dropped io then conn_go (InNext None) io (cb_out s) s else None
      end
  | ReqDispatch b => conn_go (InDispatched true) io (cb_out s ++ [b]) s
  | ReqAck rx keepalive =>
      match list_find (λ x, x.1 = rx) (cb_acks s), keepalive with
      | Some (_, (_, v)), _ => conn_go (InAck (Some v)) io (cb_out s) s
      | None, Some _ => conn_go InElapsed io (cb_out s) s
      | None, None => None
      end
  | ReqSend f =>
      p ← pipe_feed codec f (from_task io);
      conn_go (InSent (Ok tt)) (Duplex (to_task io) p (dropped io)) (cb_out s) s
  | ReqReturn _ => None
  end.

#[export] Instance conn_bench_bench : Bench conn_bench := {|
  io := cb_io;
  set_io io s := ConnBench (cb_cfg s) (cb_conn s) io (cb_out s) (cb_acks s);
  turn := conn_turn;
|}.

(** [out_rx.recv().await.unwrap()] *)
Definition out_recv : M conn_bench Error Batch :=
  until 100 (λ s,
    match cb_out s with
    | b :: out => Some (b, ConnBench (cb_cfg s) (cb_conn s) (cb_io s) out (cb_acks s))
    | [] => None
    end).

(** [batch.ack()] *)
Definition ack (b : Batch) : M conn_bench Error unit := λ s,
  let '(r, acks) := batch_ack b (cb_acks s) in
  (r, ConnBench (cb_cfg s) (cb_conn s) (cb_io s) (cb_out s) acks).

(** [server.await.unwrap()] *)
Definition server_join : M conn_bench Error (outcome Error unit) :=
  until 100 (λ s, match c_state (cb_conn s) with Finished r => Some (r, s) | _ => None end).

Definition event_at (k : nat) (b : Batch) : bytes := default [] (batch_events b !! k).

Definition server_processes_uncompressed_batch : M conn_bench Error unit :=
  spawn_connection (ConnConfig 1024 None);;
  peer_send (Window 2);;
  peer_send (Json 1 (obj "a" (lit "1")));;
  peer_send (Json 2 (obj "b" (lit "2")));;
  batch ← out_recv;
  assert_eq (batch_len batch) 2;;
  assert_eq (event_at 0 batch) (obj "a" (lit "1"));;
  assert_eq (event_at 1 batch) (obj "b" (lit "2"));;
  ack batch;;
  f ← peer_next;
  assert_eq f (Ack 2);;
  peer_drop;;
  r ← server_join;
  assert_eq r (Ok tt).

Definition server_forwards_payloads_without_parsing : M conn_bench Error unit :=
  spawn_connection (ConnConfig 1024 None);;
  peer_send (Window 2);;
  peer_send (Json 1 (lit "not json"));;
  peer_send (Json 2 (obj "ok" (lit "true")));;
  batch ← out_recv;
  assert_eq (batch_len batch) 2;;
  assert_eq (event_at 0 batch) (lit "not json");;
  assert_eq (event_at 1 batch) (obj "ok" (lit "true"));;
  ack batch;;
  f ← peer_next;
  assert_eq f (Ack 2);;
  peer_drop;;
  r ← server_join;
  assert_eq r (Ok tt).

Definition server_rejects_seq_out_of_order : M conn_bench Error unit :=
  spawn_connection (ConnConfig 1024 None);;
  peer_send (Window 2);;
  peer_send (Json 5 (lit "{}"));;
  peer_send (Json 3 (lit "{}"));;
  res ← server_join;
  assert_eq res (Err (SeqOutOfOrder 3 5)).

(** At most [n] frames, until two keepalives have come. *)
Fixpoint count_zeros (n : nat) (zeros : Z) : M conn_bench Error Z :=
  match n with
  | O => mret zeros
  | S n' =>
      f ← peer_next;
      match f with
      | Ack 0 => if 2 <=? zeros + 1 then mret (zeros + 1) else count_zeros n' (zeros + 1)
      | _ => panic "got a real ack too early"
      end
  end.

(** Skip keepalives until the acknowledgement of 1. *)
Definition skip_to_ack : M conn_bench Error unit :=
  loopM 5 (λ _,
    f ← peer_next;
    match f with
    | Ack 0 => mret (inl tt)
    | Ack 1 => mret (inr tt)
    | _ => panic "got another frame"
    end) tt.

Definition server_sends_ack0_keepalive_while_user_holds_batch : M conn_bench Error unit :=
  spawn_connection (ConnConfig 1024 (Some (from_millis 20)));;
  peer_send (Window 1);;
  peer_send (Json 1 (lit "{}"));;
  batch ← out_recv;
  zeros ← count_zeros 3 0;
  assert (2 <=? zeros);;
  ack batch;;
  skip_to_ack;;
  peer_drop;;
  r ← server_join;
  assert_eq r (Ok tt).

Definition no_bench : conn_bench := ConnBench (ConnConfig 0 None) conn_start duplex_new [] [].

Example connection_tests_pass :
  forallb (λ t, passes t no_bench)
    [server_processes_uncompressed_batch; server_forwards_payloads_without_parsing;
     server_rejects_seq_out_of_order; server_sends_ack0_keepalive_while_user_holds_batch] = true.
Proof. vm_compute. reflexivity. Qed.

(** *** The accept loop and the gauge *)

(** The server of [Server::bind], and one action of one of its tasks. *)
Abbreviation bound_server := (server_builder (TlsAcceptor := unit)).

Definition step (e : event) : M world Error unit :=
  w ← get;
  w' ← unwrap_option (server_step bound_server w e);
  put w'.

(** The peer of the connection [id] sends a frame, and its handler receives it. *)
Definition deliver (id : nat) (f : Frame) : M world Error unit :=
  step (Handle id (InNext (Some (Ok f)))).

(** The frame that the handler [id] is sending. *)
Definition sending (id : nat) : M world Error Frame :=
  w ← get;
  match request_at bound_server w id with
  | Some (ReqSend f) => mret f
  | _ => panic "the handler is not sending"
  end.

Definition server_bind_accepts_real_tcp_connection : M world Error unit :=
  step Accept;;
  deliver 0 (Window 1);;
  deliver 0 (Json 1 (obj "x" (lit "42")));;
  step (Handle 0 (InDispatched true));;
  w ← get;
  '(received, _) ← unwrap_option (server_recv w);
  '(_, batch) ← unwrap_option received;
  assert_eq (event_at 0 batch) (obj "x" (lit "42"));;
  step Recv;;
  step (Dispose 0 ByAck);;
  step (Handle 0 (InAck (Some 1)));;
  f ← sending 0;
  assert_eq f (Ack 1);;
  step (Handle 0 (InSent (Ok tt))).

Definition server_drop_stops_accept_loop : M world Error unit :=
  step DropServer;;
  step SeeShutdown;;
  w ← get;
  assert match server_step bound_server w Accept with None => true | Some _ => false end.

(** [wait_until]: at most 100 pauses, in each of which one of the steps that are under way happens. *)
Fixpoint wait_until (turns : nat) (cond : world → bool) (under_way : list event) :
    M world Error unit :=
  match turns with
  | O => panic "condition not met within timeout"
  | S turns' =>
      w ← get;
      if cond w then mret tt else
      match under_way with
      | [] => wait_until turns' cond []
      | e :: under_way' => step e;; wait_until turns' cond under_way'
      end
  end.

Definition active_connections_tracks_open_and_closed : M world Error unit :=
  w ← get;
  assert_eq (active_connections w) 0;;
  wait_until 100 (λ w, active_connections w =? 3) (replicate 3 Accept);;
  wait_until 100 (λ w, active_connections w =? 0) ((λ id, Handle id (InNext None)) <$> seq 0 3).

Example server_tests_pass :
  forallb (λ t, passes t world_start)
    [server_bind_accepts_real_tcp_connection; server_drop_stops_accept_loop;
     active_connections_tracks_open_and_closed] = true.
Proof. vm_compute. reflexivity. Qed.

(** ** client.rs *)

(** *** [Client::send] *)

Record send_bench : Type := SendBench {
  sb_client : Client;
  sb_send : send_state;
  sb_io : duplex;
}.

(** A client over a fresh duplex stream that calls [send] on the events; it runs while the peer
    task of the test waits. *)
Definition call_send (client : Client) (evs : list (option bytes)) : M send_bench Error unit :=
  put (SendBench client (send_start sample_to_vec evs) duplex_new).

Definition send_go (i : client_input) (io : duplex) (s : send_bench) : option send_bench :=
  st ← send_resume (sb_client s) (sb_send s) i; Some (SendBench (sb_client s) st io).

Definition send_turn (s : send_bench) : option send_bench :=
  let io := sb_io s in
  match send_request (sb_client s) (sb_send s) with
  | WantFeed f _ =>
      p ← pipe_feed codec_new f (from_task io);
      send_go (Fed (Ok tt)) (Duplex (to_task io) p (dropped io)) s
  | WantFlush _ => send_go (Flushed (Ok tt)) io s
  | WantNext _ =>
      '(f, p) ← pipe_next codec_new (to_task io);
      send_go (Got (Some (Ok f))) (Duplex p (from_task io) (dropped io)) s
  | WantReturn _ => None
  end.

#[export] Instance send_bench_bench : Bench send_bench := {|
  io := sb_io;
  set_io io s := SendBench (sb_client s) (sb_send s) io;
  turn := send_turn;
|}.

(** The result of [client.send(...).await]. *)
Definition send_result : M send_bench Error (outcome Error Z) :=
  until 100 (λ s, match sb_send s with Returned r => Some (r, s) | _ => None end).

(** Nothing comes from the peer for as long as the client waits: its timer fires. *)
Definition silence : M send_bench Error unit :=
  until 100 (λ s,
    match turn s with
    | Some _ => None
    | None => s' ← send_go TimedOut (sb_io s) s; Some (tt, s')
    end).

(** A client as the tests build it. *)
Definition test_client (level : Z) (ack_timeout : Z) : Client :=
  MkClient level None (Some ack_timeout).

Definition send_uncompressed_writes_window_then_json_then_returns_on_ack :
    M send_bench Error unit :=
  call_send (test_client 0 (from_secs 5))
    [Some (obj "a" (lit "1")); Some (obj "b" (lit "2"))];;
  f ← peer_next;
  assert_eq f (Window 2);;
  f ← peer_next;
  match f with
  | Json seq data => assert_eq seq 1;; assert_eq data (obj "a" (lit "1"))
  | _ => panic "expected Json"
  end;;
  f ← peer_next;
  match f with
  | Json seq _ => assert_eq seq 2
  | _ => panic "expected Json"
  end;;
  peer_send (Ack 2);;
  n ← send_result;
  assert_eq n (Ok 2).

Definition send_compressed_emits_window_then_compressed_frame : M send_bench Error unit :=
  call_send (test_client 3 (from_secs 5))
    [Some (obj "a" (lit "1")); Some (obj "b" (lit "2"))];;
  f ← peer_next;
  assert_eq f (Window 2);;
  f ← peer_next;
  match f with
  | Compressed inner =>
      '(f1, buf) ← on inner decode_frame;
      '(f2, _) ← on buf decode_frame;
      assert match f1 with Json 1 _ => true | _ => false end;;
      assert match f2 with Json 2 _ => true | _ => false end
  | _ => panic "expected Compressed"
  end;;
  peer_send (Ack 2);;
  n ← send_result;
  assert_eq n (Ok 2).

Definition send_returns_ack_timeout_when_peer_silent : M send_bench Error unit :=
  call_send (test_client 0 (from_millis 50)) [Some (obj "x" (lit "1"))];;
  silence;;
  res ← send_result;
  assert_eq res (Err AckTimeout).

(** The pauses of the peer are shorter than the timeout, which applies to each wait. *)
Definition send_tolerates_ack0_keepalives : M send_bench Error unit :=
  call_send (test_client 0 (from_millis 200)) [Some (obj "x" (lit "1"))];;
  f ← peer_next;
  assert_eq f (Window 1);;
  f ← peer_next;
  assert match f with Json _ _ => true | _ => false end;;
  for_each (seq 0 3) (λ _, peer_send (Ack 0));;
  peer_send (Ack 1);;
  n ← send_result;
  assert_eq n (Ok 1).

Definition no_send : send_bench := SendBench (test_client 0 0) (Returned (Ok 0)) duplex_new.

Example send_tests_pass :
  forallb (λ t, passes t no_send)
    [send_uncompressed_writes_window_then_json_then_returns_on_ack;
     send_compressed_emits_window_then_compressed_frame;
     send_returns_ack_timeout_when_peer_silent; send_tolerates_ack0_keepalives] = true.
Proof. vm_compute. reflexivity. Qed.

(** *** [ClientBuilder::connect] *)

Definition localhost (port : Z) : SocketAddr := V4 2130706433 port.

Definition invalid_port_range_errors : M SampleNet Error unit :=
  res ← result_of (connect (set_local_port_range 50000 49000 builder_default) (localhost 1));
  assert match res with inl (InvalidConfig _) => true | _ => false end.

(** A std listener can be bound to the port; it is closed again at once. *)
Definition can_bind (p : Z) : M SampleNet Error bool :=
  n ← get;
  r ← result_of (socket_bind tt (localhost p));
  put n;;
  mret match r with inl _ => false | inr _ => true end.

Fixpoint pick_free_port (ports : list Z) : M SampleNet Error Z :=
  match ports with
  | [] => panic "no free port in the range"
  | p :: ports' => free ← can_bind p; if free : bool then mret p else pick_free_port ports'
  end.

Definition pick_free_port_in (range_start range_end : Z) : M SampleNet Error Z :=
  pick_free_port (seqZ range_start (range_end - range_start + 1)).

(** A std listener that stays bound to the port. *)
Definition hold (p : Z) : M SampleNet Error unit :=
  n ← get; put (MkNet (p :: in_use n) (bound_port n)).

(** The port the server sees as that of its peer: on [SampleNet] a stream is its local port. *)
Definition peer_port (s : BoxedStream (W := SampleNet)) : Z :=
  match s with Plain p | Secured (_, p) => p end.

Definition local_port_range_uses_port_within_range : M SampleNet Error unit :=
  let target := localhost 7000 in
  port ← pick_free_port_in 45000 45200;
  '(stream, _, _) ← unwrap (connect (set_local_port_range port port builder_default) target);
  assert_eq (peer_port stream) port.

Definition local_port_range_skips_busy_port : M SampleNet Error unit :=
  let target := localhost 7000 in
  busy ← pick_free_port_in 45300 45301;
  hold busy;;
  let other := if busy =? 45300 then 45301 else 45300 in
  '(stream, _, _) ← unwrap (connect (set_local_port_range 45300 45301 builder_default) target);
  assert_eq (peer_port stream) other.

Definition local_port_range_exhausted_errors : M SampleNet Error unit :=
  let target := localhost 7000 in
  port ← pick_free_port_in 45400 45400;
  hold port;;
  res ← result_of (connect (set_local_port_range port port builder_default) target);
  assert match res with inl NoLocalPortAvailable => true | _ => false end.

(** Whichever ports of the ranges are in use, as long as the tests find the free ports they
    need. *)
Example connect_tests_pass :
  forallb (λ busy, forallb (λ t, passes t (MkNet busy 0))
    [invalid_port_range_errors; local_port_range_uses_port_within_range;
     local_port_range_skips_busy_port; local_port_range_exhausted_errors])
    [[]; [45000]; [45000; 45001; 45100]; [45200; 7000]] = true.
Proof. vm_compute. reflexivity. Qed.
