(* ===== verification/IntegrationTests.v ===== *)
(** * IntegrationTests: src/tests/ and src/benches/, run on the model

    The integration tests roundtrip.rs, compression.rs and tls.rs, translated onto the network of
    Network.v and evaluated.  A [system] is the server with its builder, the network, and the
    client tasks that the test has spawned; while the test waits, everything else goes on
    ([background], a scheduler that takes the first step that is possible), and a wait that
    nothing can end fails the test.  TLS is the handshake event and a stream of bytes.
    interop.rs, which drives a Go program, is in Interop.v.

    The benchmarks of frame.rs: the code that is timed, which must not panic. *)

From Stdlib Require Import Strings.String.
From stdpp Require Import gmap.
From S2P Require Import Prelude Errors Zlib Frame Codec Task Batch Connection Client Connect Server.
From S2P Require Import Network UnitTests.

(** ** The bench *)

(** A spawned task that calls [send] on batches, with the result that it asserts, if any. *)
Record task : Type := ClientTask {
  k_id : nat;
  k_sends : list (list bytes * option Z);
  k_waits : option (option Z);     (* a [send] is running, with its assertion *)
}.

(** The acceptor is that of the test, if it has one. *)

Record system : Type := System {
  y_builder : ServerBuilder unit;
  y_net : net;
  y_tasks : list task;
}.

(** The events are given by their JSON text. *)
Definition json_vec (ev : bytes) : string + bytes := inr ev.

Definition y_step (e : net_event (T := bytes)) (s : system) : option system :=
  n ← net_step json_vec (y_builder s) (y_net s) e;
  Some (System (y_builder s) n (y_tasks s)).

(** The steps a connection may take by itself. *)
Definition link_turns (id : nat) (s : system) : list (net_event (T := bytes)) :=
  match n_links (y_net s) !! id with
  | Some l =>
      let arrives (p : pipe) (e : nat → link_event) :=
        match under_way p with [] => [] | bs => [OnLink id (e (length bs))] end in
      arrives (l_up l) UpArrives ++ arrives (l_down l) DownArrives ++
      [Serve (Handshake id None); OnLink id ClientFeeds;
       OnLink id (ClientOther (Flushed (Ok tt))); OnLink id ServerNext;
       Serve (Handle id (InDispatched true));
       Serve (Handle id (InAck (match handlers (n_world (y_net s)) !! id with
                                | Some (Serving (Conn (AwaitAck _ rx) _)) =>
                                    acks (n_world (y_net s)) !! (id, rx)
                                | _ => None
                                end)));
       OnLink id ServerSends; OnLink id ClientNext]
  | None => []
  end.

Fixpoint first_step (es : list (net_event (T := bytes))) (s : system) : option system :=
  match es with
  | [] => None
  | e :: es' => match y_step e s with Some s' => Some s' | None => first_step es' s end
  end.

Definition step (e : net_event) : M system Error unit := λ s,
  match y_step e s with
  | Some s' => (Ok tt, s')
  | None => (Panic "the call cannot return that", s)
  end.

(** A spawned task goes on when its [send] has returned. *)
Definition task_turn (k : nat) (t : task) : M system Error bool :=
  s ← get;
  let put_task t' := put (System (y_builder s) (y_net s) (<[k := t']> (y_tasks s))) in
  match l_send <$> n_links (y_net s) !! k_id t, k_waits t, k_sends t with
  | Some (Returned r), Some check, _ =>
      n ← unwrap (lift r);
      match check with Some n' => assert_eq n n' | None => mret tt end;;
      put_task (ClientTask (k_id t) (k_sends t) None);;
      mret true
  | Some (Returned _), None, (evs, check) :: rest =>
      put_task (ClientTask (k_id t) rest (Some check));;
      step (OnLink (k_id t) (Send evs));;
      mret true
  | _, _, _ => mret false
  end.

Fixpoint tasks_turn (k : nat) (ts : list task) : M system Error bool :=
  match ts with
  | [] => mret false
  | t :: ts' => moved ← task_turn k t; if moved : bool then mret true else tasks_turn (S k) ts'
  end.

(** Everything but the test itself takes a step, if it can. *)
Definition background : M system Error bool :=
  s ← get;
  match first_step (mjoin ((λ t, link_turns (k_id t) s) <$> y_tasks s)) s with
  | Some s' => put s';; mret true
  | None => tasks_turn 0 (y_tasks s)
  end.

Fixpoint wait_for {A} (fuel : nat) (f : system → option A) : M system Error A :=
  s ← get;
  match f s, fuel with
  | Some a, _ => mret a
  | None, O => panic "the test takes too long"
  | None, S fuel' =>
      moved ← background;
      if moved : bool then wait_for fuel' f else panic "the test hangs"
  end.

(** *** What the tests call *)

(** [Client::builder()...connect(addr).await.unwrap()], and a task that uses the client. *)
Definition spawn_client (b : ClientBuilder (W := SampleNet)) (sends : list (list bytes * option Z)) :
    M system Error unit :=
  '(_, _, client) ← lift (connect b (localhost 5044) (MkNet [] 0)).1;
  s ← get;
  let id := next_id (n_world (y_net s)) in
  step (Connect client);;
  s ← get;
  put (System (y_builder s) (y_net s) (y_tasks s ++ [ClientTask id sends None])).

(** [server.recv().await.unwrap()]: the batch, and where the test holds it. *)
Definition recv_batch : M system Error (nat * Batch) :=
  p ← wait_for 2000 (λ s, head (queue (n_world (y_net s))));
  s ← get;
  step (Serve Recv);;
  mret (length (held (n_world (y_net s))), p.2).

Definition ack_batch (k : nat) : M system Error unit := step (Serve (Dispose k ByAck)).

(** [client_task.await.unwrap()] *)
Definition join_all : M system Error unit :=
  wait_for 2000 (λ s,
    if forallb (λ t, match k_sends t, k_waits t with [], None => true | _, _ => false end)
         (y_tasks s)
    then Some tt else None).

(** [while total < n]: receive and acknowledge. *)
Fixpoint drain_server (fuel : nat) (n total : Z) : M system Error Z :=
  if total <? n then
    match fuel with
    | O => panic "the test takes too long"
    | S fuel' =>
        '(k, batch) ← recv_batch;
        ack_batch k;;
        drain_server fuel' n (total + batch_len batch)
    end
  else mret total.

Definition bound (b : ServerBuilder unit) : system := System b net_start [].

(** ** tests/roundtrip.rs *)

Definition end_to_end_uncompressed_round_trip : M system Error unit :=
  spawn_client
    (set_ack_timeout (from_secs 5) (set_compression_level 0 client_builder))
    ((λ i, ([obj "i" (lit (pretty (Z.of_nat i)))], Some 1)) <$> seq 0 10);;
  total ← drain_server 20 10 0;
  join_all;;
  assert_eq total 10.

Definition server_handles_multiple_concurrent_clients : M system Error unit :=
  for_each (seq 0 5) (λ cid,
    spawn_client (set_compression_level 0 client_builder)
      ((λ i, ([lit "{" ++ quoted "cid" ++ lit ":" ++ lit (pretty (Z.of_nat cid)) ++ lit "," ++
                quoted "i" ++ lit ":" ++ lit (pretty (Z.of_nat i)) ++ lit "}"], None)) <$> seq 0 3));;
  _ ← drain_server 20 15 0;
  join_all.

(** ** tests/compression.rs *)

Definition big : list bytes :=
  (λ i, lit "{" ++ quoted "i" ++ lit ":" ++ lit (pretty (Z.of_nat i)) ++ lit "," ++
     quoted "filler" ++ lit ":" ++ quoted "xxxxxxxxxxxxxxxx" ++ lit "}") <$> seq 0 50.

Definition compressed_batch_round_trip : M system Error unit :=
  spawn_client (set_ack_timeout (from_secs 5) (set_compression_level 6 client_builder))
    [(big, Some 50)];;
  '(k, batch) ← recv_batch;
  assert_eq (batch_len batch) 50;;
  assert_eq (batch_events batch !! 0%nat) (big !! 0%nat);;
  assert_eq (batch_events batch !! 49%nat) (big !! 49%nat);;
  ack_batch k;;
  join_all.

(** ** tests/tls.rs *)

Definition tls_round_trip : M system Error unit :=
  spawn_client
    (set_tls tt "localhost" (set_compression_level 0 (set_ack_timeout (from_secs 5) client_builder)))
    [([obj "hello" (quoted "tls")], Some 1)];;
  '(k, batch) ← recv_batch;
  assert_eq (batch_events batch !! 0%nat) (Some (obj "hello" (quoted "tls")));;
  ack_batch k;;
  join_all.

Example integration_tests_pass :
  forallb (λ x : M system Error unit * ServerBuilder unit, passes x.1 (bound x.2))
    [(end_to_end_uncompressed_round_trip, no_keepalive server_builder);
     (server_handles_multiple_concurrent_clients, server_default);
     (compressed_batch_round_trip, server_default);
     (tls_round_trip, set_acceptor tt server_builder)] = true.
Proof. vm_compute. reflexivity. Qed.

(** ** benches/frame.rs *)

Section benches.
Context {zlib : Zlib}.

Definition make_json_payload (size : Z) : bytes :=
  let filler := replicate (Z.to_nat (Z.max 0 (size - 20))) "x"%byte in
  lit "{" ++ quoted "k" ++ lit ":" ++ [x22] ++ filler ++ [x22] ++ lit "}".

Fixpoint encode_all (i : Z) (n : nat) (payload : bytes) : M bytes Error unit :=
  match n with
  | O => mret tt
  | S n' => encode (Json (wrap32 (wrap32 i + 1)) payload);; encode_all (i + 1) n' payload
  end.

Definition build_inner_payload (events : nat) (event_size : Z) : bytes :=
  (encode_all 0 events (make_json_payload event_size) []).2.

(** [Frame::decode(&mut buf).unwrap().unwrap()] *)
Definition decoded : M bytes Error Frame := unwrap decode ≫= unwrap_option.

(** The closures that are timed, on an input. *)
Definition bench_encode_json (p : bytes) : outcome Error unit * bytes := encode (Json 1 p) [].

Definition bench_decode_json (e : bytes) : outcome Error Frame := (decoded e).1.

Definition bench_compressed_round_trip (i : bytes) : outcome Error Frame :=
  match encode (Compressed i) [] with
  | (Ok _, enc) => (decoded enc).1
  | (Err e, _) => Err e
  | (Panic p, _) => Panic p
  end.

Context `{!ZlibOk zlib}.

(** Decoding the encoding of one frame. *)
Lemma decoded_wire f :
  frame_ok DEFAULT_MAX_FRAME_SIZE f → (decoded (wire f)).1 = Ok f.
Proof.
  intros Hf. unfold decoded, decode. rewrite (bind_ok _ _ _ (Some f) []); [done|].
  unfold unwrap. rewrite <- (app_nil_r (wire f)).
  by rewrite (decode_complete _ _ (Ok (Some f)) []) by (by apply decodes_wire).
Qed.

Lemma make_json_payload_len size : len (make_json_payload size) = 8 + Z.max 0 (size - 20).
Proof.
  unfold make_json_payload. rewrite !len_app.
  replace (len (replicate _ _)) with (Z.max 0 (size - 20))
    by (unfold len; rewrite length_replicate; lia).
  change (len (lit "{")) with 1. change (len (quoted "k")) with 3. change (len (lit ":")) with 1.
  change (len [x22]) with 1. change (len (lit "}")) with 1. lia.
Qed.

(** The timed code of the first two benchmarks does not panic, for any size of a payload up to the
    limit of a frame. *)
Theorem bench_json size :
  size <= DEFAULT_MAX_FRAME_SIZE →
  let payload := make_json_payload size in
  ∃ encoded, bench_encode_json payload = (Ok tt, encoded) ∧
    bench_decode_json encoded = Ok (Json 1 payload).
Proof.
  intros Hsize payload. exists (wire (Json 1 payload)). split.
  - unfold bench_encode_json. by rewrite encode_wire.
  - apply decoded_wire. simpl. unfold payload. rewrite make_json_payload_len.
    unfold u32, DEFAULT_MAX_FRAME_SIZE in *. lia.
Qed.

(** Nor does that of the third, if the payload and its compression fit. *)
Theorem bench_compressed inner :
  frame_ok DEFAULT_MAX_FRAME_SIZE (Compressed inner) →
  bench_compressed_round_trip inner = Ok (Compressed inner).
Proof.
  intros Hf. unfold bench_compressed_round_trip. rewrite encode_wire.
  - by apply decoded_wire.
  - by destruct Hf.
Qed.

(** The payload of that benchmark is what a client would compress. *)
Lemma build_inner_payload_ok events size :
  Z.of_nat events < 2 ^ 32 - 1 →
  build_inner_payload events size =
    wires (json_of <$> number 1 (replicate events (make_json_payload size))).
Proof.
  intros Hev. unfold build_inner_payload. set (p := make_json_payload size). clearbody p.
  assert (Hclient : ∀ n i dst,
    encode_all i n p dst = encode_events (λ _, inr p) i (replicate n tt) dst).
  { induction n as [|n IH]; intros i dst; [done|]. cbn [encode_all encode_events replicate].
    erewrite !bind_ok by (by apply encode_wire). apply IH. }
  rewrite Hclient, (encode_events_ok _ 0 _ (replicate events p)); [done| |done|].
  - unfold serialized. clear. induction events as [|n IH]; simpl; [constructor|by constructor].
  - unfold len. rewrite length_replicate. lia.
Qed.
End benches.

(** With the toy container, whose frames are as large as their content. *)
Example bench_compressed_runs :
  forallb (λ n, bool_decide (bench_compressed_round_trip (build_inner_payload n 256) =
    Ok (Compressed (build_inner_payload n 256)))) [10%nat; 100%nat] = true.
Proof. vm_compute. reflexivity. Qed.
