(* ===== verification/Interop.v ===== *)
(** * Interop: other implementations of the protocol (src/tests/interop.rs)

    What the crate relies on of its peer is the protocol, not the other half of the crate.
    [conversation] says what any sender may write: windows, each followed by its events in data
    frames and compressed frames in any mixture, with increasing numbers of the sender's choice.
    The handler serves every conversation ([sender_served]); the frames of [Client::send] are one.
    (That [send] accepts any acknowledgements is in Client.v.)

    interop.rs runs the crate against the Go program src/bench_harness/interop/main.go, which is
    modelled too, over an interface of the library go-lumber with what the protocol says of it:
    both tests pass with every implementation of that interface. *)

From Stdlib Require Import Strings.String.
From stdpp Require Import gmap.
From S2P Require Import Prelude Errors Zlib Frame Codec Task Batch Connection Client Connect Server.
From S2P Require Import System UnitTests.

(** ** What a sender may write *)

Inductive conversation `{Zlib} (max : Z) : list (list bytes * Z) → list Frame → Prop :=
| said_nothing : conversation max [] []
| said_batch fs f ls l bs rest :
    Forall2 (carries max) fs ls → carries max f l → l ≠ [] → u32 (len (mjoin ls ++ l)) →
    increasing 0 (mjoin ls ++ l) → conversation max bs rest →
    conversation max (((mjoin ls ++ l).*2, seq_after 0 (mjoin ls ++ l)) :: bs)
      (Window (len (mjoin ls ++ l)) :: (fs ++ [f]) ++ rest).

Section server.
Context `{Zlib} (cfg : ConnectionConfig) (Hmax : usize (cfg_max_frame_size cfg)).

Abbreviation max := (cfg_max_frame_size cfg).

Lemma join_singletons (l : list item) : mjoin ((λ it, [it]) <$> l) = l.
Proof. induction l as [|it l IH]; [done|]. exact (f_equal (cons it) IH). Qed.

(** The frames of [Client::send] are a conversation. *)
Lemma plans_said level ds :
  Forall (batch_fits max) ds → conversation max (numbered <$> ds) (plans level ds).
Proof.
  induction 1 as [|d ds Hd _ IH]; [constructor|]. rewrite plans_cons.
  pose proof (fits_items cfg d Hmax Hd) as Hitems. pose proof (bf_len _ _ Hd) as Hlen.
  pose proof (len_number 1 d) as Hn. pose proof (number_increasing 0 1 d ltac:(lia)) as Hinc.
  assert (Hc : ∃ fs f ls l, body level (number 1 d) = fs ++ [f] ∧ mjoin ls ++ l = number 1 d ∧
    Forall2 (carries max) fs ls ∧ carries max f l ∧ l ≠ []).
  { unfold body. destruct (0 <? level).
    - exists [], (Compressed (wires (json_of <$> number 1 d))), [], (number 1 d).
      split; [done|]. split; [done|]. split; [constructor|]. split; [by constructor|].
      intros He. rewrite He, len_nil in Hn. lia.
    - clear IH Hinc. induction (number 1 d) as [|[s x] l0 _] using rev_ind; [rewrite len_nil in Hn; lia|].
      exists (json_of <$> l0), (json_of (s, x)), ((λ it, [it]) <$> l0), [(s, x)].
      split; [by rewrite fmap_app|]. split; [by rewrite join_singletons|].
      split; [|split; [constructor|done]]. apply Forall2_fmap, Forall_Forall2_diag, Forall_forall.
      intros [] _. constructor. }
  destruct Hc as (fs & f & ls & l & -> & Hj & Hfs & Hf & Hne).
  replace (numbered <$> d :: ds) with
    (((mjoin ls ++ l).*2, seq_after 0 (mjoin ls ++ l)) :: (numbered <$> ds)).
  - rewrite <- Hn, <- Hj. constructor; [done..| |by rewrite Hj|done]. rewrite Hj, Hn. unfold u32. lia.
  - rewrite Hj, number_datas, number_last, (proj2 (Z.eqb_neq _ _)) by lia. simpl. unfold numbered.
    do 3 f_equal. lia.
Qed.

(** A batch, from one window boundary to the next, with [m] keepalives. *)
Lemma run_batch fs f ls l k m :
  Forall2 (carries max) fs ls → carries max f l → l ≠ [] → u32 (len (mjoin ls ++ l)) →
  increasing 0 (mjoin ls ++ l) → (m = 0%nat ∨ cfg_keepalive cfg ≠ None) →
  let b := ((mjoin ls ++ l).*2, seq_after 0 (mjoin ls ++ l)) in
  ∃ t, Task.exec (resume cfg) (Conn AwaitWindow k) t (Conn AwaitWindow (S k)) ∧
    frames_in t = Window (len (mjoin ls ++ l)) :: fs ++ [f] ∧ content <$> dispatched cfg t = [b] ∧
    sent cfg t = replicate m (Ack 0) ++ [Ack b.2].
Proof.
  intros Hfs Hf Hne Hu Hinc Hm b. apply len_pos in Hne.
  assert (Htake : take (Z.to_nat (len (mjoin ls ++ l))) (mjoin ls ++ l) = mjoin ls ++ l)
    by (apply take_ge; unfold len; lia).
  pose proof (run_window cfg Hmax _ fs f ls l k Hu Hfs Hf ltac:(rewrite len_app; lia)) as Hrun.
  rewrite Htake in Hrun. specialize (Hrun Hinc).
  destruct (run_exec _ _ _ _ Hrun) as (t1 & Hx1 & Ht1).
  destruct (arrive_quiet cfg _ _ Ht1) as (Hf1 & Hd1 & Hs1).
  set (batch := batch_of _ _ _) in *.
  destruct (run_answering cfg m (last_seq batch) k (S k) b.2 Hm) as (t2 & Hx2 & Hf2 & Hd2 & Hs2).
  set (c := Conn (AwaitDispatch batch k) (S k)) in *.
  exists (t1 ++ (c, InDispatched true) :: t2). split.
  { eapply (exec_trans (resume cfg)); [exact Hx1|]. eapply exec_cons; [reflexivity|exact Hx2]. }
  unfold frames_in, dispatched, sent in *. rewrite !bind_app, !bind_cons.
  rewrite Hf1, Hd1, Hs1, Hf2, Hd2, Hs2. split; [by rewrite app_nil_r|]. split; [|done].
  unfold content, batch, batch_of. simpl. by rewrite Htake.
Qed.
End server.

(** ** The test of the Go side (main.go) *)

(** JSON values, as far as the tests look into them. *)
Class JsonValue (V : Type) : Type := {
  event_of : Z → string → V;                 (* json!({"i": ..., "src": ...}) *)
  index_i : V → option Z;                    (* ev["i"] *)
  index_src : V → option string;             (* ev["src"] *)
  value_to_vec : V → bytes;
  value_from_slice : bytes → option V;
}.

Class JsonValueOk (V : Type) `{JsonValue V} : Prop := {
  event_i i src : 0 <= i < 2 ^ 31 → index_i (event_of i src) = Some i;
  event_src i src : index_src (event_of i src) = Some src;
  value_round_trip v : value_from_slice (value_to_vec v) = Some v;
  event_size i src : 0 <= i < 2 ^ 31 → (String.length src < 100)%nat →
    len (value_to_vec (event_of i src)) <= 1024;
}.

(** go-lumber: the batches its server takes out of the frames that it received, and what it writes
    when the first of them are acknowledged; what its client writes for a [Send], and whether [Send] succeeds with
    the frames that come back. *)
Class GoLumber (V : Type) : Type := {
  go_receive : list Frame → list (list V);
  go_acks : nat → list Frame → list Frame;
  go_send : list V → list Frame;
  go_send_ok : list V → list Frame → bool;
}.

(** The protocol, version 2: a server gives its user the events of each window and acknowledges it
    with its size, perhaps in parts; a client writes a window with its events, and is content with
    the acknowledgement of the last one. *)
Class GoLumberOk (V : Type) `{Zlib, JsonValue V, GoLumber V} : Prop := {
  go_receive_one vs fs :
    conversation DEFAULT_MAX_FRAME_SIZE [numbered (value_to_vec <$> vs)] fs → go_receive fs = [vs];
  go_acks_one d fs :
    conversation DEFAULT_MAX_FRAME_SIZE [numbered d] fs →
    ∃ ks, go_acks 1 fs = (Ack <$> ks) ++ [Ack (len d)] ∧ Forall (λ k, k < len d) ks;
  go_send_one vs :
    0 < len vs < 2 ^ 32 → Forall (λ v, len (value_to_vec v) <= 1024) vs →
    conversation DEFAULT_MAX_FRAME_SIZE [numbered (value_to_vec <$> vs)] (go_send vs);
  go_send_acked vs m : go_send_ok vs (replicate m (Ack 0) ++ [Ack (len vs)]) = true;
}.

(** ** The two tests *)

(** The handler, its peer sending these frames and the consumer acknowledging at once: the batches
    and the frames sent. *)
Fixpoint serve `{Zlib} (cfg : ConnectionConfig) (c : conn) (fs : list Frame) :
    option (list Batch * list Frame) :=
  match fs with
  | [] => Some ([], [])
  | f :: fs' =>
      c1 ← resume cfg c (InNext (Some (Ok f)));
      match c_state c1 with
      | AwaitDispatch b rx =>
          c2 ← Task.run (resume cfg) c1 [InDispatched true; InAck (Some (last_seq b)); InSent (Ok tt)];
          '(bs, acked) ← serve cfg c2 fs';
          Some (b :: bs, Ack (last_seq b) :: acked)
      | _ => serve cfg c1 fs'
      end
  end.

(** [send] up to its wait for the acknowledgement, when no write fails. *)
Fixpoint write_all `{Zlib} (client : Client) (fuel : nat) (st : send_state) :
    list Frame * send_state :=
  match fuel, send_request client st with
  | S fuel', WantFeed f _ =>
      match send_resume client st (Fed (Ok tt)) with
      | Some st' => let '(fs, st'') := write_all client fuel' st' in (f :: fs, st'')
      | None => ([], st)
      end
  | S fuel', WantFlush _ =>
      match send_resume client st (Flushed (Ok tt)) with
      | Some st' => write_all client fuel' st'
      | None => ([], st)
      end
  | _, _ => ([], st)
  end.

Section tests.
Context {zlib : Zlib} {V : Type} `{JsonValue V, GoLumber V}.

(** [runServer]: the events collected and the number of batches acknowledged; [None] when the
    channel is closed before. *)
Fixpoint run_server (expect : nat) (batches : list (list V)) (collected : list V) (acked : nat) :
    option (list V * nat) :=
  if (length collected <? expect)%nat then
    match batches with
    | [] => None
    | batch :: batches' => run_server expect batches' (collected ++ batch) (S acked)
    end
  else Some (collected, acked).

(** [runClient]: the events it sends. *)
Definition run_client (n : nat) : list V := (λ i, event_of (Z.of_nat i) "go-lumber") <$> seq 0 n.

(** [for (i, ev) in received.iter().enumerate()] *)
Fixpoint check_events (i : Z) (src : string) (evs : list V) : M unit Error unit :=
  match evs with
  | [] => mret tt
  | ev :: evs' =>
      assert_eq (index_i ev) (Some i);;
      assert_eq (index_src ev) (Some src);;
      check_events (i + 1) src evs'
  end.

(** The line [EVENTS=] carries the values of the array one by one. *)
Definition rust_client_to_go_server (interop_enabled : bool) (port : Z) : M unit Error unit :=
  if negb interop_enabled then mret tt else
  '(_, _, client) ← unwrap (lift (connect
    (set_ack_timeout (from_secs 5) (set_compression_level 0 client_builder))
    (localhost port) (MkNet [] 0)).1);
  let events := (λ i, event_of i "rust") <$> [0; 1; 2] in
  let '(frames, st) := write_all client 9 (send_start (λ v, inr (value_to_vec v)) events) in
  '(collected, acked) ← unwrap_option (run_server 3 (go_receive frames) [] 0);
  st' ← unwrap_option (Task.run (send_resume client) st (gets (go_acks acked frames)));
  n ← match st' with Returned r => unwrap (lift r) | _ => panic "the test hangs" end;
  assert_eq n 3;;
  received ← unwrap_option (mapM value_from_slice (value_to_vec <$> collected));
  assert_eq (length received) 3%nat;;
  check_events 0 "rust" received.

(** [while received.len() < 5 { ... }]: the events, and the batches that were acknowledged. *)
Fixpoint recv_events (n : nat) (batches : list Batch) (received : list V) (acked : nat) :
    M unit Error (list V * nat) :=
  if (length received <? n)%nat then
    match batches with
    | [] => panic "server channel closed before all events"
    | batch :: batches' =>
        vs ← unwrap_option (mapM value_from_slice (batch_events batch));
        recv_events n batches' (received ++ vs) (S acked)
    end
  else mret (received, acked).

Definition go_client_to_rust_server (interop_enabled : bool) : M unit Error unit :=
  if negb interop_enabled then mret tt else
  let events := run_client 5 in
  '(batches, sent) ← unwrap_option
    (serve (config (no_keepalive (@server_builder unit))) conn_start (go_send events));
  '(received, acked) ← recv_events 5 batches [] 0;
  assert (go_send_ok events (take acked sent));;
  assert_eq (length received) 5%nat;;
  check_events 0 "go-lumber" received.
End tests.

(** ** Properties *)

(** C14. The server serves every sender that follows the protocol, not only the client of this crate.
    Whatever a conversation is made of (windows of any size, data frames and compressed frames mixed,
    compressed frames with any number of events, any increasing numbers), the handler can take it
    from window boundary to window boundary: it hands over exactly the batches of the conversation, in
    order, and answers each with any number of keepalives, if they are configured, and one
    acknowledgement of the sender's own last number. *)
Theorem sender_served `{Zlib} cfg bs fs k m :
  usize (cfg_max_frame_size cfg) → conversation (cfg_max_frame_size cfg) bs fs →
  (m = 0%nat ∨ cfg_keepalive cfg ≠ None) →
  ∃ t, Task.exec (resume cfg) (Conn AwaitWindow k) t (Conn AwaitWindow (k + length bs)) ∧
    frames_in t = fs ∧ content <$> dispatched cfg t = bs ∧
    sent cfg t = bs ≫= λ b, replicate m (Ack 0) ++ [Ack b.2].
Proof.
  intros Hmax Hc Hm. revert k.
  induction Hc as [|fs f ls l bs rest Hfs Hf Hne Hu Hinc _ IH]; intros k.
  { exists []. rewrite Nat.add_0_r. split; [constructor|done]. }
  destruct (run_batch cfg Hmax fs f ls l k m Hfs Hf Hne Hu Hinc Hm) as (t1 & Hx1 & Hf1 & Hd1 & Hs1).
  destruct (IH (S k)) as (t2 & Hx2 & Hf2 & Hd2 & Hs2). exists (t1 ++ t2). split.
  { simpl. rewrite Nat.add_succ_r. by eapply exec_trans. }
  unfold frames_in, dispatched, sent in *. rewrite !bind_app, fmap_app, Hf1, Hd1, Hs1, Hf2, Hd2, Hs2.
  split; [done|]. split; [done|]. by rewrite bind_cons.
Qed.

Section interop.
Context {zlib : Zlib}.

Lemma serve_batch cfg c fs b rx k rest :
  Task.run (resume cfg) c (arrive fs) = Some (Conn (AwaitDispatch b rx) k) →
  (∀ b' rx', c_state c ≠ AwaitDispatch b' rx') →
  serve cfg c (fs ++ rest) =
    '(bs, acked) ← serve cfg (Conn AwaitWindow k) rest; Some (b :: bs, Ack (last_seq b) :: acked).
Proof.
  revert c. induction fs as [|f fs IH]; intros c Hrun Hc.
  { injection Hrun as ->. by destruct (Hc b rx). }
  unfold arrive in Hrun. cbn [fmap list_fmap Task.run] in Hrun. cbn [serve app].
  destruct (resume cfg c (InNext (Some (Ok f)))) as [c1|] eqn:Hr; [|done].
  cbn [mbind option_bind] in *. fold (arrive fs) in Hrun.
  destruct fs as [|f' fs].
  { injection Hrun as ->. cbn [c_state]. reflexivity. }
  destruct (c_state c1) eqn:Hs; try (apply IH; [done|]; congruence).
  unfold arrive in Hrun. cbn [fmap list_fmap Task.run] in Hrun. unfold resume in Hrun.
  by rewrite Hs in Hrun.
Qed.

(** What the test sees of a conversation. *)
Lemma serve_said cfg bs fs k :
  usize (cfg_max_frame_size cfg) → conversation (cfg_max_frame_size cfg) bs fs →
  ∃ batches, serve cfg (Conn AwaitWindow k) fs = Some (batches, (λ b, Ack b.2) <$> bs) ∧
    content <$> batches = bs.
Proof.
  intros Hmax Hc. revert k.
  induction Hc as [|fs f ls l bs rest Hfs Hf Hne Hu Hinc _ IH]; intros k; [by exists []|].
  apply len_pos in Hne.
  pose proof (run_window cfg Hmax _ fs f ls l k Hu Hfs Hf ltac:(rewrite len_app; lia)) as Hrun.
  assert (Htake : take (Z.to_nat (len (mjoin ls ++ l))) (mjoin ls ++ l) = mjoin ls ++ l)
    by (apply take_ge; unfold len; lia).
  rewrite Htake in Hrun. specialize (Hrun Hinc). destruct (IH (S k)) as (batches & Hs & Hb).
  rewrite app_comm_cons, (serve_batch _ _ _ _ _ _ _ Hrun) by done. rewrite Hs.
  cbn [mbind option_bind]. unfold batch_of. rewrite Htake. eexists. split; [reflexivity|].
  by rewrite fmap_cons, Hb.
Qed.

(** What the test sees of a [send]. *)
Lemma write_all_run client n fuel st m :
  Task.run (send_resume client) st (replicate n (Fed (Ok tt)) ++ [Flushed (Ok tt)]) =
    Some (AwaitAcks m) → (n + 2 <= fuel)%nat →
  ∃ t, Task.exec (send_resume client) st t (AwaitAcks m) ∧
    write_all client fuel st = (fed client t, AwaitAcks m).
Proof.
  revert fuel st. induction n as [|n IH]; intros fuel st Hrun Hfuel;
    (destruct fuel as [|fuel]; [lia|]); cbn [replicate app Task.run] in Hrun.
  - destruct (send_resume client st _) as [st1|] eqn:Hr; [|done]. injection Hrun as ->.
    exists [(st, Flushed (Ok tt))]. split; [by econstructor; [|constructor]|].
    destruct fuel as [|fuel]; [lia|]. destruct st; try done. by injection Hr as ->.
  - destruct (send_resume client st _) as [st1|] eqn:Hr; [|done]. cbn [mbind option_bind] in Hrun.
    destruct (IH fuel st1 Hrun ltac:(lia)) as (t & Hx & Hw). exists ((st, Fed (Ok tt)) :: t).
    split; [by econstructor|]. cbn [write_all].
    destruct st; try done; cbn [send_request]; rewrite Hr, Hw; done.
Qed.

Lemma write_all_plan {T} (to_vec : T → string + bytes) client evs d fuel :
  sendable to_vec (compression_level client) evs d →
  (length (plan (compression_level client) d) + 2 <= fuel)%nat →
  write_all client fuel (send_start to_vec evs) = (plan (compression_level client) d, AwaitAcks (len d)).
Proof.
  intros Hs Hfuel.
  destruct (write_all_run _ _ fuel _ _ (run_plan to_vec client evs d Hs) Hfuel) as (t & Hx & ->).
  rewrite (send_start_ok _ _ _ _ Hs) in Hx.
  destruct (exec_feeds _ _ _ _ _ _ _ _ Hs (to_feed_start client d) Hx) as (rest & -> & _ & ->).
  by rewrite app_nil_r.
Qed.

Context {V : Type} `{JsonValueOk V, !GoLumber V, !GoLumberOk V}.

Lemma values_round_trip vs : mapM value_from_slice (value_to_vec <$> vs) = Some vs.
Proof.
  apply mapM_Some_2. induction vs as [|v vs IH]; [constructor|].
  constructor; [apply value_round_trip|exact IH].
Qed.

Lemma events_checked src i n u :
  0 <= i → i + Z.of_nat n < 2 ^ 31 →
  check_events i src ((λ j, event_of (V := V) (i + Z.of_nat j) src) <$> seq 0 n) u = (Ok tt, u).
Proof.
  revert i. induction n as [|n IH]; intros i Hi Hn; [done|]. cbn [seq fmap list_fmap check_events].
  rewrite Z.add_0_r, event_i, event_src by lia. unfold assert_eq. rewrite !bool_decide_true by done.
  transitivity (check_events (i + 1) src
    ((λ j, event_of (V := V) (i + Z.of_nat j) src) <$> seq 1 n) u); [done|].
  rewrite <- (IH (i + 1)), <- seq_shift by lia. f_equal. rewrite <- list_fmap_compose. apply list_fmap_ext. intros j x _. simpl. f_equal. lia.
Qed.
End interop.

Section passing.
Context {zlib : Zlib} {V : Type} `{JsonValueOk V, !GoLumber V, !GoLumberOk V}.

Lemma events_small src n :
  (String.length src < 100)%nat → (n < 100)%nat →
  Forall (λ v, len (value_to_vec v) <= 1024) ((λ i, event_of (V := V) (Z.of_nat i) src) <$> seq 0 n).
Proof.
  intros Hs Hn. apply Forall_fmap, Forall_forall. intros i Hi%elem_of_seq. simpl.
  apply event_size; lia.
Qed.

(** The batch of the first test: what the client needs to know of it, and what its peer. *)
Lemma rust_batch :
  let d := value_to_vec <$> ((λ i, event_of (V := V) i "rust") <$> [0; 1; 2]) in
  sendable (λ v : V, @inr string bytes (value_to_vec v)) 0
    ((λ i, event_of (V := V) i "rust") <$> [0; 1; 2]) d ∧
  conversation DEFAULT_MAX_FRAME_SIZE [numbered d] (plan 0 d).
Proof.
  intros d. assert (Hd : Forall (λ x, len x <= 1024) d).
  { apply Forall_fmap. apply (events_small "rust"%string 3%nat); simpl; lia. }
  split.
  - split; [|done|].
    + apply Forall2_fmap_r, Forall_Forall2_diag, Forall_forall. done.
    + intros _. eapply Forall_impl; [exact Hd|]. intros x Hx.
      unfold DEFAULT_MAX_FRAME_SIZE. simpl in Hx. lia.
  - rewrite <- (app_nil_r (plan 0 d)).
    apply (plans_said (ConnConfig DEFAULT_MAX_FRAME_SIZE None) ltac:(done) 0 [d]).
    apply Forall_singleton. split; [done|]. eapply Forall_impl; [exact Hd|]. intros x Hx.
    unfold DEFAULT_MAX_FRAME_SIZE. simpl in *. lia.
Qed.

Lemma rust_client_passes port : (rust_client_to_go_server (V := V) true port tt).1 = Ok tt.
Proof.
  set (client := MkClient 0 None (Some (from_secs 5))).
  set (events := (λ i, event_of (V := V) i "rust") <$> [0; 1; 2]).
  destruct rust_batch as [Hs Hsaid]. fold events in Hs, Hsaid.
  set (d := value_to_vec <$> events) in *.
  set (to_vec := λ v : V, @inr string bytes (value_to_vec v)) in *.
  destruct (go_acks_one d _ Hsaid) as (ks & Hacks & Hks).
  unfold rust_client_to_go_server. cbn [negb].
  assert (Hc : ∃ boxed, (connect (set_ack_timeout (from_secs 5) (set_compression_level 0
    client_builder)) (localhost port) (MkNet [] 0)).1 = Ok (boxed, codec_new, client))
    by (eexists; reflexivity).
  destruct Hc as [boxed Hc]. rewrite (bind_ok _ _ _ (boxed, codec_new, client) tt)
    by (unfold unwrap, lift; by rewrite Hc). cbv beta iota zeta.
  fold events. fold to_vec. rewrite (write_all_plan to_vec client events d 9 Hs) by (simpl; lia).
  change (compression_level client) with 0. rewrite (go_receive_one events _ Hsaid).
  rewrite (bind_ok _ _ _ (events, 1%nat) tt) by done. cbv beta iota zeta. rewrite Hacks.
  rewrite (run_acks client (len d) ks (len d) Hks) by lia.
  rewrite (bind_ok _ _ _ (Returned (Ok (len d))) tt) by done. cbv beta iota zeta.
  rewrite (bind_ok _ _ _ (len d) tt) by done. rewrite (bind_ok _ _ _ tt tt) by done.
  cbv beta. rewrite (values_round_trip events). rewrite (bind_ok _ _ _ events tt) by done.
  rewrite (bind_ok _ _ _ tt tt) by done. exact (f_equal fst (events_checked "rust"%string 0 3 tt ltac:(lia) ltac:(lia))).
Qed.

Lemma go_client_passes : (go_client_to_rust_server (V := V) true tt).1 = Ok tt.
Proof.
  set (events := run_client (V := V) 5). set (d := value_to_vec <$> events).
  pose proof (go_send_one events ltac:(done) (events_small "go-lumber"%string 5%nat ltac:(simpl; lia) ltac:(lia)))
    as Hsaid. fold d in Hsaid.
  set (cfg := config (no_keepalive (@server_builder unit))).
  destruct (serve_said cfg _ _ 0 ltac:(done) Hsaid) as (batches & Hserve & Hb).
  destruct batches as [|batch [|]]; try done. injection Hb as Hev Hlast.
  unfold go_client_to_rust_server. cbn [negb]. fold events cfg.
  change (Conn AwaitWindow 0) with conn_start in Hserve. rewrite Hserve.
  rewrite (bind_ok _ _ _ ([batch], [Ack (len d)]) tt) by done. cbv beta iota zeta.
  rewrite (bind_ok _ _ _ (events, 1%nat) tt).
  2: { cbn [recv_events length Nat.ltb Nat.leb]. unfold batch_events. rewrite Hev.
       change d with (value_to_vec <$> events). rewrite values_round_trip.
       by rewrite (bind_ok _ _ _ events tt). }
  cbv beta iota zeta. cbn [take].
  pose proof (go_send_acked events 0) as Hok. simpl app in Hok.
  replace (len d) with (len events) by done. rewrite Hok.
  rewrite !(bind_ok _ _ _ tt tt) by done.
  exact (f_equal fst (events_checked "go-lumber"%string 0 5 tt ltac:(lia) ltac:(lia))).
Qed.

End passing.

(** Both tests of interop.rs pass, with every implementation of the Go library that follows the
    protocol, every JSON library that reads what it writes, and every port. *)
Theorem interop_tests_pass {zlib : Zlib} {V : Type} `{JsonValueOk V, !GoLumber V, !GoLumberOk V}
    interop_enabled port :
  (rust_client_to_go_server (V := V) interop_enabled port tt).1 = Ok tt ∧
  (go_client_to_rust_server (V := V) interop_enabled tt).1 = Ok tt.
Proof. destruct interop_enabled; [|done]. split; [apply rust_client_passes|apply go_client_passes]. Qed.

(** ** Witnesses *)

(** A conversation unlike those of the client: a data frame, then a compressed frame with two
    events, numbered 3, 7 and 8; then a window of one. *)
Definition sample_words : list Frame :=
  [Window 3; Json 3 [x61]; Compressed (wires [Json 7 [x62]; Json 8 [x63]]); Window 1; Json 5 []].

Definition sample_said : list (list bytes * Z) := [([[x61]; [x62]; [x63]], 8); ([[]], 5)].

Lemma sample_conversation : conversation sample_max sample_said sample_words.
Proof.
  assert (Hlast : conversation sample_max [([[]], 5)] [Window 1; Json 5 []]).
  { apply (said_batch _ [] (Json 5 []) [] [(5, [])] [] []); try done; constructor. }
  apply (said_batch _ [Json 3 [x61]] (Compressed (wires [Json 7 [x62]; Json 8 [x63]])) [[(3, [x61])]]
    [(7, [x62]); (8, [x63])] [([[]], 5)] [Window 1; Json 5 []]); try done.
  - repeat constructor.
  - apply (carries_compressed _ [(7, [x62]); (8, [x63])]). repeat constructor; vm_compute; congruence.
Qed.

Lemma sender_served_witness :
  ∃ t, Task.exec (resume (config sample_server)) (Conn AwaitWindow 0) t (Conn AwaitWindow (0 + 2)) ∧
    frames_in t = sample_words ∧ content <$> dispatched (config sample_server) t = sample_said ∧
    sent (config sample_server) t = [Ack 0; Ack 8; Ack 0; Ack 5].
Proof.
  apply (sender_served (config sample_server) sample_said sample_words 0 1).
  - apply sample_max_ok.
  - apply sample_conversation.
  - right. discriminate.
Defined.

(** JSON values that are their text, four bytes for ["i"] and the rest for ["src"], and a Go program
    that is the two halves of this crate. *)
#[local] Instance plain_values : JsonValue bytes := {
  event_of i src := be32 i ++ list_byte_of_string src;
  index_i v := Some (from_be (take 4 v));
  index_src v := Some (string_of_list_byte (drop 4 v));
  value_to_vec v := v;
  value_from_slice := Some;
}.

Lemma length_text src : length (list_byte_of_string src) = String.length src.
Proof. induction src as [|c src IH]; [done|]. exact (f_equal S IH). Qed.

#[local] Instance plain_values_ok : JsonValueOk bytes.
Proof.
  split.
  - intros i src Hi. cbn [index_i event_of plain_values]. rewrite take_app_length' by (symmetry; apply length_be32).
    rewrite from_be_be32 by (unfold u32; lia). done.
  - intros i src. cbn [index_src event_of plain_values]. rewrite drop_app_length' by (symmetry; apply length_be32).
    by rewrite string_of_list_byte_of_string.
  - done.
  - intros i src _ Hs. change (len (be32 i ++ list_byte_of_string src) <= 1024). rewrite len_app, len_be32. unfold len. rewrite length_text. lia.
Qed.

Definition plain_config : ConnectionConfig := ConnConfig DEFAULT_MAX_FRAME_SIZE None.

#[local] Instance plain_go : GoLumber bytes := {
  go_receive fs := events <$> from_option fst [] (serve plain_config conn_start fs);
  go_acks n fs := take n (from_option snd [] (serve plain_config conn_start fs));
  go_send vs := plan 3 vs;
  go_send_ok vs fs := bool_decide (last fs = Some (Ack (len vs)));
}.

#[local] Instance plain_go_ok : GoLumberOk bytes.
Proof.
  assert (Hone : ∀ d fs, conversation DEFAULT_MAX_FRAME_SIZE [numbered d] fs →
    ∃ b, serve plain_config conn_start fs = Some ([b], [Ack (len d)]) ∧ events b = d).
  { intros d fs Hs. destruct (serve_said plain_config _ fs 0 ltac:(done) Hs) as (bs & Hb & Hd).
    destruct bs as [|b [|]]; try done. injection Hd as Hd _. by exists b. }
  split.
  - intros vs fs (b & Hs & Hd)%Hone. simpl in *. rewrite Hs. simpl. by rewrite Hd, list_fmap_id.
  - intros d fs (b & Hs & _)%Hone. exists []. simpl. by rewrite Hs.
  - intros vs Hlen Hsize. simpl in *. rewrite list_fmap_id, <- (app_nil_r (plan 3 vs)).
    apply (plans_said plain_config ltac:(done) 3 [vs]). apply Forall_singleton. split; [done|].
    eapply Forall_impl; [exact Hsize|]. intros x Hx. unfold plain_config, DEFAULT_MAX_FRAME_SIZE.
    simpl in *. lia.
  - intros vs m. simpl. rewrite last_snoc. by apply bool_decide_eq_true_2.
Qed.

Lemma interop_tests_pass_witness :
  (rust_client_to_go_server (V := bytes) true 5044 tt).1 = Ok tt ∧
  (go_client_to_rust_server (V := bytes) true tt).1 = Ok tt.
Proof. apply (interop_tests_pass true 5044). Defined.
