(* ===== verification/Examples.v ===== *)
(** * Examples: the minimal programs of src/examples

    client.rs and server.rs, as compositions of the crate's model.  Printing is the list of the
    lines printed.  serde_json is a parameter ([to_vec]); [JsonOk] is what is documented of it for
    flat objects of plain strings, whose fields it may reorder.  The throughput harness is
    Baseline.v. *)

From Stdlib Require Import Strings.String.
From stdpp Require Import gmap.
From S2P Require Import Prelude Errors Zlib Frame Codec Task Batch Connection Client Connect Server.
From S2P Require Import UnitTests.

(** ** JSON values *)

(** The objects the examples build: fields with strings. *)
Abbreviation value := (list (bytes * bytes)).

Definition render_field (f : bytes * bytes) : bytes :=
  [x22] ++ f.1 ++ [x22; x3a; x22] ++ f.2 ++ [x22].

Fixpoint render_fields (v : value) : bytes :=
  match v with
  | [] => []
  | [f] => render_field f
  | f :: v' => render_field f ++ [x2c] ++ render_fields v'
  end.

Definition render (v : value) : bytes := [x7b] ++ render_fields v ++ [x7d].

(** Text that JSON writes as it is. *)
Definition plain (b : byte) : bool :=
  (32 <=? u8 b) && (u8 b <? 127) && negb (u8 b =? 34) && negb (u8 b =? 92).

Class JsonOk (to_vec : value → string + bytes) : Prop :=
  json_ok v : Forall (λ f, Forall (λ b, plain b = true) (f.1 ++ f.2)) v →
    ∃ v', v' ≡ₚ v ∧ to_vec v = inr (render v').

Definition field (k : string) (v : bytes) : bytes * bytes := (lit k, v).

(** ** examples/client.rs *)

Definition DEFAULT_ADDR : string := "127.0.0.1:5044".

(** [env::args().nth(1).unwrap_or_else(..)] *)
Definition addr_arg (args : list string) : string := default DEFAULT_ADDR (args !! 1%nat).

Definition client_events : list value :=
  [[field "timestamp" (lit "2026-04-09T10:00:00Z"); field "level" (lit "info");
    field "msg" (lit "hello")];
   [field "timestamp" (lit "2026-04-09T10:00:01Z"); field "level" (lit "warn");
    field "msg" (lit "uh oh")];
   [field "timestamp" (lit "2026-04-09T10:00:02Z"); field "level" (lit "error");
    field "msg" (lit "boom")]].

Section client_example.
Context `{Zlib} {W : Type} `{Net W}.
(** [&str] as an address. *)
Context (resolve : string → Addr) (to_vec : value → string + bytes).

Definition client_example : ClientBuilder :=
  set_ack_timeout (from_secs 30) (set_compression_level 3 client_builder).

(** [main]: its result and what it printed, from what the awaited calls of [send] returned, and
    [close]; [None] when [send] still waits. *)
Definition client_main (args : list string) (w : W) (inputs : list client_input)
    (closed : outcome Error unit) : option (outcome Error unit * list string) :=
  match (connect client_example (resolve (addr_arg args)) w).1 with
  | Err e => Some (Err e, [])
  | Panic p => Some (Panic p, [])
  | Ok (_, _, client) =>
      match Task.run (send_resume client) (send_start to_vec client_events) inputs with
      | Some (Returned (Ok acked)) => Some (closed, ["acked " +:+ pretty acked +:+ " events"])
      | Some (Returned (Err e)) => Some (Err e, [])
      | Some (Returned (Panic p)) => Some (Panic p, [])
      | _ => None
      end
  end.
End client_example.

(** ** examples/server.rs *)

Section server_example.
Context {TlsAcceptor : Type}.

Definition server_example : ServerBuilder TlsAcceptor :=
  set_channel_capacity 256 (set_keepalive (from_secs 15) server_builder).

(** [main] up to its loop: the server, after printing its address.  [show] is [Display] of an
    address. *)
Section server_start.
Context {W : Type} `{Listen W} (listen_addr : string → ListenAddr) (show : SocketAddr → string).

Definition server_start (args : list string) : M (W * list string) Error Server := λ '(w, out),
  match bind server_example (listen_addr (addr_arg args)) w with
  | (Ok server, w') =>
      (Ok server, (w', out ++ ["listening on " +:+ show (server_local_addr server)]))
  | (Err e, w') => (Err e, (w', out))
  | (Panic p, w') => (Panic p, (w', out))
  end.
End server_start.

(** One turn of [while let Some(batch) = server.recv().await]: the batch is printed (the events
    as their bytes, without the replacement of what is not UTF-8) and acknowledged.  [None]: [recv] waits, or the loop ends. *)
Definition server_turn (w : world) : option (list bytes * world) :=
  match server_recv w with
  | Some (Some (id, batch), w') =>
      Some (lit ("got batch of " +:+ pretty (batch_len batch) +:+ " events:") ::
              ((λ ev, lit "  " ++ ev) <$> batch_events batch),
            set_acks (settle ByAck (id, batch) (acks w')) (set_batches (queue w') (held w) w'))
  | _ => None
  end.
End server_example.

(** ** What they do *)

Section minimal.
Context `{Zlib} {W : Type} `{Net W} (resolve : string → Addr) (to_vec : value → string + bytes).

(** The client ends well only after an acknowledgement of its three events. *)
Theorem client_main_acked args w inputs closed out :
  client_main resolve to_vec args w inputs closed = Some (Ok tt, out) →
  out = ["acked 3 events"%string] ∧ closed = Ok tt.
Proof.
  unfold client_main. destruct (connect _ _ w).1 as [[[s c] client]|e|p]; [|done..].
  destruct (Task.run _ _ inputs) as [st|] eqn:Hrun; [|done].
  destruct (run_exec _ _ _ _ Hrun) as (t & Hx & _).
  destruct st as [| | | | |[r|e|p]]; try done. intros [= -> <-]. split; [|done].
  assert (Hr : r = 3); [|by rewrite Hr].
  revert Hx. unfold send_start. change (len client_events =? 0) with false. cbn iota.
  destruct (encode_events to_vec 0 client_events []) as [[[]|e|p] payload]; intros Hx.
  - by apply (exec_acked client _ _ 3) in Hx as [-> _].
  - by apply exec_returned in Hx as [? _].
  - by apply exec_returned in Hx as [? _].
Qed.

(** A turn of the server's loop receives a batch and acknowledges it. *)
Theorem server_turn_steps {TlsAcceptor} (b : ServerBuilder TlsAcceptor) w out w' :
  shutdown_sent w = false → server_turn w = Some (out, w') →
  Task.run (server_step b) w [Recv; Dispose (length (held w)) ByAck] = Some w' ∧
  ∃ p, head (queue w) = Some p ∧ queue w = p :: queue w' ∧ held w' = held w ∧
    len out = 1 + batch_len p.2.
Proof.
  unfold server_turn, server_recv. intros Hsd. destruct (queue w) as [|[id batch] q] eqn:Hq.
  { by destruct (_ && _). }
  intros [= <- <-]. split.
  - cbn [Task.run server_step]. rewrite Hsd. unfold server_recv. rewrite Hq. cbn.
    rewrite list_lookup_middle by done. cbn. by rewrite delete_middle, app_nil_r.
  - exists (id, batch). split; [done|]. split; [done|]. split; [done|].
    rewrite len_cons. unfold len, batch_len, len. by rewrite length_fmap.
Qed.

(** The server starts whenever the address can be bound; it never panics. *)
Theorem server_starts {TlsAcceptor} `{Listen W, !ListenOk W} listen_addr show args w listener w1
    local w2 out :
  tcp_bind (listen_addr (addr_arg args)) w = (Ok listener, w1) →
  listener_addr listener w1 = (Ok local, w2) →
  ∃ w3, server_start (TlsAcceptor := TlsAcceptor) listen_addr show args (w, out) =
    (Ok (MkServer local world_start), (w3, out ++ ["listening on " +:+ show local])).
Proof.
  intros Hb Hl. unfold server_start.
  destruct (bind_result (server_example (TlsAcceptor := TlsAcceptor)) _ _ _ _ _ _ Hb Hl ltac:(done))
    as (r & w3 & -> & Hr). simpl in Hr. subst r. by exists w3.
Qed.
End minimal.

(** ** Examples *)

(** An encoder that keeps the order of the fields. *)
#[export] Instance render_json_ok : JsonOk (λ v, inr (render v)).
Proof. intros v _. by exists v. Qed.
