(* ===== verification/Baseline.v ===== *)
(** * Baseline: the throughput harness (src/examples/baseline.rs)

    Its command line, its synthetic events, [getrusage] as durations, the reading of /proc, the
    loop of its clients, the floating-point rates and the report, and [main], which puts them
    together.  Printing is the list of the lines printed.  What the operating system and the
    clock give ([rusage], the measured time, the text of /proc/self/status) are arguments. *)

From Stdlib Require Import Strings.String Floats.SpecFloat.
From stdpp Require Import gmap.
From S2P Require Import Prelude Errors Zlib Frame Codec Task Batch Connection Client Connect Server.
From S2P Require Import System Network UnitTests Examples.

(** ** The command line *)

Record Args : Type := MkArgs { clients : Z; duration : Z; event_size : Z; batch : Z }.

#[export] Instance Args_eq_dec : EqDecision Args.
Proof. solve_decision. Defined.

(** [str::parse] to an unsigned integer of [bits] bits: an optional plus sign and decimal
    digits, at least one, without overflow. *)
Definition digit_value (b : byte) : option Z :=
  if (48 <=? u8 b) && (u8 b <=? 57) then Some (u8 b - 48) else None.

Fixpoint parse_digits (bits : Z) (acc : Z) (l : bytes) : option Z :=
  match l with
  | [] => Some acc
  | b :: l' =>
      d ← digit_value b;
      let acc' := acc * 10 + d in
      if acc' <? 2 ^ bits then parse_digits bits acc' l' else None
  end.

Definition parse_uint (bits : Z) (s : bytes) : option Z :=
  match s with
  | [] => None
  | b :: l =>
      if bool_decide (b = "+"%byte)
      then match l with [] => None | _ => parse_digits bits 0 l end
      else parse_digits bits 0 s
  end.

Definition args_default : Args := MkArgs 1 (from_secs 10) 250 128.

(** The assignment that a flag makes, if it is one of the four. *)
Definition set_arg (flag : string) : option (Z → Args → Args) :=
  if String.eqb flag "--clients" then Some (λ n a, MkArgs n (duration a) (event_size a) (batch a))
  else if String.eqb flag "--duration"
  then Some (λ n a, MkArgs (clients a) (from_secs n) (event_size a) (batch a))
  else if String.eqb flag "--event-size"
  then Some (λ n a, MkArgs (clients a) (duration a) n (batch a))
  else if String.eqb flag "--batch"
  then Some (λ n a, MkArgs (clients a) (duration a) (event_size a) n)
  else None.

(** [while let Some(a) = args.next()]; the error is the code of [exit]. *)
Fixpoint parse_args (args : list string) (a : Args) : outcome Z Args :=
  match args with
  | [] => Ok a
  | flag :: args' =>
      match set_arg flag with
      | Some set =>
          match args' with
          | v :: args'' =>
              match parse_uint 64 (lit v) with
              | Some n => parse_args args'' (set n a)
              | None => Panic "called `Result::unwrap()` on an `Err` value"
              end
          | [] => Panic "called `Option::unwrap()` on a `None` value"
          end
      | None =>
          if String.eqb flag "--help" || String.eqb flag "-h" then Err 0
          else Panic ("unknown arg: " +:+ flag)
      end
  end.

(** [Args::parse]: the first argument is the program. *)
Definition args_parse (args : list string) : outcome Z Args :=
  parse_args (drop 1 args) args_default.

(** ** The events *)

Definition skeleton : value :=
  [field "timestamp" (lit "2026-04-09T08:30:00Z"); field "level" (lit "info");
   field "host" (lit "server-01"); field "msg" []].

Definition make_event (target_size : Z) : value :=
  let pad := Z.max 0 (target_size - len (render skeleton)) in
  [field "timestamp" (lit "2026-04-09T08:30:00Z"); field "level" (lit "info");
   field "host" (lit "server-01"); field "msg" (replicate (Z.to_nat pad) "x"%byte)].

(** The batch every client sends, and the size of its first event ([None]: a panic, as for an
    empty batch). *)
Definition baseline_batch (args : Args) : list value :=
  replicate (Z.to_nat (batch args)) (make_event (event_size args)).

Definition serialized_event_bytes (to_vec : value → string + bytes) (args : Args) : option Z :=
  ev ← head (baseline_batch args);
  match to_vec ev with
  | inr data => Some (len data)
  | inl _ => None
  end.

(** ** The peak of the memory, from /proc/self/status (as ASCII text) *)

Definition whitespace (b : byte) : bool :=
  bool_decide (b ∈ [x20; x09; x0a; x0b; x0c; x0d]).

(** [str::lines]: the line ends are ["\n"] and ["\r\n"]. *)
Definition strip_cr (l : bytes) : bytes :=
  if bool_decide (last l = Some x0d) then take (length l - 1) l else l.

Fixpoint split_lines (cur : bytes) (l : bytes) : list bytes :=
  match l with
  | [] => match cur with [] => [] | _ => [cur] end
  | b :: l' =>
      if bool_decide (b = x0a) then strip_cr cur :: split_lines [] l'
      else split_lines (cur ++ [b]) l'
  end.

Fixpoint strip_prefix (p l : bytes) : option bytes :=
  match p, l with
  | [], _ => Some l
  | b :: p', b' :: l' => if bool_decide (b = b') then strip_prefix p' l' else None
  | _, [] => None
  end.

(** [trim().split_whitespace().next()] *)
Fixpoint first_word (l : bytes) : option bytes :=
  match l with
  | [] => None
  | b :: l' =>
      if whitespace b then first_word l'
      else Some (b :: (fix word l := match l with
                                     | [] => []
                                     | b :: l' => if whitespace b then [] else b :: word l'
                                     end) l')
  end.

Fixpoint peak_of_lines (ls : list bytes) : Z :=
  match ls with
  | [] => 0
  | line :: ls' =>
      match strip_prefix (lit "VmHWM:") line with
      | Some rest => default 0 (first_word rest ≫= parse_uint 64)
      | None => peak_of_lines ls'
      end
  end.

(** [None]: the file cannot be read as text. *)
Definition peak_rss_kib (status : option bytes) : Z :=
  peak_of_lines (split_lines [] (default [] status)).

(** ** Durations and the time of the processor *)

(** A [Duration] is its nanoseconds; its seconds are a [u64]. *)
Definition NANOS_PER_SEC : Z := 1000000000.

Definition duration_fits (d : Z) : bool := d <? 2 ^ 64 * NANOS_PER_SEC.

(** [Duration::new], [+] and [-] *)
Definition duration_new {E} (secs nanos : Z) : outcome E Z :=
  let d := secs * NANOS_PER_SEC + nanos in
  if duration_fits d then Ok d else Panic "overflow in Duration::new".

Definition duration_add {E} (d d' : Z) : outcome E Z :=
  if duration_fits (d + d') then Ok (d + d') else Panic "overflow when adding durations".

Definition duration_sub {E} (d d' : Z) : outcome E Z :=
  if d' <=? d then Ok (d - d') else Panic "overflow when subtracting durations".

(** [libc::rusage]: the times in seconds and microseconds, signed. *)
Record rusage : Type := Rusage {
  utime_sec : Z; utime_usec : Z;
  stime_sec : Z; stime_usec : Z;
}.

(** On Unix.  [as] wraps; so does the product in a release build. *)
Definition cpu_time {S E} (ru : rusage) : M S E Z :=
  user ← lift (duration_new (wrap64 (utime_sec ru)) (wrap32 (wrap32 (utime_usec ru) * 1000)));
  sys ← lift (duration_new (wrap64 (stime_sec ru)) (wrap32 (wrap32 (stime_usec ru) * 1000)));
  lift (duration_add user sys).

(** ** Floating-point rates *)

(** [f64]: the operations round to the nearest, ties to even. *)
Abbreviation f64 := spec_float.

Definition f64_of (z : Z) : f64 := binary_normalize 53 1024 z 0 false.
Definition f64_add : f64 → f64 → f64 := SFadd 53 1024.
Definition f64_mul : f64 → f64 → f64 := SFmul 53 1024.
Definition f64_div : f64 → f64 → f64 := SFdiv 53 1024.

(** [Duration::as_secs_f64] *)
Definition as_secs_f64 (d : Z) : f64 :=
  f64_add (f64_of (d / NANOS_PER_SEC)) (f64_div (f64_of (d mod NANOS_PER_SEC)) (f64_of NANOS_PER_SEC)).

(** The quotient rounded to an integer, ties to even. *)
Definition round_div (n d : Z) : Z :=
  let q := n / d in
  match 2 * (n mod d) ?= d with
  | Lt => q
  | Gt => q + 1
  | Eq => if Z.even q then q else q + 1
  end.

(** Decimal digits, padded with zeros to [k] of them. *)
Fixpoint digits (k : nat) (z : Z) : string :=
  match k with
  | O => ""
  | S k' => digits k' (z / 10) +:+ pretty (z mod 10)
  end.

(** ["{:.k}"]: the exact value, rounded to [k] decimals. *)
Definition fixed (k : nat) (x : f64) : string :=
  let p := 10 ^ Z.of_nat k in
  let sign (s : bool) := if s then "-" else "" in
  let decimal z :=
    pretty (z / p) +:+ match k with O => "" | _ => "." +:+ digits k (z mod p) end in
  match x with
  | S754_zero s => sign s +:+ decimal 0
  | S754_infinity s => sign s +:+ "inf"
  | S754_nan => "NaN"
  | S754_finite s m e =>
      sign s +:+ decimal (if 0 <=? e then Z.pos m * 2 ^ e * p
                          else round_div (Z.pos m * p) (2 ^ (- e)))
  end.

(** ** The clients and the report *)

Definition baseline_server {A} : ServerBuilder A :=
  set_channel_capacity 2048 (no_keepalive server_builder).

Definition baseline_client `{Connect.Net W} : ClientBuilder :=
  set_ack_timeout (from_secs 30) (set_compression_level 0 client_builder).

(** The two counters, [AtomicU64]. *)
Record totals : Type := Totals { total_events : Z; total_batches : Z }.

(** One turn of the loop of a client, after [send] returned [r]: the counters, and whether the
    client goes on. *)
Definition client_turn (batch : list value) (r : outcome Error Z) (t : totals) : totals * bool :=
  match r with
  | Ok _ => (Totals (wrap64 (total_events t + len batch)) (wrap64 (total_batches t + 1)), true)
  | _ => (t, false)
  end.

(** Successive turns. *)
Definition client_turns (batch : list value) (rs : list (outcome Error Z)) (t : totals) : totals :=
  foldl (λ t r, (client_turn batch r t).1) t rs.

(** The counts of the report: [events] is what was sent in the measured time, from the counters
    when it starts and when it ends. *)
Definition report (start stop : totals) : Z * Z :=
  (wrap64 (total_events stop - total_events start), total_batches stop).

(** The task of a client: before each turn it looks at the flag, [stop.load()]. *)
Inductive client_end : Type :=
| Looping
| Stopped
| Failed (e : Error)   (* after printing it *)
| Died (p : string).   (* the task panicked *)

Fixpoint client_task (batch : list value) (turns : list (bool * outcome Error Z)) (t : totals) :
    totals * client_end :=
  match turns with
  | [] => (t, Looping)
  | (true, _) :: _ => (t, Stopped)
  | (false, r) :: turns' =>
      let '(t', go) := client_turn batch r t in
      if go then client_task batch turns' t'
      else (t', match r with Ok _ => Looping | Err e => Failed e | Panic p => Died p end)
  end.

(** What is measured between the two looks at the clock. *)
Record measurement : Type := Measured {
  m_start : totals;              (* the counters, and the times of the processor *)
  m_stop : totals;
  m_cpu_start : rusage;
  m_cpu_stop : rusage;
  m_wall : Z;                    (* [wall_start.elapsed()] *)
  m_status : option bytes;       (* /proc/self/status *)
}.

(** The report. *)
Definition report_lines (args : Args) (event_bytes cpu : Z) (m : measurement) : list string :=
  let '(events, batches) := report (m_start m) (m_stop m) in
  let secs := as_secs_f64 (m_wall m) in
  let eps := f64_div (f64_of events) secs in
  let mbps := f64_div (f64_div (f64_mul (f64_of events) (f64_of event_bytes)) secs)
                (f64_of 1048576) in
  let cpu_pct := f64_mul (f64_div (as_secs_f64 cpu) secs) (f64_of 100) in
  let rss_mib := f64_div (f64_of (peak_rss_kib (m_status m))) (f64_of 1024) in
  ["---";
   "clients         : " +:+ pretty (clients args);
   "duration_s      : " +:+ fixed 3 secs;
   "event_bytes     : " +:+ pretty event_bytes;
   "batch_size      : " +:+ pretty (batch args);
   "total_events    : " +:+ pretty events;
   "total_batches   : " +:+ pretty batches;
   "events_per_sec  : " +:+ fixed 0 eps;
   "payload_MiB_per_s: " +:+ fixed 2 mbps;
   "cpu_total_pct   : " +:+ fixed 1 cpu_pct;
   "peak_rss_MiB    : " +:+ fixed 1 rss_mib].

(** *** [main] *)

(** What is printed, on the two outputs. *)
Record output : Type := Output { stdout : list string; stderr : list string }.

(** [{args:?}]; the duration is a number of whole seconds. *)
Definition debug_duration (d : Z) : string :=
  if d =? 0 then "0ns" else pretty (d / NANOS_PER_SEC) +:+ "s".

Definition debug_args (a : Args) : string :=
  "Args { clients: " +:+ pretty (clients a) +:+ ", duration: " +:+
  debug_duration (duration a) +:+ ", event_size: " +:+ pretty (event_size a) +:+
  ", batch: " +:+ pretty (batch a) +:+ " }".

(** What [main] has printed when it starts the server. *)
Definition stderr_only (o : output) (args : Args) (event_bytes : Z) : output :=
  Output (stdout o) ((stderr o ++ ["baseline: " +:+ debug_args args]) ++
    ["event JSON size: " +:+ pretty event_bytes +:+ " bytes"]).

Section baseline_main.
Context {W : Type} `{Connect.Net W, Listen W}.
Context (to_vec : value → string + bytes).
(** The addresses as the two ends take them. *)
Context (listen_addr : string → ListenAddr) (connect_addr : SocketAddr → Addr).

Abbreviation IO := (M (W * output) Z).

Definition eprintln (line : string) : IO unit := λ '(w, o),
  (Ok tt, (w, Output (stdout o) (stderr o ++ [line]))).
Definition println_all (ls : list string) : IO unit := λ '(w, o),
  (Ok tt, (w, Output (stdout o ++ ls) (stderr o))).

(** [.unwrap()] of a call on the network. *)
Definition unwrapped {A} (m : M W Error A) : IO A := λ '(w, o),
  match m w with
  | (Ok a, w') => (Ok a, (w', o))
  | (Err _, w') => (Panic "called `Result::unwrap()` on an `Err` value", (w', o))
  | (Panic p, w') => (Panic p, (w', o))
  end.

(** [for _ in 0..args.clients] *)
Fixpoint connect_clients (n : nat) (addr : Addr) : IO (list Client) :=
  match n with
  | O => mret []
  | S n' =>
      c ← unwrapped (connect baseline_client addr);
      cs ← connect_clients n' addr;
      mret (c.2 :: cs)
  end.

(** The clients that are spawned run against the server as in Network.v; what comes of it is
    [m]. *)
Definition baseline_main (argv : list string) (m : measurement) : IO unit :=
  args ← lift (args_parse argv);
  eprintln ("baseline: " +:+ debug_args args);;
  event_bytes ← match serialized_event_bytes to_vec args with
                | Some n => mret n
                | None => panic "index out of bounds: the len is 0 but the index is 0"
                end;
  eprintln ("event JSON size: " +:+ pretty event_bytes +:+ " bytes");;
  server ← unwrapped (bind (TlsAcceptor := unit) baseline_server (listen_addr "127.0.0.1:0"));
  _ ← connect_clients (Z.to_nat (clients args)) (connect_addr (server_addr server));
  cpu_start ← cpu_time (m_cpu_start m);
  cpu_stop ← cpu_time (m_cpu_stop m);
  cpu ← lift (duration_sub cpu_stop cpu_start);
  println_all (report_lines args event_bytes cpu m).
End baseline_main.

(** ** What they do *)

Section baseline.

(** Options are taken in order, so the last one of a kind wins, over the defaults; every other
    argument, and a missing or bad value, ends the program. *)
Theorem args_parse_options prog opts :
  Forall (λ o : string * string * (Args → Args), ∃ set n,
    set_arg o.1.1 = Some set ∧ parse_uint 64 (lit o.1.2) = Some n ∧ o.2 = set n) opts →
  args_parse (prog :: mjoin ((λ o, [o.1.1; o.1.2]) <$> opts)) =
    Ok (foldl (λ a o, o.2 a) args_default opts).
Proof.
  intros Hopts. unfold args_parse. simpl drop. generalize args_default.
  induction Hopts as [|[[flag v] f] opts (set & n & Hset & Hn & Hf) _ IH]; intros a; [done|].
  simpl in *. rewrite Hset, Hn, IH. by rewrite Hf.
Qed.

(** The value of decimal digits. *)
Definition value_of (l : bytes) : Z := foldl (λ a b, a * 10 + (u8 b - 48)) 0 l.

Lemma parse_digits_value bits acc l :
  Forall (λ b, 48 <= u8 b <= 57) l → 0 <= acc → 0 <= bits →
  let v := foldl (λ a b, a * 10 + (u8 b - 48)) acc l in
  parse_digits bits acc l = if (v <? 2 ^ bits) || bool_decide (l = []) then Some v else None.
Proof.
  intros Hl. revert acc. induction Hl as [|b l Hb Hl IH]; intros acc Hacc Hbits v.
  - by rewrite orb_true_r.
  - cbn [parse_digits]. unfold digit_value.
    rewrite (proj2 (Z.leb_le _ _)), (proj2 (Z.leb_le _ _)) by lia. cbn [andb mbind option_bind].
    set (acc' := acc * 10 + (u8 b - 48)). assert (0 <= acc') by (unfold acc'; lia).
    rewrite orb_false_r.
    assert (Hv : acc' <= v).
    { unfold v. cbn [foldl]. fold acc'. clearbody acc'. clear -Hl H. revert acc' H.
      induction Hl as [|b' l Hb' Hl IH]; intros a Ha; simpl; [lia|].
      specialize (IH (a * 10 + (u8 b' - 48)) ltac:(lia)). lia. }
    destruct (Z.ltb_spec acc' (2 ^ bits)).
    + rewrite IH by done. change (foldl _ acc' l) with v.
      destruct (decide (l = [])) as [->|Hne].
      * rewrite bool_decide_true, orb_true_r by done. change v with acc'.
        by rewrite (proj2 (Z.ltb_lt _ _)).
      * by rewrite bool_decide_false, orb_false_r.
    + by rewrite (proj2 (Z.ltb_ge _ _)) by lia.
Qed.

(** A number is read as its value, unless it needs more bits. *)
Theorem parse_uint_value bits l :
  l ≠ [] → Forall (λ b, 48 <= u8 b <= 57) l → 0 <= bits →
  parse_uint bits l = (if value_of l <? 2 ^ bits then Some (value_of l) else None) ∧
  parse_uint bits ("+"%byte :: l) = parse_uint bits l.
Proof.
  intros Hne Hl Hbits. destruct l as [|b l]; [done|].
  assert (Hb : b ≠ "+"%byte).
  { intros ->. apply Forall_cons in Hl as [Hb _]. by vm_compute in Hb; destruct Hb. }
  unfold parse_uint. rewrite (bool_decide_false (b = _)), bool_decide_true by done.
  rewrite parse_digits_value by (done || lia). by rewrite bool_decide_false, orb_false_r by done.
Qed.

Definition fields_size (v : value) : Z := foldr (λ f n, len (render_field f) + n) 0 v.

Lemma render_len v : len (render v) = 2 + fields_size v + Z.max 0 (len v - 1).
Proof.
  unfold render. rewrite !len_app. change (len [x7b]) with 1. change (len [x7d]) with 1.
  enough (len (render_fields v) = fields_size v + Z.max 0 (len v - 1)) by lia.
  induction v as [|f v IH]; [done|]. rewrite len_cons. pose proof (len_nonneg v).
  change (fields_size (f :: v)) with (len (render_field f) + fields_size v).
  destruct v as [|g v].
  { change (render_fields [f]) with (render_field f). change (fields_size []) with 0.
    change (len (@nil (bytes * bytes))) with 0. lia. }
  change (render_fields (f :: g :: v)) with (render_field f ++ [x2c] ++ render_fields (g :: v)).
  rewrite !len_app, IH. change (len [x2c]) with 1. rewrite len_cons in *.
  pose proof (len_nonneg v). lia.
Qed.

(** The order of the fields does not matter. *)
#[local] Instance fields_size_perm : Proper (Permutation ==> eq) fields_size.
Proof. unfold fields_size. intros v v'. induction 1; simpl; lia. Qed.

Lemma render_len_perm v v' : v ≡ₚ v' → len (render v) = len (render v').
Proof. intros Hp. rewrite !render_len. unfold len. by rewrite Hp. Qed.

Lemma render_field_len k v : len (render_field (field k v)) = 5 + len (lit k) + len v.
Proof. unfold render_field, field. cbn [fst snd]. len_lia. Qed.

(** The size of an event on the wire: what was asked for, or that of the skeleton. *)
Theorem make_event_size to_vec `{!JsonOk to_vec} target :
  ∃ bs, to_vec (make_event target) = inr bs ∧ len bs = Z.max target (len (render skeleton)).
Proof.
  set (pad := Z.max 0 (target - len (render skeleton))).
  destruct (json_ok (make_event target)) as (v & Hv & ->).
  { unfold make_event. fold pad. repeat (apply Forall_cons; split); try done; simpl.
    all: try (repeat (apply Forall_cons; split); try done; by apply Forall_nil).
    repeat (apply Forall_cons; split); try done. by apply Forall_replicate. }
  exists (render v). split; [done|]. rewrite (render_len_perm _ _ Hv), !render_len.
  unfold make_event. fold pad. change (len (_ :: _)) with 4. unfold fields_size, skeleton in *.
  cbn [foldr]. rewrite !render_field_len.
  replace (len (replicate (Z.to_nat pad) "x"%byte)) with pad
    by (unfold len; rewrite length_replicate; lia).
  unfold pad. rewrite render_len. unfold fields_size. cbn [foldr]. rewrite !render_field_len.
  change (len [_; _; _; _]) with 4. change (len (@nil byte)) with 0. lia.
Qed.

(** The program gets over its first lines exactly when the batch is not empty. *)
Corollary serialized_event_bytes_size to_vec `{!JsonOk to_vec} args :
  serialized_event_bytes to_vec args =
    if 0 <? batch args then Some (Z.max (event_size args) (len (render skeleton))) else None.
Proof.
  unfold serialized_event_bytes, baseline_batch. destruct (Z.ltb_spec 0 (batch args)) as [Hb|Hb].
  - destruct (Z.to_nat (batch args)) eqn:Hn; [lia|]. simpl.
    by destruct (make_event_size to_vec (event_size args)) as (bs & -> & ->).
  - by rewrite Z2Nat.nonpos.
Qed.

(** The report mixes two intervals: its events are those of the measured time, its batches also
    those of the warm-up before it. *)
Theorem report_counts batch warmup measured :
  Forall (λ r, ∃ n, r = Ok n) (warmup ++ measured) →
  len batch * len (warmup ++ measured) < 2 ^ 64 → len (warmup ++ measured) < 2 ^ 64 →
  let start := client_turns batch warmup (Totals 0 0) in
  let stop := client_turns batch measured start in
  report start stop = (len batch * len measured, len warmup + len measured).
Proof.
  intros Hok Hev Hba. pose proof (len_nonneg batch).
  assert (Hturns : ∀ rs e n, Forall (λ r : outcome Error Z, ∃ n, r = Ok n) rs → 0 <= e → 0 <= n →
    e + len batch * len rs < 2 ^ 64 → n + len rs < 2 ^ 64 →
    client_turns batch rs (Totals e n) = Totals (e + len batch * len rs) (n + len rs)).
  { clear -H. induction rs as [|r rs IH]; intros e n Hrs He Hn Hle Hln.
    - unfold client_turns. simpl. rewrite len_nil. f_equal; lia.
    - apply Forall_cons in Hrs as [[m ->] Hrs]. rewrite len_cons in *. pose proof (len_nonneg rs).
      change (client_turns batch (Ok m :: rs) (Totals e n)) with
        (client_turns batch rs (Totals (wrap64 (e + len batch)) (wrap64 (n + 1)))).
      unfold wrap64. rewrite !Z.mod_small by nia. rewrite IH by (done || nia). f_equal; lia. }
  apply Forall_app in Hok as [Hw Hm]. rewrite len_app in *.
  pose proof (len_nonneg warmup). pose proof (len_nonneg measured).
  cbv zeta. rewrite (Hturns warmup) by (done || nia). rewrite (Hturns measured) by (done || nia).
  unfold report, wrap64. cbn [total_events total_batches].
  rewrite Z.mod_small by nia. f_equal; lia.
Qed.
(** What a client counts is what was acknowledged: a turn of its loop adds the size of the batch,
    and one batch, when its [send] returned [Ok]; the first one that does not ends the loop, and so
    does the flag, before another [send]. *)
Theorem client_task_counts batch oks rest t :
  0 <= total_events t → 0 <= total_batches t →
  total_events t + len batch * len oks < 2 ^ 64 → total_batches t + len oks < 2 ^ 64 →
  let t' := Totals (total_events t + len batch * len oks) (total_batches t + len oks) in
  client_task batch ((λ n, (false, Ok n)) <$> oks) t = (t', Looping) ∧
  (∀ r, client_task batch (((λ n, (false, Ok n)) <$> oks) ++ (true, r) :: rest) t = (t', Stopped)) ∧
  (∀ e, client_task batch (((λ n, (false, Ok n)) <$> oks) ++ (false, Err e) :: rest) t =
     (t', Failed e)).
Proof.
  revert t. pose proof (len_nonneg batch) as Hb.
  induction oks as [|n oks IH]; intros [ev ba]; cbn [total_events total_batches].
  - intros _ _ _ _. replace (Totals (ev + len batch * len []) (ba + len [])) with (Totals ev ba)
      by (rewrite len_nil; f_equal; lia). done.
  - rewrite len_cons. pose proof (len_nonneg oks). intros He Hba Hle Hln.
    rewrite fmap_cons. cbn [app client_task client_turn total_events total_batches].
    unfold wrap64. rewrite !Z.mod_small by nia.
    destruct (IH (Totals (ev + len batch) (ba + 1))) as (H1 & H2 & H3); cbn [total_events total_batches] in *; [lia..|nia|lia|].
    replace (ev + len batch * (1 + len oks)) with (ev + len batch + len batch * len oks) by lia.
    replace (ba + (1 + len oks)) with (ba + 1 + len oks) by lia. done.
Qed.

(** The time of the processor, for what the system call documents. *)
Theorem cpu_time_value {S E} ru (s : S) :
  0 <= utime_sec ru < 2 ^ 62 → 0 <= stime_sec ru < 2 ^ 62 →
  0 <= utime_usec ru < 1000000 → 0 <= stime_usec ru < 1000000 →
  cpu_time (E := E) ru s =
    (Ok ((utime_sec ru + stime_sec ru) * NANOS_PER_SEC + (utime_usec ru + stime_usec ru) * 1000), s).
Proof.
  intros H1 H2 H3 H4. unfold cpu_time, duration_new, duration_add, duration_fits, NANOS_PER_SEC.
  rewrite !(wrap32_small (utime_usec ru)), !(wrap32_small (stime_usec ru)) by (unfold u32; lia).
  rewrite !wrap32_small by (unfold u32; lia). unfold wrap64. rewrite !Z.mod_small by lia.
  rewrite (proj2 (Z.ltb_lt _ _)) by lia. rewrite (proj2 (Z.ltb_lt _ _)) by lia.
  unfold mbind, M_bind, lift. rewrite (proj2 (Z.ltb_lt _ _)) by lia. do 2 f_equal. lia.
Qed.

(** The rounding of the printed rates is to the nearest decimal. *)
Theorem round_div_nearest n d : 0 < d → 2 * Z.abs (n - d * round_div n d) <= d.
Proof.
  intros Hd. unfold round_div. pose proof (Z.div_mod n d ltac:(lia)) as Hn.
  pose proof (Z.mod_pos_bound n d Hd) as Hm.
  destruct (Z.compare_spec (2 * (n mod d)) d) as [Hc|Hc|Hc]; [destruct (Z.even _)|..]; nia.
Qed.

(** *** [main] *)

Section main.
Context {W : Type} `{Connect.Net W, Listen W} (to_vec : value → string + bytes).

Lemma unwrapped_ok {A} (m : M W Error A) w o a w' o' :
  unwrapped m (w, o) = (Ok a, (w', o')) → m w = (Ok a, w') ∧ o' = o.
Proof. unfold unwrapped. destruct (m w) as [[|e|p] w1]; by intros [= <- <- <-]. Qed.

Lemma cpu_time_output {E S} ru (s s' : S) t : cpu_time (E := E) ru s = (Ok t, s') → s' = s.
Proof.
  unfold cpu_time. intros (user & s1 & H1 & H2)%bind_ok_inv.
  apply bind_ok_inv in H2 as (sys & s2 & H2 & H3).
  injection H1 as _ <-. injection H2 as _ <-. by injection H3.
Qed.

(** Every client that [main] connects has these settings. *)
Lemma connect_clients_ok n addr w o cs w' o' :
  connect_clients n addr (w, o) = (Ok cs, (w', o')) →
  o' = o ∧ length cs = n ∧ Forall (λ c, c = MkClient 0 None (Some (from_secs 30))) cs.
Proof.
  revert w cs. induction n as [|n IH]; intros w cs; simpl; [by intros [= <- <- <-]|].
  intros ([[s codec] c] & [w1 o1] & Hc & Hcs)%bind_ok_inv.
  apply unwrapped_ok in Hc as [Hc ->].
  apply bind_ok_inv in Hcs as (cs' & [w2 o2] & Hcs & [= <- <- <-]).
  destruct (IH _ _ Hcs) as (-> & <- & Hall).
  apply connect_configuration in Hc as (_ & _ & -> & _). by repeat constructor.
Qed.

(** [main] reports only when everything before it went well: the arguments were read, the batch is
    not empty, the address was bound and every client connected with the settings above; the
    report is then that of the measurement. *)
Theorem baseline_main_reports listen_addr connect_addr argv m w o w' o' :
  baseline_main to_vec listen_addr connect_addr argv m (w, o) = (Ok tt, (w', o')) →
  ∃ args n cpu server w1 w2 cs,
    args_parse argv = Ok args ∧ serialized_event_bytes to_vec args = Some n ∧ 0 < batch args ∧
    bind (TlsAcceptor := unit) baseline_server (listen_addr "127.0.0.1:0") w = (Ok server, w1) ∧
    connect_clients (Z.to_nat (clients args)) (connect_addr (server_addr server)) (w1, stderr_only o args n) =
      (Ok cs, (w2, stderr_only o args n)) ∧
    stdout o' = stdout o ++ report_lines args n cpu m.
Proof.
  unfold baseline_main. intros (args & [wa oa] & Hargs & Hm)%bind_ok_inv.
  injection Hargs as Hargs <- <-.
  apply bind_ok_inv in Hm as ([] & [wb ob] & Hb & Hm). injection Hb as <- <-.
  apply bind_ok_inv in Hm as (n & [wc oc] & Hn & Hm).
  destruct (serialized_event_bytes to_vec args) as [n'|] eqn:Hs; [|done]. injection Hn as -> <- <-.
  apply bind_ok_inv in Hm as ([] & [wd od] & Hd & Hm). injection Hd as <- <-.
  apply bind_ok_inv in Hm as (server & [w1 o1] & Hserver & Hm). apply unwrapped_ok in Hserver as [Hserver ->].
  apply bind_ok_inv in Hm as (cs & [w2 o2] & Hcs & Hm).
  pose proof (connect_clients_ok _ _ _ _ _ _ _ Hcs) as (-> & _).
  apply bind_ok_inv in Hm as (c1 & s1 & H1 & Hm). apply cpu_time_output in H1 as ->.
  apply bind_ok_inv in Hm as (c2 & s2 & H2 & Hm). apply cpu_time_output in H2 as ->.
  apply bind_ok_inv in Hm as (cpu & s3 & H3 & Hm). injection H3 as _ <-. injection Hm as <- <-.
  exists args, n, cpu, server, w1, w2, cs. split; [done|]. split; [done|]. split; [|done].
  unfold serialized_event_bytes, baseline_batch in Hs.
  destruct (Z.to_nat (batch args)) eqn:Hbatch; [done|lia].
Qed.
End main.

(** The batches of the harness are accepted by its server, so that Network.v and Service.v apply to
    it: unless an event is larger than the limit of a frame, or there are too many. *)
Theorem baseline_accepted `{Zlib} to_vec `{!JsonOk to_vec} args :
  0 < batch args < 2 ^ 32 → event_size args <= DEFAULT_MAX_FRAME_SIZE →
  ∃ d, batch_accepted to_vec (baseline_server (A := unit)) (MkClient 0 None (Some (from_secs 30)))
    (baseline_batch args) d.
Proof.
  intros Hb Hs. destruct (make_event_size to_vec (event_size args)) as (bs & Hbs & Hlen).
  set (n := Z.to_nat (batch args)). exists (replicate n bs).
  assert (Hn : len (replicate n bs) = batch args) by (unfold len; rewrite length_replicate; lia).
  assert (Hsize : len bs <= DEFAULT_MAX_FRAME_SIZE).
  { rewrite Hlen. apply Z.max_lub; [done|]. by vm_compute. }
  split.
  - split.
    + unfold baseline_batch. fold n. clear -Hbs. unfold serialized.
      induction n as [|n IH]; simpl; by constructor.
    + by rewrite Hn.
    + intros _. by apply Forall_replicate.
  - split; [by rewrite Hn|]. apply Forall_replicate. split; [done|].
    eapply Z.le_lt_trans; [exact Hsize|done].
  - done.
Qed.
End baseline.

(** ** Examples *)

Definition sample_args : list string :=
  ["baseline"; "--clients"; "4"; "--batch"; "64"; "--clients"; "+8"]%string.

Example sample_args_parsed : args_parse sample_args = Ok (MkArgs 8 (from_secs 10) 250 64).
Proof. vm_compute. reflexivity. Qed.

Example help_exits : args_parse ["baseline"; "--batch"; "1"; "-h"; "--bogus"]%string = Err 0.
Proof. vm_compute. reflexivity. Qed.

Definition sample_status : bytes :=
  lit "Name: baseline" ++ [x0a] ++ lit "VmHWM:" ++ [x09] ++ lit " 20480 kB" ++ [x0a] ++
  lit "VmRSS: 1 kB".

Example sample_peak : peak_rss_kib (Some sample_status) = 20480 ∧ peak_rss_kib None = 0.
Proof. split; vm_compute; reflexivity. Qed.

(** What the harness prints for the default arguments and a run of ten seconds. *)
Definition sample_measurement : measurement :=
  Measured (Totals 12800 100) (Totals 1292928 10101) (Rusage 0 400000 0 100000)
    (Rusage 11 900000 1 350000) 10000123456 (Some sample_status).

Example sample_report :
  report_lines args_default 250 12750000000 sample_measurement =
    ["---"; "clients         : 1"; "duration_s      : 10.000"; "event_bytes     : 250";
     "batch_size      : 128"; "total_events    : 1280128"; "total_batches   : 10101";
     "events_per_sec  : 128011"; "payload_MiB_per_s: 30.52"; "cpu_total_pct   : 127.5";
     "peak_rss_MiB    : 20.0"]%string.
Proof. vm_compute. reflexivity. Qed.

(** Ties go to the even digit, and dividing by an empty interval is not an error. *)
Example fixed_samples :
  fixed 0 (f64_div (f64_of 5) (f64_of 2)) = "2"%string ∧
  fixed 1 (f64_div (f64_of 3) (f64_of 4)) = "0.8"%string ∧
  fixed 3 (as_secs_f64 1234567890) = "1.235"%string ∧
  fixed 2 (f64_div (f64_of 7) (f64_of 0)) = "inf"%string ∧
  fixed 2 (f64_div (f64_of 0) (f64_of 0)) = "NaN"%string.
Proof. vm_compute. done. Qed.
